(* ===== verification/_CoqProject ===== *)
-Q . S2P
Prelude.v
GoStrings.v
GoErrors.v
QmpTypes.v
Effects.v
Flags.v
Qmp.v
Netip.v
MigConfig.v
Exec.v
Tunnel.v
PodResolve.v
Filepath.v
Cmdline.v
DestSpawn.v
Source.v
SourceSpec.v
CmdlineFetch.v
Dest.v
DestSpec.v
OrchTypes.v
OrchValidate.v
OrchArgs.v
OrchApply.v
Clients.v
Prom.v
Cli.v
OrchRun.v
Admission.v
Reconciler.v
Controller.v
Factory.v
FactoryProc.v
Shim.v
ShimProc.v
Dashboard.v
DashMigrate.v
DashNet.v
DashHttp.v
Daemons.v
Leader.v
Metrics.v
