(* ===== verification/Prelude.v ===== *)
(** * katamaran: a verification development

    katamaran live-migrates a Kata Containers VM between two Kubernetes nodes.
    This library models its Go code, as pure functions, state-passing programs and
    step relations, and proves what each part promises.

    ** The program

    - The _katamaran_ binary runs once on each node (internal/katamaran/cli.go).
      On the source, [RunSource] mirrors the disks, migrates RAM over QMP and
      redirects traffic through a tunnel; on the destination, [RunDestination]
      holds back the guest's packets, waits for RESUME and takes over.  Both drive
      QEMU through the client of internal/qmp.  With a replayed command line the
      destination starts a QEMU from the command line captured on the source.
    - The native orchestrator (internal/orchestrator) turns a Request into a source
      and a destination Job, follows them and emits status updates.
    - Its clients are the controller of the Migration resource
      (internal/controller, run by cmd/katamaran-mgr), the dashboard
      (internal/dashboard) and the command cmd/katamaran-orchestrator.
    - After a migration the VM is handed over: the factory (internal/factory,
      cmd/katamaran-factory) serves its metadata to Kata, the containerd shim
      (cmd/containerd-shim-katamaran-adopted-v2) presents the running QEMU as a
      task, and the admission policy keeps the workload's controller from
      creating a replacement pod meanwhile.

    ** Files and code

    Shared: this prelude (tactics, hint databases, list and integer lemmas);
    GoStrings, GoErrors, Netip, Filepath and Flags model what the sources use of
    the Go library; Prom is the Prometheus text format, as a printer and a reader;
    Effects is the monad of the two binaries.

    - QmpTypes, Qmp: internal/qmp/types.go and client.go.
    - MigConfig, Exec, Tunnel, PodResolve, Cmdline and DestSpawn, CmdlineFetch:
      config.go and validation.go, exec.go, tunnel.go, podresolve.go, destspawn.go
      (pure and effectful part) and cmdlinefetch.go of internal/migration.
    - Source and SourceSpec, Dest and DestSpec: source.go and dest.go, and the
      theorems on every run of [RunSource] and [RunDestination].
    - OrchTypes, OrchValidate, OrchArgs, OrchApply, OrchRun: internal/orchestrator:
      the data; validation.go; native_jobs.go, the templates and the log markers;
      Apply, Resume, Stop and Watch; the goroutines of a run.
    - Clients: the constructors of native.go and discovery_native.go, and
      cmd/katamaran-mgr/kubeconfig.go, over a model of client-go.
    - Cli: internal/katamaran/cli.go and internal/logging.
    - Admission, Reconciler, Controller: internal/controller: admission.go; one
      dispatch; recovery, the tracking map and the reconcile loop.
    - Factory (modules Cache, Watch, Sandbox): internal/factory/server.go and
      watcher.go, cmd/katamaran-factory/sandbox_config.go; FactoryProc: the
      process of cmd/katamaran-factory/main.go with its goroutines.
    - Shim: the task service of cmd/containerd-shim-katamaran-adopted-v2/main.go;
      ShimProc: its start, delete and server processes on a node.
    - Dashboard (state and cursors), DashMigrate (types.go, migrate.go,
      response.go), DashNet (validation.go, loadgen.go), DashHttp (server.go,
      middleware.go, the counters of metrics.go): internal/dashboard.
    - Daemons: discovery.go and discovery_native.go of internal/orchestrator,
      cmd/katamaran-mgr, cmd/katamaran-orchestrator, and the command line of
      cmd/katamaran-factory; Leader: the replicas of the manager, their leader
      callbacks and the webhook Service.
    - Metrics: the pages of metrics.go and of cmd/katamaran-mgr/debug.go, and the
      expvar registry.

    A struct is a Record with the fields the code uses, a method a function that
    takes and returns it; names are those of the source.  A long function is cut
    where its defers or critical sections are, and each piece is named after what
    it does.

    ** How the outside is represented

    The migration binaries are programs over an [Env] that answers every request
    by its number, so that a theorem over all environments covers every behaviour
    of QEMU, the kernel, the API server and the clock.  The orchestrator and the
    controller use environments of their own for the API server.  Where goroutines
    or processes share state (the update channel in OrchRun, the tracking map in
    Controller, the task service in Shim, its processes in ShimProc, the
    dashboard's workers in DashMigrate, the factory in FactoryProc, the manager's
    replicas in Leader) a step is what one of them does between two points where
    it can be interrupted, and the theorems are by induction over all
    interleavings.  Library code that is not
    modelled is a parameter: JSON and YAML decoders, client-go, media types,
    url.Parse, the order of a map iteration, strconv.IsPrint ([Unicode]),
    floating-point numbers ([FloatFraction], [Floats]), the text of an error
    ([ErrorText]), DNS, the port table.

    ** What is proved

    - QMP: no byte is lost over timeouts, Execute returns the reply, events are
      queued in order and only the oldest beyond the bound of the queue are dropped.
    - Source: RAM migration starts only after all mirrors are ready, the tunnel
      comes after STOP, mirrors are cancelled and a created tunnel is deleted on
      every path, success is reported only on a completed status or an unbroken
      stall, the downtime limit is right up to 64-bit wrap-around, the RTT
      measurement ends.
    - Destination: packets are held back before the wait for RESUME and released on
      every return, the NBD server is stopped.
    - Capture and replay: the command-line file, the pod-log markers and the pod
      references round-trip; the rewriting equals an option-by-option
      specification; a replay runs nothing but two ip commands, virtiofsd and the
      configured QEMU and copies no file outside Kata's roots.
    - Orchestrator: for accepted requests the shell commands of the Jobs hold
      exactly the intended words; Apply is all-or-nothing; Resume is idempotent;
      the outcome is that of the Jobs or the end of the context; the update stream
      is well-formed under every interleaving.
    - Command line: for accepted requests the binaries parse the Jobs' commands
      back into exactly the requested configuration.
    - Controller and admission: a dispatch reports a terminal status and is counted
      once, or its panic is recovered; a Migration has one worker, recovery is
      bounded, the reconcile loop survives errors and panics and starts the workers
      that are missing, replacements are denied for exactly the window that the last
      mark opened, and after an orderly hand-over they are denied by the leader
      alone.
    - Factory: the cache refines a mailbox specification, the watcher offers each
      metadata file once, and over every interleaving a process gives each VM away
      once, never loses all configuration, and exits with 0 only when told to stop.
    - Shim: no Wait is lost or woken twice and every Wait returns; Create adopts
      only the QEMU of the named sandbox; start, if no call fails, leads to a server
      on the printed address, which no other process has.
    - Metrics: a scrape reads back as the counts of the events that happened, and
      as the progress of the running migrations; /debug/vars follows the last App.
    - Set-up: the manager's clients, orchestrator and discoverer use one
      configuration, and the pod wait comes from the request, the environment or
      the flag.
    - Dashboard: the status cursors refine a log that the client follows without
      gaps or duplicates; a refused request changes nothing and gets the code of its
      cause; every migration is counted once, and logged and reported as the
      orchestrator's updates say;
      probes connect to allowed addresses only; state changes are same-origin;
      the API's 405 replies agree with its routes; requests are metered once.
    - Together: for every closed run of the native orchestrator the dashboard and
      the orchestrator command report success only if the destination Job was
      seen complete, the dashboard in its final state; the webhook fails open; the leader's CA-bundle patch is
      idempotent.
    - Some theorems establish defects (an uncancelled first mirror, the STOP wait
      that ignores its deadline, shifted replies after a late greeting, a success
      overwritten by a late update, two workers after a re-creation, rejected
      source commands, overlapping Shutdowns, an unconfined sandbox annotation, a
      shim server that only Shutdown ends, an endpoint left behind by a crashed
      leader, a VM handed out again after a restart, a pod wait that wraps, a delay
      that Validate accepts and the binary does not).

    ** Bounds and fuel

    Loops whose exit depends on the outside take fuel and yield [Spin] when it runs
    out.  Safety theorems hold for every amount.  Where a result is claimed, the
    theorem says which fuel is enough: the length of the input for parsers, the
    number of events on the connection for Execute, the attempts the code allows
    for retries, and the number of ticks to a deadline for waits.  Go ints are Z;
    wrap-around is written out where a value can reach it ([wrap64], the
    durations of Flags, the percentage of the dashboard), and counters that grow
    by one per event are unbounded.  The finite enumerations in proofs are over
    bytes and hexadecimal digits.

    ** Simplifications

    Error messages keep the text of their format string without the values.
    ToLower maps ASCII letters.  Printed times are instants.  A call that never
    returns, or a channel that is never closed, is a goroutine that makes no further
    step; the theorems on a single run of the dashboard's worker and of a dispatch
    are about runs whose calls return or panic and whose channel is closed.  A call
    of dispatch or of the API server that panics or fails has had no effect.

    ** Not modelled

    Log records and usage texts; JSON encoding of replies; cryptography, TLS, the
    HTTP, gRPC and ttrpc servers and leader election, which are library code (the
    callbacks, handlers and shutdown around them are modelled); signal handling
    and the mains of cmd/dashboard and cmd/katamaran; the shim's calls that only
    return an empty reply; generated code (cachepb), the static page and the QMP
    test server.

    What could follow: url.Parse in place of its parameter, the debug routes of the
    manager, and a model of the API server shared by the orchestrator, the
    controller and the replicas. *)
From stdpp Require Export base tactics list gmap strings pretty.
From Stdlib Require Export Lia ZArith.

Global Set Warnings "-notation-overridden".
#[global] Open Scope Z_scope.

(** ** Hint databases

    [go_len] rewrites list lengths, [go_wp] holds the weakest-precondition
    rules of the effect monad (file Effects), [go_lib] the lemmas on lists,
    options and integers that the components share. *)
#[export] Set Warnings "-implicit-create-rewrite-hint-db".
Create HintDb go_lib discriminated.

#[export] Hint Rewrite @length_app @length_drop @length_take @length_fmap
  @length_replicate @length_insert @length_reverse : go_len.

(** ** Tactics *)

(** Splits every conjunction and existential of the context. *)
Ltac split_hyps :=
  repeat match goal with
  | H : _ ∧ _ |- _ => destruct H
  | H : ∃ _, _ |- _ => destruct H
  end.

(** Case analysis on the scrutinee of the first [match] or [if] of the goal,
    keeping the equation. *)
Ltac case_goal :=
  match goal with
  | |- context [match ?x with _ => _ end] =>
      lazymatch x with
      | context [match _ with _ => _ end] => fail
      | _ => destruct x eqn:?
      end
  end.

(** The same in a hypothesis. *)
Ltac case_hyp H :=
  match type of H with
  | context [match ?x with _ => _ end] =>
      lazymatch x with
      | context [match _ with _ => _ end] => fail
      | _ => destruct x eqn:?
      end
  end.

Ltac len := autorewrite with go_len in *; simpl in *; try lia.

(** ** Lists *)

Section lists.
Context {A : Type}.
Implicit Types l : list A.

(** [last_n n l] keeps the last [n] elements: what a bounded buffer that drops
    its oldest entries retains. *)
Definition last_n (n : nat) (l : list A) : list A := drop (length l - n) l.

Lemma last_n_length n l : (length (last_n n l) ≤ n)%nat.
Proof. unfold last_n. len. Qed.

Lemma last_n_all n l : (length l ≤ n)%nat → last_n n l = l.
Proof. intros. unfold last_n. by replace (length l - n)%nat with 0%nat by lia. Qed.

Lemma last_n_suffix n l : ∃ k, l = k ++ last_n n l.
Proof. exists (take (length l - n) l). symmetry. apply take_drop. Qed.

Lemma last_n_app n l k : last_n n (last_n n l ++ k) = last_n n (l ++ k).
Proof.
  unfold last_n. rewrite !length_app, length_drop.
  destruct (decide (length l ≤ n)%nat).
  - replace (length l - n)%nat with 0%nat by lia. rewrite drop_0. f_equal. lia.
  - destruct (decide (length k ≤ n)%nat).
    + rewrite !drop_app_le by (rewrite ?length_drop; lia). f_equal.
      rewrite drop_drop. f_equal. lia.
    + rewrite !drop_app_ge by (rewrite ?length_drop; lia). f_equal.
      rewrite length_drop. lia.
Qed.

(** Deleting the head of a full buffer before appending is the same as keeping
    the last [n] of the whole history. *)
Lemma last_n_push n l x :
  (0 < n)%nat → length l = n → last_n n (l ++ [x]) = drop 1 l ++ [x].
Proof.
  intros Hn Hl. unfold last_n. len.
  replace (length l + 1 - n)%nat with 1%nat by lia.
  rewrite drop_app_le by lia. done.
Qed.

Lemma last_n_drop_length n l : drop (length l - n) l = last_n n l.
Proof. done. Qed.

End lists.

(** Replacing one element of a flattened list. *)
Lemma bind_insert {A B : Type} (h : A → list B) (l : list A) (k : nat) (x y : A) :
  l !! k = Some x → ∃ rest, l ≫= h ≡ₚ h x ++ rest ∧ <[k := y]> l ≫= h ≡ₚ h y ++ rest.
Proof.
  intros Hk. exists ((take k l ≫= h) ++ (drop (S k) l ≫= h)). split.
  - rewrite <- (take_drop_middle l k x Hk) at 1. rewrite bind_app. simpl. solve_Permutation.
  - rewrite insert_take_drop by (by eapply lookup_lt_Some). rewrite bind_app. simpl. solve_Permutation.
Qed.

(** ** Partial maps over lists *)

Lemma omap_nil_iff {A B} (f : A → option B) l : omap f l = [] ↔ Forall (fun x => f x = None) l.
Proof.
  induction l as [|x l IH]; [by split|]. rewrite Forall_cons. simpl.
  destruct (f x); naive_solver.
Qed.

Lemma omap_Forall_ext {A B C} (f : A → option C) (h : A → B) (g : B → option C) l :
  Forall (fun x => f x = g (h x)) l → omap f l = omap g (map h l).
Proof. induction 1 as [|x l Hx _ IH]; [done|]. simpl. rewrite Hx. destruct (g (h x)); [f_equal|]; exact IH. Qed.

(** Exactly one element is mapped. *)
Lemma omap_singleton_iff {A B} (f : A → option B) l y :
  omap f l = [y] ↔
  ∃ pre x post, l = pre ++ x :: post ∧ f x = Some y ∧ Forall (fun x => f x = None) (pre ++ post).
Proof.
  split.
  - induction l as [|x l IH]; [done|]. simpl. destruct (f x) as [z|] eqn:Hx.
    + intros [= -> Hl]. exists [], x, l. by rewrite <- omap_nil_iff.
    + intros (pre & x' & post & -> & Hf & Hn)%IH. exists (x :: pre), x', post.
      split_and!; [done..|]. by constructor.
  - intros (pre & x & post & -> & Hf & [Hpre Hpost]%Forall_app).
    apply omap_nil_iff in Hpre, Hpost. rewrite omap_app, Hpre. simpl. rewrite Hf. by f_equal.
Qed.

(** ** Machine integers *)

(** Two's complement wrap-around of a 64-bit [int]. *)
Definition wrap64 (z : Z) : Z := (z + 2 ^ 63) mod 2 ^ 64 - 2 ^ 63.

Lemma wrap64_over z : 2 ^ 63 ≤ z < 2 ^ 63 + 2 ^ 64 → wrap64 z = z - 2 ^ 64.
Proof.
  intros H. unfold wrap64. assert (Hm : (z + 2 ^ 63) mod 2 ^ 64 = z + 2 ^ 63 - 2 ^ 64); [|lia].
  symmetry. apply (Z.mod_unique _ _ 1); lia.
Qed.

Lemma wrap64_id z : - 2 ^ 63 ≤ z < 2 ^ 63 → wrap64 z = z.
Proof. intros H. unfold wrap64. rewrite Z.mod_small; lia. Qed.

(** [time.Duration]s are in nanoseconds. *)
Definition second : Z := 1000000000.
Definition minute : Z := 60 * second.
Definition hour : Z := 60 * minute.

#[export] Hint Resolve last_n_length last_n_all : go_lib.
