(* ===== verification/GoStrings.v ===== *)
(** * Go byte strings

    The functions of Go's [strings], [bytes] and [strconv] packages that the
    sources call, on Rocq's [string] (a Go string is a byte string).  White
    space is the ASCII white space of [unicode.IsSpace]. *)
From S2P Require Import Prelude.
From Stdlib Require Export Ascii String.
From stdpp Require Export strings.

#[global] Open Scope Z_scope.

#[local] Open Scope nat_scope.
#[global] Arguments String.append !_ _ : simpl nomatch.

Definition slen (s : string) : Z := Z.of_nat (String.length s).

(** ** Characters *)

Definition in_range (lo hi c : ascii) : bool :=
  (N.leb (N_of_ascii lo) (N_of_ascii c) && N.leb (N_of_ascii c) (N_of_ascii hi))%bool.

Definition is_lower (c : ascii) : bool := in_range "a" "z" c.
Definition is_upper (c : ascii) : bool := in_range "A" "Z" c.
Definition is_digit (c : ascii) : bool := in_range "0" "9" c.
Definition is_alnum (c : ascii) : bool := is_lower c || is_upper c || is_digit c.

Definition is_space (c : ascii) : bool :=
  match N_of_ascii c with
  | 9 | 10 | 11 | 12 | 13 | 32 => true
  | _ => false
  end%N.

Definition char_in (c : ascii) (set : string) : bool :=
  (fix go s := match s with
               | EmptyString => false
               | String d s => Ascii.eqb c d || go s
               end) set.

Fixpoint forallb_str (p : ascii → bool) (s : string) : bool :=
  match s with
  | EmptyString => true
  | String c s => p c && forallb_str p s
  end.

(** ** Slicing *)

Fixpoint stake (n : nat) (s : string) : string :=
  match n, s with
  | S n, String c s => String c (stake n s)
  | _, _ => EmptyString
  end.

Fixpoint sdrop (n : nat) (s : string) : string :=
  match n, s with
  | S n, String _ s => sdrop n s
  | _, s => s
  end.

(** ** Searching *)

Fixpoint HasPrefix (s p : string) : bool :=
  match p, s with
  | EmptyString, _ => true
  | String a p, String b s => Ascii.eqb a b && HasPrefix s p
  | _, _ => false
  end.

(** [strings.Index]: position of the first occurrence. *)
Fixpoint Index (s sub : string) : option nat :=
  if HasPrefix s sub then Some 0
  else match s with
       | EmptyString => None
       | String _ s => S <$> Index s sub
       end.

Definition Contains (s sub : string) : bool :=
  match Index s sub with Some _ => true | None => false end.

Fixpoint IndexFunc (f : ascii → bool) (s : string) : option nat :=
  match s with
  | EmptyString => None
  | String c s => if f c then Some 0 else S <$> IndexFunc f s
  end.

Definition IndexByte (s : string) (c : ascii) : option nat := IndexFunc (Ascii.eqb c) s.
Definition IndexAny (s set : string) : option nat := IndexFunc (fun c => char_in c set) s.

Definition HasSuffix (s p : string) : bool :=
  (String.length p <=? String.length s) &&
  (sdrop (String.length s - String.length p) s =? p)%string.

(** ** Splitting and joining *)

(** [strings.Split] with a one-byte separator. *)
Fixpoint Split (sep : ascii) (s : string) : list string :=
  match s with
  | EmptyString => [EmptyString]
  | String c s =>
      if Ascii.eqb c sep then EmptyString :: Split sep s
      else match Split sep s with
           | [] => [String c EmptyString]
           | w :: ws => String c w :: ws
           end
  end.

Fixpoint Join (sep : string) (l : list string) : string :=
  match l with
  | [] => EmptyString
  | [w] => w
  | w :: ws => w +:+ sep +:+ Join sep ws
  end.

(** [strings.Fields]: maximal runs of non-space bytes. *)
Fixpoint fields_aux (cur : string) (s : string) : list string :=
  match s with
  | EmptyString => if (cur =? "")%string then [] else [cur]
  | String c s =>
      if is_space c
      then (if (cur =? "")%string then fields_aux "" s else cur :: fields_aux "" s)
      else fields_aux (cur +:+ String c EmptyString) s
  end.

Definition Fields (s : string) : list string := fields_aux "" s.

Fixpoint trim_left (f : ascii → bool) (s : string) : string :=
  match s with
  | String c s' => if f c then trim_left f s' else s
  | EmptyString => EmptyString
  end.

Fixpoint TrimRightFunc (f : ascii → bool) (s : string) : string :=
  match s with
  | EmptyString => EmptyString
  | String c s =>
      match TrimRightFunc f s with
      | EmptyString => if f c then EmptyString else String c EmptyString
      | r => String c r
      end
  end.

Definition TrimSpace (s : string) : string := trim_left is_space (TrimRightFunc is_space s).
Definition TrimRight (s set : string) : string := TrimRightFunc (fun c => char_in c set) s.

(** [strings.ReplaceAll] for a non-empty [old]: leftmost, non-overlapping. *)
Fixpoint replace_fuel (fuel : nat) (s old new : string) : string :=
  match fuel with
  | O => s
  | S fuel =>
      match s with
      | EmptyString => EmptyString
      | String c s' =>
          if HasPrefix s old
          then new +:+ replace_fuel fuel (sdrop (String.length old) s) old new
          else String c (replace_fuel fuel s' old new)
      end
  end.

Definition ReplaceAll (s old new : string) : string :=
  replace_fuel (S (String.length s)) s old new.

Definition lower_char (c : ascii) : ascii :=
  if is_upper c then ascii_of_N (N_of_ascii c + 32) else c.

Fixpoint ToLower (s : string) : string :=
  match s with
  | EmptyString => EmptyString
  | String c s => String (lower_char c) (ToLower s)
  end.

(** ** Numbers *)

(** [strconv.Itoa] and the [%d] verb. *)
Definition Itoa (z : Z) : string := pretty z.

Fixpoint digits_acc (acc : Z) (s : string) : option Z :=
  match s with
  | EmptyString => Some acc
  | String c s =>
      if is_digit c
      then digits_acc (acc * 10 + Z.of_N (N_of_ascii c - 48))%Z s
      else None
  end.

Definition parse_uint (s : string) : option Z :=
  match s with EmptyString => None | _ => digits_acc 0 s end.

Definition max_int64 : Z := 9223372036854775807.
Definition min_int64 : Z := -9223372036854775808.

(** [strconv.ParseInt(s, 10, 64)]: the value and whether an error is returned;
    the value is clamped on a range error and zero on a syntax error. *)
Definition ParseInt (s : string) : Z * bool :=
  let signed := match s with
                | String "-" r => (-1, r)%Z
                | String "+" r => (1, r)%Z
                | _ => (1, s)%Z
                end in
  match parse_uint signed.2 with
  | None => (0, true)%Z
  | Some n =>
      let v := (signed.1 * n)%Z in
      if (max_int64 <? v)%Z then (max_int64, true)
      else if (v <? min_int64)%Z then (min_int64, true)
      else (v, false)
  end.

(** [strconv.Atoi] on a 64-bit platform: [None] when an error is returned. *)
Definition Atoi (s : string) : option Z :=
  let (v, bad) := ParseInt s in if bad then None else Some v.

(** ** Lemmas *)

Lemma string_app_nil_r s : s +:+ "" = s.
Proof. induction s as [|c s IH]; [done|]. simpl. by rewrite IH. Qed.

Lemma string_app_assoc a b c : a +:+ b +:+ c = (a +:+ b) +:+ c.
Proof. induction a as [|x a IH]; [done|]. simpl. by rewrite IH. Qed.

Lemma string_app_length a b :
  String.length (a +:+ b) = String.length a + String.length b.
Proof. induction a; simpl; lia. Qed.

Lemma stake_sdrop n s : stake n s +:+ sdrop n s = s.
Proof. revert s; induction n; intros [|c s]; simpl; [done..|]. by rewrite IHn. Qed.

Lemma stake_app n a b : String.length a = n → stake n (a +:+ b) = a.
Proof. intros <-. induction a as [|c a IH]; [by destruct b|]. simpl. by rewrite IH. Qed.

Lemma sdrop_app n a b : String.length a = n → sdrop n (a +:+ b) = b.
Proof. intros <-. induction a as [|c a IH]; [by destruct b|done]. Qed.

Lemma stake_length n s : String.length (stake n s) <= n.
Proof. revert s; induction n; intros [|c s]; simpl; try lia. specialize (IHn s). lia. Qed.

Lemma forallb_str_app p a b :
  forallb_str p (a +:+ b) = forallb_str p a && forallb_str p b.
Proof. induction a; simpl; [done|]. by rewrite IHa, andb_assoc. Qed.

Lemma forallb_str_mono (p q : ascii → bool) s :
  (∀ c, p c = true → q c = true) → forallb_str p s = true → forallb_str q s = true.
Proof.
  intros Hpq. induction s; simpl; [done|].
  rewrite !andb_true_iff. intros [? ?]; split; auto.
Qed.

Lemma forallb_str_stake p n s : forallb_str p s = true → forallb_str p (stake n s) = true.
Proof.
  revert s; induction n; intros [|c s]; simpl; try done.
  rewrite !andb_true_iff. intros [? ?]; split; auto.
Qed.

Lemma HasPrefix_spec s p : HasPrefix s p = true ↔ ∃ r, s = p +:+ r.
Proof.
  revert s; induction p as [|a p IH]; intros s; simpl.
  - split; [eauto|]. by destruct s.
  - destruct s as [|b s]; simpl; [split; [done|intros (r & ?); done]|].
    rewrite andb_true_iff, Ascii.eqb_eq, IH.
    split; [intros [-> [r ->]]; eauto|intros (r & [= -> ->]); eauto].
Qed.

Lemma HasPrefix_refl s r : HasPrefix (s +:+ r) s = true.
Proof. apply HasPrefix_spec. eauto. Qed.

(** [Index] finds an occurrence, and the first one. *)
Lemma Index_Some s sub n :
  Index s sub = Some n → s = stake n s +:+ sub +:+ sdrop (n + String.length sub) s.
Proof.
  revert n; induction s as [|c s IH]; intros n; cbn [Index].
  - destruct sub; simpl; [|done]. by intros [= <-].
  - destruct (HasPrefix (String c s) sub) eqn:Hp.
    + intros [= <-]. apply HasPrefix_spec in Hp as [r Hr]. cbn [stake Nat.add].
      rewrite Hr, sdrop_app by done. done.
    + destruct (Index s sub) as [m|] eqn:Hi; simpl; [|done]. intros [= <-].
      simpl. f_equal. by apply IH.
Qed.

Lemma Index_app_prefix a sub b : is_Some (Index (a +:+ sub +:+ b) sub).
Proof.
  induction a as [|c a IH].
  - simpl. destruct (sub +:+ b) eqn:E; cbn [Index]; rewrite <- E, HasPrefix_refl; by eexists.
  - cbn [String.append Index]. case_match; [by eexists|]. destruct IH as [n ->]. by eexists.
Qed.

Lemma Contains_spec s sub : Contains s sub = true ↔ ∃ a b, s = a +:+ sub +:+ b.
Proof.
  unfold Contains. split.
  - destruct (Index s sub) eqn:E; [|done]. intros _. apply Index_Some in E. eauto.
  - intros (a & b & ->). by destruct (Index_app_prefix a sub b) as [n ->].
Qed.

Lemma Split_nonempty sep s : Split sep s ≠ [].
Proof. destruct s; simpl; [done|]. case_match; [done|]. by case_match. Qed.

(** Splitting on a byte and joining with it gives the string back. *)
Lemma Join_Split sep s : Join (String sep "") (Split sep s) = s.
Proof.
  induction s as [|c s IH]; simpl; [done|].
  destruct (Ascii.eqb c sep) eqn:E.
  - apply Ascii.eqb_eq in E as ->. destruct (Split sep s) eqn:Es.
    + by apply Split_nonempty in Es.
    + cbn [Join]. rewrite <- IH. done.
  - destruct (Split sep s) eqn:Es; [by apply Split_nonempty in Es|].
    rewrite <- IH. destruct l; done.
Qed.

Definition no_char (sep : ascii) (s : string) : bool :=
  forallb_str (fun c => negb (Ascii.eqb c sep)) s.

Lemma Split_no_sep sep w : no_char sep w = true → Split sep w = [w].
Proof.
  unfold no_char. induction w as [|c w IH]; simpl; [done|].
  rewrite andb_true_iff, negb_true_iff. intros [-> Hw]. by rewrite IH.
Qed.

Lemma Split_app sep w r :
  no_char sep w = true → Split sep (w +:+ String sep r) = w :: Split sep r.
Proof.
  unfold no_char. induction w as [|c w IH]; simpl.
  - intros _. by rewrite Ascii.eqb_refl.
  - rewrite andb_true_iff, negb_true_iff. intros [-> Hw]. by rewrite IH.
Qed.

(** Joining words that do not contain the separator and splitting gives the
    words back. *)
Lemma Split_Join sep ws :
  ws ≠ [] → Forall (fun w => no_char sep w = true) ws →
  Split sep (Join (String sep "") ws) = ws.
Proof.
  intros Hne Hall. induction Hall as [|w ws Hw Hws IH]; [done|].
  destruct ws as [|w' ws]; [by apply Split_no_sep|].
  change (Join (String sep "") (w :: w' :: ws)) with (w +:+ String sep (Join (String sep "") (w' :: ws))).
  rewrite Split_app by done. by rewrite IH.
Qed.

Lemma Split_pieces_no_sep sep s : Forall (fun w => no_char sep w = true) (Split sep s).
Proof.
  unfold no_char. induction s as [|c s IH]; simpl; [by repeat constructor|].
  destruct (Ascii.eqb c sep) eqn:E; [by constructor|].
  destruct (Split sep s); [by apply Forall_singleton; simpl; rewrite E|].
  inversion_clear IH. constructor; [|done]. simpl. by rewrite E.
Qed.

(** A word: non-empty, no white space. *)
Definition is_word (w : string) : bool :=
  negb (w =? "")%string && forallb_str (fun c => negb (is_space c)) w.

Lemma fields_aux_word cur w r :
  forallb_str (fun c => negb (is_space c)) w = true →
  fields_aux cur (w +:+ r) = fields_aux (cur +:+ w) r.
Proof.
  revert cur; induction w as [|c w IH]; intros cur; simpl.
  - by rewrite string_app_nil_r.
  - rewrite andb_true_iff, negb_true_iff. intros [-> Hw].
    rewrite IH by done. by rewrite <- string_app_assoc.
Qed.

(** [strings.Fields] inverts [strings.Join(_, " ")] on words. *)
Lemma Fields_Join ws :
  Forall (fun w => is_word w = true) ws → Fields (Join " " ws) = ws.
Proof.
  unfold Fields, is_word. induction 1 as [|w ws Hw Hws IH]; [done|].
  apply andb_true_iff in Hw as [Hne Hsp]. apply negb_true_iff in Hne.
  destruct ws as [|w' ws].
  - simpl. rewrite <- (string_app_nil_r w) at 1. rewrite fields_aux_word by done.
    simpl. by rewrite Hne.
  - change (Join " " (w :: w' :: ws)) with (w +:+ " " +:+ Join " " (w' :: ws)).
    rewrite fields_aux_word by done. cbn [String.append fields_aux is_space N_of_ascii].
    simpl (fields_aux w (" " +:+ _)). cbn. rewrite Hne. f_equal. apply IH.
Qed.

Lemma in_range_spec lo hi c :
  in_range lo hi c = true ↔
  (N_of_ascii lo ≤ N_of_ascii c)%N ∧ (N_of_ascii c ≤ N_of_ascii hi)%N.
Proof. unfold in_range. by rewrite andb_true_iff, !N.leb_le. Qed.

#[export] Hint Resolve HasPrefix_refl Split_nonempty Split_pieces_no_sep forallb_str_stake : go_lib.

(** ** Decimal numbers *)

Lemma pretty_N_char_digit n : (n < 10)%N → is_digit (pretty_N_char n) = true.
Proof.
  intros. assert (n = 0 ∨ n = 1 ∨ n = 2 ∨ n = 3 ∨ n = 4 ∨ n = 5 ∨ n = 6 ∨ n = 7 ∨ n = 8 ∨ n = 9)%N
    by lia. by destruct_or!; subst.
Qed.

Lemma pretty_N_go_digits x s :
  forallb_str is_digit s = true → forallb_str is_digit (pretty_N_go x s) = true.
Proof.
  revert s. induction (N.lt_wf_0 x) as [x _ IH]; intros s Hs.
  destruct (decide (x = 0)%N) as [->|]; [by rewrite pretty_N_go_0|].
  rewrite pretty_N_go_step by lia. apply IH; [apply N.div_lt; lia|].
  simpl. by rewrite pretty_N_char_digit by (apply N.mod_lt; lia).
Qed.

(** The decimal form of a non-negative number is made of digits. *)
Lemma Itoa_digits z : (0 <= z)%Z → forallb_str is_digit (Itoa z) = true.
Proof.
  intros Hz. unfold Itoa, pretty, pretty_Z. destruct z as [|p|p]; [done| |lia].
  apply (pretty_N_go_digits (Npos p) "" eq_refl).
Qed.

Lemma pretty_N_char_val n : (n < 10)%N → (N_of_ascii (pretty_N_char n) - 48)%N = n.
Proof.
  intros. assert (n = 0 ∨ n = 1 ∨ n = 2 ∨ n = 3 ∨ n = 4 ∨ n = 5 ∨ n = 6 ∨ n = 7 ∨ n = 8 ∨ n = 9)%N
    by lia. by destruct_or!; subst.
Qed.

(** Reading back the digits of a number. *)
Lemma digits_acc_pretty x s : digits_acc 0 (pretty_N_go x s) = digits_acc (Z.of_N x) s.
Proof.
  revert s. induction (N.lt_wf_0 x) as [x _ IH]; intros s.
  destruct (decide (x = 0)%N) as [->|]; [by rewrite pretty_N_go_0|].
  assert (Hm : (x `mod` 10 < 10)%N) by (apply N.mod_lt; lia).
  rewrite pretty_N_go_step, IH by (try apply N.div_lt; lia). cbn [digits_acc].
  rewrite pretty_N_char_digit, pretty_N_char_val by done. f_equal.
  pose proof (N.div_mod x 10). lia.
Qed.

Lemma pretty_N_go_head x s :
  (0 < x)%N → ∃ c r, pretty_N_go x s = String c r ∧ is_digit c = true ∧ c ≠ "0"%char.
Proof.
  revert s. induction (N.lt_wf_0 x) as [x _ IH]; intros s Hx.
  assert (Hm : (x `mod` 10 < 10)%N) by (apply N.mod_lt; lia).
  rewrite pretty_N_go_step by done. destruct (decide (x `div` 10 = 0)%N) as [E|].
  - rewrite E, pretty_N_go_0. eexists _, _. split_and!; [done|by apply pretty_N_char_digit|].
    pose proof (N.div_mod x 10 ltac:(lia)) as Hdm. intros Hc. apply (f_equal N_of_ascii) in Hc.
    pose proof (pretty_N_char_val _ Hm) as Hv. rewrite Hc in Hv. change (N_of_ascii "0" - 48)%N with 0%N in Hv. lia.
  - apply IH; [by apply N.div_lt|by apply N.neq_0_lt_0].
Qed.

Lemma parse_uint_digits c r : is_digit c = true → parse_uint (String c r) = digits_acc 0 (String c r).
Proof. done. Qed.

Lemma ParseInt_unsigned c r n :
  is_digit c = true → digits_acc 0 (String c r) = Some n → (0 <= n <= max_int64)%Z →
  ParseInt (String c r) = (n, false).
Proof.
  intros Hc Hd Hn. unfold ParseInt.
  replace (match String c r with String "-" r0 => ((-1)%Z, r0) | String "+" r0 => (1%Z, r0) | _ => (1%Z, String c r) end)
    with (1%Z, String c r).
  - cbn [fst snd]. rewrite parse_uint_digits, Hd by done.
    rewrite Z.mul_1_l. unfold max_int64, min_int64 in *.
    do 2 (case_match; [lia|]). done.
  - destruct c as [[] [] [] [] [] [] [] []]; try reflexivity; by vm_compute in Hc.
Qed.

(** [strconv.ParseInt] inverts the [%d] verb. *)
Lemma ParseInt_Itoa z : (min_int64 <= z <= max_int64)%Z → ParseInt (Itoa z) = (z, false).
Proof.
  intros Hz. unfold Itoa, pretty, pretty_Z. destruct z as [|p|p]; [done| |].
  - change (pretty p) with (pretty_N_go (Npos p) "").
    destruct (pretty_N_go_head (Npos p) "") as (c & r & E & Hc & _); [lia|].
    pose proof (digits_acc_pretty (Npos p) "") as Hd. rewrite E in *.
    apply ParseInt_unsigned; [done|by rewrite Hd|lia].
  - change (pretty p) with (pretty_N_go (Npos p) "").
    destruct (pretty_N_go_head (Npos p) "") as (c & r & E & Hc & _); [lia|].
    pose proof (digits_acc_pretty (Npos p) "") as Hd. rewrite E in *. unfold ParseInt. cbn [fst snd String.append].
    rewrite parse_uint_digits, Hd by done. cbn [digits_acc].
    change (Z.of_N (N.pos p)) with (Z.pos p). unfold max_int64, min_int64 in *. do 2 (case_match; [lia|]). f_equal; lia.
Qed.

Lemma Itoa_word z : is_word (Itoa z) = true.
Proof.
  assert (Hp : ∀ p, forallb_str is_digit (pretty_N_go (Npos p) "") = true ∧ pretty_N_go (Npos p) "" ≠ "").
  { intros p. split; [by apply pretty_N_go_digits|].
    destruct (pretty_N_go_head (Npos p) "") as (c & r & -> & _); [lia|done]. }
  assert (Hsp : ∀ s, forallb_str is_digit s = true → forallb_str (fun c => negb (is_space c)) s = true).
  { intros s. apply forallb_str_mono. intros [[] [] [] [] [] [] [] []]; vm_compute; congruence. }
  unfold is_word, Itoa, pretty, pretty_Z. destruct z as [|p|p]; [done| |];
    change (pretty p) with (pretty_N_go (Npos p) ""); destruct (Hp p) as [H1 H2].
  - destruct (String.eqb_spec (pretty_N_go (Npos p) "") ""); [done|]. simpl. auto.
  - simpl. auto.
Qed.

(** Splitting a string at one of its separators. *)
Lemma Split_app_sep sep a b :
  Split sep (a +:+ String sep b) = Split sep a ++ Split sep b.
Proof.
  induction a as [|c a IH]; simpl; [by rewrite Ascii.eqb_refl|].
  destruct (Ascii.eqb c sep); rewrite IH; [done|].
  destruct (Split sep a) eqn:E; [by apply Split_nonempty in E|done].
Qed.

Lemma HasPrefix_Contains s p : HasPrefix s p = true → Contains s p = true.
Proof. intros (r & ->)%HasPrefix_spec. apply Contains_spec. by exists "", r. Qed.

(** A piece of a split string occurs in it. *)
Lemma Split_piece sep s w : w ∈ Split sep s → ∃ a b, s = a +:+ w +:+ b.
Proof.
  revert w. induction s as [|c s IH]; simpl; intros w Hw.
  - apply list_elem_of_singleton in Hw as ->. by exists "", "".
  - destruct (Ascii.eqb c sep).
    + apply elem_of_cons in Hw as [->|Hw]; [by exists "", (String c s)|].
      destruct (IH _ Hw) as (a & b & ->). by exists (String c a), b.
    + destruct (Split sep s) as [|w' ws] eqn:E; [by apply Split_nonempty in E|].
      apply elem_of_cons in Hw as [->|Hw].
      * assert (Hs : ∃ b, s = w' +:+ b).
        { pose proof (Join_Split sep s) as Hj. rewrite E in Hj. destruct ws; simpl in Hj; subst s; [|eauto].
          exists "". by rewrite string_app_nil_r. }
        destruct Hs as [b ->]. by exists "", b.
      * destruct (IH w) as (a & b & ->); [by right|]. by exists (String c a), b.
Qed.

Lemma Contains_app_middle a s b p : Contains s p = true → Contains (a +:+ s +:+ b) p = true.
Proof.
  intros (x & y & ->)%Contains_spec. apply Contains_spec. exists (a +:+ x), (y +:+ b).
  by rewrite <- !string_app_assoc.
Qed.
