(* ===== verification/GoErrors.v ===== *)
(** * Go error values

    Errors are trees: a leaf says which interface or sentinel the concrete
    error satisfies, [ErrWrap] is [fmt.Errorf] with one [%w], [ErrJoin] is
    [errors.Join] of two errors.  Messages keep the literal text of the format
    string; the interpolated values are dropped.  A Go [error] result is an
    [option error], [None] standing for [nil]. *)
From S2P Require Import Prelude.

Inductive error :=
| ErrNew (msg : string)                 (* errors.New, fmt.Errorf without %w *)
| ErrWrap (msg : string) (e : error)
| ErrJoin (e1 e2 : error)
| ErrCanceled                           (* context.Canceled *)
| ErrDeadlineExceeded                   (* context.DeadlineExceeded *)
| ErrNet (timeout : bool)               (* a net.Error of the socket layer *)
| ErrEOF                                (* io.EOF *)
| ErrBufferFull                         (* bufio.ErrBufferFull *)
| ErrQMP (class desc : string)          (* *qmp.Error *)
| ErrExit (code : Z)                    (* *exec.ExitError *)
| ErrMigrationFailed                    (* migration.errMigrationFailed *)
| ErrMigrationCancelled                 (* migration.errMigrationCancelled *)
| ErrUnknownID                          (* orchestrator.ErrUnknownID *)
| ErrNotFound                           (* apierrors.IsNotFound / os.IsNotExist *)
| ErrAlreadyExists.                     (* apierrors.IsAlreadyExists *)

#[global] Instance error_eq_dec : EqDecision error.
Proof. solve_decision. Defined.

(** [errors.Is] for a sentinel target. *)
Fixpoint errors_Is (e target : error) : bool :=
  bool_decide (e = target) ||
  match e with
  | ErrWrap _ e => errors_Is e target
  | ErrJoin e1 e2 => errors_Is e1 target || errors_Is e2 target
  | _ => false
  end.

(** [errors.As(err, &netErr)] for [netErr net.Error]: the [Timeout()] of the
    first error of the tree that implements the interface.  The value of
    [context.DeadlineExceeded] has the methods [Timeout] (true) and
    [Temporary], so it implements [net.Error]; [context.Canceled] does not. *)
Fixpoint errors_As_net (e : error) : option bool :=
  match e with
  | ErrNet t => Some t
  | ErrDeadlineExceeded => Some true
  | ErrWrap _ e => errors_As_net e
  | ErrJoin e1 e2 =>
      match errors_As_net e1 with Some t => Some t | None => errors_As_net e2 end
  | _ => None
  end.

(** The condition [errors.As(err, &netErr) && netErr.Timeout()]. *)
Definition is_net_timeout (e : error) : bool :=
  match errors_As_net e with Some t => t | None => false end.

(** [errors.As(err, &exitErr)] for an [*exec.ExitError]: its exit code. *)
Fixpoint errors_As_exit (e : error) : option Z :=
  match e with
  | ErrExit code => Some code
  | ErrWrap _ e => errors_As_exit e
  | ErrJoin e1 e2 =>
      match errors_As_exit e1 with Some c => Some c | None => errors_As_exit e2 end
  | _ => None
  end.

(** [errors.Join] on two possibly nil errors. *)
Definition errors_Join (a b : option error) : option error :=
  match a, b with
  | Some a, Some b => Some (ErrJoin a b)
  | Some a, None => Some a
  | None, b => b
  end.

Definition is_nil {A} (e : option A) : bool :=
  match e with None => true | Some _ => false end.

Lemma is_net_timeout_wrap m e : is_net_timeout (ErrWrap m e) = is_net_timeout e.
Proof. done. Qed.

Lemma errors_Is_refl e : errors_Is e e = true.
Proof. destruct e; simpl; rewrite ?bool_decide_true by done; done. Qed.

Lemma errors_Is_wrap m e t : errors_Is e t = true → errors_Is (ErrWrap m e) t = true.
Proof. intros H. simpl. rewrite H. by rewrite orb_true_r. Qed.

Lemma is_nil_true {A} (e : option A) : is_nil e = true ↔ e = None.
Proof. by destruct e. Qed.

#[export] Hint Resolve errors_Is_refl errors_Is_wrap : go_lib.
