(* ===== verification/QmpTypes.v ===== *)
(** * QMP data types (internal/qmp/types.go) *)
From S2P Require Import Prelude GoErrors.

(** The sealed [Args] interface: one constructor per implementing struct, plus
    [NoArgs] for the nil interface value the callers pass. *)
Inductive Args :=
| NoArgs
| NBDServerStartArgs (type host port : string)
| NBDServerAddArgs (device : string) (writable : bool)
| DriveMirrorArgs (device target sync mode jobID : string)
| BlockJobCancelArgs (device : string) (force : bool)
| MigrateSetCapabilitiesArgs (capabilities : list (string * bool))
| MigrateSetParametersArgs (downtimeLimit maxBandwidth multifdChannels : Z)
| MigrateArgs (uri : string)
| AnnounceSelfArgs (initial max rounds step : Z).

#[global] Instance Args_eq_dec : EqDecision Args.
Proof. solve_decision. Defined.

Record request := Request { req_execute : string; req_arguments : Args }.

Record QError := QErr { q_class : string; q_desc : string }.

(** [Return] is [None] when the key is absent. *)
Record response := Response {
  r_return : option string;
  r_error : option QError;
  r_event : string }.

#[global] Instance QError_eq_dec : EqDecision QError.
Proof. solve_decision. Defined.
#[global] Instance response_eq_dec : EqDecision response.
Proof. solve_decision. Defined.

(** [type BlockJobStatus string] and [type MigrateStatus string]: open string
    types with a few named constants. *)
Definition BlockJobStatusConcluded : string := "concluded".
Definition BlockJobStatusNull : string := "null".

Record BlockJobInfo := MkBlockJobInfo {
  bj_device : string;
  bj_len : Z;
  bj_offset : Z;
  bj_speed : Z;
  bj_ready : bool;
  bj_status : string;
  bj_type : string }.

Definition MigrateStatusActive : string := "active".
Definition MigrateStatusCompleted : string := "completed".
Definition MigrateStatusFailed : string := "failed".
Definition MigrateStatusCancelled : string := "cancelled".

Record MigrateInfo := MkMigrateInfo {
  mi_status : string;
  mi_errorDesc : string;
  mi_ramTotal : Z;
  mi_ramTransferred : Z;
  mi_ramRemaining : Z;
  mi_downtime : Z;
  mi_setupTime : Z;
  mi_totalTime : Z }.

(** The mutable part of [qmp.Client]: whether [conn] is non-nil, the queue of
    buffered events and the partial line kept across timeouts. *)
Record Client := MkClient {
  c_conn : bool;
  c_events : list response;
  c_buf : string;
  c_socket : string }.
