(* ===== verification/Effects.v ===== *)
(** * The effects of the migration binaries

    The code under internal/qmp and internal/migration talks to the outside
    through a socket, child processes, the file system, the apiserver, the
    clock and its contexts.  An [Env] answers every such request, indexed by
    the number of requests made so far, so a theorem quantified over [Env]
    covers every behaviour of the outside.  A program is a state monad over
    [World]; it can also [Spin], when the fuel of one of its loops runs out.

    [World] records two logs: [w_io], the traffic on the QMP socket, and
    [w_trace], the calls the migration code makes (QMP commands with their
    results, child processes, prints, file writes). *)
From S2P Require Import Prelude GoErrors QmpTypes.

(** The contexts the migration code distinguishes. *)
Inductive Ctx :=
| CtxBackground
| CtxCaller                 (* the ctx argument of RunSource / RunDestination *)
| CtxRun                    (* RunSource's WithTimeout(migrationTimeout+storageSyncTimeout) *)
| CtxStorage                (* waitForStorageSync's WithTimeout *)
| CtxMigration              (* waitForMigrationComplete's WithTimeout *)
| CtxQuery                  (* one query-migrate call *)
| CtxCleanup                (* cleanupCtx *)
| CtxFetch.                 (* fetchCmdlineFromPodLog's deadline *)

(** What [measureRTT] sees of one received ICMP packet. *)
Inductive icmp_reply :=
| IcmpRecvErr (e : error)
| IcmpParseErr (e : error)
| IcmpOther                        (* not an echo body *)
| IcmpEcho (id seq : Z).

(** A directory entry: name and [IsDir()]. *)
Record dirent := Dirent { de_name : string; de_isdir : bool }.

(** The fields of Kata's persist.json the code decodes. *)
Record persist := Persist {
  p_pid : Z;
  p_hypervisorState : string;
  p_hypervisorType : string;
  p_hypervisorConfig : string;
  p_agentConfig : string }.

(** The migration-meta.json record the destination writes for the factory. *)
Record migrationMeta := MkMeta {
  mm_ID : string;
  mm_QEMUPid : Z;
  mm_QMPSocket : string;
  mm_HypervisorState : string;
  mm_VMConfig : string;
  mm_AgentConfig : string }.

Inductive ioev :=
| IoDeadline (ns : option Z)                      (* SetDeadline(now+ns), or cleared *)
| IoRead (frag : string) (err : option error)     (* bufio.Reader.ReadSlice *)
| IoLine (r : response)                           (* a line that json.Unmarshal accepted *)
| IoWrite (r : request) (err : option error).     (* conn.Write(json + "\n") *)

Inductive event :=
| EvDial (path : string) (err : option error)
| EvConnClose
| EvExec (cmd : string) (args : Args) (res : string + error)
| EvWait (name : string) (err : option error)
| EvCmd (argv : list string) (err : option error)
| EvSpawn (argv : list string) (err : option error)
| EvHTTP (url : string)
| EvPrint (line : string)
| EvWriteFile (path data : string) (err : option error)
| EvMkdir (path : string) (err : option error)
| EvCopy (src dst : string) (err : option error)
| EvRemove (path : string)
| EvSleep (ns : Z)
| EvNow (ns : Z).

Record Env := MkEnv {
  e_dial : nat → option error;
  e_read : nat → string * option error;
  e_write : nat → option error;
  e_setdeadline : nat → option error;
  e_close : nat → option error;
  e_ctx : Ctx → nat → option error;             (* ctx.Err() *)
  e_deadline : Ctx → nat → option Z;            (* ctx.Deadline(), relative to now *)
  e_select : Ctx → nat → option error;          (* select: ctx.Done() or the timer *)
  e_now : nat → Z;                              (* time.Now(), nanoseconds *)
  e_cmd : nat → option error;                   (* exec.Cmd.Run *)
  e_cmd_out : nat → list string;                (* what the child writes, chunk by chunk *)
  e_spawn : nat → option error;                 (* exec.Cmd.Start *)
  e_rand : nat → list Z + error;                (* crypto/rand.Read *)
  e_readdir : string → nat → list dirent + error;
  e_readfile : string → nat → string + error;
  e_writefile : string → nat → option error;
  e_mkdir : string → nat → option error;
  e_issocket : string → nat → bool;             (* os.Stat: a UNIX socket exists *)
  e_tempfile : string → nat → string + error;
  e_open : string → nat → option error;         (* OpenFile with O_NOFOLLOW *)
  e_isregular : string → nat → bool + error;    (* Stat of the opened file *)
  e_copy : nat → option error;
  e_fileop : string → nat → option error;       (* chmod and close of a temporary file *)
  e_getpid : nat → Z;
  e_output : list string → nat → string + error; (* exec.Cmd.Output *)
  e_getenv : string → nat → string;
  e_http : string → nat → (Z * string) + error; (* GET: status code and body *)
  e_icmp_listen : nat → option error;
  e_icmp_send : nat → option error;
  e_icmp_recv : nat → icmp_reply;
  e_icmp_rtt : nat → Z;
  (* encoding/json decoders and encoders of the payloads *)
  e_dec_response : string → response + error;
  e_dec_migrate : string → MigrateInfo + error;
  e_dec_jobs : string → list BlockJobInfo + error;
  e_dec_persist : string → persist + error;
  e_dec_podip : string → string + error;        (* status.podIP of a Pod *)
  e_pem_ok : string → bool;                     (* CertPool.AppendCertsFromPEM *)
  e_enc_vmconfig : persist → string;
  e_enc_meta : migrationMeta → string + error;
  e_base64 : string → string;
  e_unbase64 : string → string + error }.

Record World := MkWorld {
  w_step : nat;
  w_io : list ioev;
  w_trace : list event;
  w_client : Client }.

Inductive outcome (A : Type) :=
| Done (a : A)
| Spin.
Arguments Done {A} a.
Arguments Spin {A}.

Definition M (A : Type) : Type := Env → World → outcome A * World.

#[global] Instance M_ret : MRet M := fun A a _ w => (Done a, w).
#[global] Instance M_bind : MBind M := fun A B k m env w =>
  match m env w with
  | (Done a, w') => k a env w'
  | (Spin, w') => (Spin, w')
  end.

Definition spin {A} : M A := fun _ w => (Spin, w).

(** One request to the outside. *)
Definition ask {A} (f : Env → nat → A) : M A := fun env w =>
  (Done (f env (w_step w)),
   MkWorld (S (w_step w)) (w_io w) (w_trace w) (w_client w)).

(** A pure function of the environment (the codecs). *)
Definition reads {A} (f : Env → A) : M A := fun env w => (Done (f env), w).

Definition log (ev : event) : M unit := fun _ w =>
  (Done tt, MkWorld (w_step w) (w_io w) (w_trace w ++ [ev]) (w_client w)).

Definition log_io (ev : ioev) : M unit := fun _ w =>
  (Done tt, MkWorld (w_step w) (w_io w ++ [ev]) (w_trace w) (w_client w)).

Definition get_client : M Client := fun _ w => (Done (w_client w), w).
Definition set_client (c : Client) : M unit := fun _ w =>
  (Done tt, MkWorld (w_step w) (w_io w) (w_trace w) c).

Definition when (b : bool) (m : M unit) : M unit := if b then m else mret tt.

(** [for _, x := range l { body }] with the body's effects only. *)
Fixpoint forM {A} (l : list A) (f : A → M unit) : M unit :=
  match l with
  | [] => mret tt
  | x :: l => f x;; forM l f
  end.

(** [for _, x := range l { if err := f(x); err != nil { return err } }]. *)
Fixpoint forM_err {A} (l : list A) (f : A → M (option error)) : M (option error) :=
  match l with
  | [] => mret None
  | x :: l =>
      e ← f x;
      match e with
      | Some e => mret (Some e)
      | None => forM_err l f
      end
  end.

(** [if err != nil { return fmt.Errorf("msg: %w", err) }]. *)
Definition or_return (msg : string) (e : option error) (k : M (option error)) : M (option error) :=
  match e with
  | Some e => mret (Some (ErrWrap msg e))
  | None => k
  end.

(** ** System calls used by the migration package *)

(** [os.ReadFile], [os.ReadDir], [os.WriteFile], [os.MkdirAll], [os.Remove]. *)
Definition ReadFile (path : string) : M (string + error) := ask (fun e => e_readfile e path).
Definition ReadDir (path : string) : M (list dirent + error) := ask (fun e => e_readdir e path).
Definition WriteFile (path data : string) : M (option error) :=
  r ← ask (fun e => e_writefile e path); log (EvWriteFile path data r);; mret r.
Definition MkdirAll (path : string) : M (option error) :=
  r ← ask (fun e => e_mkdir e path); log (EvMkdir path r);; mret r.
Definition Remove (path : string) : M unit := log (EvRemove path).
Definition Now : M Z := ask e_now.
(** A reading of the clock that is recorded, where a specification refers to it. *)
Definition LoggedNow : M Z := t ← Now; log (EvNow t);; mret t.
Definition CtxErr (c : Ctx) : M (option error) := ask (fun e => e_ctx e c).
Definition Printf (line : string) : M unit := log (EvPrint line).

(** [select { case <-ctx.Done(): ...; case <-timer: }]: [Some err] when the
    context is done first. *)
Definition SelectTimer (c : Ctx) (ns : Z) : M (option error) :=
  log (EvSleep ns);; ask (fun e => e_select e c).

(** ** Weakest preconditions

    [wp env m I Q w]: from [w], [m] either returns with [Q], or spins in a world
    that satisfies [I].  With [I := fun _ => False] this is total correctness,
    with [fun _ => True] partial correctness. *)
Definition wp {A} (env : Env) (m : M A) (I : World → Prop) (Q : A → World → Prop)
    (w : World) : Prop :=
  match m env w with
  | (Done a, w') => Q a w'
  | (Spin, w') => I w'
  end.

Section wp.
Context (env : Env) (I : World → Prop).

Lemma wp_bind {A B} (m : M A) (k : A → M B) Q w :
  wp env (m ≫= k) I Q w ↔ wp env m I (fun a w' => wp env (k a) I Q w') w.
Proof. unfold wp, mbind, M_bind. by destruct (m env w) as [[a|] w']. Qed.

Lemma wp_ret {A} (a : A) (Q : A → World → Prop) w : wp env (mret a) I Q w ↔ Q a w.
Proof. done. Qed.

Lemma wp_spin {A} (Q : A → World → Prop) w : wp env spin I Q w ↔ I w.
Proof. done. Qed.

Lemma wp_ask {A} (f : Env → nat → A) (Q : A → World → Prop) w :
  wp env (ask f) I Q w ↔
  Q (f env (w_step w)) (MkWorld (S (w_step w)) (w_io w) (w_trace w) (w_client w)).
Proof. done. Qed.

Lemma wp_mono {A} (m : M A) (Q Q' : A → World → Prop) w :
  wp env m I Q w → (∀ a w', Q a w' → Q' a w') → wp env m I Q' w.
Proof. unfold wp. destruct (m env w) as [[a|] w']; auto. Qed.

Lemma wp_conj {A} (m : M A) (Q Q' : A → World → Prop) w :
  wp env m I Q w → wp env m I Q' w → wp env m I (fun a w' => Q a w' ∧ Q' a w') w.
Proof. unfold wp. destruct (m env w) as [[a|] w']; auto. Qed.
End wp.

(** Running a composition whose first part is known. *)
Lemma run_bind env {A B} (m : M A) (k : A → M B) w a w' :
  m env w = (Done a, w') → (m ≫= k) env w = k a env w'.
Proof. intros H. unfold mbind, M_bind. by rewrite H. Qed.

(** A run and its result. *)
Lemma run_result env {A} (m : M A) w a : (m env w).1 = Done a → m env w = (Done a, (m env w).2).
Proof. destruct (m env w); simpl; congruence. Qed.

Lemma wp_mono_spin env {A} (m : M A) (I I' : World → Prop) Q w :
  wp env m I Q w → (∀ w', I w' → I' w') → wp env m I' Q w.
Proof. unfold wp. destruct (m env w) as [[a|] w']; auto. Qed.

(** Running a program that satisfies a specification. *)
Lemma wp_run env {A} (m : M A) I Q w a w' :
  wp env m I Q w → m env w = (Done a, w') → Q a w'.
Proof. unfold wp. intros H Hm. by rewrite Hm in H. Qed.

Lemma wp_total env {A} (m : M A) Q w :
  wp env m (fun _ => False) Q w → ∃ a w', m env w = (Done a, w') ∧ Q a w'.
Proof. unfold wp. destruct (m env w) as [[a|] w'] eqn:?; [eauto|done]. Qed.

(** ** Trace specifications

    [twp env m I Q t]: from any world whose trace is [t], [m] returns with a
    trace satisfying [Q] or spins with a trace satisfying [I]. *)
Definition twp {A} (env : Env) (m : M A) (I : list event → Prop)
    (Q : A → list event → Prop) (t : list event) : Prop :=
  ∀ w, w_trace w = t →
    wp env m (fun w' => I (w_trace w')) (fun a w' => Q a (w_trace w')) w.

Section twp.
Context (env : Env) (I : list event → Prop).

Lemma twp_bind {A B} (m : M A) (k : A → M B) Q t :
  twp env m I (fun a t' => twp env (k a) I Q t') t → twp env (m ≫= k) I Q t.
Proof.
  intros H w Hw. apply wp_bind. eapply wp_mono; [by apply H|].
  intros a w' Ha. by apply Ha.
Qed.

Lemma twp_ret {A} (a : A) (Q : A → list event → Prop) t : Q a t → twp env (mret a) I Q t.
Proof. intros H w <-. done. Qed.

Lemma twp_spin {A} (Q : A → list event → Prop) t : I t → twp env spin I Q t.
Proof. intros H w <-. done. Qed.

Lemma twp_ask {A} (f : Env → nat → A) (Q : A → list event → Prop) t :
  (∀ a, Q a t) → twp env (ask f) I Q t.
Proof. intros H w <-. apply H. Qed.

Lemma twp_ask_at {A} (f : Env → nat → A) (Q : A → list event → Prop) t :
  (∀ n, Q (f env n) t) → twp env (ask f) I Q t.
Proof. intros H w <-. apply H. Qed.

Lemma twp_reads {A} (f : Env → A) (Q : A → list event → Prop) t :
  Q (f env) t → twp env (reads f) I Q t.
Proof. intros H w <-. apply H. Qed.

Lemma twp_log ev (Q : unit → list event → Prop) t : Q tt (t ++ [ev]) → twp env (log ev) I Q t.
Proof. intros H w <-. apply H. Qed.

Lemma twp_log_io ev (Q : unit → list event → Prop) t : Q tt t → twp env (log_io ev) I Q t.
Proof. intros H w <-. apply H. Qed.

Lemma twp_get_client (Q : Client → list event → Prop) t : (∀ c, Q c t) → twp env get_client I Q t.
Proof. intros H w <-. apply H. Qed.

Lemma twp_set_client c (Q : unit → list event → Prop) t : Q tt t → twp env (set_client c) I Q t.
Proof. intros H w <-. apply H. Qed.

Lemma twp_mono {A} (m : M A) (Q Q' : A → list event → Prop) t :
  twp env m I Q t → (∀ a t', Q a t' → Q' a t') → twp env m I Q' t.
Proof. intros H HQ w Hw. eapply wp_mono; [by apply H|]. simpl. eauto. Qed.

Lemma twp_when b m (Q : unit → list event → Prop) t :
  (b = true → twp env m I Q t) → (b = false → Q tt t) → twp env (when b m) I Q t.
Proof. destruct b; simpl; [auto|]. intros _ H. by apply twp_ret, H. Qed.

(** A [for] loop with a loop invariant on the trace, indexed by the part of the
    list already done. *)
Lemma twp_forM {A} (f : A → M unit) (Inv : list A → list event → Prop) l1 l2 t :
  Inv l1 t →
  (∀ l x r t, l1 ++ l2 = l ++ x :: r → Inv l t → twp env (f x) I (fun _ t' => Inv (l ++ [x]) t') t) →
  twp env (forM l2 f) I (fun _ t' => Inv (l1 ++ l2) t') t.
Proof.
  revert l1 t. induction l2 as [|x l2 IH]; intros l1 t Hi Hs; simpl.
  - apply twp_ret. by rewrite app_nil_r.
  - apply twp_bind. eapply twp_mono; [by eapply Hs|]. simpl. intros _ t' Ht'.
    replace (l1 ++ x :: l2) with ((l1 ++ [x]) ++ l2) by by rewrite <- app_assoc.
    apply IH; [done|]. intros l y r t2 Hl. apply (Hs l y r).
    rewrite <- Hl. by rewrite <- app_assoc.
Qed.

Lemma twp_forM_err {A} (f : A → M (option error))
    (Inv : list A → list event → Prop) (Bad : error → list event → Prop) l1 l2 t :
  Inv l1 t →
  (∀ l x r t, l1 ++ l2 = l ++ x :: r → Inv l t →
     twp env (f x) I (fun e t' => match e with None => Inv (l ++ [x]) t' | Some e => Bad e t' end) t) →
  twp env (forM_err l2 f) I
    (fun e t' => match e with None => Inv (l1 ++ l2) t' | Some e => Bad e t' end) t.
Proof.
  revert l1 t. induction l2 as [|x l2 IH]; intros l1 t Hi Hs; simpl.
  - apply twp_ret. by rewrite app_nil_r.
  - apply twp_bind. eapply twp_mono; [by eapply Hs|]. intros [e|] t' Ht'; [by apply twp_ret|].
    replace (l1 ++ x :: l2) with ((l1 ++ [x]) ++ l2) by by rewrite <- app_assoc.
    apply IH; [done|]. intros l y r t2 Hl. apply (Hs l y r).
    rewrite <- Hl. by rewrite <- app_assoc.
Qed.
End twp.

Lemma twp_mono_spin env {A} (m : M A) (I I' : list event → Prop) Q t :
  twp env m I Q t → (∀ t', I t' → I' t') → twp env m I' Q t.
Proof. intros H HI w Hw. eapply wp_mono_spin; [by apply H|]. simpl. auto. Qed.

Lemma twp_run env {A} (m : M A) I Q t w a w' :
  twp env m I Q t → w_trace w = t → m env w = (Done a, w') → Q a (w_trace w').
Proof.
  intros H Hw. apply (wp_run env m (fun w' => I (w_trace w')) (fun a w' => Q a (w_trace w'))).
  by apply H.
Qed.

Lemma twp_run_spin env {A} (m : M A) I Q t w w' :
  twp env m I Q t → w_trace w = t → m env w = (Spin, w') → I (w_trace w').
Proof. intros H Hw Hm. specialize (H w Hw). unfold wp in H. by rewrite Hm in H. Qed.

(** ** Properties of every run

    [always R m]: whatever the environment and the outcome, the worlds before and
    after [m] are related by [R]. *)
Definition always (R : World → World → Prop) {A} (m : M A) : Prop :=
  ∀ env w, R w (m env w).2.

Section always.
Context (R : World → World → Prop) `{!PreOrder R}.

Lemma always_ret {A} (a : A) : always R (mret a).
Proof. intros env w. simpl. reflexivity. Qed.

Lemma always_spin {A} : always R (@spin A).
Proof. intros env w. simpl. reflexivity. Qed.

Lemma always_bind {A B} (m : M A) (k : A → M B) :
  always R m → (∀ a, always R (k a)) → always R (m ≫= k).
Proof.
  intros Hm Hk env w. unfold mbind, M_bind. specialize (Hm env w).
  destruct (m env w) as [[a|] w']; simpl in *; [|done].
  etrans; [exact Hm|apply Hk].
Qed.

Lemma always_reads {A} (f : Env → A) : always R (reads f).
Proof. intros env w. simpl. reflexivity. Qed.

Lemma always_get_client : always R get_client.
Proof. intros env w. simpl. reflexivity. Qed.

Lemma always_when b m : always R m → always R (when b m).
Proof. destruct b; simpl; [done|]. intros _. apply always_ret. Qed.
End always.

(** [silent m]: the calls recorded in the trace do not change. *)
Definition same_trace (w w' : World) : Prop := w_trace w' = w_trace w.

#[global] Instance same_trace_preorder : PreOrder same_trace.
Proof. split; unfold same_trace; [done|]. intros x y z H1 H2. by rewrite H2. Qed.

Abbreviation silent := (always same_trace).

Lemma silent_ask {A} (f : Env → nat → A) : silent (ask f).
Proof. done. Qed.
Lemma silent_log_io ev : silent (log_io ev).
Proof. done. Qed.
Lemma silent_set_client c : silent (set_client c).
Proof. done. Qed.

Lemma twp_silent env {A} (m : M A) (I : list event → Prop) (Q : A → list event → Prop) t :
  silent m → (∀ a, Q a t) → I t → twp env m I Q t.
Proof.
  intros Hm HQ HI w <-. unfold wp. specialize (Hm env w). unfold same_trace in Hm.
  destruct (m env w) as [[a|] w']; simpl in *; by rewrite Hm.
Qed.

(** Proves [always R m] for a program built from the listed primitives. *)
Ltac always_step :=
  match goal with
  | |- always _ (_ ≫= _) => apply always_bind; [try apply _| |intros ?]
  | |- always _ (mret _) => apply always_ret, _
  | |- always _ spin => apply always_spin, _
  | |- always _ (reads _) => apply always_reads, _
  | |- always _ get_client => apply always_get_client, _
  | |- always _ (when _ _) => apply always_when; [try apply _|]
  | |- always same_trace (ask _) => apply silent_ask
  | |- always same_trace (log_io _) => apply silent_log_io
  | |- always same_trace (set_client _) => apply silent_set_client
  | |- always _ (let '(_, _) := ?x in _) => destruct x eqn:?
  | |- always _ (match ?x with _ => _ end) => destruct x eqn:?
  end.

(** A specification lemma in the database [go_wp] concludes with a [twp] for an
    arbitrary post-condition. *)
Create HintDb go_wp discriminated.

Ltac wp_case :=
  match goal with
  | |- twp _ (match ?x with _ => _ end) _ _ _ => destruct x eqn:?
  | |- twp _ (or_return _ ?x _) _ _ _ => destruct x eqn:?; unfold or_return at 1
  end.

(** One step of symbolic execution. *)
Ltac wp_step :=
  lazymatch goal with
  | |- twp _ (_ ≫= _) _ _ _ => apply twp_bind
  | |- twp _ (mret _) _ _ _ => apply twp_ret
  | |- twp _ (ask _) _ _ _ => apply twp_ask; intros ?
  | |- twp _ (reads _) _ _ _ => apply twp_reads
  | |- twp _ (log _) _ _ _ => apply twp_log
  | |- twp _ (log_io _) _ _ _ => apply twp_log_io
  | |- twp _ get_client _ _ _ => apply twp_get_client; intros ?
  | |- twp _ (set_client _) _ _ _ => apply twp_set_client
  | |- twp _ spin _ _ _ => apply twp_spin
  | |- twp _ (when _ _) _ _ _ => apply twp_when; intros ?
  | |- twp _ (Now) _ _ _ => apply twp_ask; intros ?
  | |- twp _ (CtxErr _) _ _ _ => apply twp_ask; intros ?
  | |- twp _ (ReadFile _) _ _ _ => apply twp_ask; intros ?
  | |- twp _ (ReadDir _) _ _ _ => apply twp_ask; intros ?
  | |- twp _ (Printf _) _ _ _ => apply twp_log
  | |- twp _ (Remove _) _ _ _ => apply twp_log
  | |- twp _ (WriteFile _ _) _ _ _ => unfold WriteFile
  | |- twp _ (MkdirAll _) _ _ _ => unfold MkdirAll
  | |- twp _ (SelectTimer _ _) _ _ _ => unfold SelectTimer
  end.

Ltac wp_steps := repeat (wp_step || (progress simpl)).

Lemma wp_always env {A} (R : World → World → Prop) (m : M A) w :
  always R m → wp env m (R w) (fun _ => R w) w.
Proof. intros H. specialize (H env w). unfold wp. by destruct (m env w) as [[a|] w']. Qed.

(** Composing a specification relative to the initial world. *)
Lemma wp_bind_rel env {A B} (R : World → World → Prop) `{!Transitive R} (m : M A) (k : A → M B) w :
  wp env m (R w) (fun _ => R w) w →
  (∀ a w', m env w = (Done a, w') → R w w' → wp env (k a) (R w') (fun _ => R w') w') →
  wp env (m ≫= k) (R w) (fun _ => R w) w.
Proof.
  intros Hm Hk. apply wp_bind. unfold wp at 1. unfold wp in Hm.
  destruct (m env w) as [[a|] w'] eqn:E; [|done].
  specialize (Hk a w' eq_refl Hm). unfold wp in *.
  destruct (k a env w') as [[b|] w'']; by etrans.
Qed.

(** ** Which calls a program can make

    [emits P m]: every call [m] adds to the trace satisfies [P]. *)
Definition extends (P : event → Prop) (w w' : World) : Prop :=
  ∃ t, w_trace w' = w_trace w ++ t ∧ Forall P t.

#[global] Instance extends_preorder P : PreOrder (extends P).
Proof.
  split.
  - intros w. exists []. by rewrite app_nil_r.
  - intros x y z (t1 & H1 & F1) (t2 & H2 & F2). exists (t1 ++ t2).
    rewrite H2, H1, app_assoc. split; [done|]. by apply Forall_app.
Qed.

Abbreviation emits P := (always (extends P)).

Lemma emits_log P ev : P ev → emits P (log ev).
Proof. intros Hev env w. exists [ev]. split; [done|]. by constructor. Qed.

Lemma emits_silent P {A} (m : M A) : silent m → emits P m.
Proof. intros Hm env w. exists []. rewrite app_nil_r. split; [apply Hm|done]. Qed.

Lemma emits_mono (P Q : event → Prop) {A} (m : M A) :
  (∀ ev, P ev → Q ev) → emits P m → emits Q m.
Proof.
  intros HPQ Hm env w. destruct (Hm env w) as (t & Ht & Hf). exists t. split; [done|].
  by eapply Forall_impl.
Qed.

Lemma emits_forM P {A} (l : list A) f : (∀ x, x ∈ l → emits P (f x)) → emits P (forM l f).
Proof.
  induction l as [|x l IH]; intros Hf; simpl; [apply always_ret, _|].
  apply always_bind; [apply _|apply Hf; by left|]. intros _. apply IH. intros y Hy. apply Hf. by right.
Qed.

Lemma emits_or_return P msg e k : emits P k → emits P (or_return msg e k).
Proof. intros Hk. destruct e; [apply always_ret, _|done]. Qed.

(** Using [emits] inside a trace specification. *)
Lemma twp_emits env P {A} (m : M A) (I : list event → Prop) (Q : A → list event → Prop) t :
  emits P m → (∀ a t1, Forall P t1 → Q a (t ++ t1)) → (∀ t1, Forall P t1 → I (t ++ t1)) →
  twp env m I Q t.
Proof.
  intros Hm HQ HI w <-. unfold wp. destruct (Hm env w) as (t1 & Ht & Hf).
  destruct (m env w) as [[a|] w']; simpl in *; rewrite Ht; auto.
Qed.

(** A monitor folds a step function over the trace; calls that do not move it
    can be skipped. *)
Lemma fold_neutral {S} (step : S → event → S) (P : event → Prop) s t :
  (∀ ev s, P ev → step s ev = s) → Forall P t → fold_left step t s = s.
Proof.
  intros Hn. revert s. induction t as [|ev t IH]; intros s Hf; simpl; [done|].
  inversion_clear Hf. rewrite Hn by done. by apply IH.
Qed.

(** ** Order of calls

    [ordered ok t]: every call of [t] is allowed after the calls before it. *)
Definition ordered (ok : list event → event → Prop) (t : list event) : Prop :=
  ∀ pre ev post, t = pre ++ ev :: post → ok pre ev.

Lemma ordered_nil ok : ordered ok [].
Proof. by intros [] ? ?. Qed.

Lemma ordered_snoc ok t ev : ordered ok t → ok t ev → ordered ok (t ++ [ev]).
Proof.
  intros Ht Hev pre e post Heq. destruct post as [|x post _] using rev_ind.
  - apply app_inj_tail in Heq as [<- <-]. done.
  - rewrite app_comm_cons, app_assoc in Heq. apply app_inj_tail in Heq as [-> _]. by apply (Ht pre e post).
Qed.

(** Extending by calls that are fine after every extension of [t]. *)
Lemma ordered_ext ok (P : event → Prop) t t1 :
  (∀ t2 ev, P ev → ok (t ++ t2) ev) → ordered ok t → Forall P t1 → ordered ok (t ++ t1).
Proof.
  intros Hstep Ht. induction t1 as [|ev t1 IH] using rev_ind; intros Hf; [by rewrite app_nil_r|].
  apply Forall_app in Hf as [Hf Hev]. rewrite Forall_singleton in Hev. rewrite app_assoc.
  apply ordered_snoc; [by apply IH|]. by apply Hstep.
Qed.

(** Proves [emits P m]; leaves [P ev] for each call that is logged, and the goals
    of procedures it does not know. *)
Ltac emits_step :=
  lazymatch goal with
  | |- always (extends _) (log _) => apply emits_log
  | |- always (extends _) (Printf _) => apply emits_log
  | |- always (extends _) (Remove _) => apply emits_log
  | |- always (extends _) (ask _) => apply emits_silent, silent_ask
  | |- always (extends _) Now => apply emits_silent, silent_ask
  | |- always (extends _) (CtxErr _) => apply emits_silent, silent_ask
  | |- always (extends _) (ReadFile _) => apply emits_silent, silent_ask
  | |- always (extends _) (ReadDir _) => apply emits_silent, silent_ask
  | |- always (extends _) (WriteFile _ _) => unfold WriteFile
  | |- always (extends _) (MkdirAll _) => unfold MkdirAll
  | |- always (extends _) (SelectTimer _ _) => unfold SelectTimer
  | |- always (extends _) LoggedNow => unfold LoggedNow
  | |- always (extends _) (forM _ _) => apply emits_forM; intros ? ?
  | |- always (extends _) (or_return _ _ _) => apply emits_or_return
  | _ => always_step
  end.

(** An environment in which every request succeeds with the least interesting
    answer; the examples override single fields. *)
Definition env0 : Env := {|
  e_dial _ := None; e_read _ := ("", Some ErrEOF); e_write _ := None;
  e_setdeadline _ := None; e_close _ := None; e_ctx _ _ := None; e_deadline _ _ := None;
  e_select _ _ := None; e_now n := Z.of_nat n; e_cmd _ := None; e_cmd_out _ := []; e_spawn _ := None;
  e_rand _ := inl []; e_readdir _ _ := inl []; e_readfile _ _ := inr ErrNotFound;
  e_writefile _ _ := None; e_mkdir _ _ := None; e_issocket _ _ := true;
  e_tempfile _ _ := inl ""; e_open _ _ := None; e_isregular _ _ := inl true; e_copy _ := None; e_fileop _ _ := None; e_getpid _ := 1;
  e_output _ _ := inr ErrNotFound; e_getenv _ _ := ""; e_http _ _ := inr ErrNotFound;
  e_icmp_listen _ := None; e_icmp_send _ := None; e_icmp_recv _ := IcmpOther;
  e_icmp_rtt _ := 0;
  e_dec_response _ := inr (ErrNew "json"); e_dec_migrate _ := inr (ErrNew "json");
  e_dec_jobs _ := inr (ErrNew "json"); e_dec_persist _ := inr (ErrNew "json");
  e_dec_podip _ := inr (ErrNew "json"); e_pem_ok _ := true;
  e_enc_vmconfig _ := ""; e_enc_meta _ := inl "{}"; e_base64 s := s; e_unbase64 s := inl s |}.

Definition world0 : World := MkWorld 0 [] [] (MkClient false [] "" "").

(** [env0] with a given byte stream on the QMP socket and a given decoder. *)
Definition env_qmp (rd : nat → string * option error) (dec : string → response + error)
    (ctxerr : Ctx → nat → option error) : Env := {|
  e_dial := e_dial env0; e_read := rd; e_write := e_write env0;
  e_setdeadline := e_setdeadline env0; e_close := e_close env0; e_ctx := ctxerr;
  e_deadline := e_deadline env0;
  e_select := e_select env0; e_now := e_now env0; e_cmd := e_cmd env0;
  e_cmd_out := e_cmd_out env0; e_spawn := e_spawn env0;
  e_rand := e_rand env0; e_readdir := e_readdir env0; e_readfile := e_readfile env0;
  e_writefile := e_writefile env0; e_mkdir := e_mkdir env0; e_issocket := e_issocket env0;
  e_tempfile := e_tempfile env0; e_open := e_open env0; e_isregular := e_isregular env0; e_copy := e_copy env0; e_fileop := e_fileop env0; e_getpid := e_getpid env0;
  e_output := e_output env0; e_getenv := e_getenv env0; e_http := e_http env0;
  e_icmp_listen := e_icmp_listen env0; e_icmp_send := e_icmp_send env0;
  e_icmp_recv := e_icmp_recv env0; e_icmp_rtt := e_icmp_rtt env0;
  e_dec_response := dec; e_dec_migrate := e_dec_migrate env0;
  e_dec_jobs := e_dec_jobs env0; e_dec_persist := e_dec_persist env0;
  e_dec_podip := e_dec_podip env0; e_pem_ok := e_pem_ok env0;
  e_enc_vmconfig := e_enc_vmconfig env0; e_enc_meta := e_enc_meta env0; e_base64 := e_base64 env0;
  e_unbase64 := e_unbase64 env0 |}.
