(* ===== verification/Flags.v ===== *)
(** * Go's flag package, and the value parsers it uses

    [flag.FlagSet.Parse] with [ContinueOnError], [strconv.ParseInt] with base 0,
    [strconv.ParseBool] and [time.ParseDuration], as the command line of the
    katamaran binary uses them.  Only whether an error is returned is kept, not
    which one: the caller exits with the same code on all of them. *)
From S2P Require Import Prelude GoStrings.

(** ** [strconv.ParseInt(s, 0, 64)] *)

(** The digits after an optional 0b, 0o, 0x or 0 prefix, and their base. *)
Definition base_prefix (s : string) : Z * string :=
  match s with
  | String "0" r =>
      match r with
      | String c (String _ _ as ds) =>
          let c := lower_char c in
          if Ascii.eqb c "b" then (2, ds)
          else if Ascii.eqb c "o" then (8, ds)
          else if Ascii.eqb c "x" then (16, ds)
          else (8, r)
      | _ => (8, r)
      end
  | _ => (10, s)
  end.

Definition digit_val (c : ascii) : option Z :=
  if is_digit c then Some (Z.of_N (N_of_ascii c) - 48)
  else if is_lower (lower_char c) then Some (Z.of_N (N_of_ascii (lower_char c)) - 97 + 10)
  else None.

(** Underscores are skipped here and checked by [underscoreOK]. *)
Fixpoint digits_base (base acc : Z) (s : string) : option Z :=
  match s with
  | EmptyString => Some acc
  | String c s =>
      if Ascii.eqb c "_" then digits_base base acc s
      else
        match digit_val c with
        | None => None
        | Some d => if d >=? base then None else digits_base base (acc * base + d) s
        end
  end.

(** The last character seen: the start, a digit, an underscore, another one. *)
Inductive saw := SawStart | SawDigit | SawUnderscore | SawOther.

Fixpoint underscore_loop (hex : bool) (last : saw) (s : string) : bool :=
  match s with
  | EmptyString => match last with SawUnderscore => false | _ => true end
  | String c s =>
      if is_digit c || hex && in_range "a" "f" (lower_char c) then underscore_loop hex SawDigit s
      else if Ascii.eqb c "_" then
        match last with SawDigit => underscore_loop hex SawUnderscore s | _ => false end
      else match last with SawUnderscore => false | _ => underscore_loop hex SawOther s end
  end.

Definition strip_sign (s : string) : bool * string :=
  match s with
  | String "-" r => (true, r)
  | String "+" r => (false, r)
  | _ => (false, s)
  end.

Definition underscoreOK (s : string) : bool :=
  let s := (strip_sign s).2 in
  match s with
  | String "0" (String c r) =>
      let c := lower_char c in
      if char_in c "box" then underscore_loop (Ascii.eqb c "x") SawDigit r else underscore_loop false SawStart s
  | _ => underscore_loop false SawStart s
  end.

Definition ParseInt0 (s : string) : option Z :=
  let '(neg, u) := strip_sign s in
  if (u =? "")%string then None
  else
    let '(base, ds) := base_prefix u in
    match digits_base base 0 ds with
    | None => None
    | Some n =>
        if char_in "_" u && negb (underscoreOK u) then None
        else if neg then (if n >? 2 ^ 63 then None else Some (- n))
        else (if n >=? 2 ^ 63 then None else Some n)
    end.

(** ** [strconv.ParseBool] *)

Definition ParseBool (s : string) : option bool :=
  if existsb (String.eqb s) ["1"; "t"; "T"; "TRUE"; "true"; "True"] then Some true
  else if existsb (String.eqb s) ["0"; "f"; "F"; "FALSE"; "false"; "False"] then Some false
  else None.

(** ** [time.ParseDuration] *)

(** The floating-point product of a decimal fraction, given by its digits and
    their number, and a unit, cut to an integer. *)
Class FloatFraction := frac_ns : Z → nat → Z → Z.

(** [leadingInt]: the leading digits, [None] on overflow. *)
Fixpoint leadingInt (acc : Z) (s : string) : option (Z * string) :=
  match s with
  | String c r =>
      if is_digit c then
        if acc >? 2 ^ 63 / 10 then None
        else
          let acc := acc * 10 + (Z.of_N (N_of_ascii c) - 48) in
          if acc >? 2 ^ 63 then None else leadingInt acc r
      else Some (acc, s)
  | EmptyString => Some (acc, s)
  end.

(** [leadingFraction]: digits that do not fit are dropped. *)
Fixpoint leadingFraction (acc : Z) (scale : nat) (overflow : bool) (s : string) : Z * nat * string :=
  match s with
  | String c r =>
      if is_digit c then
        if overflow || (acc >? (2 ^ 63 - 1) / 10) then leadingFraction acc scale true r
        else
          let y := acc * 10 + (Z.of_N (N_of_ascii c) - 48) in
          if y >? 2 ^ 63 then leadingFraction acc scale true r else leadingFraction y (S scale) false r
      else (acc, scale, s)
  | EmptyString => (acc, scale, s)
  end.

(** The unit: everything up to a dot or a digit. *)
Fixpoint split_unit (s : string) : string * string :=
  match s with
  | String c r =>
      if Ascii.eqb c "." || is_digit c then ("", s)
      else let (u, rest) := split_unit r in (String c u, rest)
  | EmptyString => ("", "")
  end.

(** The two spellings of the micro sign in UTF-8. *)
Definition micro_signs : list string :=
  [String (ascii_of_nat 194) (String (ascii_of_nat 181) "s"); String (ascii_of_nat 206) (String (ascii_of_nat 188) "s")].

Definition unit_ns (u : string) : option Z :=
  if (u =? "ns")%string then Some 1
  else if (u =? "us")%string || existsb (String.eqb u) micro_signs then Some 1000
  else if (u =? "ms")%string then Some 1000000
  else if (u =? "s")%string then Some second
  else if (u =? "m")%string then Some minute
  else if (u =? "h")%string then Some hour
  else None.

Section duration.
Context `{FloatFraction}.

(** One number with its unit: the nanoseconds and the rest of the string. *)
Definition duration_term (s : string) : option (Z * string) :=
  match s with
  | EmptyString => None
  | String c _ =>
      if negb (Ascii.eqb c "." || is_digit c) then None
      else
        match leadingInt 0 s with
        | None => None
        | Some (v, s1) =>
            let pre := negb (slen s1 =? slen s) in
            let '(f, scale, s2, post) :=
              match s1 with
              | String "." r => let '(f, scale, r') := leadingFraction 0 0 false r in (f, scale, r', negb (slen r' =? slen r))
              | _ => (0, O, s1, false)
              end in
            if negb pre && negb post then None
            else
              let '(u, rest) := split_unit s2 in
              match unit_ns u with
              | None => None
              | Some unit =>
                  if v >? 2 ^ 63 / unit then None
                  else
                    let v := if f >? 0 then v * unit + frac_ns f scale unit else v * unit in
                    if v >? 2 ^ 63 then None else Some (v, rest)
              end
        end
  end.

(** The terms of a duration; every term takes at least one character. *)
Fixpoint duration_terms (fuel : nat) (d : Z) (s : string) : option Z :=
  match fuel with
  | O => None
  | S fuel =>
      if (s =? "")%string then Some d
      else
        match duration_term s with
        | None => None
        | Some (v, rest) =>
            let d := (d + v) mod 2 ^ 64 in                (* uint64 *)
            if d >? 2 ^ 63 then None else duration_terms fuel d rest
        end
  end.

Definition ParseDuration (s : string) : option Z :=
  let '(neg, s) := strip_sign s in
  if (s =? "0")%string then Some 0
  else if (s =? "")%string then None
  else
    match duration_terms (S (String.length s)) 0 s with
    | None => None
    | Some d => if neg then Some (- d) else if d >? 2 ^ 63 - 1 then None else Some d
    end.

(** ** [flag.FlagSet] *)

(** A value of a flag; in the table of the defined flags, its default. *)
Inductive fval := FStr (s : string) | FBool (b : bool) | FInt (z : Z) | FDur (z : Z).

#[global] Instance fval_eq_dec : EqDecision fval.
Proof. solve_decision. Defined.

Definition is_bool_flag (d : fval) : bool := match d with FBool _ => true | _ => false end.

(** [Value.Set] of a flag of the same type as [d]. *)
Definition set_value (d : fval) (v : string) : option fval :=
  match d with
  | FStr _ => Some (FStr v)
  | FBool _ => FBool <$> ParseBool v
  | FInt _ => FInt <$> ParseInt0 v
  | FDur _ => FDur <$> ParseDuration v
  end.

(** What an argument is to [parseOne]. *)
Inductive farg := ANoFlag | AEnd | ABad | AFlag (name : string) (value : option string).

Definition split_eq (s : string) : string * option string :=
  match IndexByte s "=" with
  | Some i => (stake i s, Some (sdrop (S i) s))
  | None => (s, None)
  end.

Definition flag_body (name : string) : farg :=
  match name with
  | EmptyString => ABad
  | String c _ => if Ascii.eqb c "-" || Ascii.eqb c "=" then ABad else let (n, v) := split_eq name in AFlag n v
  end.

Definition classify (s : string) : farg :=
  match s with
  | String "-" (String c r) =>
      if Ascii.eqb c "-" then (if (r =? "")%string then AEnd else flag_body r) else flag_body (String c r)
  | _ => ANoFlag
  end.

Definition formals := list (string * fval).

Definition formal_lookup (fs : formals) (name : string) : option fval :=
  snd <$> List.find (fun p => (p.1 =? name)%string) fs.

(** [Parse]: the flags that were set and the remaining arguments, [None] on an
    error. *)
Fixpoint Parse (fs : formals) (args : list string) (actual : gmap string fval)
    : option (gmap string fval * list string) :=
  match args with
  | [] => Some (actual, [])
  | s :: rest =>
      match classify s with
      | ANoFlag => Some (actual, args)
      | AEnd => Some (actual, rest)
      | ABad => None
      | AFlag name v =>
          match formal_lookup fs name with
          | None => None
          | Some d =>
              if is_bool_flag d then
                match set_value d (default "true" v) with
                | Some x => Parse fs rest (<[name := x]> actual)
                | None => None
                end
              else
                match v, rest with
                | Some v, _ =>
                    match set_value d v with
                    | Some x => Parse fs rest (<[name := x]> actual)
                    | None => None
                    end
                | None, v :: rest =>
                    match set_value d v with
                    | Some x => Parse fs rest (<[name := x]> actual)
                    | None => None
                    end
                | None, [] => None
                end
          end
      end
  end.

(** ** Lemmas *)

(** A boolean flag without a value. *)
Lemma Parse_bool fs s rest actual name b :
  classify s = AFlag name None → formal_lookup fs name = Some (FBool b) →
  Parse fs (s :: rest) actual = Parse fs rest (<[name := FBool true]> actual).
Proof. intros Hc Hf. cbn [Parse]. rewrite Hc, Hf. reflexivity. Qed.

(** A flag with its value in the next argument, whatever that looks like. *)
Lemma Parse_value fs s v rest actual name d x :
  classify s = AFlag name None → formal_lookup fs name = Some d → is_bool_flag d = false → set_value d v = Some x →
  Parse fs (s :: v :: rest) actual = Parse fs rest (<[name := x]> actual).
Proof. intros Hc Hf Hb Hs. cbn [Parse]. by rewrite Hc, Hf, Hb, Hs. Qed.

End duration.

(** Decimal digits read in base ten. *)
Lemma digits_base_acc s acc n : digits_acc acc s = Some n → digits_base 10 acc s = Some n.
Proof.
  revert acc. induction s as [|c s IH]; intros acc; cbn [digits_acc digits_base]; [done|].
  destruct (is_digit c) eqn:Hc; [|done]. intros Hd.
  assert (Hu : Ascii.eqb c "_" = false) by (by destruct c as [[] [] [] [] [] [] [] []]).
  assert (Hr : (48 ≤ N_of_ascii c ∧ N_of_ascii c ≤ 57)%N) by (by apply in_range_spec in Hc).
  rewrite Hu. unfold digit_val. rewrite Hc. replace (Z.of_N (N_of_ascii c) - 48 >=? 10) with false by lia.
  apply IH. rewrite <- Hd. f_equal. lia.
Qed.

Lemma digits_no_underscore s n acc : digits_acc acc s = Some n → char_in "_" s = false.
Proof.
  revert acc. induction s as [|c s IH]; intros acc; cbn [digits_acc]; [done|].
  destruct (is_digit c) eqn:Hc; [|done]. intros Hd%IH. cbn [char_in]. fold (char_in "_" s). rewrite Hd.
  by destruct c as [[] [] [] [] [] [] [] []].
Qed.

(** [strconv.ParseInt(s, 0, 64)] reads what [%d] prints for a non-negative
    number: its form has no leading zero. *)
Lemma ParseInt0_Itoa z : 0 ≤ z ≤ max_int64 → ParseInt0 (Itoa z) = Some z.
Proof.
  intros Hz. unfold Itoa, pretty, pretty_Z. destruct z as [|p|p]; [done| |lia].
  change (pretty p) with (pretty_N_go (Npos p) "").
  destruct (pretty_N_go_head (Npos p) "") as (c & r & E & Hc & H0); [lia|].
  pose proof (digits_acc_pretty (Npos p) "") as Hd. rewrite E in *.
  change (digits_acc (Z.of_N (N.pos p)) "") with (Some (Z.pos p)) in Hd.
  assert (Hs : strip_sign (String c r) = (false, String c r)) by (by destruct c as [[] [] [] [] [] [] [] []]).
  assert (Hb : base_prefix (String c r) = (10, String c r)).
  { cbn [base_prefix]. destruct c as [[] [] [] [] [] [] [] []]; try reflexivity; by destruct H0. }
  unfold ParseInt0. rewrite Hs. cbn [String.eqb]. rewrite Hb.
  rewrite (digits_base_acc _ _ _ Hd), (digits_no_underscore _ _ _ Hd). cbn [andb].
  unfold max_int64 in Hz. by replace (Z.pos p >=? 2 ^ 63) with false by lia.
Qed.

Lemma digits_acc_ge s acc n : digits_acc acc s = Some n → 0 ≤ acc → acc ≤ n.
Proof.
  revert acc. induction s as [|c s IH]; intros acc; cbn [digits_acc]; [intros [= ->]; lia|].
  destruct (is_digit c); [|done]. intros Hd Ha. apply IH in Hd; lia.
Qed.

(** Leading digits before a unit. *)
Lemma leadingInt_digits ds acc n u :
  digits_acc acc ds = Some n → 0 ≤ acc → n ≤ 2 ^ 63 → match u with String c _ => is_digit c = false | _ => True end →
  leadingInt acc (ds +:+ u) = Some (n, u).
Proof.
  revert acc. induction ds as [|c ds IH]; intros acc Hd Ha Hn Hu.
  - injection Hd as ->. destruct u as [|c u]; [done|]. cbn [String.append leadingInt]. by rewrite Hu.
  - cbn [digits_acc] in Hd. cbn [String.append leadingInt]. destruct (is_digit c) eqn:Hc; [|done].
    assert (Hr : (48 ≤ N_of_ascii c ∧ N_of_ascii c ≤ 57)%N) by (by apply in_range_spec in Hc).
    replace (acc * 10 + (Z.of_N (N_of_ascii c) - 48)) with (acc * 10 + Z.of_N (N_of_ascii c - 48)) by lia.
    assert (Hle : acc * 10 + Z.of_N (N_of_ascii c - 48) ≤ n).
    { eapply digits_acc_ge; [exact Hd|lia]. }
    change (2 ^ 63 / 10) with 922337203685477580.
    pose proof (N2Z.is_nonneg (N_of_ascii c - 48)) as H0. revert Hd Hle H0.
    generalize (Z.of_N (N_of_ascii c - 48)) as d. clear Hr Hc. intros d Hd Hle H0.
    replace (acc >? 922337203685477580) with false by lia.
    replace (acc * 10 + d >? 2 ^ 63) with false by lia. apply IH; [done|lia|done|done].
Qed.

(** What [fmt.Sprintf("%ds", n)] prints is read back, up to the largest
    duration. *)
Lemma ParseDuration_seconds `{FloatFraction} n :
  0 ≤ n → n * second ≤ max_int64 → ParseDuration (Itoa n +:+ "s") = Some (n * second).
Proof.
  intros Hn Hm. unfold second, max_int64 in *.
  assert (Hi : ∃ c r, Itoa n = String c r ∧ is_digit c = true ∧ digits_acc 0 (String c r) = Some n).
  { unfold Itoa, pretty, pretty_Z. destruct n as [|p|p]; [by eexists _, _| |lia].
    change (pretty p) with (pretty_N_go (Npos p) "").
    destruct (pretty_N_go_head (Npos p) "") as (c & r & E & Hc & _); [lia|].
    pose proof (digits_acc_pretty (Npos p) "") as Hd. rewrite E in *. by eexists _, _. }
  destruct Hi as (c & r & -> & Hc & Hd).
  assert (Hs : ∀ x, strip_sign (String c x) = (false, String c x)) by (by intros; destruct c as [[] [] [] [] [] [] [] []]).
  unfold ParseDuration. cbn [String.append]. rewrite Hs.
  assert (Hne : (String c (r +:+ "s") =? "0")%string = false).
  { apply String.eqb_neq. intros [= -> E]. by destruct r. }
  rewrite Hne. cbn [String.eqb]. cbn [duration_terms]. cbn [String.eqb]. unfold duration_term at 1.
  rewrite Hc, orb_true_r. cbn [negb].
  change (String c (r +:+ "s")) with (String c r +:+ "s").
  rewrite (leadingInt_digits _ 0 n "s" Hd) by (done || lia).
  assert (Hl : (slen "s" =? slen (String c r +:+ "s")) = false).
  { apply Z.eqb_neq. unfold slen. rewrite string_app_length. cbn [String.length]. lia. }
  rewrite Hl. cbn [negb andb]. change (split_unit "s") with ("s", ""). cbv iota beta.
  change (unit_ns "s") with (Some 1000000000). change (0 >? 0) with false. cbv iota beta.
  replace (n >? 2 ^ 63 / 1000000000) with false
    by (change (2 ^ 63 / 1000000000) with 9223372036; lia).
  replace (n * 1000000000 >? 2 ^ 63) with false by lia. cbv iota beta. rewrite Z.add_0_l, Z.mod_small by lia.
  replace (n * 1000000000 >? 2 ^ 63) with false by lia.
  cbn [String.append String.length duration_terms String.eqb].
  by replace (n * 1000000000 >? 2 ^ 63 - 1) with false by lia.
Qed.
