(* ===== verification/Qmp.v ===== *)
(** * The QMP client (internal/qmp/client.go)

    [Client] is the mutable part of Go's [Client]; the connection itself is the
    environment.  The mutex guards single accesses and the package forbids
    concurrent calls, so every method is one sequential program. *)
From S2P Require Import Prelude GoErrors GoStrings QmpTypes Effects.

Definition dialTimeout : Z := 10 * second.
Definition greetingTimeout : Z := 1 * second.
Definition executeTimeout : Z := 2 * minute.
Definition maxBufferedEvents : nat := 1000.
Definition maxLineSize : Z := 4 * 1024 * 1024.

Definition set_events (evs : list response) (c : Client) : Client :=
  MkClient (c_conn c) evs (c_buf c) (c_socket c).
Definition set_buf (b : string) (c : Client) : Client :=
  MkClient (c_conn c) (c_events c) b (c_socket c).
Definition set_conn (b : bool) (c : Client) : Client :=
  MkClient b (c_events c) (c_buf c) (c_socket c).

(** [conn.SetDeadline] / [SetReadDeadline], relative to now; [None] clears it.
    What a deadline does to a later read is the environment's choice. *)
Definition SetDeadline (ns : option Z) : M (option error) :=
  log_io (IoDeadline ns);; ask e_setdeadline.

Definition ReadSlice : M (string * option error) :=
  r ← ask e_read; log_io (IoRead r.1 r.2);; mret r.

Definition ConnWrite (r : request) : M (option error) :=
  e ← ask e_write; log_io (IoWrite r e);; mret e.

(** [bufferEvent]: the queue is capped, the oldest event is dropped. *)
Definition bufferEvent (ev : response) : M unit :=
  c ← get_client;
  let evs := if (Z.of_nat (length (c_events c)) >=? Z.of_nat maxBufferedEvents)%Z
             then drop 1 (c_events c) else c_events c in
  set_client (set_events (evs ++ [ev]) c).

(** [readLine]: accumulates fragments in [c_buf] until a newline arrives. *)
Fixpoint readLine (fuel : nat) : M (string + error) :=
  match fuel with
  | O => spin
  | S fuel =>
      r ← ReadSlice;
      let '(frag, err) := r in
      c ← get_client;
      if (slen frag >? 0)%Z && (slen (c_buf c) + slen frag >? maxLineSize)%Z then
        set_client (set_buf "" c);;
        mret (inr (ErrNew "QMP line exceeds bytes, discarding"))
      else if (slen frag >? 0)%Z && (slen (c_buf c) =? 0)%Z && is_nil err then
        mret (inl frag)
      else
        (if (slen frag >? 0)%Z then set_client (set_buf (c_buf c +:+ frag) c) else mret tt);;
        match err with
        | None =>
            c ← get_client;
            set_client (set_buf "" c);;
            mret (inl (c_buf c))
        | Some e =>
            if errors_Is e ErrBufferFull then readLine fuel
            else mret (inr (ErrWrap "reading QMP line" e))
        end
  end.

(** [json.Unmarshal(line, &resp)]. *)
Definition unmarshal_response (line : string) : M (response + error) :=
  r ← reads (fun e => e_dec_response e line);
  match r with
  | inl resp => log_io (IoLine resp);; mret (inl resp)
  | inr e => mret (inr e)
  end.

(** The [fail] closure of [NewClient]: closes the connection. *)
Definition handshake_fail (e : error) : M (option error) :=
  log EvConnClose;;
  c ← get_client;
  set_client (set_conn false c);;
  mret (Some e).

(** [NewClient]: dial, greeting, capability negotiation. *)
Definition NewClient (fuel : nat) (ctx : Ctx) (path : string) : M (option error) :=
  err ← ask e_dial;
  log (EvDial path err);;
  match err with
  | Some e => mret (Some (ErrWrap "dialing QMP socket" e))
  | None =>
      set_client (MkClient true [] "" path);;
      err ← SetDeadline (Some greetingTimeout);
      match err with
      | Some e => handshake_fail (ErrWrap "setting greeting deadline" e)
      | None =>
          g ← readLine fuel;
          let greeting_failed :=
            match g with
            | inl _ => None
            | inr e => if is_net_timeout e then None else Some e
            end in
          match greeting_failed with
          | Some e => handshake_fail (ErrWrap "reading QMP greeting" e)
          | None =>
              err ← SetDeadline (Some dialTimeout);
              match err with
              | Some e => handshake_fail (ErrWrap "setting capabilities deadline" e)
              | None =>
                  err ← ConnWrite (Request "qmp_capabilities" NoArgs);
                  match err with
                  | Some e => handshake_fail (ErrWrap "sending qmp_capabilities" e)
                  | None =>
                      l ← readLine fuel;
                      match l with
                      | inr e => handshake_fail (ErrWrap "reading qmp_capabilities response" e)
                      | inl line =>
                          r ← unmarshal_response line;
                          match r with
                          | inr e => handshake_fail (ErrWrap "unmarshaling qmp_capabilities response" e)
                          | inl resp =>
                              match r_error resp with
                              | Some q =>
                                  handshake_fail (ErrWrap "qmp_capabilities rejected" (ErrQMP (q_class q) (q_desc q)))
                              | None =>
                                  err ← SetDeadline None;
                                  match err with
                                  | Some e => handshake_fail (ErrWrap "clearing handshake deadline" e)
                                  | None =>
                                      (* stop() returns false iff the context was cancelled *)
                                      err ← CtxErr ctx;
                                      match err with
                                      | Some e =>
                                          log EvConnClose;;
                                          c ← get_client;
                                          set_client (set_conn false c);;
                                          mret (Some (ErrWrap "QMP handshake interrupted" e))
                                      | None => mret None
                                      end
                                  end
                              end
                          end
                      end
                  end
              end
          end
      end
  end.

(** [Close]: idempotent. *)
Definition Close : M (option error) :=
  c ← get_client;
  if negb (c_conn c) then mret None
  else
    err ← ask e_close;
    log EvConnClose;;
    set_client (set_conn false c);;
    mret match err with
         | Some e => Some (ErrWrap "closing QMP connection" e)
         | None => None
         end.

(** The sooner of [now + timeout] and the deadline of the context. *)
Definition sooner (ctx : Ctx) (timeout : Z) : M Z :=
  d ← ask (fun e => e_deadline e ctx);
  mret match d with
       | Some d => if (d <? timeout)%Z then d else timeout
       | None => timeout
       end.

(** The error of a failed read, as [Execute] reports it. *)
Definition execute_read_error (ctx : Ctx) (e : error) : M error :=
  cerr ← CtxErr ctx;
  mret match cerr with
       | Some ce => ErrWrap "QMP command interrupted" ce
       | None =>
           if is_net_timeout e then ErrWrap "timed out waiting for QMP response" e
           else if errors_Is e ErrEOF
                then ErrWrap "QEMU closed the QMP connection unexpectedly (did QEMU crash?)" e
                else ErrWrap "reading QMP response" e
       end.

(** The response loop of [Execute]. *)
Fixpoint execute_loop (fuel : nat) (ctx : Ctx) : M (string + error) :=
  match fuel with
  | O => spin
  | S fuel' =>
      l ← readLine fuel;
      match l with
      | inr e => e' ← execute_read_error ctx e; mret (inr e')
      | inl line =>
          r ← unmarshal_response line;
          match r with
          | inr e => mret (inr (ErrWrap "unmarshaling QMP response" e))
          | inl resp =>
              if (r_event resp =? "")%string then
                match r_error resp with
                | Some q => mret (inr (ErrWrap "QMP command failed" (ErrQMP (q_class q) (q_desc q))))
                | None => mret (inl (default "" (r_return resp)))
                end
              else bufferEvent resp;; execute_loop fuel' ctx
          end
      end
  end.

(** [Execute] up to its return. *)
Definition execute_body (fuel : nat) (ctx : Ctx) (cmd : string) (args : Args) : M (string + error) :=
  if (cmd =? "")%string then mret (inr (ErrNew "QMP command is required"))
  else
    c ← get_client;
    if negb (c_conn c) then mret (inr (ErrNew "executing QMP command: connection is closed"))
    else
      deadline ← sooner ctx executeTimeout;
      err ← SetDeadline (Some deadline);
      match err with
      | Some e => mret (inr (ErrWrap "setting IO deadline" e))
      | None =>
          err ← ConnWrite (Request cmd args);
          res ← match err with
                | Some e =>
                    cerr ← CtxErr ctx;
                    mret (inr match cerr with
                              | Some ce => ErrWrap "QMP command interrupted" ce
                              | None => ErrWrap "writing QMP command" e
                              end)
                | None => execute_loop fuel ctx
                end;
          _ ← SetDeadline None;      (* deferred: clears the deadline *)
          mret res
      end.

(** [Execute]; the completed call is recorded in the trace. *)
Definition Execute (fuel : nat) (ctx : Ctx) (cmd : string) (args : Args) : M (string + error) :=
  res ← execute_body fuel ctx cmd args;
  log (EvExec cmd args res);;
  mret res.

(** The position of the first buffered event called [name]. *)
Fixpoint find_event (name : string) (evs : list response) : option nat :=
  match evs with
  | [] => None
  | ev :: evs => if (r_event ev =? name)%string then Some 0%nat else S <$> find_event name evs
  end.

(** [slices.Delete(evs, i, i+1)]. *)
Definition delete_at {A} (i : nat) (l : list A) : list A := take i l ++ drop (S i) l.

Fixpoint wait_loop (fuel : nat) (ctx : Ctx) (name : string) : M (option error) :=
  match fuel with
  | O => spin
  | S fuel' =>
      l ← readLine fuel;
      match l with
      | inr e =>
          cerr ← CtxErr ctx;
          mret (Some match cerr with
                     | Some ce => ErrWrap "waiting for QMP event interrupted" ce
                     | None =>
                         if is_net_timeout e then ErrWrap "timed out waiting for QMP event" e
                         else if errors_Is e ErrEOF
                              then ErrWrap "QEMU closed the QMP connection unexpectedly" e
                              else ErrWrap "reading QMP event stream" e
                     end)
      | inl line =>
          r ← unmarshal_response line;
          match r with
          | inr e => mret (Some (ErrWrap "unmarshaling QMP event" e))
          | inl resp =>
              if (r_event resp =? name)%string then mret None
              else
                (if (r_event resp =? "")%string then mret tt else bufferEvent resp);;
                wait_loop fuel' ctx name
          end
      end
  end.

Definition wait_body (fuel : nat) (ctx : Ctx) (name : string) (timeout : Z) : M (option error) :=
  c ← get_client;
  match find_event name (c_events c) with
  | Some i => set_client (set_events (delete_at i (c_events c)) c);; mret None
  | None =>
      if negb (c_conn c) then mret (Some (ErrNew "waiting for QMP event: connection is closed"))
      else
        deadline ← sooner ctx timeout;
        err ← SetDeadline (Some deadline);
        match err with
        | Some e => mret (Some (ErrWrap "setting event read deadline" e))
        | None =>
            res ← wait_loop fuel ctx name;
            _ ← SetDeadline None;      (* deferred: clears the deadline *)
            mret res
        end
  end.

(** [WaitForEvent]; the completed call is recorded in the trace. *)
Definition WaitForEvent (fuel : nat) (ctx : Ctx) (name : string) (timeout : Z) : M (option error) :=
  res ← wait_body fuel ctx name timeout;
  log (EvWait name res);;
  mret res.

(** ** Specifications for the callers *)

Lemma silent_SetDeadline ns : silent (SetDeadline ns).
Proof. unfold SetDeadline. repeat always_step. Qed.

Lemma silent_ReadSlice : silent ReadSlice.
Proof. unfold ReadSlice. repeat always_step. Qed.

Lemma silent_ConnWrite r : silent (ConnWrite r).
Proof. unfold ConnWrite. repeat always_step. Qed.

Lemma silent_CtxErr c : silent (CtxErr c).
Proof. apply silent_ask. Qed.

Lemma silent_sooner ctx d : silent (sooner ctx d).
Proof. unfold sooner. repeat always_step. Qed.

Lemma silent_unmarshal line : silent (unmarshal_response line).
Proof. unfold unmarshal_response. repeat always_step. Qed.

Lemma silent_bufferEvent ev : silent (bufferEvent ev).
Proof. unfold bufferEvent. repeat always_step. Qed.

#[export] Hint Resolve silent_sooner silent_SetDeadline silent_ReadSlice silent_ConnWrite silent_CtxErr
  silent_unmarshal silent_bufferEvent : go_wp.

Lemma silent_readLine fuel : silent (readLine fuel).
Proof.
  induction fuel; simpl; repeat first [solve [eauto with go_wp] | always_step].
Qed.
#[export] Hint Resolve silent_readLine : go_wp.

Lemma silent_execute_loop fuel ctx : silent (execute_loop fuel ctx).
Proof.
  induction fuel; simpl; unfold execute_read_error;
    repeat first [solve [eauto with go_wp] | always_step].
Qed.

Lemma silent_wait_loop fuel ctx name : silent (wait_loop fuel ctx name).
Proof.
  induction fuel; simpl; repeat first [solve [eauto with go_wp] | always_step].
Qed.
#[export] Hint Resolve silent_execute_loop silent_wait_loop : go_wp.

Lemma silent_execute_body fuel ctx cmd args : silent (execute_body fuel ctx cmd args).
Proof. unfold execute_body. repeat first [solve [eauto with go_wp] | always_step]. Qed.

Lemma silent_wait_body fuel ctx name timeout : silent (wait_body fuel ctx name timeout).
Proof. unfold wait_body. repeat first [solve [eauto with go_wp] | always_step]. Qed.
#[export] Hint Resolve silent_execute_body silent_wait_body : go_wp.

(** [Execute] adds exactly one entry to the trace: itself with its result. *)
Lemma twp_Execute env I fuel ctx cmd args (Q : string + error → list event → Prop) t :
  (∀ r, Q r (t ++ [EvExec cmd args r])) → I t →
  twp env (Execute fuel ctx cmd args) I Q t.
Proof.
  intros HQ HI. unfold Execute. apply twp_bind, twp_silent; auto with go_wp.
  intros r. wp_steps. apply HQ.
Qed.

Lemma twp_WaitForEvent env I fuel ctx name timeout (Q : option error → list event → Prop) t :
  (∀ r, Q r (t ++ [EvWait name r])) → I t →
  twp env (WaitForEvent fuel ctx name timeout) I Q t.
Proof.
  intros HQ HI. unfold WaitForEvent. apply twp_bind, twp_silent; auto with go_wp.
  intros r. wp_steps. apply HQ.
Qed.

Lemma twp_Close env I (Q : option error → list event → Prop) t :
  (∀ e, Q e t) → (∀ e, Q e (t ++ [EvConnClose])) → twp env Close I Q t.
Proof. intros. unfold Close. wp_steps. wp_case; wp_steps; auto. Qed.

Lemma twp_NewClient env I fuel ctx path (Q : option error → list event → Prop) t :
  Q None (t ++ [EvDial path None]) →
  (∀ e err, Q (Some e) (t ++ [EvDial path err])) →
  (∀ e, Q (Some e) ((t ++ [EvDial path None]) ++ [EvConnClose])) →
  I (t ++ [EvDial path None]) →
  twp env (NewClient fuel ctx path) I Q t.
Proof.
  intros HN HE HC HI. unfold NewClient.
  repeat first
    [ wp_step
    | lazymatch goal with
      | |- twp _ (handshake_fail _) _ _ _ => unfold handshake_fail
      | |- twp _ (match _ with _ => _ end) _ _ _ => wp_case
      | |- twp _ _ _ _ _ => apply twp_silent; [solve [eauto with go_wp]|intros ?|]
      end
    | solve [eauto] ].
Qed.

Lemma emits_Execute (P : event → Prop) fuel ctx cmd args :
  (∀ r, P (EvExec cmd args r)) → emits P (Execute fuel ctx cmd args).
Proof.
  intros HP. unfold Execute. apply always_bind; [apply _|apply emits_silent; auto with go_wp|].
  intros r. repeat emits_step. apply HP.
Qed.

Lemma emits_WaitForEvent (P : event → Prop) fuel ctx name timeout :
  (∀ r, P (EvWait name r)) → emits P (WaitForEvent fuel ctx name timeout).
Proof.
  intros HP. unfold WaitForEvent. apply always_bind; [apply _|apply emits_silent; auto with go_wp|].
  intros r. repeat emits_step. apply HP.
Qed.

(** ** What the client reads *)

(** The bytes received in a piece of socket traffic. *)
Fixpoint bytes_of (ios : list ioev) : string :=
  match ios with
  | [] => ""
  | IoRead f _ :: ios => f +:+ bytes_of ios
  | _ :: ios => bytes_of ios
  end.

(** The asynchronous events received in a piece of socket traffic. *)
Fixpoint events_of (ios : list ioev) : list response :=
  match ios with
  | [] => []
  | IoLine r :: ios => if (r_event r =? "")%string then events_of ios else r :: events_of ios
  | _ :: ios => events_of ios
  end.

Lemma bytes_of_app a b : bytes_of (a ++ b) = bytes_of a +:+ bytes_of b.
Proof. induction a as [|[] a IH]; simpl; auto. by rewrite IH, string_app_assoc. Qed.

Lemma events_of_app a b : events_of (a ++ b) = events_of a ++ events_of b.
Proof. induction a as [|[] a IH]; simpl; auto. case_match; simpl; by rewrite ?IH. Qed.

Definition oversize : error := ErrNew "QMP line exceeds bytes, discarding".

(** The state of the client after a read that did not complete a line. *)
Definition read_state (w w' : World) (ios : list ioev) : Prop :=
  w_io w' = w_io w ++ ios ∧ events_of ios = [] ∧
  c_events (w_client w') = c_events (w_client w) ∧
  c_conn (w_client w') = c_conn (w_client w).

Definition buffered (w w' : World) (ios : list ioev) : Prop :=
  c_buf (w_client w') = c_buf (w_client w) +:+ bytes_of ios.

Definition read_post (w : World) (r : string + error) (w' : World) : Prop :=
  ∃ ios, read_state w w' ios ∧
    match r with
    | inl line => c_buf (w_client w') = "" ∧ line = c_buf (w_client w) +:+ bytes_of ios
    | inr e =>
        (e = oversize ∧ c_buf (w_client w') = "" ∧
         maxLineSize < slen (c_buf (w_client w) +:+ bytes_of ios)) ∨
        buffered w w' ios
    end.

Lemma read_state_refl w : read_state w w [].
Proof. unfold read_state. by rewrite app_nil_r. Qed.

Lemma slen_app a b : slen (a +:+ b) = slen a + slen b.
Proof. unfold slen. rewrite string_app_length. lia. Qed.

Lemma slen_nonneg a : 0 ≤ slen a.
Proof. unfold slen. lia. Qed.

Lemma slen_0 a : slen a = 0 → a = "".
Proof. destruct a; [done|]. unfold slen. simpl. lia. Qed.

(** One fragment followed by more reads. *)
Lemma read_state_cons w w1 w' frag err ios :
  read_state w w1 [IoRead frag err] → read_state w1 w' ios →
  read_state w w' (IoRead frag err :: ios).
Proof.
  unfold read_state. intros (Hi & He & Hv & Hc) (Hi' & He' & Hv' & Hc').
  split_and!; [|done|congruence..]. by rewrite Hi', Hi, <- app_assoc.
Qed.

Lemma readLine_spec fuel env w :
  wp env (readLine fuel) (fun w' => ∃ ios, read_state w w' ios ∧ buffered w w' ios)
     (read_post w) w.
Proof.
  revert w. induction fuel as [|fuel IH]; intros w.
  { exists []. split; [apply read_state_refl|]. unfold buffered. simpl.
    by rewrite string_app_nil_r. }
  unfold wp in *. cbn [readLine]. unfold ReadSlice, mbind, M_bind, ask, log_io, get_client.
  cbn -[readLine slen maxLineSize Z.gtb Z.eqb errors_Is].
  destruct (e_read env (w_step w)) as [frag err]; simpl fst; simpl snd.
  cbn -[readLine slen maxLineSize Z.gtb Z.eqb errors_Is].
  pose proof (slen_nonneg frag). pose proof (slen_nonneg (c_buf (w_client w))).
  destruct ((slen frag >? 0) && (slen (c_buf (w_client w)) + slen frag >? maxLineSize)) eqn:Hbig.
  { exists [IoRead frag err]. cbn -[slen maxLineSize].
    split; [by unfold read_state|]. left.
    rewrite string_app_nil_r, slen_app. split_and!; [done..|].
    apply andb_true_iff in Hbig as [_ Hbig]. lia. }
  destruct ((slen frag >? 0) && (slen (c_buf (w_client w)) =? 0) && is_nil err) eqn:Hfast.
  { exists [IoRead frag err]. cbn -[slen]. split; [by unfold read_state|].
    apply andb_true_iff in Hfast as [[_ Hb]%andb_true_iff _]. apply Z.eqb_eq, slen_0 in Hb.
    by rewrite Hb, string_app_nil_r. }
  (* the fragment is kept in the buffer *)
  set (w1 := MkWorld (S (w_step w)) (w_io w ++ [IoRead frag err]) (w_trace w)
                     (set_buf (c_buf (w_client w) +:+ frag) (w_client w))).
  assert (Hstep : (if slen frag >? 0
            then set_client (set_buf (c_buf (w_client w) +:+ frag) (w_client w)) else mret tt)
          env (MkWorld (S (w_step w)) (w_io w ++ [IoRead frag err]) (w_trace w) (w_client w))
          = (Done tt, w1)).
  { unfold w1. destruct (slen frag >? 0) eqn:Hf; [done|].
    assert (frag = "") as -> by (apply slen_0; lia).
    rewrite string_app_nil_r. by destruct w as [? ? ? []]. }
  rewrite Hstep. clear Hstep.
  assert (Hs1 : read_state w w1 [IoRead frag err]) by done.
  destruct err as [e|].
  - destruct (errors_Is e ErrBufferFull).
    + specialize (IH w1). destruct (readLine fuel env w1) as [[r|] w'];
        destruct IH as (ios & Hs & Hr); exists (IoRead frag (Some e) :: ios);
        (split; [by eapply read_state_cons|]);
        unfold buffered in *; simpl in Hr |- *; by rewrite string_app_assoc.
    + exists [IoRead frag (Some e)]. split; [done|]. right. unfold buffered. simpl.
      by rewrite string_app_nil_r.
  - exists [IoRead frag None]. split; [done|]. simpl. by rewrite string_app_nil_r.
Qed.

(** ** The event queue *)

Definition queue_ok (w : World) : Prop :=
  (length (c_events (w_client w)) ≤ maxBufferedEvents)%nat.

(** [recv evs w w']: exactly the events [evs] were received and queued. *)
Definition recv (evs : list response) (w w' : World) : Prop :=
  queue_ok w → queue_ok w' ∧ ∃ ios,
    w_io w' = w_io w ++ ios ∧ events_of ios = evs ∧
    c_events (w_client w') = last_n maxBufferedEvents (c_events (w_client w) ++ evs).

Lemma recv_trans evs evs' x y z : recv evs x y → recv evs' y z → recv (evs ++ evs') x z.
Proof.
  intros Hxy Hyz Hx. destruct (Hxy Hx) as (Hy & ios & Hio & <- & Hev).
  destruct (Hyz Hy) as (Hz & ios' & Hio' & <- & Hev'). split; [done|].
  exists (ios ++ ios'). rewrite Hio', Hio, app_assoc, events_of_app. split_and!; [done..|].
  by rewrite Hev', Hev, last_n_app, app_assoc.
Qed.

Lemma recv_nil w w' ios :
  w_io w' = w_io w ++ ios → events_of ios = [] →
  c_events (w_client w') = c_events (w_client w) → recv [] w w'.
Proof.
  intros Hio Hn He Hq. unfold queue_ok in *. rewrite He. split; [done|].
  exists ios. rewrite app_nil_r. split_and!; [done..|]. by rewrite last_n_all.
Qed.

(** The queue after a received event has been buffered. *)
Lemma bufferEvent_recv env w resp :
  (r_event resp =? "")%string = false →
  wp env (bufferEvent resp) (fun _ => False)
     (fun _ w' => recv [resp] w w')
     (MkWorld (w_step w) (w_io w ++ [IoLine resp]) (w_trace w) (w_client w)).
Proof.
  intros Hne. unfold wp, bufferEvent, mbind, M_bind, get_client, set_client.
  cbn -[maxBufferedEvents Z.geb Z.of_nat drop length]. intros Hq. unfold queue_ok in *.
  cbn -[maxBufferedEvents Z.geb Z.of_nat drop length].
  set (evs := c_events (w_client w)) in *.
  assert (Heq : (if Z.of_nat (length evs) >=? Z.of_nat maxBufferedEvents then drop 1 evs else evs) ++ [resp]
                = last_n maxBufferedEvents (evs ++ [resp])).
  { destruct (Z.geb_spec (Z.of_nat (length evs)) (Z.of_nat maxBufferedEvents)).
    - rewrite last_n_push; [done|unfold maxBufferedEvents; lia|lia].
    - rewrite last_n_all; [done|]. len. }
  rewrite Heq. split; [apply last_n_length|]. exists [IoLine resp].
  split_and!; [done| |done]. simpl. by rewrite Hne.
Qed.

(** The queue holds the most recent events: those queued before, then those
    received, in order, the oldest dropped beyond the cap. *)
Definition received (w w' : World) : Prop := ∃ evs, recv evs w w'.

#[global] Instance received_preorder : PreOrder received.
Proof.
  split.
  - intros w. exists []. by apply (recv_nil _ _ []); rewrite ?app_nil_r.
  - intros x y z [evs H1] [evs' H2]. exists (evs ++ evs'). by eapply recv_trans.
Qed.

Lemma received_quiet w w' ios :
  w_io w' = w_io w ++ ios → events_of ios = [] →
  c_events (w_client w') = c_events (w_client w) → received w w'.
Proof. intros. exists []. by eapply recv_nil. Qed.

Lemma received_ask {A} (f : Env → nat → A) : always received (ask f).
Proof. intros env w. by apply (received_quiet _ _ []); simpl; rewrite ?app_nil_r. Qed.

Lemma received_SetDeadline ns : always received (SetDeadline ns).
Proof. intros env w. by apply (received_quiet _ _ [IoDeadline ns]). Qed.

Lemma received_ConnWrite r : always received (ConnWrite r).
Proof. intros env w. by eapply (received_quiet _ _ [IoWrite r _]). Qed.

Lemma received_sooner ctx d : always received (sooner ctx d).
Proof. unfold sooner. repeat first [apply received_ask | always_step]. Qed.

Lemma received_log ev : always received (log ev).
Proof. intros env w. by apply (received_quiet _ _ []); simpl; rewrite ?app_nil_r. Qed.

Lemma received_readLine fuel env w :
  wp env (readLine fuel) (received w) (fun _ => received w) w.
Proof.
  pose proof (readLine_spec fuel env w) as H. unfold wp in *.
  destruct (readLine fuel env w) as [[r|] w'];
    destruct H as (ios & (Hio & Hn & He & _) & _); by eapply received_quiet.
Qed.

(** Receiving one event and buffering it. *)
Lemma received_buffer env w line resp :
  e_dec_response env line = inl resp → (r_event resp =? "")%string = false →
  wp env (r ← unmarshal_response line; match r with inl r => bufferEvent r | inr _ => mret tt end)
     (received w) (fun _ => received w) w.
Proof.
  intros Hd Hne. pose proof (bufferEvent_recv env w resp Hne) as H.
  apply wp_bind. unfold wp at 1, unmarshal_response, mbind, M_bind, reads. rewrite Hd. simpl.
  eapply wp_mono_spin; [eapply wp_mono; [exact H|]|done]. intros. by exists [resp].
Qed.

Lemma received_execute_loop fuel ctx env w :
  wp env (execute_loop fuel ctx) (received w) (fun _ => received w) w.
Proof.
  revert w. induction fuel as [|fuel IH]; intros w; [by apply wp_spin|].
  cbn [execute_loop]. apply wp_bind_rel; [apply _|apply received_readLine|].
  intros [line|e] w1 _ _.
  2: { apply wp_always. unfold execute_read_error.
       repeat first [apply received_ask | always_step]. }
  destruct (e_dec_response env line) as [resp|e] eqn:Hd.
  2: { unfold wp, unmarshal_response, mbind, M_bind, reads. rewrite Hd. simpl. done. }
  destruct (r_event resp =? "")%string eqn:Hev.
  - unfold wp, unmarshal_response, mbind, M_bind, reads. rewrite Hd. simpl. rewrite Hev.
    assert (Hr : received w1 (MkWorld (w_step w1) (w_io w1 ++ [IoLine resp]) (w_trace w1) (w_client w1))).
    { apply (received_quiet _ _ [IoLine resp]); [done| |done]. simpl. by rewrite Hev. }
    by destruct (r_error resp).
  - pose proof (received_buffer env w1 line resp Hd Hev) as Hb.
    pose proof (wp_bind_rel env received _ (fun _ => execute_loop fuel ctx) w1 Hb (fun _ w' _ _ => IH w')) as H.
    unfold wp, unmarshal_response, mbind, M_bind, reads in *. rewrite Hd in *. simpl in *.
    by rewrite Hev.
Qed.

Lemma received_Execute fuel ctx cmd args env w :
  wp env (Execute fuel ctx cmd args) (received w) (fun _ => received w) w.
Proof.
  unfold Execute. apply wp_bind_rel; [apply _| |].
  - unfold execute_body. destruct (cmd =? "")%string; [by apply wp_ret|].
    apply wp_bind_rel; [apply _|apply wp_always, always_get_client, _|]. intros c w1 _ _.
    destruct (negb (c_conn c)); [by apply wp_ret|].
    apply wp_bind_rel; [apply _|apply wp_always, received_sooner|]. intros d w1' _ _.
    apply wp_bind_rel; [apply _|apply wp_always, received_SetDeadline|]. intros [e|] w2 _ _; [by apply wp_ret|].
    apply wp_bind_rel; [apply _|apply wp_always, received_ConnWrite|]. intros err w3 _ _.
    apply wp_bind_rel; [apply _| |].
    + destruct err; [|apply received_execute_loop]. apply wp_always.
      repeat first [apply received_ask | always_step].
    + intros r w4 _ _. apply wp_always. repeat first [apply received_SetDeadline | always_step].
  - intros r w' _ _. apply wp_always. repeat first [apply received_log | always_step].
Qed.

Lemma recv_readLine fuel env w :
  wp env (readLine fuel) (fun _ => True) (fun _ w' => recv [] w w') w.
Proof.
  pose proof (readLine_spec fuel env w) as H. unfold wp in *.
  destruct (readLine fuel env w) as [[r|] w']; [|done].
  destruct H as (ios & (Hio & Hn & He & _) & _). by eapply recv_nil.
Qed.

(** What one call of [WaitForEvent] does to the queue: an earlier-buffered event
    is removed, or events are received until the first one of that name. *)
Definition waited (name : string) (r : option error) (w w' : World) : Prop :=
  match r with
  | Some _ => ∃ evs, recv evs w w' ∧ Forall (fun ev => r_event ev ≠ name) evs
  | None => ∃ evs ev, Forall (fun ev => r_event ev ≠ name) evs ∧ r_event ev = name ∧
      (queue_ok w → queue_ok w' ∧ ∃ ios,
         w_io w' = w_io w ++ ios ∧ events_of ios = evs ++ [ev] ∧
         c_events (w_client w') = last_n maxBufferedEvents (c_events (w_client w) ++ evs))
  end.

Lemma waited_recv evs name r w w1 w2 :
  recv evs w w1 → Forall (fun ev => r_event ev ≠ name) evs → waited name r w1 w2 →
  waited name r w w2.
Proof.
  intros H1 Hf. destruct r as [e|]; simpl.
  - intros (evs' & H2 & Hf'). exists (evs ++ evs'). split; [by eapply recv_trans|].
    by apply Forall_app.
  - intros (evs' & ev & Hf' & Hn & H2). exists (evs ++ evs'), ev.
    split_and!; [by apply Forall_app|done|]. intros Hq.
    destruct (H1 Hq) as (Hq1 & ios & Hio & <- & Hev).
    destruct (H2 Hq1) as (Hq2 & ios' & Hio' & Hev' & Hc). split; [done|].
    exists (ios ++ ios'). rewrite Hio', Hio, app_assoc, events_of_app, Hev', app_assoc.
    split_and!; [done..|]. by rewrite Hc, Hev, last_n_app, app_assoc.
Qed.

Lemma waited_wait_loop fuel ctx name env w :
  name ≠ "" →
  wp env (wait_loop fuel ctx name) (fun _ => True) (fun r w' => waited name r w w') w.
Proof.
  intros Hname. revert w. induction fuel as [|fuel IH]; intros w; [done|].
  cbn [wait_loop]. apply wp_bind.
  eapply wp_mono; [apply recv_readLine|]. intros [line|e] w1 H1; cbn beta in H1.
  2: { apply wp_bind. unfold CtxErr. apply wp_ask, wp_ret.
       exists []. split; [|done]. rewrite <- (app_nil_l []).
       eapply recv_trans; [exact H1|]. by apply (recv_nil _ _ []); rewrite ?app_nil_r. }
  apply wp_bind. unfold wp at 1, unmarshal_response, mbind, M_bind, reads.
  destruct (e_dec_response env line) as [resp|e] eqn:Hd; simpl.
  2: { apply wp_ret. exists []. by split. }
  set (w2 := MkWorld _ _ _ _).
  destruct (String.eqb_spec (r_event resp) name) as [Hn|Hn].
  { apply wp_ret. eapply waited_recv; [exact H1|done|]. exists [], resp.
    split_and!; [done|done|]. intros Hq. split; [done|]. exists [IoLine resp].
    simpl. rewrite app_nil_r. destruct (String.eqb_spec (r_event resp) ""); [congruence|].
    split_and!; [done..|]. by rewrite last_n_all. }
  apply wp_bind. destruct (r_event resp =? "")%string eqn:Hev.
  - apply wp_ret. eapply wp_mono; [apply IH|]. intros r w' H.
    eapply waited_recv; [exact H1|done|]. eapply waited_recv; [|constructor|exact H].
    apply (recv_nil _ _ [IoLine resp]); simpl; by rewrite ?Hev.
  - eapply wp_mono_spin; [|done]. eapply wp_mono; [apply (bufferEvent_recv env w1 resp Hev)|].
    intros [] w3 H3. eapply wp_mono; [apply IH|]. intros r w' H.
    eapply waited_recv; [exact H1|done|]. eapply waited_recv; [exact H3| |exact H].
    by repeat constructor.
Qed.

Lemma find_event_Some name evs i :
  find_event name evs = Some i →
  ∃ pre ev post, evs = pre ++ ev :: post ∧ length pre = i ∧ r_event ev = name ∧
    Forall (fun ev => r_event ev ≠ name) pre.
Proof.
  revert i. induction evs as [|ev evs IH]; intros i; [done|]. simpl.
  destruct (String.eqb_spec (r_event ev) name) as [He|He].
  - intros [= <-]. by exists [], ev, evs.
  - intros (j & Hj & ->)%fmap_Some. destruct (IH _ Hj) as (pre & ev' & post & -> & <- & ? & ?).
    exists (ev :: pre), ev', post. split_and!; [done..|]. by constructor.
Qed.

Lemma find_event_None name evs :
  find_event name evs = None → Forall (fun ev => r_event ev ≠ name) evs.
Proof.
  induction evs as [|ev evs IH]; [by constructor|]. simpl.
  destruct (String.eqb_spec (r_event ev) name); [done|].
  intros H%fmap_None. constructor; auto.
Qed.

Lemma delete_at_middle {A} (pre : list A) x post :
  delete_at (length pre) (pre ++ x :: post) = pre ++ post.
Proof.
  unfold delete_at. rewrite take_app_length.
  replace (S (length pre)) with (length pre + 1)%nat by lia.
  by rewrite <- drop_drop, drop_app_length.
Qed.

(** The part of [WaitForEvent] after the queue has been searched in vain. *)
Lemma wait_body_slow fuel ctx name timeout env w r w' :
  name ≠ "" →
  (if negb (c_conn (w_client w)) then mret (Some (ErrNew "waiting for QMP event: connection is closed"))
   else
     deadline ← sooner ctx timeout;
     err ← SetDeadline (Some deadline);
     match err with
     | Some e => mret (Some (ErrWrap "setting event read deadline" e))
     | None => res ← wait_loop fuel ctx name; _ ← SetDeadline None; mret res
     end) env w = (Done r, w') →
  waited name r w w'.
Proof.
  intros Hn. assert (Hnil : ∀ x y ios, w_io y = w_io x ++ ios → events_of ios = [] →
     c_events (w_client y) = c_events (w_client x) → ∀ e, waited name (Some e) x y).
  { intros x y ios H1 H2 H3 e. exists []. split; [by eapply recv_nil|done]. }
  destruct (negb _); [intros [= <- <-]; by eapply (Hnil _ _ []); rewrite ?app_nil_r|].
  unfold sooner, SetDeadline, mbind, M_bind, ask, log_io, mret, M_ret.
  destruct (e_setdeadline env _) as [e|]; [intros [= <- <-]; by eapply Hnil|].
  set (w1 := MkWorld _ _ _ _).
  pose proof (waited_wait_loop fuel ctx name env w1 Hn) as Hl. unfold wp in Hl.
  destruct (wait_loop fuel ctx name env w1) as [[r1|] w2]; [|done]. intros [= -> <-].
  assert (H0 : recv [] w w1) by by eapply recv_nil.
  assert (H3 : waited name r w w2) by by eapply waited_recv.
  destruct r as [e|]; simpl in H3 |- *.
  - destruct H3 as (evs & Hr & Hf). exists evs. split; [|done]. rewrite <- (app_nil_r evs).
    eapply recv_trans; [exact Hr|]. by eapply recv_nil.
  - destruct H3 as (evs & ev & Hf & Hev & Hr). exists evs, ev. split_and!; [done..|].
    intros Hq. destruct (Hr Hq) as (Hq' & ios & Hio & He & Hc). split; [done|].
    exists (ios ++ [IoDeadline None]). simpl. rewrite Hio, events_of_app, He, app_nil_r.
    by rewrite app_assoc.
Qed.

(** ** Properties *)

(** C18. [readLine] loses no byte: what it returns, or what stays in the
    accumulation buffer when the read fails (a timeout, say), is the buffer
    before the call followed by every byte received during it.  The one
    exception is a line longer than [maxLineSize], which is discarded. *)
Theorem readLine_no_data_loss fuel env w r w' :
  readLine fuel env w = (Done r, w') →
  ∃ ios, w_io w' = w_io w ++ ios ∧
    let data := c_buf (w_client w) +:+ bytes_of ios in
    match r with
    | inl line => line = data ∧ c_buf (w_client w') = ""
    | inr e => c_buf (w_client w') = data ∨
               (c_buf (w_client w') = "" ∧ maxLineSize < slen data)
    end.
Proof.
  intros Hr. pose proof (wp_run _ _ _ _ _ _ _ (readLine_spec fuel env w) Hr)
    as (ios & (Hio & _) & H).
  exists ios. split; [done|]. cbn zeta. destruct r; [by destruct H|].
  destruct H as [(_ & ? & ?)|H]; [by right|by left].
Qed.

(** The accumulation buffer never exceeds [maxLineSize], whatever QEMU
    sends and however the reads fail. *)
Theorem readLine_buffer_bounded fuel env w :
  slen (c_buf (w_client w)) ≤ maxLineSize →
  slen (c_buf (w_client (readLine fuel env w).2)) ≤ maxLineSize.
Proof.
  revert w. induction fuel as [|fuel IH]; intros w Hw; [done|].
  cbn [readLine]. unfold ReadSlice, mbind, M_bind, ask, log_io, get_client.
  cbn -[readLine slen maxLineSize Z.gtb Z.eqb errors_Is].
  destruct (e_read env (w_step w)) as [frag err]; simpl fst; simpl snd.
  cbn -[readLine slen maxLineSize Z.gtb Z.eqb errors_Is].
  destruct ((slen frag >? 0) && (slen (c_buf (w_client w)) + slen frag >? maxLineSize)) eqn:Hbig; [done|].
  destruct ((slen frag >? 0) && (slen (c_buf (w_client w)) =? 0) && is_nil err); [done|].
  destruct (slen frag >? 0) eqn:Hf; simpl in Hbig;
    (destruct err as [e|]; [destruct (errors_Is e ErrBufferFull)|]); simpl;
    try (apply IH; simpl); rewrite ?slen_app; try lia; done.
Qed.

(** An [Execute] call, whatever its outcome, keeps the event queue within its
    cap and loses no event before the cap is reached: afterwards the queue is
    the queue before the call followed by the events received during the call,
    in order, less the oldest ones beyond [maxBufferedEvents]. *)
Theorem Execute_keeps_events fuel ctx cmd args env w :
  queue_ok w →
  let w' := (Execute fuel ctx cmd args env w).2 in
  queue_ok w' ∧ ∃ ios, w_io w' = w_io w ++ ios ∧
    c_events (w_client w') = last_n maxBufferedEvents (c_events (w_client w) ++ events_of ios).
Proof.
  intros Hq. pose proof (received_Execute fuel ctx cmd args env w) as H. unfold wp in H.
  destruct (Execute fuel ctx cmd args env w) as [[r|] w']; cbn zeta;
    destruct H as [evs H]; destruct (H Hq) as (? & ios & ? & <- & ?); eauto.
Qed.

(** C20. [WaitForEvent] for a name that is not empty, on a client whose queue holds
    at most maxBufferedEvents (1000) events, consumes exactly one event of that
    name whenever it returns.  If one is queued it removes the first of them,
    without touching the connection or the other queued events; otherwise it
    returns at the first one received, with every event that arrived before it
    appended to the queue.  When it fails no queued event of that name was there
    and none was received.  The queue keeps the last 1000 events: only the oldest
    beyond that are dropped. *)
Theorem WaitForEvent_consumes_one fuel ctx name timeout env w r w' :
  name ≠ "" → queue_ok w →
  WaitForEvent fuel ctx name timeout env w = (Done r, w') →
  let q := c_events (w_client w) in
  let q' := c_events (w_client w') in
  (∃ pre ev post, q = pre ++ ev :: post ∧ Forall (fun ev => r_event ev ≠ name) pre ∧
     r_event ev = name ∧ r = None ∧ q' = pre ++ post ∧ w_io w' = w_io w) ∨
  (Forall (fun ev => r_event ev ≠ name) q ∧ ∃ ios evs,
     w_io w' = w_io w ++ ios ∧ Forall (fun ev => r_event ev ≠ name) evs ∧
     q' = last_n maxBufferedEvents (q ++ evs) ∧
     match r with
     | None => ∃ ev, r_event ev = name ∧ events_of ios = evs ++ [ev]
     | Some _ => events_of ios = evs
     end).
Proof.
  intros Hn Hq Hrun. unfold WaitForEvent in Hrun.
  assert (Hb : ∃ w1, wait_body fuel ctx name timeout env w = (Done r, w1) ∧
                 w_client w' = w_client w1 ∧ w_io w' = w_io w1).
  { unfold mbind, M_bind, log, mret, M_ret in Hrun.
    destruct (wait_body fuel ctx name timeout env w) as [[r1|] w1]; [|done].
    injection Hrun as -> <-. eauto. }
  destruct Hb as (w1 & Hb & -> & ->). clear Hrun w'.
  unfold wait_body in Hb. cbn [mbind M_bind get_client] in Hb. cbn zeta.
  unfold mbind, M_bind, get_client in Hb.
  destruct (find_event name (c_events (w_client w))) as [i|] eqn:Hf.
  - left. apply find_event_Some in Hf as (pre & ev & post & Heq & <- & Hev & Hpre).
    rewrite Heq, delete_at_middle in Hb. injection Hb as <- <-.
    exists pre, ev, post. done.
  - right. split; [by apply find_event_None|].
    apply wait_body_slow in Hb; [|done].
    destruct r as [e|].
    + destruct Hb as (evs & Hr & Hfa). destruct (Hr Hq) as (_ & ios & ? & ? & ?). eauto 10.
    + destruct Hb as (evs & ev & Hfa & Hev & Hr). destruct (Hr Hq) as (_ & ios & ? & ? & ?).
      exists ios, evs. split_and!; eauto.
Qed.

(** The socket delivers [lines], one per read, from request number [k] on. *)
Definition delivers (env : Env) (k : nat) (lines : list string) : Prop :=
  ∀ i l, lines !! i = Some l → e_read env (k + i) = (l, None).

Definition line_ok (l : string) : Prop := 0 < slen l ≤ maxLineSize.

Lemma readLine_delivered fuel env w l :
  c_buf (w_client w) = "" → line_ok l → e_read env (w_step w) = (l, None) →
  readLine (S fuel) env w =
    (Done (inl l), MkWorld (S (w_step w)) (w_io w ++ [IoRead l None]) (w_trace w) (w_client w)).
Proof.
  intros Hb [Hl1 Hl2] Hr. cbn [readLine]. unfold ReadSlice, mbind, M_bind, ask, log_io, get_client, mret, M_ret.
  rewrite Hr. cbn -[slen maxLineSize readLine]. rewrite Hb.
  replace (slen "") with 0 by done.
  replace (slen l >? 0) with true by lia.
  replace (0 + slen l >? maxLineSize) with false by lia. done.
Qed.

Lemma unmarshal_ok env w line resp :
  e_dec_response env line = inl resp →
  unmarshal_response line env w =
    (Done (inl resp), MkWorld (w_step w) (w_io w ++ [IoLine resp]) (w_trace w) (w_client w)).
Proof. intros H. unfold unmarshal_response, mbind, M_bind, reads. by rewrite H. Qed.

Lemma delivers_head env k l ls : delivers env k (l :: ls) → e_read env k = (l, None).
Proof. intros H. specialize (H 0%nat l eq_refl). by rewrite Nat.add_0_r in H. Qed.

Lemma delivers_tail env k l ls : delivers env k (l :: ls) → delivers env (S k) ls.
Proof. intros H i x Hi. specialize (H (S i) x Hi). by rewrite Nat.add_succ_r in H. Qed.

(** [bufferEvent] runs in one go. *)
Lemma bufferEvent_run env w resp :
  (r_event resp =? "")%string = false → queue_ok w →
  ∃ w', bufferEvent resp env (MkWorld (w_step w) (w_io w ++ [IoLine resp]) (w_trace w) (w_client w))
        = (Done tt, w') ∧ queue_ok w' ∧ w_step w' = w_step w ∧
    c_events (w_client w') = last_n maxBufferedEvents (c_events (w_client w) ++ [resp]) ∧
    c_buf (w_client w') = c_buf (w_client w) ∧ c_conn (w_client w') = c_conn (w_client w).
Proof.
  intros Hne Hq. pose proof (bufferEvent_recv env w resp Hne) as H. unfold wp in H.
  unfold bufferEvent, mbind, M_bind, get_client, set_client in *.
  destruct (H Hq) as (Hq' & ios & _ & _ & Hc). eexists. split; [reflexivity|]. done.
Qed.

Lemma execute_loop_delivers fuel ctx env evs reply ret w :
  (length evs < fuel)%nat → c_buf (w_client w) = "" → queue_ok w →
  delivers env (w_step w) (evs.*1 ++ [reply]) →
  Forall (fun p => line_ok p.1 ∧ e_dec_response env p.1 = inl p.2 ∧ r_event p.2 ≠ "") evs →
  line_ok reply → e_dec_response env reply = inl (Response (Some ret) None "") →
  ∃ w', execute_loop fuel ctx env w = (Done (inl ret), w') ∧
    c_events (w_client w') = last_n maxBufferedEvents (c_events (w_client w) ++ evs.*2) ∧
    c_conn (w_client w') = c_conn (w_client w) ∧ c_buf (w_client w') = "".
Proof.
  revert fuel w. induction evs as [|[l ev] evs IH]; intros [|fuel] w Hfuel Hbuf Hq Hs Hev Hline Hdec;
    simpl in Hfuel; [lia| |lia|].
  - cbn [execute_loop].
    rewrite (run_bind _ _ _ _ _ _ (readLine_delivered fuel env w reply Hbuf Hline (delivers_head _ _ _ _ Hs))).
    rewrite (run_bind _ _ _ _ _ _ (unmarshal_ok _ _ _ _ Hdec)).
    eexists. split; [done|]. simpl. rewrite app_nil_r. rewrite last_n_all; done.
  - apply Forall_cons in Hev as [(Hl & Hd & Hne) Hev]. simpl in Hl, Hd, Hne. cbn [execute_loop].
    rewrite (run_bind _ _ _ _ _ _ (readLine_delivered fuel env w l Hbuf Hl (delivers_head _ _ _ _ Hs))).
    rewrite (run_bind _ _ _ _ _ _ (unmarshal_ok _ _ _ _ Hd)).
    apply String.eqb_neq in Hne. rewrite Hne.
    set (w1 := MkWorld (S (w_step w)) (w_io w ++ [IoRead l None]) (w_trace w) (w_client w)).
    destruct (bufferEvent_run env w1 ev Hne Hq) as (w2 & Hrun & Hq2 & Hst & Hc & Hb2 & Hco).
    rewrite (run_bind _ _ _ _ _ _ Hrun).
    destruct (IH fuel w2) as (w' & Hrun' & Hc' & Hco' & Hb'); [lia|by rewrite Hb2|done| |done|done|done|].
    { rewrite Hst. exact (delivers_tail _ _ _ _ Hs). }
    exists w'. split_and!; [done| |by rewrite Hco', Hco|done].
    rewrite Hc', Hc, last_n_app. simpl. by rewrite <- app_assoc.
Qed.

(** C19. On a healthy connection [Execute] returns the reply to its command: if
    the write succeeds and the socket then delivers any number of asynchronous
    events followed by the reply, the call terminates with the reply's return
    value, with all those events queued in order and nothing left in the
    accumulation buffer. *)
Theorem Execute_returns_reply fuel ctx cmd args env evs reply ret w :
  cmd ≠ "" → c_conn (w_client w) = true → c_buf (w_client w) = "" → queue_ok w →
  e_setdeadline env (S (w_step w)) = None → e_write env (S (S (w_step w))) = None →
  delivers env (S (S (S (w_step w)))) (evs.*1 ++ [reply]) →
  Forall (fun p => line_ok p.1 ∧ e_dec_response env p.1 = inl p.2 ∧ r_event p.2 ≠ "") evs →
  line_ok reply → e_dec_response env reply = inl (Response (Some ret) None "") →
  (length evs < fuel)%nat →
  ∃ w', Execute fuel ctx cmd args env w = (Done (inl ret), w') ∧
    c_events (w_client w') = last_n maxBufferedEvents (c_events (w_client w) ++ evs.*2) ∧
    c_buf (w_client w') = "" ∧ w_trace w' = w_trace w ++ [EvExec cmd args (inl ret)].
Proof.
  intros Hcmd Hconn Hbuf Hq Hsd Hwr Hs Hev Hline Hdec Hfuel.
  set (w1 := MkWorld (S (S (S (w_step w))))
    ((w_io w ++ [IoDeadline (Some (match e_deadline env ctx (w_step w) with
        Some d => if d <? executeTimeout then d else executeTimeout | None => executeTimeout end))])
     ++ [IoWrite (Request cmd args) None]) (w_trace w) (w_client w)).
  destruct (execute_loop_delivers fuel ctx env evs reply ret w1) as (w2 & Hrun & Hc & _ & Hb); auto.
  pose proof (silent_execute_loop fuel ctx env w1) as Ht. rewrite Hrun in Ht.
  apply String.eqb_neq in Hcmd.
  unfold Execute, execute_body, sooner, SetDeadline, ConnWrite, ask, log_io, log, get_client,
    mbind, M_bind, mret, M_ret.
  rewrite Hcmd, Hconn. cbn -[execute_loop executeTimeout]. rewrite Hsd.
  cbn -[execute_loop executeTimeout]. rewrite Hwr. fold w1.
  rewrite Hrun. eexists. split; [reflexivity|]. simpl. split_and!; [done..|]. f_equal. exact Ht.
Qed.

(** ** Examples *)

(** A QEMU that answers in lines: [slow] first lets the greeting time out. *)
Definition demo_decode (l : string) : response + error :=
  if (l =? "greeting")%string then inl (Response None None "")
  else if (l =? "capabilities reply")%string then inl (Response (Some "{}") None "")
  else if (l =? "reply")%string then inl (Response (Some "42") None "")
  else if (l =? "STOP")%string then inl (Response None None "STOP")
  else if (l =? "JOB_READY")%string then inl (Response None None "JOB_READY")
  else inr (ErrNew "json").

Definition demo_read (n : nat) : string * option error :=
  match n with
  | 3%nat => ("JOB_READY", None)
  | 4%nat => ("STOP", None)
  | 5%nat => ("reply", None)
  | _ => ("", Some (ErrNet true))
  end.

Definition demo_env : Env := env_qmp demo_read demo_decode (fun _ _ => None).
Definition demo_world : World := MkWorld 0 [] [] (MkClient true [] "" "qmp.sock").

Definition late_read (n : nat) : string * option error :=
  match n with
  | 2%nat => ("", Some (ErrNet true))              (* no greeting within a second *)
  | 5%nat => ("greeting", None)
  | 11%nat => ("capabilities reply", None)
  | _ => ("reply", None)
  end.

Definition late_env : Env := env_qmp late_read demo_decode (fun _ _ => None).

(** A greeting that arrives after [greetingTimeout] shifts every later reply:
    [NewClient] takes the greeting for the reply to qmp_capabilities, and the
    first command executed afterwards, whichever it is, is answered with the
    reply to qmp_capabilities.  (Requests carry no id, so nothing detects it.) *)
Theorem late_greeting_shifts_replies cmd args :
  cmd ≠ "" →
  ∃ w1 w2, NewClient 8 CtxCaller "qmp.sock" late_env world0 = (Done None, w1) ∧
    Execute 8 CtxCaller cmd args late_env w1 = (Done (inl "{}"), w2).
Proof.
  intros Hcmd. eexists. eexists. split; [vm_compute; reflexivity|].
  apply String.eqb_neq in Hcmd. unfold Execute, execute_body. rewrite Hcmd.
  vm_compute. reflexivity.
Qed.

Lemma late_greeting_shifts_replies_witness :
  ∃ w1 w2, NewClient 8 CtxCaller "qmp.sock" late_env world0 = (Done None, w1) ∧
    Execute 8 CtxCaller "query-migrate" NoArgs late_env w1 = (Done (inl "{}"), w2).
Proof. apply late_greeting_shifts_replies. done. Defined.

Definition partial_env : Env :=
  env_qmp (fun _ => ("par", Some (ErrNet true))) demo_decode (fun _ _ => None).

Lemma readLine_no_data_loss_witness :
  let w' := (readLine 2 partial_env demo_world).2 in
  c_buf (w_client w') = "par" ∧
  ∃ ios, w_io w' = w_io demo_world ++ ios ∧
    let data := c_buf (w_client demo_world) +:+ bytes_of ios in
    c_buf (w_client w') = data ∨ (c_buf (w_client w') = "" ∧ maxLineSize < slen data).
Proof.
  split; [vm_compute; reflexivity|].
  apply (readLine_no_data_loss 2 partial_env demo_world
    (inr (ErrWrap "reading QMP line" (ErrNet true)))).
  vm_compute. reflexivity.
Defined.

Lemma readLine_buffer_bounded_witness :
  slen (c_buf (w_client (readLine 2 demo_env demo_world).2)) ≤ maxLineSize.
Proof. apply readLine_buffer_bounded. vm_compute. discriminate. Defined.

Lemma Execute_keeps_events_witness :
  queue_ok (Execute 8 CtxCaller "query-jobs" NoArgs demo_env demo_world).2.
Proof. apply Execute_keeps_events. vm_compute. lia. Defined.

Lemma WaitForEvent_consumes_one_witness :
  let w' := (WaitForEvent 8 CtxCaller "STOP" second demo_env
              (MkWorld 1 [] [] (MkClient true [Response None None "RESUME"] "" "qmp.sock"))).2 in
  c_events (w_client w') = [Response None None "RESUME"; Response None None "JOB_READY"] ∧
  (∃ pre ev post, [Response None None "RESUME"] = pre ++ ev :: post ∧
     Forall (fun ev => r_event ev ≠ "STOP") pre ∧ r_event ev = "STOP" ∧ None = @None error ∧
     c_events (w_client w') = pre ++ post ∧ w_io w' = []) ∨
  (Forall (fun ev => r_event ev ≠ "STOP") [Response None None "RESUME"] ∧ ∃ ios evs,
     w_io w' = [] ++ ios ∧ Forall (fun ev => r_event ev ≠ "STOP") evs ∧
     c_events (w_client w') = last_n maxBufferedEvents ([Response None None "RESUME"] ++ evs) ∧
     ∃ ev, r_event ev = "STOP" ∧ events_of ios = evs ++ [ev]).
Proof.
  intros w'. right.
  destruct (WaitForEvent_consumes_one 8 CtxCaller "STOP" second demo_env
    (MkWorld 1 [] [] (MkClient true [Response None None "RESUME"] "" "qmp.sock")) None w')
    as [H|H]; [done|vm_compute; lia|vm_compute; reflexivity| |exact H].
  destruct H as (pre & ev & post & Heq & _ & Hev & _). exfalso.
  destruct pre as [|x [|? ?]]; injection Heq; intros; subst; discriminate.
Defined.

Definition demo_events : list (string * response) :=
  [("JOB_READY", Response None None "JOB_READY"); ("STOP", Response None None "STOP")].

Lemma Execute_returns_reply_witness :
  ∃ w', Execute 8 CtxCaller "query-jobs" NoArgs demo_env demo_world = (Done (inl "42"), w') ∧
    c_events (w_client w') =
      last_n maxBufferedEvents (c_events (w_client demo_world) ++ demo_events.*2) ∧
    c_buf (w_client w') = "" ∧
    w_trace w' = w_trace demo_world ++ [EvExec "query-jobs" NoArgs (inl "42")].
Proof.
  apply (Execute_returns_reply 8 CtxCaller "query-jobs" NoArgs demo_env demo_events "reply" "42" demo_world);
    try reflexivity.
  - discriminate.
  - vm_compute. lia.
  - intros [|[|[|i]]] l H; simpl in H; by simplify_eq.
  - repeat constructor; first [discriminate | vm_compute; discriminate | vm_compute; reflexivity].
  - split; vm_compute; first [reflexivity | discriminate].
  - vm_compute. lia.
Defined.
