(* ===== verification/Netip.v ===== *)
(** * Go's net/netip.Addr

    The part of the standard library's address type that the migration code and
    the request validation use.  An IPv6 address is its eight 16-bit groups and
    its zone. *)
From S2P Require Import Prelude GoStrings.

Inductive Addr :=
| AddrInvalid                                   (* the zero Addr *)
| Addr4 (a b c d : Z)
| Addr6 (groups : list Z) (zone : string).

#[global] Instance Addr_eq_dec : EqDecision Addr.
Proof. solve_decision. Defined.

Definition IsValid (a : Addr) : bool := match a with AddrInvalid => false | _ => true end.
Definition Is4 (a : Addr) : bool := match a with Addr4 _ _ _ _ => true | _ => false end.
Definition Is6 (a : Addr) : bool := match a with Addr6 _ _ => true | _ => false end.

(** [Is4In6]: the prefix ::ffff:0:0/96. *)
Definition Is4In6 (a : Addr) : bool :=
  match a with
  | Addr6 [0; 0; 0; 0; 0; 65535; _; _] _ => true
  | _ => false
  end.

Definition Unmap (a : Addr) : Addr :=
  match a with
  | Addr6 [0; 0; 0; 0; 0; 65535; g; h] _ => Addr4 (g / 256) (g mod 256) (h / 256) (h mod 256)
  | _ => a
  end.

(** ** Printing *)

Definition hex_digit (d : Z) : ascii :=
  ascii_of_nat (Z.to_nat (if d <? 10 then 48 + d else 87 + d)).

(** [appendHex] of a 16-bit group: no leading zeros. *)
Definition hex16 (g : Z) : string :=
  let d3 := String (hex_digit (g / 4096)) "" in
  let d2 := String (hex_digit ((g / 256) mod 16)) "" in
  let d1 := String (hex_digit ((g / 16) mod 16)) "" in
  let d0 := String (hex_digit (g mod 16)) "" in
  if g >=? 4096 then d3 +:+ d2 +:+ d1 +:+ d0
  else if g >=? 256 then d2 +:+ d1 +:+ d0
  else if g >=? 16 then d1 +:+ d0
  else d0.

Definition string4 (a b c d : Z) : string :=
  Itoa a +:+ "." +:+ Itoa b +:+ "." +:+ Itoa c +:+ "." +:+ Itoa d.

(** The length of the run of zero groups at the head. *)
Fixpoint zero_run (gs : list Z) : nat :=
  match gs with
  | g :: gs => if g =? 0 then S (zero_run gs) else 0%nat
  | [] => 0%nat
  end.

(** The first longest run of at least two zero groups: start and end. *)
Fixpoint best_run (i : nat) (gs : list Z) (best : nat * nat) : nat * nat :=
  match gs with
  | [] => best
  | _ :: gs' =>
      let l := zero_run gs in
      let best := if (2 <=? l)%nat && (best.2 - best.1 <? l)%nat then (i, (i + l)%nat) else best in
      best_run (S i) gs' best
  end.

Definition string6 (gs : list Z) : string :=
  match best_run 0 gs (8, 8)%nat with
  | (s, e) =>
      if (s <? 8)%nat then
        Join ":" (hex16 <$> take s gs) +:+ "::" +:+ Join ":" (hex16 <$> drop e gs)
      else Join ":" (hex16 <$> gs)
  end.

Definition with_zone (s zone : string) : string :=
  if (zone =? "")%string then s else s +:+ "%" +:+ zone.

Definition String_ (a : Addr) : string :=
  match a with
  | AddrInvalid => "invalid IP"
  | Addr4 a b c d => string4 a b c d
  | Addr6 gs zone =>
      match Unmap a with
      | Addr4 a b c d => with_zone ("::ffff:" +:+ string4 a b c d) zone
      | _ => with_zone (string6 gs) zone
      end
  end.

(** ** Parsing *)

(** [parseIPv4Fields]: [val], [digLen] and the finished octets so far; [prev] says
    whether the previous character was a dot (or there was none). *)
Fixpoint parseIPv4Fields (s : string) (val : Z) (digLen : nat) (prev : bool) (done : list Z)
    : option (list Z) :=
  match s with
  | "" => if (length done =? 3)%nat && negb prev then Some (done ++ [val]) else None
  | String c s =>
      if is_digit c then
        if (digLen =? 1)%nat && (val =? 0) then None
        else
          let val := val * 10 + (Z.of_nat (nat_of_ascii c) - 48) in
          if val >? 255 then None else parseIPv4Fields s val (S digLen) false done
      else if (c =? ".")%char then
        if prev then None
        else if (length done =? 3)%nat then None
        else parseIPv4Fields s 0 0 true (done ++ [val])
      else None
  end.

Definition parseIPv4 (s : string) : option (list Z) := parseIPv4Fields s 0 0 true [].

Definition hex_val (c : ascii) : option Z :=
  let n := Z.of_nat (nat_of_ascii c) in
  if is_digit c then Some (n - 48)
  else if in_range "a" "f" c then Some (n - 87)
  else if in_range "A" "F" c then Some (n - 55)
  else None.

(** One group of hex digits: value, number of digits, rest; [None] after more
    than four digits. *)
Fixpoint hex_group (s : string) (acc : Z) (off : nat) : option (Z * nat * string) :=
  match s with
  | String c s' =>
      match hex_val c with
      | Some d => if (3 <? off)%nat then None else hex_group s' (acc * 16 + d) (S off)
      | None => Some (acc, off, s)
      end
  | "" => Some (acc, off, s)
  end.

(** The loop of [parseIPv6]: the groups read so far, the position of the
    ellipsis, the rest of the string.  Each round reads one group, so eight
    rounds suffice. *)
Fixpoint parseIPv6_loop (n : nat) (s : string) (gs : list Z) (ell : option nat)
    : option (list Z * option nat * string) :=
  match n with
  | O => Some (gs, ell, s)
  | S n =>
      match hex_group s 0 0 with
      | None => None
      | Some (acc, off, rest) =>
          if (off =? 0)%nat then None
          else
            match rest with
            | String "." _ =>
                if bool_decide (ell = None) && negb (length gs =? 6)%nat then None
                else if (6 <? length gs)%nat then None
                else
                  match parseIPv4 s with
                  | Some [a; b; c; d] => Some (gs ++ [a * 256 + b; c * 256 + d], ell, "")
                  | _ => None
                  end
            | "" => Some (gs ++ [acc], ell, "")
            | String ":" "" => None
            | String ":" (String ":" rest2) =>
                match ell with
                | Some _ => None
                | None =>
                    let gs := gs ++ [acc] in
                    if (rest2 =? "")%string then Some (gs, Some (length gs), "")
                    else parseIPv6_loop n rest2 gs (Some (length gs))
                end
            | String ":" rest1 => parseIPv6_loop n rest1 (gs ++ [acc]) ell
            | _ => None
            end
      end
  end.

Definition parseIPv6_groups (s : string) : option (list Z) :=
  let start := if HasPrefix s "::" then (sdrop 2 s, Some 0%nat) else (s, None) in
  if HasPrefix s "::" && (sdrop 2 s =? "")%string then Some [0; 0; 0; 0; 0; 0; 0; 0]
  else
    match parseIPv6_loop 8 start.1 [] start.2 with
    | Some (gs, ell, "") =>
        match ell with
        | None => if (length gs <? 8)%nat then None else Some gs
        | Some e =>
            if (length gs <? 8)%nat
            then Some (take e gs ++ replicate (8 - length gs) 0 ++ drop e gs)
            else None
        end
    | _ => None
    end.

Definition parseIPv6 (s : string) : option Addr :=
  match IndexByte s "%" with
  | None => (fun gs => Addr6 gs "") <$> parseIPv6_groups s
  | Some i =>
      if (sdrop (S i) s =? "")%string then None
      else (fun gs => Addr6 gs (sdrop (S i) s)) <$> parseIPv6_groups (stake i s)
  end.

(** [ParseAddr]: the first of '.', ':' and '%' decides the family. *)
Definition ParseAddr (s : string) : option Addr :=
  match IndexAny s ".:%" with
  | None => None
  | Some i =>
      match sdrop i s with
      | String "." _ =>
          match parseIPv4 s with
          | Some [a; b; c; d] => Some (Addr4 a b c d)
          | _ => None
          end
      | String ":" _ => parseIPv6 s
      | _ => None
      end
  end.

(** ** Facts *)

Definition octet (z : Z) : Prop := 0 ≤ z < 256.

Lemma digit_not c d : is_digit c = true → is_digit d = false → (c =? d)%char = false.
Proof. intros Hc Hd. destruct (Ascii.eqb_spec c d); [congruence|done]. Qed.

Lemma digits_no_char sep s : forallb_str is_digit s = true → is_digit sep = false → no_char sep s = true.
Proof.
  intros Hs Hsep. unfold no_char. eapply forallb_str_mono; [|exact Hs].
  intros c Hc. by rewrite (digit_not c sep).
Qed.

(** The printed form of an IPv4 address has no colon. *)
Lemma string4_no_colon a b c d :
  octet a → octet b → octet c → octet d → no_char ":" (string4 a b c d) = true.
Proof.
  unfold octet. intros. unfold string4, no_char. rewrite !forallb_str_app.
  assert (Hd : ∀ z, 0 ≤ z → no_char ":" (Itoa z) = true).
  { intros z Hz. apply digits_no_char; [by apply Itoa_digits|done]. }
  unfold no_char in Hd. rewrite !Hd by lia. done.
Qed.

Example string6_ex1 : String_ (Addr6 [8193; 3512; 0; 0; 0; 0; 0; 1] "") = "2001:db8::1".
Proof. vm_compute. reflexivity. Qed.
Example string6_ex2 : String_ (Addr6 [0; 0; 0; 0; 0; 0; 0; 0] "") = "::".
Proof. vm_compute. reflexivity. Qed.
Example string6_ex3 : String_ (Addr6 [0; 0; 0; 0; 0; 65535; 2561; 515] "") = "::ffff:10.1.2.3".
Proof. vm_compute. reflexivity. Qed.
Example parse_ex1 : ParseAddr "2001:db8::1" = Some (Addr6 [8193; 3512; 0; 0; 0; 0; 0; 1] "").
Proof. vm_compute. reflexivity. Qed.
Example parse_ex2 : ParseAddr "10.0.0.01" = None.
Proof. vm_compute. reflexivity. Qed.
Example parse_ex3 : ParseAddr "::ffff:10.1.2.3%eth0" = Some (Addr6 [0; 0; 0; 0; 0; 65535; 2561; 515] "eth0").
Proof. vm_compute. reflexivity. Qed.
Example parse_ex4 : ParseAddr "fe80::" = Some (Addr6 [65152; 0; 0; 0; 0; 0; 0; 0] "").
Proof. vm_compute. reflexivity. Qed.
Example parse_ex5 : ParseAddr "10.244.1.7" = Some (Addr4 10 244 1 7).
Proof. vm_compute. reflexivity. Qed.

(** The values Go's type can hold. *)
Definition wf_addr (a : Addr) : Prop :=
  match a with
  | AddrInvalid => True
  | Addr4 a b c d => octet a ∧ octet b ∧ octet c ∧ octet d
  | Addr6 gs _ => length gs = 8%nat ∧ Forall (fun g => 0 ≤ g < 65536) gs
  end.

Lemma Unmap_cases a :
  Unmap a = a ∨ ∃ g h zone, a = Addr6 [0; 0; 0; 0; 0; 65535; g; h] zone ∧
    Unmap a = Addr4 (g / 256) (g mod 256) (h / 256) (h mod 256).
Proof.
  unfold Unmap. repeat (case_match; try (by left); subst). right. eauto 10.
Qed.

Lemma wf_Unmap a : wf_addr a → wf_addr (Unmap a).
Proof.
  intros Hwf. destruct (Unmap_cases a) as [->|(g & h & zone & -> & ->)]; [done|].
  destruct Hwf as [_ Hf]. do 6 apply Forall_cons in Hf as [_ Hf].
  apply Forall_cons in Hf as [Hg Hf]. apply Forall_cons in Hf as [Hh _].
  unfold wf_addr, octet. split_and!; try (apply Z.div_pos || apply Z.mod_pos_bound); try lia;
    try (apply Z.div_lt_upper_bound; lia); apply Z.mod_pos_bound; lia.
Qed.
