(* ===== verification/MigConfig.v ===== *)
(** * Migration configuration and argument validation
    (internal/migration/config.go, internal/migration/validation.go) *)
From S2P Require Import Prelude GoErrors GoStrings Netip Effects Qmp.

(** ** Constants of config.go (durations in nanoseconds) *)

Definition millisecond : Z := 1000000.
Definition nbdPort : string := "10809".
Definition ramMigrationPort : string := "4444".
Definition maxBandwidth : Z := 10000000000.
Definition eventWaitTimeout : Z := 30 * minute.
Definition storagePollInterval : Z := 2 * second.
Definition migrationPollInterval : Z := 1 * second.
Definition postMigrationTunnelDelay : Z := 5 * second.
Definition plugQdiscLimit : string := "32768".
Definition garpInitialMS : Z := 20.
Definition garpMaxMS : Z := 550.
Definition garpRounds : Z := 5.
Definition garpStepMS : Z := 100.
Definition migrationTimeout : Z := 1 * hour.
Definition storageSyncTimeout : Z := 2 * hour.
Definition jobAppearTimeout : Z := 30 * second.
Definition DefaultMultifdChannels : Z := 4.
Definition cleanupTimeout : Z := 10 * second.
Definition rttMultiplier : Z := 2.
Definition rttMinOverheadMS : Z := 25.

(** [type TunnelMode string] with its constants. *)
Definition TunnelModeIPIP : string := "ipip".
Definition TunnelModeGRE : string := "gre".
Definition TunnelModeNone : string := "none".

Record SourceConfig := MkSourceConfig {
  sc_QMPSocket : string;
  sc_DestIP : Addr;
  sc_VMIP : Addr;
  sc_DriveIDs : list string;
  sc_SharedStorage : bool;
  sc_TunnelMode : string;
  sc_DowntimeLimitMS : Z;
  sc_AutoDowntime : bool;
  sc_AutoDowntimeFloorMS : Z;
  sc_CNIConvergenceDelay : Z;
  sc_MultifdChannels : Z;
  sc_PodName : string;
  sc_PodNamespace : string;
  sc_EmitCmdlineTo : string }.

Record DestConfig := MkDestConfig {
  dc_QMPSocket : string;
  dc_TapIface : string;
  dc_TapNetns : string;
  dc_DriveIDs : list string;
  dc_SharedStorage : bool;
  dc_MultifdChannels : Z;
  dc_DestPodName : string;
  dc_DestPodNamespace : string;
  dc_ReplayCmdlineFile : string;
  dc_ReplayCmdlineFromPod : string;
  dc_QEMUBinary : string;
  dc_SandboxID : string;
  dc_SourcePodRef : string }.

Definition IPFamily (a : Addr) : string := if Is4 a then "IPv4" else "IPv6".

Definition formatQEMUHost (a : Addr) : string :=
  let a := Unmap a in
  if Is6 a then "[" +:+ String_ a +:+ "]" else String_ a.

(** ** validation.go *)

(** [^[class1][class2]{0,n}$]: the shape of every name regexp here. *)
Definition match_name (first rest : ascii → bool) (n : Z) (s : string) : bool :=
  match s with
  | "" => false
  | String c s => first c && forallb_str rest s && (slen s <=? n)
  end.

Definition validIfaceName (s : string) : bool :=
  match_name is_alnum (fun c => is_alnum c || char_in c "._@:-") 14 s.

Definition validNetnsPath (s : string) : bool :=
  match s with
  | String "/" (String c s) => is_alnum c && forallb_str (fun c => is_alnum c || char_in c "/_.-") s
  | _ => false
  end.

Definition validDriveID (s : string) : bool :=
  match_name is_alnum (fun c => is_alnum c || char_in c "._-") 255 s.

Definition validateTapIface (name : string) : option error :=
  if negb (validIfaceName name) then Some (ErrNew "invalid tap interface name") else None.

Definition validateTapNetns (path : string) : option error :=
  if slen path >? 256 then Some (ErrNew "netns path too long")
  else if Contains path ".." then Some (ErrNew "netns path contains path traversal")
  else if negb (validNetnsPath path) then Some (ErrNew "invalid netns path")
  else None.

Definition validateDriveID (id : string) : option error :=
  if negb (validDriveID id) then Some (ErrNew "invalid drive ID") else None.

(** The loop over the IDs with its set of those seen. *)
Fixpoint validateDriveIDs_loop (ids : list string) (seen : gset string) : option error :=
  match ids with
  | [] => None
  | id :: ids =>
      match validateDriveID id with
      | Some e => Some e
      | None =>
          if bool_decide (id ∈ seen) then Some (ErrNew "duplicate drive ID")
          else validateDriveIDs_loop ids (seen ∪ {[id]})
      end
  end.

Definition validateDriveIDs (ids : list string) : option error :=
  if (length ids =? 0)%nat then Some (ErrNew "at least one drive ID is required")
  else validateDriveIDs_loop ids ∅.

(** ** Lemmas *)

Lemma validateDriveID_None id : validateDriveID id = None ↔ validDriveID id = true.
Proof. unfold validateDriveID. by destruct (validDriveID id). Qed.

Lemma validateDriveIDs_loop_None ids seen :
  validateDriveIDs_loop ids seen = None ↔
  NoDup ids ∧ Forall (fun id => validDriveID id = true ∧ id ∉ seen) ids.
Proof.
  revert seen. induction ids as [|id ids IH]; intros seen; simpl; [split; [repeat constructor|done]|].
  destruct (validateDriveID id) as [e|] eqn:Hv.
  - split; [done|]. intros [_ [[Hd _] _]%Forall_cons]. apply validateDriveID_None in Hd. congruence.
  - apply validateDriveID_None in Hv. rewrite NoDup_cons, Forall_cons. case_bool_decide as Hin.
    + naive_solver.
    + rewrite IH, !Forall_forall. set_solver.
Qed.

(** Validated drive IDs are distinct, non-empty names of safe characters. *)
Lemma validateDriveIDs_spec ids :
  validateDriveIDs ids = None ↔
  ids ≠ [] ∧ NoDup ids ∧ Forall (fun id => validDriveID id = true) ids.
Proof.
  unfold validateDriveIDs. destruct ids as [|id ids]; [naive_solver|].
  cbn [length Nat.eqb]. rewrite validateDriveIDs_loop_None, !Forall_forall. set_solver.
Qed.

(** A host in a QEMU URI (nbd:host:port, tcp:host:port) is unambiguous: an
    address that is IPv4, or IPv4 mapped into IPv6, is printed without any
    colon; every other valid address is printed inside square brackets. *)
Theorem formatQEMUHost_unambiguous a :
  wf_addr a → IsValid a = true →
  (Is4 (Unmap a) = true ∧ no_char ":" (formatQEMUHost a) = true) ∨
  (Is6 (Unmap a) = true ∧ Unmap a = a ∧ formatQEMUHost a = "[" +:+ String_ a +:+ "]").
Proof.
  intros Hwf Hv. pose proof (wf_Unmap a Hwf) as Hwf'. unfold formatQEMUHost.
  destruct (Unmap_cases a) as [Hu|(g & h & zone & -> & Hu)]; rewrite Hu in *.
  - destruct a as [|a b c d|gs zone]; [done| |by right].
    left. split; [done|]. simpl. destruct Hwf as (?&?&?&?). by apply string4_no_colon.
  - left. split; [done|]. simpl. destruct Hwf' as (?&?&?&?). by apply string4_no_colon.
Qed.

Lemma formatQEMUHost_unambiguous_witness :
  formatQEMUHost (Addr6 [0; 0; 0; 0; 0; 65535; 2561; 515] "") = "10.1.2.3" ∧
  no_char ":" (formatQEMUHost (Addr6 [0; 0; 0; 0; 0; 65535; 2561; 515] "")) = true.
Proof.
  split; [vm_compute; reflexivity|].
  destruct (formatQEMUHost_unambiguous (Addr6 [0; 0; 0; 0; 0; 65535; 2561; 515] ""))
    as [[_ H]|[H _]]; [split; [done|repeat constructor; lia]|done|exact H|discriminate H].
Defined.
