(* ===== verification/Exec.v ===== *)
(** * Running external commands (internal/migration/exec.go) *)
From S2P Require Import Prelude GoErrors GoStrings QmpTypes Effects Qmp.

Definition maxCommandOutputBytes : Z := 64 * 1024.

(** [cappedCommandOutput]: the [strings.Builder] and the flag. *)
Record cappedCommandOutput := MkCapped { co_b : string; co_truncated : bool }.

Definition Write (o : cappedCommandOutput) (p : string) : cappedCommandOutput :=
  let remaining := maxCommandOutputBytes - slen (co_b o) in
  if remaining >? 0 then
    if slen p >? remaining
    then MkCapped (co_b o +:+ stake (Z.to_nat remaining) p) true
    else MkCapped (co_b o +:+ p) (co_truncated o)
  else MkCapped (co_b o) true.

Definition newline : string := String (ascii_of_nat 10) "".

Definition String_of (o : cappedCommandOutput) : string :=
  if co_truncated o then
    (if negb (co_b o =? "")%string && negb (HasSuffix (co_b o) newline)
     then co_b o +:+ newline else co_b o) +:+ "... [truncated]"
  else co_b o.

Definition capped0 : cappedCommandOutput := MkCapped "" false.

(** The error [runCmd] returns for a failed command. *)
Definition cmd_error (errMsg : string) (e : error) : error :=
  match errors_As_exit e with
  | Some code =>
      if negb (errMsg =? "")%string
      then ErrWrap ("executing (exit " +:+ Itoa code +:+ "): " +:+ errMsg) e
      else ErrWrap ("executing (exit " +:+ Itoa code +:+ ")") e
  | None =>
      if negb (errMsg =? "")%string then ErrWrap ("executing: " +:+ errMsg) e
      else ErrWrap "executing" e
  end.

(** [runCmd]; the finished command is recorded in the trace. *)
Definition runCmd (ctx : Ctx) (argv : list string) : M (option error) :=
  out ← ask e_cmd_out;
  err ← ask e_cmd;
  res ← match err with
        | None => mret None
        | Some e =>
            cerr ← CtxErr ctx;
            mret match cerr with
                 | Some ce => Some (ErrWrap "command cancelled" ce)
                 | None => Some (cmd_error (TrimSpace (String_of (fold_left Write out capped0))) e)
                 end
        end;
  log (EvCmd argv res);;
  mret res.

Definition runCmdInNetns (ctx : Ctx) (netnsPath : string) (argv : list string) : M (option error) :=
  if (netnsPath =? "")%string then runCmd ctx argv
  else runCmd ctx ("nsenter" :: ("--net=" +:+ netnsPath) :: argv).

(** ** Specifications for the callers *)

Lemma twp_runCmd env I ctx argv (Q : option error → list event → Prop) t :
  (∀ r, Q r (t ++ [EvCmd argv r])) → twp env (runCmd ctx argv) I Q t.
Proof. intros HQ. unfold runCmd. wp_steps. wp_case; wp_steps; auto. Qed.

Lemma emits_runCmd (P : event → Prop) ctx argv :
  (∀ r, P (EvCmd argv r)) → emits P (runCmd ctx argv).
Proof. intros HP. unfold runCmd. repeat emits_step. auto. Qed.

(** The argument vector that [runCmdInNetns] runs. *)
Definition netns_argv (netns : string) (argv : list string) : list string :=
  if (netns =? "")%string then argv else "nsenter" :: ("--net=" +:+ netns) :: argv.

Lemma twp_runCmdInNetns env I ctx netns argv (Q : option error → list event → Prop) t :
  (∀ r, Q r (t ++ [EvCmd (netns_argv netns argv) r])) → twp env (runCmdInNetns ctx netns argv) I Q t.
Proof.
  intros HQ. unfold runCmdInNetns, netns_argv in *. case_match; by apply twp_runCmd.
Qed.

(** ** The output cap *)

Definition concat_str (l : list string) : string := foldr String.append "" l.

Definition capped_ok (o : cappedCommandOutput) : Prop := slen (co_b o) ≤ maxCommandOutputBytes.

Lemma stake_le n s : slen s ≤ Z.of_nat n → stake n s = s.
Proof.
  revert s. induction n as [|n IH]; intros [|c s]; unfold slen; simpl; [done|lia|done|].
  intros. rewrite IH; [done|]. unfold slen. lia.
Qed.

Lemma stake_app_ge n a b : slen a ≤ Z.of_nat n → stake n (a +:+ b) = a +:+ stake (n - String.length a) b.
Proof.
  revert n. induction a as [|c a IH]; intros n; unfold slen; simpl; [by rewrite Nat.sub_0_r|].
  destruct n as [|n]; [lia|]. intros. simpl. rewrite IH; [done|]. unfold slen. lia.
Qed.

Definition cap : nat := Z.to_nat maxCommandOutputBytes.

Lemma cap_Z : Z.of_nat cap = maxCommandOutputBytes.
Proof. unfold cap. rewrite Z2Nat.id; [done|]. unfold maxCommandOutputBytes. lia. Qed.

#[local] Opaque cap.

(** What the buffer holds after the bytes [s] have been written. *)
Definition holds (o : cappedCommandOutput) (s : string) : Prop :=
  co_b o = stake cap s ∧ co_truncated o = (slen s >? maxCommandOutputBytes).

Lemma slen_stake n s : slen (stake n s) = Z.min (Z.of_nat n) (slen s).
Proof.
  revert s. induction n as [|n IH]; intros [|c s]; unfold slen in *; simpl; try lia.
  specialize (IH s). lia.
Qed.

Lemma stake_app_cut n a b : Z.of_nat n ≤ slen a → stake n (a +:+ b) = stake n a.
Proof.
  revert a. induction n as [|n IH]; intros [|c a]; unfold slen in *; simpl; try done; try lia.
  intros. f_equal. apply IH. unfold slen. lia.
Qed.

Lemma slen_pos p : p ≠ "" → 0 < slen p.
Proof. destruct p; [done|]. unfold slen. simpl. lia. Qed.

Lemma Write_holds o s p : p ≠ "" → holds o s → holds (Write o p) (s +:+ p).
Proof.
  intros Hp [Hb Ht]. unfold holds, Write. rewrite Hb, Ht.
  pose proof cap_Z as Hc. rewrite slen_stake, Hc, slen_app.
  pose proof (slen_nonneg s). pose proof (slen_pos p Hp).
  destruct (Z.leb_spec maxCommandOutputBytes (slen s)) as [Hs|Hs].
  - rewrite Z.min_l, Z.sub_diag by lia. cbn [Z.gtb Z.compare co_b co_truncated].
    rewrite stake_app_cut by lia. split; [reflexivity|lia].
  - rewrite Z.min_r by lia. replace (_ - _ >? 0) with true by lia.
    rewrite stake_app_ge, (stake_le _ s) by lia.
    destruct (Z.gtb_spec (slen p) (maxCommandOutputBytes - slen s)); cbn [co_b co_truncated].
    + split; [|lia]. do 2 f_equal. unfold slen in *. lia.
    + split; [|lia]. rewrite stake_le; [reflexivity|]. unfold slen in *. lia.
Qed.

(** However a child splits its output, [cappedCommandOutput] keeps exactly its
    first [maxCommandOutputBytes] bytes, and is marked truncated exactly when
    there were more. *)
Theorem capped_output_is_prefix chunks :
  Forall (fun p => p ≠ "") chunks →
  let o := fold_left Write chunks capped0 in
  let data := concat_str chunks in
  co_b o = stake (Z.to_nat maxCommandOutputBytes) data ∧
  co_truncated o = (slen data >? maxCommandOutputBytes).
Proof.
  intros Hf. cbn zeta.
  assert (H : ∀ o s, holds o s → holds (fold_left Write chunks o) (s +:+ concat_str chunks)).
  { induction Hf as [|p chunks Hp Hf IH]; intros o s Ho; simpl; [by rewrite string_app_nil_r|].
    rewrite string_app_assoc. by apply IH, Write_holds. }
  apply (H capped0 ""). split; vm_compute; done.
Qed.

Lemma capped_output_is_prefix_witness :
  co_b (fold_left Write ["ab"; "c"] capped0) = "abc" ∧
  co_b (fold_left Write ["ab"; "c"] capped0) =
    stake (Z.to_nat maxCommandOutputBytes) (concat_str ["ab"; "c"]).
Proof.
  split; [vm_compute; reflexivity|]. apply capped_output_is_prefix. by repeat constructor.
Defined.
