(* ===== verification/Tunnel.v ===== *)
(** * The migration IP tunnel (internal/migration/tunnel.go) *)
From S2P Require Import Prelude GoErrors GoStrings Netip QmpTypes Effects Qmp MigConfig Exec.

Definition tunnelPrefix : string := "mig-".

(** [hex.EncodeToString]. *)
Fixpoint hex_encode (bs : list Z) : string :=
  match bs with
  | [] => ""
  | b :: bs => String (hex_digit (b / 16)) (String (hex_digit (b mod 16)) (hex_encode bs))
  end.

(** [generateTunnelName]: [rand.Read] fills a five-byte array. *)
Definition generateTunnelName : M (string + error) :=
  r ← ask e_rand;
  mret match r with
       | inl bs => inl (tunnelPrefix +:+ hex_encode bs)
       | inr e => inr (ErrWrap "generating tunnel name" e)
       end.

Definition rollbackTunnel (ctx : Ctx) (tunnelName : string) : M (option error) :=
  runCmd CtxCleanup ["ip"; "link"; "del"; tunnelName].

Definition teardownTunnel (ctx : Ctx) (tunnelName : string) : M unit :=
  _ ← runCmd ctx ["ip"; "link"; "del"; tunnelName];
  mret tt.

(** The encapsulation mode chosen by [setupTunnel]. *)
Definition tunnel_encap (dest : Addr) (tunnelMode : string) : string :=
  if (tunnelMode =? TunnelModeGRE)%string && Is6 dest then "ip6gre"
  else if (tunnelMode =? TunnelModeGRE)%string then "gre"
  else if Is6 dest then "ip6ip6"
  else "ipip".

Definition tunnel_add_argv (dest : Addr) (tunnelMode tunnelName : string) : list string :=
  let mode := tunnel_encap dest tunnelMode in
  if Is6 dest
  then ["ip"; "-6"; "tunnel"; "add"; tunnelName; "mode"; mode; "remote"; String_ dest; "local"; "::"]
  else ["ip"; "tunnel"; "add"; tunnelName; "mode"; mode; "remote"; String_ dest; "local"; "any"].

Definition tunnel_route_argv (vm : Addr) (tunnelName : string) : list string :=
  if Is6 vm
  then ["ip"; "-6"; "route"; "replace"; String_ vm; "dev"; tunnelName]
  else ["ip"; "route"; "replace"; String_ vm; "dev"; tunnelName].

Definition setupTunnel (ctx : Ctx) (dest vm : Addr) (tunnelMode tunnelName : string) : M (option error) :=
  if negb (IsValid dest) then mret (Some (ErrNew "invalid destination address"))
  else if negb (IsValid vm) then mret (Some (ErrNew "invalid VM address"))
  else if negb (Bool.eqb (Is4 dest) (Is4 vm)) then
    mret (Some (ErrNew "destination and VM address families must match"))
  else
    _ ← runCmd CtxCleanup ["ip"; "link"; "del"; tunnelName];
    err ← runCmd ctx (tunnel_add_argv dest tunnelMode tunnelName);
    match err with
    | Some e => mret (Some (ErrWrap "creating tunnel" e))
    | None =>
        err ← runCmd ctx ["ip"; "link"; "set"; tunnelName; "up"];
        match err with
        | Some e =>
            rb ← rollbackTunnel ctx tunnelName;
            mret (errors_Join (Some (ErrWrap "bringing up tunnel" e)) rb)
        | None =>
            err ← runCmd ctx (tunnel_route_argv vm tunnelName);
            match err with
            | Some e =>
                rb ← rollbackTunnel ctx tunnelName;
                mret (errors_Join (Some (ErrWrap "adding route through tunnel" e)) rb)
            | None => mret None
            end
        end
    end.

(** ** The devices of the node

    What the commands that succeeded leave behind, read off the trace. *)
Definition adds_tunnel (argv : list string) : option string :=
  if bool_decide (take 3 argv = ["ip"; "tunnel"; "add"]) then argv !! 3%nat
  else if bool_decide (take 4 argv = ["ip"; "-6"; "tunnel"; "add"]) then argv !! 4%nat
  else None.

Definition dels_link (argv : list string) : option string :=
  if bool_decide (take 3 argv = ["ip"; "link"; "del"]) then argv !! 3%nat else None.

Definition tunnel_step (s : gset string) (ev : event) : gset string :=
  match ev with
  | EvCmd argv None =>
      match adds_tunnel argv, dels_link argv with
      | Some n, _ => s ∪ {[n]}
      | None, Some n => s ∖ {[n]}
      | None, None => s
      end
  | _ => s
  end.

Definition tunnels (t : list event) : gset string := fold_left tunnel_step t ∅.

Lemma tunnels_snoc t ev : tunnels (t ++ [ev]) = tunnel_step (tunnels t) ev.
Proof. unfold tunnels. by rewrite fold_left_app. Qed.

(** Commands that neither add nor delete a link. *)
Lemma tunnels_other t argv r :
  adds_tunnel argv = None → dels_link argv = None → tunnels (t ++ [EvCmd argv r]) = tunnels t.
Proof. intros Ha Hd. rewrite tunnels_snoc. simpl. destruct r; [done|]. by rewrite Ha, Hd. Qed.

Lemma tunnels_failed t argv e : tunnels (t ++ [EvCmd argv (Some e)]) = tunnels t.
Proof. by rewrite tunnels_snoc. Qed.

Lemma tunnels_add t dest mode n :
  tunnels (t ++ [EvCmd (tunnel_add_argv dest mode n) None]) = tunnels t ∪ {[n]}.
Proof. rewrite tunnels_snoc. unfold tunnel_add_argv. by destruct (Is6 dest). Qed.

Lemma tunnels_del t n :
  tunnels (t ++ [EvCmd ["ip"; "link"; "del"; n] None]) = tunnels t ∖ {[n]}.
Proof. by rewrite tunnels_snoc. Qed.

Lemma route_not_link vm n :
  adds_tunnel (tunnel_route_argv vm n) = None ∧ dels_link (tunnel_route_argv vm n) = None.
Proof. unfold tunnel_route_argv. by destruct (Is6 vm). Qed.

(** The devices that were created and that no command has tried to delete since,
    whatever became of the attempt. *)
Definition owed_step (s : gset string) (ev : event) : gset string :=
  match ev with
  | EvCmd argv r =>
      match adds_tunnel argv, dels_link argv with
      | Some n, _ => if is_nil r then s ∪ {[n]} else s
      | None, Some n => s ∖ {[n]}
      | None, None => s
      end
  | _ => s
  end.

Definition owed (t : list event) : gset string := fold_left owed_step t ∅.

Lemma owed_snoc t ev : owed (t ++ [ev]) = owed_step (owed t) ev.
Proof. unfold owed. by rewrite fold_left_app. Qed.

Lemma owed_del t n r : owed (t ++ [EvCmd ["ip"; "link"; "del"; n] r]) = owed t ∖ {[n]}.
Proof. by rewrite owed_snoc. Qed.

Lemma owed_add t dest mode n r :
  owed (t ++ [EvCmd (tunnel_add_argv dest mode n) r]) = if is_nil r then owed t ∪ {[n]} else owed t.
Proof. rewrite owed_snoc. unfold tunnel_add_argv. by destruct (Is6 dest). Qed.

Lemma owed_other t argv r : adds_tunnel argv = None → dels_link argv = None → owed (t ++ [EvCmd argv r]) = owed t.
Proof. intros Ha Hd. rewrite owed_snoc. simpl. by rewrite Ha, Hd. Qed.

(** Deleting the device failed while it was there. *)
Definition undeletable (n : string) (t : list event) : Prop :=
  ∃ t1 argv e t2, t = t1 ++ EvCmd argv (Some e) :: t2 ∧ dels_link argv = Some n ∧ n ∈ tunnels t1.

Lemma undeletable_snoc n t ev : undeletable n t → undeletable n (t ++ [ev]).
Proof. intros (t1 & argv & e & t2 & -> & Hd & Hn). exists t1, argv, e, (t2 ++ [ev]). by rewrite <- app_assoc. Qed.

(** A device that is left has not been deleted, or could not be. *)
Lemma tunnel_left n t : n ∈ tunnels t → n ∈ owed t ∨ undeletable n t.
Proof.
  induction t as [|ev t IH] using rev_ind; [by left|]. rewrite tunnels_snoc, owed_snoc. intros Hn.
  assert (Hkeep : n ∈ tunnels t → n ∈ owed t ∨ undeletable n (t ++ [ev])).
  { intros [?|?]%IH; [by left|right; by apply undeletable_snoc]. }
  destruct ev as [| | | |argv r| | | | | | | | |]; try (by apply Hkeep). simpl in Hn |- *.
  destruct r as [e|]; simpl.
  - destruct (adds_tunnel argv); [by apply Hkeep|]. destruct (dels_link argv) as [m|] eqn:Hd; [|by apply Hkeep].
    destruct (decide (n = m)) as [->|]; [|destruct (Hkeep Hn); [set_solver|by right]].
    right. by exists t, argv, e, [].
  - destruct (adds_tunnel argv) as [m|]; [|destruct (dels_link argv) as [m|]; [|by apply Hkeep]].
    + apply elem_of_union in Hn as [Hn|Hn]; [destruct (Hkeep Hn); [set_solver|by right]|set_solver].
    + apply elem_of_difference in Hn as [Hn Hm]. destruct (Hkeep Hn); [set_solver|by right].
Qed.

(** ** Properties *)

(** The commands of a run of [setupTunnel], with the result of each. *)
Definition del_failed (n : string) (t : list event) : Prop :=
  ∃ t0 e, t = t0 ++ [EvCmd ["ip"; "link"; "del"; n] (Some e)].

(** What [setupTunnel] leaves behind, per result. *)
Definition setup_post (dest vm : Addr) (mode n : string) (t : list event) (r : option error)
    (t' : list event) : Prop :=
  match r with
  | None => ∃ d, t' = t ++ [EvCmd ["ip"; "link"; "del"; n] d; EvCmd (tunnel_add_argv dest mode n) None;
                            EvCmd ["ip"; "link"; "set"; n; "up"] None;
                            EvCmd (tunnel_route_argv vm n) None]
  | Some _ => (∃ t1, t' = t ++ t1 ∧ Forall (fun ev => ∃ argv r, ev = EvCmd argv r) t1) ∧
              (n ∈ tunnels t' → n ∈ tunnels t ∨ del_failed n t')
  end.

(** Rolling back removes the device or reports that it could not. *)
Lemma twp_rollback env I ctx n (Q : option error → list event → Prop) t :
  (∀ r, let t' := t ++ [EvCmd ["ip"; "link"; "del"; n] r] in
     (n ∈ tunnels t' → del_failed n t') → Q r t') →
  twp env (rollbackTunnel ctx n) I Q t.
Proof.
  intros HQ. unfold rollbackTunnel. apply twp_runCmd. intros [e|]; apply HQ.
  - intros _. by exists t, e.
  - rewrite tunnels_del. set_solver.
Qed.

Lemma twp_setupTunnel env I ctx dest vm mode n t :
  twp env (setupTunnel ctx dest vm mode n) I (setup_post dest vm mode n t) t.
Proof.
  assert (Hnone : ∀ e, twp env (mret (Some e)) I (setup_post dest vm mode n t) t).
  { intros e. apply twp_ret. split; [|auto]. exists []. by rewrite app_nil_r. }
  unfold setupTunnel. do 3 (case_match; [apply Hnone|]).
  apply twp_bind, twp_runCmd. intros d. apply twp_bind, twp_runCmd. intros [e|].
  { apply twp_ret. split; [exists [EvCmd ["ip"; "link"; "del"; n] d; EvCmd (tunnel_add_argv dest mode n) (Some e)];
      rewrite <- app_assoc; split; [done|repeat constructor; eauto]|].
    rewrite tunnels_failed. destruct d; [rewrite tunnels_failed; auto|rewrite tunnels_del; set_solver]. }
  apply twp_bind, twp_runCmd. intros [e|].
  { apply twp_bind, twp_rollback. intros r t' Ht'. apply twp_ret.
    assert (is_Some (errors_Join (Some (ErrWrap "bringing up tunnel" e)) r)) as [e' ->] by by destruct r.
    split; [|auto]. eexists. unfold t'. rewrite <- !app_assoc. split; [done|].
    repeat constructor; eauto. }
  apply twp_bind, twp_runCmd. intros [e|].
  { apply twp_bind, twp_rollback. intros r t' Ht'. apply twp_ret.
    assert (is_Some (errors_Join (Some (ErrWrap "adding route through tunnel" e)) r)) as [e' ->] by by destruct r.
    split; [|auto]. eexists. unfold t'. rewrite <- !app_assoc. split; [done|].
    repeat constructor; eauto. }
  apply twp_ret. exists d. by rewrite <- !app_assoc.
Qed.

(** A failed [setupTunnel] has tried to delete whatever it created. *)
Lemma twp_setupTunnel_owed env I ctx dest vm mode n t :
  twp env (setupTunnel ctx dest vm mode n) I
    (fun r t' => owed t' ⊆ if is_nil r then owed t ∪ {[n]} else owed t) t.
Proof.
  unfold setupTunnel. do 3 (case_match; [by apply twp_ret|]).
  apply twp_bind, twp_runCmd. intros d. apply twp_bind, twp_runCmd. intros [e|].
  { apply twp_ret. cbn [is_nil]. rewrite owed_add, owed_del. set_solver. }
  apply twp_bind, twp_runCmd. intros [e|].
  { apply twp_bind. unfold rollbackTunnel. apply twp_runCmd. intros r. apply twp_ret.
    replace (is_nil (errors_Join _ r)) with false by by destruct r.
    rewrite owed_del, owed_other, owed_add, owed_del by done. set_solver. }
  apply twp_bind, twp_runCmd. destruct (route_not_link vm n) as [Ha Hd]. intros [e|].
  { apply twp_bind. unfold rollbackTunnel. apply twp_runCmd. intros r. apply twp_ret.
    replace (is_nil (errors_Join _ r)) with false by by destruct r.
    rewrite owed_del, owed_other, owed_other, owed_add, owed_del by done. set_solver. }
  apply twp_ret. rewrite owed_other, owed_other, owed_add, owed_del by done. set_solver.
Qed.

(** A generated name has 14 bytes: it fits IFNAMSIZ. *)
Lemma hex_encode_length bs : slen (hex_encode bs) = 2 * Z.of_nat (length bs).
Proof. induction bs as [|b bs IH]; unfold slen in *; simpl; lia. Qed.

(** [setupTunnel] is all or nothing.  When it succeeds the tunnel was created
    with the chosen encapsulation, brought up, and given the host route of the
    VM, in this order.  When it fails no device it created is left, unless
    deleting it during the rollback failed as well. *)
Theorem setupTunnel_all_or_nothing env ctx dest vm mode n w r w' :
  setupTunnel ctx dest vm mode n env w = (Done r, w') →
  match r with
  | None => ∃ d, w_trace w' = w_trace w ++
      [EvCmd ["ip"; "link"; "del"; n] d; EvCmd (tunnel_add_argv dest mode n) None;
       EvCmd ["ip"; "link"; "set"; n; "up"] None; EvCmd (tunnel_route_argv vm n) None]
  | Some _ => n ∈ tunnels (w_trace w') → n ∈ tunnels (w_trace w) ∨ del_failed n (w_trace w')
  end.
Proof.
  intros Hr. pose proof (twp_run env _ _ _ _ w r w'
    (twp_setupTunnel env (fun _ => True) ctx dest vm mode n (w_trace w)) eq_refl Hr) as H.
  destruct r; [|exact H]. by destruct H.
Qed.

Lemma setupTunnel_all_or_nothing_witness :
  let run := setupTunnel CtxRun (Addr4 10 0 0 2) (Addr4 10 244 1 7) "gre" "mig-00" env0 world0 in
  run.1 = Done None ∧
  ∃ d, w_trace run.2 = w_trace world0 ++
    [EvCmd ["ip"; "link"; "del"; "mig-00"] d;
     EvCmd (tunnel_add_argv (Addr4 10 0 0 2) "gre" "mig-00") None;
     EvCmd ["ip"; "link"; "set"; "mig-00"; "up"] None;
     EvCmd (tunnel_route_argv (Addr4 10 244 1 7) "mig-00") None].
Proof.
  intros run. split; [vm_compute; reflexivity|].
  apply (setupTunnel_all_or_nothing env0 CtxRun (Addr4 10 0 0 2) (Addr4 10 244 1 7) "gre" "mig-00" world0 None).
  vm_compute. reflexivity.
Defined.
