(* ===== verification/PodResolve.v ===== *)
(** * Locating a pod's sandbox and IP (internal/migration/podresolve.go) *)
From S2P Require Import Prelude GoErrors GoStrings QmpTypes Effects Qmp MigConfig.

(** [sandboxUUIDRe]. *)
Definition sandboxUUIDRe (s : string) : bool :=
  match_name is_alnum (fun c => is_alnum c || char_in c "_.-") 127 s.

(** The Go interface [procFS]. *)
Class procFS := {
  PIDForSandbox : string → M (Z + error);
  NetnsHasIP : Z → string → M (bool + error) }.

Record Resolved := MkResolved { rs_Sandbox : string; rs_PID : Z }.

#[global] Instance Resolved_eq_dec : EqDecision Resolved.
Proof. solve_decision. Defined.

(** The scan over the directory entries; errors of single entries are skipped. *)
Fixpoint resolve_scan `{procFS} (podIP : string) (entries : list dirent) : M (list Resolved) :=
  match entries with
  | [] => mret []
  | e :: entries =>
      if negb (de_isdir e) then resolve_scan podIP entries
      else
        pid ← (PIDForSandbox (de_name e) : M (Z + error));
        match pid with
        | inr _ => resolve_scan podIP entries
        | inl pid =>
            ok ← (NetnsHasIP pid podIP : M (bool + error));
            match ok with
            | inr _ => resolve_scan podIP entries
            | inl ok =>
                ms ← resolve_scan podIP entries;
                mret (if (ok : bool) then MkResolved (de_name e) pid :: ms else ms)
            end
        end
  end.

Definition resolveSandbox `{procFS} (root podIP : string) : M (Resolved + error) :=
  entries ← ReadDir root;
  match entries with
  | inr e => mret (inr (ErrWrap "read" e))
  | inl entries =>
      matches ← resolve_scan podIP entries;
      mret match matches with
           | [] => inr (ErrNew "no sandbox contains pod IP")
           | [m] => inl m
           | _ => inr (ErrNew "ambiguous: several sandboxes match pod IP")
           end
  end.

(** ** The production implementation *)

Definition Output (argv : list string) : M (string + error) := ask (fun e => e_output e argv).

Definition realProc_PIDForSandbox (uuid : string) : M (Z + error) :=
  if negb (sandboxUUIDRe uuid) then mret (inr (ErrNew "invalid sandbox identifier"))
  else
    out ← Output ["pgrep"; "-f"; "sandbox-" +:+ uuid];
    mret match out with
         | inr e => inr (ErrWrap "pgrep" e)
         | inl out =>
             match Fields (TrimSpace out) with
             | [] => inr (ErrNew "pgrep returned no PIDs")
             | l :: _ =>
                 match Atoi l with
                 | None => inr (ErrNew "parse PID")
                 | Some pid => inl pid
                 end
             end
         end.

Definition splitAddrTokens (line : string) : list string :=
  (fun f => match IndexByte f "/" with Some i => stake i f | None => f end) <$> Fields line.

Definition nl : ascii := ascii_of_nat 10.

Definition realProc_NetnsHasIP (pid : Z) (ip : string) : M (bool + error) :=
  out ← Output ["nsenter"; "--net=/proc/" +:+ Itoa pid +:+ "/ns/net"; "--"; "ip"; "-o"; "addr"; "show"];
  mret match out with
       | inr e => inr (ErrWrap "nsenter ip addr" e)
       | inl out => inl (existsb (fun line => existsb (String.eqb ip) (splitAddrTokens line)) (Split nl out))
       end.

#[export] Instance realProc : procFS := {
  PIDForSandbox := realProc_PIDForSandbox;
  NetnsHasIP := realProc_NetnsHasIP }.

(** ** The in-cluster apiserver lookup *)

Definition tokenPath : string := "/var/run/secrets/kubernetes.io/serviceaccount/token".
Definition caPath : string := "/var/run/secrets/kubernetes.io/serviceaccount/ca.crt".
Definition lookupBackoff1 : Z := 1 * second.
Definition lookupBackoff2 : Z := 2 * second.

Definition Getenv (k : string) : M string := ask (fun e => e_getenv e k).

(** [resolveAPIServerHostPort] with the package-level overrides empty. *)
Definition resolveAPIServerHostPort : M ((string * string) + error) :=
  host ← Getenv "KUBERNETES_SERVICE_HOST";
  port ← Getenv "KUBERNETES_SERVICE_PORT";
  mret (if (host =? "")%string || (port =? "")%string
        then inr (ErrNew "KUBERNETES_SERVICE_HOST/PORT not set; not running in-cluster?")
        else inl (host, port)).

(** [net.JoinHostPort]. *)
Definition JoinHostPort (host port : string) : string :=
  match IndexByte host ":" with
  | Some _ => "[" +:+ host +:+ "]:" +:+ port
  | None => host +:+ ":" +:+ port
  end.

(** [url.PathEscape]: the bytes that stay, and the %XX form of the others. *)
Definition path_plain (c : ascii) : bool := is_alnum c || char_in c "-_.~$&+=:@".

Definition upper_hex (d : Z) : ascii :=
  ascii_of_nat (Z.to_nat (if d <? 10 then 48 + d else 55 + d)).

Fixpoint PathEscape (s : string) : string :=
  match s with
  | "" => ""
  | String c s =>
      if path_plain c then String c (PathEscape s)
      else
        let n := Z.of_nat (nat_of_ascii c) in
        String "%" (String (upper_hex (n / 16)) (String (upper_hex (n mod 16)) (PathEscape s)))
  end.

Definition pod_endpoint (host port ns name : string) : string :=
  "https://" +:+ JoinHostPort host port +:+ "/api/v1/namespaces/" +:+ PathEscape ns
    +:+ "/pods/" +:+ PathEscape name.

Definition HttpGet (url : string) : M ((Z * string) + error) :=
  r ← ask (fun e => e_http e url);
  log (EvHTTP url);;
  mret r.

Definition lookupPodIPOnce (endpoint : string) : M (string + error) :=
  r ← HttpGet endpoint;
  match r with
  | inr e => mret (inr (ErrWrap "apiserver GET" e))
  | inl (status, body) =>
      if negb (status / 100 =? 2) then mret (inr (ErrNew "apiserver returned"))
      else
        ip ← reads (fun e => e_dec_podip e body);
        mret match ip with
             | inr e => inr (ErrWrap "decode pod response" e)
             | inl ip => inl ip
             end
  end.

(** The three attempts: [backoffs] are the sleeps before the next ones. *)
Fixpoint lookup_attempts (ctx : Ctx) (endpoint : string) (backoffs : list Z) : M (string + error) :=
  ip ← lookupPodIPOnce endpoint;
  match ip with
  | inr e => mret (inr e)
  | inl ip =>
      if negb (ip =? "")%string then mret (inl ip)
      else
        match backoffs with
        | [] => mret (inr (ErrNew "pod has no IP after retries"))
        | b :: backoffs =>
            err ← SelectTimer ctx b;
            match err with
            | Some e => mret (inr (ErrWrap "looking up pod IP" e))
            | None => lookup_attempts ctx endpoint backoffs
            end
        end
  end.

Definition LookupPodIP (ctx : Ctx) (ns name : string) : M (string + error) :=
  hp ← resolveAPIServerHostPort;
  match hp with
  | inr e => mret (inr e)
  | inl (host, port) =>
      token ← ReadFile tokenPath;
      match token with
      | inr e => mret (inr (ErrWrap "read service account token" e))
      | inl _ =>
          ca ← ReadFile caPath;
          match ca with
          | inr e => mret (inr (ErrWrap "read service account CA" e))
          | inl ca =>
              ok ← reads (fun e => e_pem_ok e ca);
              if negb ok then mret (inr (ErrNew "CA file did not contain any PEM certificates"))
              else lookup_attempts ctx (pod_endpoint host port ns name)
                     [lookupBackoff1; lookupBackoff2]
          end
      end
  end.

(** ** What [resolveSandbox] promises *)

(** An implementation of [procFS] whose answers do not change during the scan. *)
Class procFS_stable (env : Env) `{procFS} := {
  pid_of : string → Z + error;
  has_ip : Z → string → bool + error;
  pid_law u w : (PIDForSandbox u env w).1 = Done (pid_of u);
  has_ip_law pid ip w : (NetnsHasIP pid ip env w).1 = Done (has_ip pid ip) }.

Section resolve.
Context (env : Env) `{procFS_stable env}.

(** The sandbox of a directory entry, if its network namespace has the IP. *)
Definition sandbox_match (podIP : string) (e : dirent) : option Resolved :=
  if de_isdir e then
    match pid_of (de_name e) with
    | inl pid =>
        match has_ip pid podIP with
        | inl true => Some (MkResolved (de_name e) pid)
        | _ => None
        end
    | inr _ => None
    end
  else None.

Lemma sandbox_match_Some podIP e r :
  sandbox_match podIP e = Some r ↔
  de_isdir e = true ∧ de_name e = rs_Sandbox r ∧ pid_of (de_name e) = inl (rs_PID r) ∧
  has_ip (rs_PID r) podIP = inl true.
Proof.
  unfold sandbox_match. destruct (de_isdir e); [|naive_solver]. destruct r as [s p]. simpl.
  destruct (pid_of (de_name e)) as [pid|]; [|split; [done|by intros (_ & _ & ? & _)]].
  destruct (has_ip pid podIP) as [[]|] eqn:Hi.
  - split; [intros [= <- <-]; auto|]. by intros (_ & <- & [= <-] & _).
  - split; [done|]. intros (_ & _ & [= <-] & ?). congruence.
  - split; [done|]. intros (_ & _ & [= <-] & ?). congruence.
Qed.

Lemma sandbox_match_None podIP e :
  sandbox_match podIP e = None ↔
  ∀ pid, de_isdir e = true → pid_of (de_name e) = inl pid → has_ip pid podIP ≠ inl true.
Proof.
  rewrite eq_None_not_Some. split.
  - intros Hn pid Hd Hp Hi. apply Hn. exists (MkResolved (de_name e) pid).
    by apply sandbox_match_Some.
  - intros Hn [r Hr]. apply sandbox_match_Some in Hr as (Hd & _ & Hp & Hi). by eapply Hn.
Qed.

Lemma resolve_scan_matches podIP entries w :
  (resolve_scan podIP entries env w).1 = Done (omap (sandbox_match podIP) entries).
Proof.
  revert w. induction entries as [|e entries IH]; intros w; [done|].
  cbn [resolve_scan omap list_omap]. unfold sandbox_match at 1.
  destruct (de_isdir e); cbn [negb]; [|apply IH].
  unfold mbind, M_bind, mret, M_ret. pose proof (pid_law (de_name e) w) as Hp.
  destruct (PIDForSandbox (de_name e) env w) as [r w1]. simpl in Hp. subst r.
  destruct (pid_of (de_name e)) as [pid|]; [|apply IH].
  pose proof (has_ip_law pid podIP w1) as Hi.
  destruct (NetnsHasIP pid podIP env w1) as [r w2]. simpl in Hi. subst r.
  destruct (has_ip pid podIP) as [b|]; [|apply IH].
  specialize (IH w2). destruct (resolve_scan podIP entries env w2) as [r w3].
  simpl in IH. subst r. by destruct b.
Qed.

Lemma resolveSandbox_result root podIP entries w :
  e_readdir env root (w_step w) = inl entries →
  (resolveSandbox root podIP env w).1 = Done
    match omap (sandbox_match podIP) entries with
    | [] => inr (ErrNew "no sandbox contains pod IP")
    | [m] => inl m
    | _ => inr (ErrNew "ambiguous: several sandboxes match pod IP")
    end.
Proof.
  intros Hd. unfold resolveSandbox, mbind, M_bind, ReadDir, ask. rewrite Hd.
  set (w1 := MkWorld _ _ _ _). pose proof (resolve_scan_matches podIP entries w1) as Hs.
  destruct (resolve_scan podIP entries env w1) as [r w2]. simpl in Hs. by subst r.
Qed.
End resolve.

(** The answers of [realProc] in an environment where the commands it runs give
    a fixed output. *)
Definition real_pid (out : list string → string + error) (uuid : string) : Z + error :=
  if negb (sandboxUUIDRe uuid) then inr (ErrNew "invalid sandbox identifier")
  else
    match out ["pgrep"; "-f"; "sandbox-" +:+ uuid] with
    | inr e => inr (ErrWrap "pgrep" e)
    | inl out =>
        match Fields (TrimSpace out) with
        | [] => inr (ErrNew "pgrep returned no PIDs")
        | l :: _ => match Atoi l with None => inr (ErrNew "parse PID") | Some pid => inl pid end
        end
    end.

Definition real_has_ip (out : list string → string + error) (pid : Z) (ip : string) : bool + error :=
  match out ["nsenter"; "--net=/proc/" +:+ Itoa pid +:+ "/ns/net"; "--"; "ip"; "-o"; "addr"; "show"] with
  | inr e => inr (ErrWrap "nsenter ip addr" e)
  | inl out => inl (existsb (fun line => existsb (String.eqb ip) (splitAddrTokens line)) (Split nl out))
  end.

#[global] Program Instance realProc_stable env out
    (Hout : ∀ argv n, e_output env argv n = out argv) : procFS_stable env :=
  {| pid_of := real_pid out; has_ip := real_has_ip out |}.
Next Obligation.
  intros env out Hout u w. simpl. unfold realProc_PIDForSandbox, real_pid.
  destruct (sandboxUUIDRe u); [|done]. unfold mbind, M_bind, Output, ask. simpl. rewrite Hout.
  reflexivity.
Qed.
Next Obligation.
  intros env out Hout pid ip w. simpl.
  unfold realProc_NetnsHasIP, real_has_ip, mbind, M_bind, Output, ask. simpl. rewrite Hout. done.
Qed.

(** C34. [resolveSandbox] never guesses: for every implementation of [procFS] it
    returns a sandbox exactly when one and only one directory entry under the
    root is a sandbox whose QEMU runs in a network namespace that has the pod's
    IP; with none or several it fails. *)
Theorem resolveSandbox_unique env `{procFS_stable env} root podIP entries w r :
  e_readdir env root (w_step w) = inl entries →
  (resolveSandbox root podIP env w).1 = Done (inl r) ↔
  ∃ pre e post, entries = pre ++ e :: post ∧ de_isdir e = true ∧ de_name e = rs_Sandbox r ∧
    pid_of (de_name e) = inl (rs_PID r) ∧ has_ip (rs_PID r) podIP = inl true ∧
    Forall (fun e => ∀ pid, de_isdir e = true → pid_of (de_name e) = inl pid →
                     has_ip pid podIP ≠ inl true) (pre ++ post).
Proof.
  intros Hd. rewrite (resolveSandbox_result env root podIP entries w Hd).
  trans (omap (sandbox_match env podIP) entries = [r]).
  { destruct (omap _ entries) as [|m [|? ?]]; naive_solver. }
  assert (Hn : ∀ l, Forall (fun e => sandbox_match env podIP e = None) l ↔
      Forall (fun e => ∀ pid, de_isdir e = true → pid_of (de_name e) = inl pid →
                       has_ip pid podIP ≠ inl true) l).
  { intros l. apply Forall_iff. intros x. apply sandbox_match_None. }
  rewrite omap_singleton_iff. do 3 (f_equiv; intros ?).
  rewrite (sandbox_match_Some env podIP _ r), Hn. tauto.
Qed.

(** A node with two sandboxes, one of which has the address 10.0.0.5. *)
Definition demo_output (argv : list string) : string + error :=
  if bool_decide (argv = ["pgrep"; "-f"; "sandbox-aa"]) then inl ("41" +:+ String nl "")
  else if bool_decide (argv = ["pgrep"; "-f"; "sandbox-bb"]) then inl ("42" +:+ String nl "")
  else if bool_decide (argv !! 1%nat = Some "--net=/proc/41/ns/net")
       then inl "2: eth0    inet 10.0.0.50/24 scope global eth0"
  else if bool_decide (argv !! 1%nat = Some "--net=/proc/42/ns/net")
       then inl "2: eth0    inet 10.0.0.5/24 scope global eth0"
  else inr ErrNotFound.

Definition demo_node : Env := {|
  e_dial := e_dial env0; e_read := e_read env0; e_write := e_write env0;
  e_setdeadline := e_setdeadline env0; e_close := e_close env0; e_ctx := e_ctx env0;
  e_deadline := e_deadline env0;
  e_select := e_select env0; e_now := e_now env0; e_cmd := e_cmd env0;
  e_cmd_out := e_cmd_out env0; e_spawn := e_spawn env0;
  e_rand := e_rand env0;
  e_readdir _ _ := inl [Dirent "aa" true; Dirent "notes.txt" false; Dirent "bb" true];
  e_readfile := e_readfile env0;
  e_writefile := e_writefile env0; e_mkdir := e_mkdir env0; e_issocket := e_issocket env0;
  e_tempfile := e_tempfile env0; e_open := e_open env0; e_isregular := e_isregular env0; e_copy := e_copy env0; e_fileop := e_fileop env0; e_getpid := e_getpid env0;
  e_output argv _ := demo_output argv; e_getenv := e_getenv env0; e_http := e_http env0;
  e_icmp_listen := e_icmp_listen env0; e_icmp_send := e_icmp_send env0;
  e_icmp_recv := e_icmp_recv env0; e_icmp_rtt := e_icmp_rtt env0;
  e_dec_response := e_dec_response env0; e_dec_migrate := e_dec_migrate env0;
  e_dec_jobs := e_dec_jobs env0; e_dec_persist := e_dec_persist env0;
  e_dec_podip := e_dec_podip env0; e_pem_ok := e_pem_ok env0;
  e_enc_vmconfig := e_enc_vmconfig env0; e_enc_meta := e_enc_meta env0; e_base64 := e_base64 env0;
  e_unbase64 := e_unbase64 env0 |}.

Lemma resolveSandbox_unique_witness :
  (resolveSandbox "/run/vc/vm" "10.0.0.5" demo_node world0).1 = Done (inl (MkResolved "bb" 42)).
Proof.
  apply (resolveSandbox_unique demo_node (H0 := realProc_stable demo_node demo_output (fun _ _ => eq_refl))
    "/run/vc/vm" "10.0.0.5" [Dirent "aa" true; Dirent "notes.txt" false; Dirent "bb" true] world0);
    [reflexivity|].
  exists [Dirent "aa" true; Dirent "notes.txt" false], (Dirent "bb" true), [].
  split_and!; [reflexivity|reflexivity|reflexivity|vm_compute; reflexivity|vm_compute; reflexivity|].
  constructor; [|constructor; [|constructor]].
  - intros pid _ Hp. assert (Hpid : pid = 41) by (vm_compute in Hp; congruence). subst pid.
    vm_compute. discriminate.
  - intros pid Hd. discriminate Hd.
Defined.

(** ** The pod lookup *)

Lemma PathEscape_no_slash s : no_char "/" (PathEscape s) = true.
Proof.
  unfold no_char. induction s as [|c s IH]; [done|]. cbn [PathEscape].
  destruct (path_plain c) eqn:Hc; cbn [forallb_str].
  - rewrite IH, andb_true_r. destruct (Ascii.eqb_spec c "/"); [by subst|done].
  - rewrite IH, andb_true_r. pose proof (nat_ascii_bounded c).
    assert (Hh : ∀ d, 0 ≤ d < 16 → negb (upper_hex d =? "/")%char = true).
    { intros d Hd. assert (Hcases : d = 0 ∨ d = 1 ∨ d = 2 ∨ d = 3 ∨ d = 4 ∨ d = 5 ∨ d = 6 ∨ d = 7 ∨ d = 8 ∨
        d = 9 ∨ d = 10 ∨ d = 11 ∨ d = 12 ∨ d = 13 ∨ d = 14 ∨ d = 15) by lia.
      by destruct_or!; subst. }
    rewrite !Hh; [done|apply Z.mod_pos_bound; lia|]. split; [apply Z.div_pos; lia|].
    apply Z.div_lt_upper_bound; lia.
Qed.

(** The GET requests of a trace. *)
Definition gets (t : list event) : list string :=
  omap (fun ev => match ev with EvHTTP u => Some u | _ => None end) t.

Lemma gets_app t t' : gets (t ++ t') = gets t ++ gets t'.
Proof. apply omap_app. Qed.

Lemma twp_lookupPodIPOnce env I ep (Q : string + error → list event → Prop) t :
  (∀ r, Q r (t ++ [EvHTTP ep])) → twp env (lookupPodIPOnce ep) I Q t.
Proof.
  intros HQ. unfold lookupPodIPOnce, HttpGet. wp_steps.
  repeat (wp_case || (progress wp_steps)); auto.
Qed.

Lemma twp_resolveAPIServerHostPort env I (Q : (string * string) + error → list event → Prop) t :
  (∀ r, Q r t) → twp env resolveAPIServerHostPort I Q t.
Proof. intros HQ. apply twp_bind, twp_ask. intros h. apply twp_bind, twp_ask. intros p. by apply twp_ret. Qed.

(** The GET requests of a bounded number of attempts. *)
Definition attempts_post (ep : string) (max : nat) (t : list event) (r : string + error)
    (t' : list event) : Prop :=
  (∃ n, (n ≤ max)%nat ∧ gets t' = gets t ++ replicate n ep) ∧ (∀ ip, r = inl ip → ip ≠ "").

Lemma attempts_one ep max t ev r :
  (1 ≤ max)%nat → gets ev = [] → (∀ ip, r = inl ip → ip ≠ "") →
  attempts_post ep max t r ((t ++ [EvHTTP ep]) ++ ev).
Proof.
  intros Hm Hev Hr. split; [|done]. exists 1%nat. split; [done|].
  by rewrite !gets_app, Hev, app_nil_r.
Qed.

Lemma attempts_more ep max t ev r t' :
  gets ev = [] → attempts_post ep max ((t ++ [EvHTTP ep]) ++ ev) r t' →
  attempts_post ep (S max) t r t'.
Proof.
  intros Hev [(n & Hn & Hg) Hr]. split; [|done]. exists (S n). split; [lia|].
  rewrite Hg, !gets_app, Hev, app_nil_r. by rewrite <- app_assoc.
Qed.

Lemma twp_lookup_attempts env ctx ep backoffs t :
  twp env (lookup_attempts ctx ep backoffs) (fun _ => False)
    (attempts_post ep (S (length backoffs)) t) t.
Proof.
  assert (Hone : ∀ max t r, (∀ ip, r = inl ip → ip ≠ "") →
            attempts_post ep (S max) t r (t ++ [EvHTTP ep])).
  { intros max u r Hr. rewrite <- (app_nil_r (u ++ _)). apply attempts_one; [lia|done..]. }
  revert t. induction backoffs as [|b backoffs IH]; intros t; cbn [lookup_attempts];
    apply twp_bind, twp_lookupPodIPOnce; (intros [ip|e]; [|by wp_steps; apply Hone]);
    (destruct (String.eqb_spec ip "") as [Hip|Hip]; cbn [negb];
      [|wp_steps; apply Hone; by intros ? [= <-]]).
  - wp_steps. by apply Hone.
  - wp_steps. wp_case.
    + wp_steps. apply attempts_one; [lia|done..].
    + eapply twp_mono; [apply IH|]. intros r t' Ht'. by apply (attempts_more _ _ _ [EvSleep b]).
Qed.

#[global] Arguments lookup_attempts : simpl never.

(** [LookupPodIP] always returns, after at most three GET requests, all of
    them for the Pod resource itself (namespace and name are escaped into one
    path segment each), and when it succeeds the IP is not empty. *)
Theorem LookupPodIP_bounded env ctx ns name w :
  ∃ r w' n u, LookupPodIP ctx ns name env w = (Done r, w') ∧ (n ≤ 3)%nat ∧
    gets (w_trace w') = gets (w_trace w) ++ replicate n u ∧
    (n ≠ 0%nat → ∃ host port, u = pod_endpoint host port ns name) ∧
    no_char "/" (PathEscape ns) = true ∧ no_char "/" (PathEscape name) = true ∧
    (∀ ip, r = inl ip → ip ≠ "").
Proof.
  assert (H : twp env (LookupPodIP ctx ns name) (fun _ => False) (fun r t' =>
    (∃ n u, (n ≤ 3)%nat ∧ gets t' = gets (w_trace w) ++ replicate n u ∧
       (n ≠ 0%nat → ∃ host port, u = pod_endpoint host port ns name)) ∧
    (∀ ip, r = inl ip → ip ≠ "")) (w_trace w)).
  { assert (Hz : ∀ e : error, (∃ n u, (n ≤ 3)%nat ∧ gets (w_trace w) = gets (w_trace w) ++ replicate n u ∧
       (n ≠ 0%nat → ∃ host port, u = pod_endpoint host port ns name)) ∧
       (∀ ip : string, inr e = inl ip → ip ≠ "")).
    { intros e. split; [|done]. exists 0%nat, "". rewrite app_nil_r. split_and!; [lia|done|done]. }
    unfold LookupPodIP. apply twp_bind, twp_resolveAPIServerHostPort.
    intros [[host port]|e]; [|wp_steps; apply Hz]. wp_steps. wp_case; wp_steps; [|apply Hz].
    wp_case; wp_steps; [|apply Hz]. wp_case; [wp_steps; apply Hz|].
    eapply twp_mono; [apply twp_lookup_attempts|].
    simpl. intros r t' [(n & Hn & Hg) Hr]. split; [|done]. eauto 10. }
  destruct (wp_total _ _ _ _ (H w eq_refl)) as (r & w' & Hrun & (n & u & Hn & Hg & Hu) & Hr).
  exists r, w', n, u. split_and!; auto using PathEscape_no_slash.
Qed.
