(* ===== verification/Filepath.v ===== *)
(** * Go's path/filepath on Unix

    [Clean] works on the list of components: empty and "." components vanish,
    ".." removes the component before it. *)
From S2P Require Import Prelude GoStrings.

Definition IsAbs (p : string) : bool := HasPrefix p "/".

(** The components kept so far, last first. *)
Definition clean_step (rooted : bool) (acc : list string) (c : string) : list string :=
  if (c =? "")%string || (c =? ".")%string then acc
  else if (c =? "..")%string then
    match acc with
    | d :: acc' => if (d =? "..")%string then c :: acc else acc'
    | [] => if rooted then [] else [c]
    end
  else c :: acc.

Definition clean_components (p : string) : list string :=
  rev (fold_left (clean_step (IsAbs p)) (Split "/" p) []).

Definition Clean (p : string) : string :=
  let cs := clean_components p in
  if IsAbs p then "/" +:+ Join "/" cs
  else match cs with [] => "." | _ => Join "/" cs end.

(** [filepath.Join]: empty elements are skipped. *)
Definition path_join (elems : list string) : string :=
  match filter (fun e => e ≠ "") elems with
  | [] => ""
  | es => Clean (Join "/" es)
  end.

(** The position after the last slash. *)
Fixpoint after_last_slash (s : string) : nat :=
  match s with
  | "" => 0%nat
  | String c s' =>
      match after_last_slash s' with
      | 0%nat => if (c =? "/")%char then 1%nat else 0%nat
      | S n => S (S n)
      end
  end.

(** [filepath.Dir]. *)
Definition Dir (p : string) : string := Clean (stake (after_last_slash p) p).

(** [filepath.Base]. *)
Definition Base (p : string) : string :=
  if (p =? "")%string then "."
  else
    let p' := TrimRightFunc (Ascii.eqb "/") p in
    let b := sdrop (after_last_slash p') p' in
    if (b =? "")%string then "/" else b.

(** ** Facts *)

Lemma clean_step_rooted_no_dotdot acc c :
  Forall (fun d => d ≠ "..") acc → Forall (fun d => d ≠ "..") (clean_step true acc c).
Proof.
  intros Hacc. unfold clean_step. destruct (_ || _); [done|].
  destruct (String.eqb_spec c ".."); [|by constructor].
  destruct Hacc as [|d acc Hd Hacc]; [constructor|]. destruct (String.eqb_spec d ".."); done.
Qed.

Lemma clean_fold_rooted cs acc :
  Forall (fun d => d ≠ "..") acc → Forall (fun d => d ≠ "..") (fold_left (clean_step true) cs acc).
Proof. revert acc. induction cs; intros acc H; simpl; [done|]. by apply IHcs, clean_step_rooted_no_dotdot. Qed.

Lemma clean_fold_no_slash r cs acc :
  Forall (fun d => no_char "/" d = true) cs → Forall (fun d => no_char "/" d = true) acc →
  Forall (fun d => no_char "/" d = true) (fold_left (clean_step r) cs acc).
Proof.
  revert acc. induction cs as [|c cs IH]; intros acc Hcs Hacc; simpl; [done|].
  inversion_clear Hcs as [|? ? Hc Hcs']. apply IH; [done|]. unfold clean_step.
  destruct (_ || _); [done|]. destruct (c =? "..")%string; [|by constructor].
  destruct Hacc as [|d acc Hd Hacc]; [destruct r; repeat constructor; done|].
  destruct (d =? "..")%string; [|done]. by repeat constructor.
Qed.

(** An absolute path that [Clean] leaves alone has no ".." component. *)
Lemma Clean_fixpoint_no_dotdot p :
  IsAbs p = true → Clean p = p → Forall (fun c => c ≠ "..") (Split "/" p).
Proof.
  intros Habs Hc. unfold Clean, clean_components in Hc. rewrite Habs in Hc.
  set (cs := rev (fold_left (clean_step true) (Split "/" p) [])) in *.
  assert (Hcs : Forall (fun c => c ≠ "..") cs) by by apply Forall_rev, clean_fold_rooted.
  assert (Hs : Forall (fun c => no_char "/" c = true) cs).
  { apply Forall_rev, clean_fold_no_slash; [apply Split_pieces_no_sep|constructor]. }
  rewrite <- Hc. change ("/" +:+ Join "/" cs) with ("" +:+ String "/" (Join "/" cs)).
  rewrite Split_app by done. constructor; [done|].
  destruct cs as [|c cs']; [simpl; by repeat constructor|].
  by rewrite (Split_Join "/").
Qed.
