(* ===== verification/Cmdline.v ===== *)
(** * Rewriting a captured QEMU command line
    (the pure part of internal/migration/destspawn.go) *)
From S2P Require Import Prelude GoErrors GoStrings Filepath.

Definition nul : ascii := ascii_of_nat 0.
Definition lf : ascii := ascii_of_nat 10.
Definition tab : ascii := ascii_of_nat 9.

(** ** The nvdimm image path *)

(** [[^,]+] at the head of a string: the longest run without a comma. *)
Fixpoint until_comma (s : string) : string :=
  match s with
  | "" => ""
  | String c s => if (c =? ",")%char then "" else String c (until_comma s)
  end.

(** [memPathRegex.FindAllStringSubmatch(a, -1)]: the first groups of the matches
    of mem-path=([^,]+), from left to right.  Every round consumes at least one
    byte, so the length of the string is enough fuel. *)
Fixpoint mem_paths (fuel : nat) (s : string) : list string :=
  match fuel, s with
  | S fuel, String _ s' =>
      let p := until_comma (sdrop 9 s) in
      if HasPrefix s "mem-path=" && negb (p =? "")%string
      then p :: mem_paths fuel (sdrop (9 + String.length p) s)
      else mem_paths fuel s'
  | _, _ => []
  end.

Definition nvdimmPathAllowedPrefixes : list string :=
  ["/opt/kata/"; "/usr/share/kata-containers/"; "/var/lib/kata/"; "/run/kata-containers/"].

Definition isAllowedNvdimmPath (p : string) : bool :=
  if (p =? "")%string || negb (IsAbs p) then false
  else if negb (Clean p =? p)%string then false
  else existsb (fun pref => HasPrefix p pref) nvdimmPathAllowedPrefixes.

(** The first candidate of one argument. *)
Definition nvdimm_candidate (a : string) : option string :=
  if negb (Contains a "mem-path=") then None
  else List.find (fun p => negb (HasPrefix p "/dev/shm") && isAllowedNvdimmPath p)
                 (mem_paths (String.length a) a).

Fixpoint extractNvdimmPath (args : list string) : string :=
  match args with
  | [] => ""
  | a :: args =>
      match nvdimm_candidate a with
      | Some p => p
      | None => extractNvdimmPath args
      end
  end.

(** ** [stripFDKeys] *)

Definition fd_key (p : string) : bool :=
  let k := match IndexByte p "=" with Some i => stake i p | None => p end in
  (k =? "fd")%string || (k =? "fds")%string || (k =? "vhostfd")%string || (k =? "vhostfds")%string.

Definition stripFDKeys (v : string) : string :=
  if negb (Contains v "fd=") && negb (Contains v "fds=") then v
  else Join "," (List.filter (fun p => negb (fd_key p)) (Split "," v)).

(** ** [transformCmdline] *)

(** [readonlyRegex.ReplaceAllString(a, "")] for ,readonly=(?:on|true). *)
Fixpoint strip_readonly (fuel : nat) (s : string) : string :=
  match fuel, s with
  | S fuel, String c s' =>
      if HasPrefix s ",readonly=on" then strip_readonly fuel (sdrop 12 s)
      else if HasPrefix s ",readonly=true" then strip_readonly fuel (sdrop 14 s)
      else String c (strip_readonly fuel s')
  | _, _ => s
  end.

Definition readonly_replace (a : string) : string := strip_readonly (String.length a) a.

(** The value of a -netdev option. *)
Definition netdev_value (v : string) : string :=
  let next := stripFDKeys v in
  if HasPrefix next "tap," || (next =? "tap")%string then
    let next := if negb (Contains next "ifname=") then next +:+ ",ifname=tap0_kata" else next in
    if negb (Contains next "script=") then next +:+ ",script=no,downscript=no" else next
  else next.

Section transform.
Context (srcSandboxDir dstSandboxDir srcSandboxID dstSandboxID srcNvdimmPath dstNvdimmPath : string).

Definition srcSandboxKey : string :=
  if negb (srcSandboxID =? "")%string && negb (dstSandboxID =? "")%string
  then "sandbox-" +:+ srcSandboxID else "".
Definition dstSandboxKey : string :=
  if negb (srcSandboxID =? "")%string && negb (dstSandboxID =? "")%string
  then "sandbox-" +:+ dstSandboxID else "".

(** The substitutions at the end of the loop body. *)
Definition substitute (a : string) : string :=
  let a := if negb (srcSandboxDir =? "")%string && negb (dstSandboxDir =? "")%string &&
              Contains a srcSandboxDir
           then ReplaceAll a srcSandboxDir dstSandboxDir else a in
  let a := if negb (srcSandboxKey =? "")%string && Contains a srcSandboxKey
           then ReplaceAll a srcSandboxKey dstSandboxKey else a in
  let a := if negb (srcNvdimmPath =? "")%string && negb (dstNvdimmPath =? "")%string &&
              Contains a srcNvdimmPath
           then ReplaceAll a srcNvdimmPath dstNvdimmPath else a in
  if Contains a "readonly=" then readonly_replace a else a.

(** The loop over args[1:] with its [skipNext] flag. *)
Fixpoint transform_loop (skipNext : bool) (args : list string) : list string :=
  match args with
  | [] => []
  | a :: rest =>
      if skipNext then transform_loop false rest
      else if (a =? "-daemonize")%string then transform_loop false rest
      else if (a =? "-incoming")%string then transform_loop true rest
      else if (a =? "-qmp")%string then
        match rest with
        | v :: _ =>
            if Contains v "fd=" then transform_loop true rest else a :: transform_loop false rest
        | [] => a :: transform_loop false rest
        end
      else if (a =? "-netdev")%string then
        match rest with
        | v :: _ => a :: netdev_value v :: transform_loop true rest
        | [] => transform_loop true rest
        end
      else if (a =? "-device")%string then
        match rest with
        | v :: _ => a :: stripFDKeys v :: transform_loop true rest
        | [] => transform_loop true rest
        end
      else substitute a :: transform_loop false rest
  end.

Definition transformCmdline (args : list string) : (string * list string) + error :=
  match args with
  | [] => inr (ErrNew "empty cmdline (no argv[0])")
  | binary :: args => inl (binary, transform_loop false args ++ ["-incoming"; "defer"])
  end.
End transform.

(** ** Reading and locating *)

Definition parseCmdlineBytes (data : string) : list string :=
  let sep := match IndexByte data nul with Some _ => nul | None => lf end in
  List.filter (fun p => negb (p =? "")%string) (Split sep data).

(** The body [captureSourceCmdline] writes. *)
Definition cmdline_body (args : list string) : string :=
  Join (String lf "") args +:+ String lf "".

Definition id_end : string := "/,= " +:+ String tab "".

Fixpoint find_sandbox (prefix : string) (args : list string) : string * string :=
  match args with
  | [] => ("", "")
  | a :: args =>
      match Index a prefix with
      | None => find_sandbox prefix args
      | Some idx =>
          let rest := sdrop (idx + String.length prefix) a in
          let id := match IndexAny rest id_end with Some e => stake e rest | None => rest end in
          if (id =? "")%string then find_sandbox prefix args else (prefix +:+ id, id)
      end
  end.

Definition findSrcSandboxDir (args : list string) (sandboxRoot : string) : string * string :=
  find_sandbox (TrimRight sandboxRoot "/" +:+ "/") args.

(** ** Descriptor keys *)

(** A part that passes an inherited descriptor: fd=, fds=, vhostfd=, vhostfds=. *)
Definition passes_fd (p : string) : bool :=
  HasPrefix p "fd=" || HasPrefix p "fds=" || HasPrefix p "vhostfd=" || HasPrefix p "vhostfds=".

Definition no_fd (v : string) : Prop := Forall (fun p => passes_fd p = false) (Split "," v).

Lemma IndexFunc_app f k c r :
  forallb_str (fun c => negb (f c)) k = true → f c = true →
  IndexFunc f (k +:+ String c r) = Some (String.length k).
Proof.
  induction k as [|d k IH]; simpl; [by intros _ ->|].
  intros [Hd Hk]%andb_true_iff Hc. apply negb_true_iff in Hd. rewrite Hd, IH by done. done.
Qed.

(** A part [k=...] with a plain key is recognised by its key. *)
Lemma fd_key_prefix p k :
  HasPrefix p (k +:+ "=") = true → forallb_str (fun c => negb (Ascii.eqb "=" c)) k = true →
  k ∈ ["fd"; "fds"; "vhostfd"; "vhostfds"] → fd_key p = true.
Proof.
  intros (r & ->)%HasPrefix_spec Hk Hin. rewrite <- string_app_assoc. cbn [String.append].
  unfold fd_key, IndexByte. rewrite IndexFunc_app by done. rewrite stake_app by done.
  repeat (apply elem_of_cons in Hin as [->|Hin]; [done|]). by apply elem_of_nil in Hin.
Qed.

Lemma passes_fd_key p : passes_fd p = true → fd_key p = true.
Proof.
  unfold passes_fd. rewrite !orb_true_iff. intros [[[H|H]|H]|H].
  - apply (fd_key_prefix p "fd"); [done..|set_solver].
  - apply (fd_key_prefix p "fds"); [done..|set_solver].
  - apply (fd_key_prefix p "vhostfd"); [done..|set_solver].
  - apply (fd_key_prefix p "vhostfds"); [done..|set_solver].
Qed.

Lemma passes_fd_contains p : passes_fd p = true → Contains p "fd=" = true ∨ Contains p "fds=" = true.
Proof.
  unfold passes_fd. rewrite !orb_true_iff. intros [[[H|H]|H]|H].
  - left. by apply HasPrefix_Contains.
  - right. by apply HasPrefix_Contains.
  - left. apply HasPrefix_spec in H as (r & ->). apply Contains_spec. by exists "vhost", r.
  - right. apply HasPrefix_spec in H as (r & ->). apply Contains_spec. by exists "vhost", r.
Qed.

Lemma stripFDKeys_no_fd v : no_fd (stripFDKeys v).
Proof.
  unfold no_fd, stripFDKeys.
  destruct (Contains v "fd=") eqn:H1; [|destruct (Contains v "fds=") eqn:H2]; cbn [negb andb].
  3: { apply Forall_forall. intros p Hp. destruct (passes_fd p) eqn:Hf; [|done]. exfalso.
       destruct (Split_piece _ _ _ Hp) as (a & b & ->).
       apply passes_fd_contains in Hf as [Hf|Hf]; apply (Contains_app_middle a _ b) in Hf; congruence. }
  all: set (ps := List.filter (fun p => negb (fd_key p)) (Split "," v));
    assert (Hps : Forall (fun p => passes_fd p = false) ps ∧ Forall (fun p => no_char "," p = true) ps) by
      (split; apply List.Forall_forall; intros p [Hin Hk]%List.filter_In;
       [destruct (passes_fd p) eqn:Hf; [|done]; apply passes_fd_key in Hf; by rewrite Hf in Hk|
        pose proof (Split_pieces_no_sep "," v) as Hn; by eapply List.Forall_forall in Hn]);
    destruct Hps as [Hps Hc]; destruct ps as [|p ps]; [by repeat constructor|by rewrite (Split_Join ",")].
Qed.

Lemma no_fd_app v p : no_fd v → no_char "," p = true → passes_fd p = false → no_fd (v +:+ String "," p).
Proof.
  intros Hv Hc Hp. unfold no_fd. rewrite Split_app_sep, (Split_no_sep "," p Hc).
  apply Forall_app. by repeat constructor.
Qed.

Lemma netdev_value_no_fd v : no_fd (netdev_value v).
Proof.
  unfold netdev_value. pose proof (stripFDKeys_no_fd v) as H. set (n := stripFDKeys v) in *.
  destruct (_ || _); [|done].
  assert (H1 : no_fd (if negb (Contains n "ifname=") then n +:+ ",ifname=tap0_kata" else n)).
  { destruct (negb _); [|done]. by apply (no_fd_app n "ifname=tap0_kata"). }
  set (n1 := if negb (Contains n "ifname=") then _ else _) in *.
  destruct (negb (Contains n1 _)); [|done].
  change ",script=no,downscript=no" with (String "," "script=no" +:+ String "," "downscript=no").
  rewrite string_app_assoc. apply no_fd_app; [|done..]. by apply no_fd_app.
Qed.

(** ** The options of a command line *)

(** What the loop takes as one unit: an argument of its own, or an option whose
    value it looks at together with it. *)
Inductive item :=
| Plain (a : string)
| Opt (o v : string).

Definition flatten (i : item) : list string :=
  match i with Plain a => [a] | Opt o v => [o; v] end.

Definition takes_value (a : string) : bool :=
  (a =? "-incoming")%string || (a =? "-qmp")%string || (a =? "-netdev")%string || (a =? "-device")%string.

Definition wf_item (i : item) : Prop :=
  match i with
  | Plain a => takes_value a = false
  | Opt o v => takes_value o = true ∧ (o = "-qmp" → takes_value v = false ∧ v ≠ "-daemonize")
  end.

(** What becomes of a unit on the destination. *)
Definition rewrite_item (sub : string → string) (i : item) : option item :=
  match i with
  | Plain a => if (a =? "-daemonize")%string then None else Some (Plain (sub a))
  | Opt o v =>
      if (o =? "-incoming")%string then None
      else if (o =? "-qmp")%string then if Contains v "fd=" then None else Some (Opt o (sub v))
      else if (o =? "-netdev")%string then Some (Opt o (netdev_value v))
      else Some (Opt o (stripFDKeys v))
  end.

Section optionwise.
Context (srcDir dstDir srcID dstID srcNv dstNv : string).

Lemma transform_loop_items items :
  Forall wf_item items →
  transform_loop srcDir dstDir srcID dstID srcNv dstNv false (concat (flatten <$> items)) =
  concat (flatten <$> omap (rewrite_item (substitute srcDir dstDir srcID dstID srcNv dstNv)) items).
Proof.
  set (sub := substitute _ _ _ _ _ _).
  set (loop := transform_loop srcDir dstDir srcID dstID srcNv dstNv).
  assert (Hplain : ∀ a rest, takes_value a = false → (a =? "-daemonize")%string = false →
            loop false (a :: rest) = sub a :: loop false rest).
  { intros a rest Ha Hd. unfold takes_value in Ha. rewrite !orb_false_iff in Ha.
    destruct Ha as [[[H1 H2] H3] H4]. cbn. by rewrite Hd, H1, H2, H3, H4. }
  induction 1 as [|i items Hi Hitems IH]; [done|].
  destruct i as [a|o v]; cbn [fmap list_fmap flatten concat app omap list_omap rewrite_item].
  - simpl in Hi. destruct (a =? "-daemonize")%string eqn:Hd.
    + rewrite <- IH. cbn. by rewrite Hd.
    + cbn [fmap list_fmap flatten concat app]. rewrite <- IH. by apply Hplain.
  - destruct Hi as [Ho Hq].
    destruct (String.eqb_spec o "-incoming") as [->|H1]; [rewrite <- IH; done|].
    destruct (String.eqb_spec o "-qmp") as [->|H2].
    { destruct (Contains v "fd=") eqn:Hfd.
      - rewrite <- IH. cbn. by rewrite Hfd.
      - cbn [fmap list_fmap flatten concat app]. rewrite <- IH. cbn. rewrite Hfd. f_equal.
        destruct (Hq eq_refl) as [Hv Hvd]. apply String.eqb_neq in Hvd. by apply Hplain. }
    destruct (String.eqb_spec o "-netdev") as [->|H3]; [cbn [fmap list_fmap flatten concat app]; by rewrite <- IH|].
    destruct (String.eqb_spec o "-device") as [->|H4]; [cbn [fmap list_fmap flatten concat app]; by rewrite <- IH|].
    unfold takes_value in Ho. apply String.eqb_neq in H1, H2, H3, H4. by rewrite H1, H2, H3, H4 in Ho.
Qed.
End optionwise.

(** C21. [transformCmdline] rewrites a captured command line option by option, when
    the line reads as options with their values ([wf_item]: -incoming, -qmp,
    -netdev and -device are followed by their values, and the value of -qmp is not
    itself one of these options or -daemonize).  -daemonize, every -incoming with
    its value and every -qmp over an inherited descriptor disappear, the values of
    -netdev and -device lose their descriptor keys, every other argument is only
    path-substituted, the order is kept and "-incoming defer" ends the line.  No
    -netdev or -device value of the result passes a descriptor of the source
    process; other options are not searched for descriptors
    ([chardev_descriptor_kept]). *)
Theorem transformCmdline_optionwise srcDir dstDir srcID dstID srcNv dstNv bin items :
  Forall wf_item items →
  ∃ items', items' = omap (rewrite_item (substitute srcDir dstDir srcID dstID srcNv dstNv)) items ∧
    transformCmdline srcDir dstDir srcID dstID srcNv dstNv (bin :: concat (flatten <$> items)) =
      inl (bin, concat (flatten <$> items') ++ ["-incoming"; "defer"]) ∧
    Forall (fun i => ∀ o v, i = Opt o v →
      o ≠ "-incoming" ∧ (o = "-netdev" ∨ o = "-device" → no_fd v)) items'.
Proof.
  intros Hwf. eexists. split; [done|]. split; [unfold transformCmdline; by rewrite transform_loop_items|].
  apply Forall_forall. intros i (j & Hj & Hr)%list_elem_of_omap o v ->.
  destruct j as [a|o' v']; simpl in Hr; [by destruct (a =? "-daemonize")%string|].
  destruct (String.eqb_spec o' "-incoming"); [done|].
  destruct (String.eqb_spec o' "-qmp") as [->|].
  { destruct (Contains v' "fd="); [done|]. injection Hr as <- _. split; [done|]. by intros [?|?]. }
  destruct (o' =? "-netdev")%string; injection Hr as <- <-; split; auto using netdev_value_no_fd, stripFDKeys_no_fd.
Qed.

Definition demo_items : list item :=
  [Opt "-qmp" "unix:fd=3,server=on"; Opt "-qmp" "unix:/run/vc/vm/src/extra-monitor.sock,server=on";
   Plain "-daemonize"; Opt "-netdev" "tap,id=n0,fds=4:5,vhost=on"; Opt "-device" "vhost-vsock-pci,vhostfd=6,id=v";
   Opt "-incoming" "tcp:[::]:4444"; Plain "-m"; Plain "2048M"].

Lemma transformCmdline_optionwise_witness :
  transformCmdline "/run/vc/vm/src" "/run/vc/vm/dst" "src" "dst" "" "" ("qemu" :: concat (flatten <$> demo_items))
    = inl ("qemu", ["-qmp"; "unix:/run/vc/vm/dst/extra-monitor.sock,server=on";
                    "-netdev"; "tap,id=n0,vhost=on,ifname=tap0_kata,script=no,downscript=no";
                    "-device"; "vhost-vsock-pci,id=v"; "-m"; "2048M"; "-incoming"; "defer"]) ∧
  ∃ items', items' = omap (rewrite_item (substitute "/run/vc/vm/src" "/run/vc/vm/dst" "src" "dst" "" "")) demo_items ∧
    transformCmdline "/run/vc/vm/src" "/run/vc/vm/dst" "src" "dst" "" "" ("qemu" :: concat (flatten <$> demo_items)) =
      inl ("qemu", concat (flatten <$> items') ++ ["-incoming"; "defer"]) ∧
    Forall (fun i => ∀ o v, i = Opt o v →
      o ≠ "-incoming" ∧ (o = "-netdev" ∨ o = "-device" → no_fd v)) items'.
Proof.
  split; [vm_compute; reflexivity|]. apply transformCmdline_optionwise.
  repeat constructor; discriminate.
Defined.

(** ** Capture and replay *)

Lemma filter_nonempty_id args :
  Forall (fun a => a ≠ "") args → List.filter (fun p => negb (p =? "")%string) args = args.
Proof.
  induction 1 as [|a args Ha _ IH]; [done|]. simpl. apply String.eqb_neq in Ha. rewrite Ha. simpl.
  by rewrite IH.
Qed.

Lemma IndexByte_None s c : no_char c s = true → IndexByte s c = None.
Proof.
  unfold IndexByte, no_char. induction s as [|d s IH]; [done|]. simpl.
  intros [Hd Hs]%andb_true_iff. apply negb_true_iff in Hd.
  rewrite Ascii.eqb_sym, Hd. by rewrite IH.
Qed.

Lemma no_char_Join c sep ws :
  no_char c sep = true → Forall (fun w => no_char c w = true) ws → no_char c (Join sep ws) = true.
Proof.
  intros Hs. induction 1 as [|w ws Hw Hws IH]; [done|]. unfold no_char in *.
  destruct ws as [|w' ws]; [done|].
  change (Join sep (w :: w' :: ws)) with (w +:+ sep +:+ Join sep (w' :: ws)).
  by rewrite !forallb_str_app, Hw, Hs, IH.
Qed.

(** Capture and replay agree: the file written from the arguments of the
    source QEMU parses back to the same arguments, provided none of them holds
    a newline (an argument of a process never holds a NUL byte). *)
Theorem cmdline_roundtrip args :
  args ≠ [] →
  Forall (fun a => a ≠ "" ∧ no_char lf a = true ∧ no_char nul a = true) args →
  parseCmdlineBytes (cmdline_body args) = args.
Proof.
  intros Hne Hargs. unfold parseCmdlineBytes, cmdline_body.
  assert (Hnul : Forall (fun a => no_char nul a = true) args) by (eapply Forall_impl; [exact Hargs|]; naive_solver).
  assert (Hlf : Forall (fun a => no_char lf a = true) args) by (eapply Forall_impl; [exact Hargs|]; naive_solver).
  rewrite IndexByte_None.
  2: { unfold no_char. rewrite forallb_str_app. apply andb_true_iff. split; [|done].
       by apply (no_char_Join nul (String lf "")). }
  rewrite Split_app_sep, Split_Join by done. rewrite List.filter_app. simpl. rewrite app_nil_r.
  apply filter_nonempty_id. eapply Forall_impl; [exact Hargs|]. naive_solver.
Qed.

Lemma cmdline_roundtrip_witness :
  parseCmdlineBytes (cmdline_body ["/usr/bin/qemu"; "-m"; "2048M"]) = ["/usr/bin/qemu"; "-m"; "2048M"].
Proof. apply cmdline_roundtrip; [discriminate|]. repeat constructor; try discriminate. Defined.

(** An argument of the source QEMU that holds a newline does not survive:
    it comes back as several arguments on the destination. *)
Theorem cmdline_newline_splits :
  parseCmdlineBytes (cmdline_body ["qemu"; "-append"; "a" +:+ String lf "b"]) =
  ["qemu"; "-append"; "a"; "b"].
Proof. vm_compute. reflexivity. Qed.

(** ** The nvdimm allowlist *)

Lemma isAllowedNvdimmPath_spec p :
  isAllowedNvdimmPath p = true →
  (∃ pref, pref ∈ nvdimmPathAllowedPrefixes ∧ HasPrefix p pref = true) ∧
  Forall (fun c => c ≠ "..") (Split "/" p).
Proof.
  unfold isAllowedNvdimmPath. destruct (p =? "")%string; [done|]. cbn [orb].
  destruct (IsAbs p) eqn:Habs; [|done]. cbn [negb].
  destruct (String.eqb_spec (Clean p) p) as [Hc|]; [|done].
  cbn [negb]. intros Hex. apply List.existsb_exists in Hex as (pref & Hin & Hp). split.
  - exists pref. split; [|done]. by apply list_elem_of_In.
  - by apply Clean_fixpoint_no_dotdot.
Qed.

(** The node-local file that a captured command line can make the
    destination read is confined: [extractNvdimmPath] returns nothing or a path
    under one of the Kata image roots, with no ".." component, that does not
    name the guest memory under /dev/shm. *)
Theorem extractNvdimmPath_confined args :
  let p := extractNvdimmPath args in
  p = "" ∨
  (HasPrefix p "/dev/shm" = false ∧ Forall (fun c => c ≠ "..") (Split "/" p) ∧
   ∃ pref, pref ∈ nvdimmPathAllowedPrefixes ∧ HasPrefix p pref = true).
Proof.
  induction args as [|a args IH]; [by left|]. simpl.
  unfold nvdimm_candidate. destruct (negb (Contains a "mem-path=")); [done|].
  destruct (List.find _ _) as [p|] eqn:Hf; [|done]. right.
  apply List.find_some in Hf as [_ [Hs Ha]%andb_true_iff].
  apply isAllowedNvdimmPath_spec in Ha as [Hp Hd].
  by rewrite negb_true_iff in Hs.
Qed.

(** ** The source sandbox directory *)

Lemma IndexFunc_stake f s e :
  IndexFunc f s = Some e → forallb_str (fun c => negb (f c)) (stake e s) = true.
Proof.
  revert e. induction s as [|c s IH]; intros e; simpl; [done|].
  destruct (f c) eqn:Hc; [by intros [= <-]|].
  intros (e' & He & ->)%fmap_Some. simpl. rewrite Hc. simpl. by apply IH.
Qed.

Lemma IndexFunc_None f s :
  IndexFunc f s = None → forallb_str (fun c => negb (f c)) s = true.
Proof.
  induction s as [|c s IH]; simpl; [done|]. destruct (f c) eqn:Hc; [done|].
  intros H%fmap_None. by rewrite IH.
Qed.

(** The source sandbox directory found in a captured command line really
    occurs in one of its arguments, directly below the sandbox root, and its
    name holds no path separator or option delimiter. *)
Theorem findSrcSandboxDir_spec args root dir id :
  findSrcSandboxDir args root = (dir, id) →
  (dir = "" ∧ id = "") ∨
  (dir = TrimRight root "/" +:+ "/" +:+ id ∧ id ≠ "" ∧
   forallb_str (fun c => negb (char_in c id_end)) id = true ∧
   ∃ a, a ∈ args ∧ Contains a dir = true).
Proof.
  unfold findSrcSandboxDir. set (pre := TrimRight root "/" +:+ "/").
  assert (Hpre : ∀ s, TrimRight root "/" +:+ "/" +:+ s = pre +:+ s).
  { intros s. unfold pre. by rewrite string_app_assoc. }
  rewrite Hpre. clear Hpre.
  induction args as [|a args IH]; simpl; [intros [= <- <-]; by left|].
  assert (Hskip : find_sandbox pre args = (dir, id) →
    (dir = "" ∧ id = "") ∨ (dir = pre +:+ id ∧ id ≠ "" ∧
       forallb_str (fun c => negb (char_in c id_end)) id = true ∧
       ∃ a', a' ∈ a :: args ∧ Contains a' dir = true)).
  { intros [H|(?&?&?&a'&?&?)]%IH; [by left|]. right. split_and!; auto. exists a'. split; [by right|done]. }
  destruct (Index a pre) as [idx|] eqn:Hi; [|done].
  set (rest := sdrop (idx + String.length pre) a) in *.
  set (i := match IndexAny rest id_end with Some e => stake e rest | None => rest end) in *.
  destruct (String.eqb_spec i "") as [|Hne]; [done|]. intros [= <- <-]. right.
  assert (Hid : forallb_str (fun c => negb (char_in c id_end)) i = true ∧ ∃ r, rest = i +:+ r).
  { unfold i, IndexAny. destruct (IndexFunc _ rest) as [e|] eqn:He.
    - split; [by apply IndexFunc_stake in He|]. exists (sdrop e rest). by rewrite stake_sdrop.
    - split; [by apply IndexFunc_None in He|]. exists "". by rewrite string_app_nil_r. }
  destruct Hid as [Hchars [r Hr]]. split_and!; [done|done|done|]. exists a. split; [by left|].
  apply Index_Some in Hi. fold rest in Hi. rewrite Hr in Hi. apply Contains_spec.
  exists (stake idx a), r. rewrite Hi at 1. by rewrite <- !string_app_assoc.
Qed.

Lemma findSrcSandboxDir_spec_witness :
  ("/run/vc/vm/ab12" = "" ∧ "ab12" = "") ∨
  ("/run/vc/vm/ab12" = TrimRight "/run/vc/vm" "/" +:+ "/" +:+ "ab12" ∧ "ab12" ≠ "" ∧
   forallb_str (fun c => negb (char_in c id_end)) "ab12" = true ∧
   ∃ a, a ∈ ["qemu"; "socket,path=/run/vc/vm/ab12/vhost-fs.sock"] ∧ Contains a "/run/vc/vm/ab12" = true).
Proof.
  apply (findSrcSandboxDir_spec ["qemu"; "socket,path=/run/vc/vm/ab12/vhost-fs.sock"] "/run/vc/vm").
  vm_compute. reflexivity.
Defined.

(** The read-only clause is removed from every argument that reaches the
    substitution step, not only from the nvdimm backend: a read-only -drive
    becomes writable on the destination, while a -device keeps the clause. *)
Theorem readonly_stripped_everywhere :
  transformCmdline "" "" "" "" "" ""
    ["qemu"; "-drive"; "file=/opt/kata/image,readonly=on"; "-device"; "pflash,readonly=on"] =
  inl ("qemu", ["-drive"; "file=/opt/kata/image"; "-device"; "pflash,readonly=on"; "-incoming"; "defer"]).
Proof. vm_compute. reflexivity. Qed.

(** The descriptor of another option is passed on to a process that has not
    inherited it. *)
Lemma chardev_descriptor_kept :
  transformCmdline "" "" "" "" "" "" ["qemu"; "-chardev"; "socket,id=c0,fd=5"] =
  inl ("qemu", ["-chardev"; "socket,id=c0,fd=5"; "-incoming"; "defer"]).
Proof. vm_compute. reflexivity. Qed.
