(* ===== verification/DestSpawn.v ===== *)
(** * Capturing and replaying the source QEMU
    (the effectful part of internal/migration/destspawn.go) *)
From S2P Require Import Prelude GoErrors GoStrings Netip QmpTypes Effects Qmp MigConfig Exec Filepath Cmdline.

Definition destReplayDefaultSandbox : string := "katamaran-dest".
Definition kataSharedSandboxRoot : string := "/run/kata-containers/shared/sandboxes".
Definition destReplayDefaultQEMU : string := "/opt/kata/bin/qemu-system-x86_64".
Definition destReplayVirtiofsd : string := "/opt/kata/libexec/virtiofsd".
Definition destReplaySocketWaitTotal : Z := 15 * second.
Definition destReplaySocketPollInterval : Z := 1 * second.
Definition destReplayVirtiofsdSettleDelay : Z := 2 * second.
Definition destReplaySleep : Z := 60 * second.
Definition sandboxRoot : string := "/run/vc/vm".

Definition readCmdlineFile (path : string) : M (list string + error) :=
  data ← ReadFile path;
  mret match data with
       | inr e => inr (ErrWrap "read cmdline file" e)
       | inl data => inl (parseCmdlineBytes data)
       end.

Definition captureSourceCmdline (qemuPID : Z) (outPath : string) : M (option error) :=
  raw ← ReadFile ("/proc/" +:+ Itoa qemuPID +:+ "/cmdline");
  match raw with
  | inr e => mret (Some (ErrWrap "read" e))
  | inl raw =>
      let args := parseCmdlineBytes raw in
      if (length args =? 0)%nat then mret (Some (ErrNew "captured cmdline is empty"))
      else
        let dir := Dir outPath in
        err ← (if negb (dir =? "")%string && negb (dir =? ".")%string then MkdirAll dir else mret None);
        match err with
        | Some e => mret (Some (ErrWrap "create cmdline output dir" e))
        | None =>
            err ← WriteFile outPath (cmdline_body args);
            or_return "write" err (mret None)
        end
  end.

(** [copyNvdimmImage]: the copy refuses symbolic links and irregular files. *)
Definition copyNvdimmImage (src : string) : M (string + error) :=
  err ← ask (fun e => e_open e src);
  match err with
  | Some e => mret (inr (ErrWrap "open" e))
  | None =>
      reg ← ask (fun e => e_isregular e src);
      match reg with
      | inr e => mret (inr (ErrWrap "stat" e))
      | inl false => mret (inr (ErrNew "nvdimm image is not a regular file"))
      | inl true =>
          out ← ask (fun e => e_tempfile e "/tmp/kata-dst-nvdimm-*.img");
          match out with
          | inr e => mret (inr (ErrWrap "create temp nvdimm" e))
          | inl out =>
              err ← ask e_copy;
              log (EvCopy src out err);;
              match err with
              | Some e => Remove out;; mret (inr (ErrWrap "copy" e))
              | None => mret (inl out)
              end
          end
      end
  end.

Definition setupTapIface (ctx : Ctx) (name : string) : M (option error) :=
  _ ← runCmd ctx ["ip"; "tuntap"; "add"; "dev"; name; "mode"; "tap"];
  err ← runCmd ctx ["ip"; "link"; "set"; name; "up"];
  or_return "ip link set up" err (mret None).

Definition spawnDetachedProcess (name : string) (args : list string) : M (option error) :=
  err ← ask e_spawn;
  log (EvSpawn (name :: args) err);;
  or_return "start" err (mret None).

(** [waitForSocket]; the clock is the environment's, so the poll has fuel. *)
Fixpoint wait_socket_loop (fuel : nat) (ctx : Ctx) (path : string) (deadline : Z) : M (option error) :=
  match fuel with
  | O => spin
  | S fuel =>
      up ← ask (fun e => e_issocket e path);
      if (up : bool) then mret None
      else
        now ← Now;
        if now >? deadline then mret (Some (ErrNew "timed out"))
        else
          err ← SelectTimer ctx destReplaySocketPollInterval;
          match err with
          | Some e => mret (Some e)
          | None => wait_socket_loop fuel ctx path deadline
          end
  end.

Definition waitForSocket (fuel : nat) (ctx : Ctx) (path : string) (total : Z) : M (option error) :=
  now ← Now;
  wait_socket_loop fuel ctx path (now + total).

Definition startVirtiofsd (fuel : nat) (ctx : Ctx) (socketPath sharedDir : string) : M (option error) :=
  err ← spawnDetachedProcess destReplayVirtiofsd
    ["--socket-path=" +:+ socketPath; "--shared-dir=" +:+ sharedDir; "--cache=auto";
     "--thread-pool-size=1"; "--announce-submounts"; "--sandbox=none";
     "--migration-on-error=guest-error"];
  match err with
  | Some e => mret (Some e)
  | None =>
      err ← waitForSocket fuel ctx socketPath (destReplayVirtiofsdSettleDelay + 3 * second);
      or_return "virtiofsd socket did not appear" err (mret None)
  end.

(** The QEMU binary that is executed: never argv[0] of the captured line. *)
Definition replay_binary (cfg : DestConfig) : string :=
  let binary := if (dc_QEMUBinary cfg =? "")%string then destReplayDefaultQEMU else dc_QEMUBinary cfg in
  if negb (IsAbs binary) then destReplayDefaultQEMU else binary.

(** The nvdimm step: the source path and the copy's path, both empty if none. *)
Definition replay_nvdimm (args : list string) : M ((string * string) + error) :=
  let srcNvdimm := extractNvdimmPath args in
  if (srcNvdimm =? "")%string then mret (inl ("", ""))
  else
    dst ← copyNvdimmImage srcNvdimm;
    mret match dst with
         | inr e => inr (ErrWrap "copy nvdimm image" e)
         | inl dst => inl (srcNvdimm, dst)
         end.

(** The part of [spawnReplayedQEMU] after the arguments are known. *)
Definition spawn_with_args (fuel : nat) (ctx : Ctx) (cfg : DestConfig) (args : list string)
    (srcNvdimm dstNvdimm : string) : M (string + error) :=
  let dstSandboxID := if (dc_SandboxID cfg =? "")%string then destReplayDefaultSandbox else dc_SandboxID cfg in
  let dstSandboxDir := path_join [sandboxRoot; dstSandboxID] in
  let dstSocket := path_join [dstSandboxDir; "extra-monitor.sock"] in
  let '(srcSandboxDir, srcSandboxID) := findSrcSandboxDir args sandboxRoot in
  err ← MkdirAll dstSandboxDir;
  match err with
  | Some e => mret (inr (ErrWrap "create dest sandbox dir" e))
  | None =>
      forM ["extra-monitor.sock"; "vhost-fs.sock"; "console.sock"]
        (fun name => Remove (path_join [dstSandboxDir; name]));;
      let sharedDir := path_join [kataSharedSandboxRoot; dstSandboxID; "shared"] in
      err ← MkdirAll sharedDir;
      match err with
      | Some e => mret (inr (ErrWrap "create virtiofs shared dir" e))
      | None =>
          err ← setupTapIface ctx "tap0_kata";
          match err with
          | Some e => mret (inr (ErrWrap "setup tap iface" e))
          | None =>
              err ← startVirtiofsd fuel ctx (path_join [dstSandboxDir; "vhost-fs.sock"]) sharedDir;
              match err with
              | Some e => mret (inr (ErrWrap "start virtiofsd" e))
              | None =>
                  match transformCmdline srcSandboxDir dstSandboxDir srcSandboxID dstSandboxID
                          srcNvdimm dstNvdimm args with
                  | inr e => mret (inr (ErrWrap "transform cmdline" e))
                  | inl (_, qemuArgs) =>
                      err ← spawnDetachedProcess (replay_binary cfg) qemuArgs;
                      match err with
                      | Some e => mret (inr (ErrWrap "spawn dest QEMU" e))
                      | None =>
                          err ← waitForSocket fuel ctx dstSocket destReplaySocketWaitTotal;
                          mret match err with
                               | Some e => inr (ErrWrap "dest QEMU QMP socket did not appear" e)
                               | None => inl dstSocket
                               end
                      end
                  end
              end
          end
      end
  end.

(** [spawnReplayedQEMU]: the new value of [cfg.QMPSocket], or an error. *)
Definition spawnReplayedQEMU (fuel : nat) (ctx : Ctx) (cfg : DestConfig) : M (string + error) :=
  args ← readCmdlineFile (dc_ReplayCmdlineFile cfg);
  match args with
  | inr e => mret (inr e)
  | inl args =>
      if (length args <? 2)%nat then mret (inr (ErrNew "cmdline file has too few args"))
      else
        nv ← replay_nvdimm args;
        match nv with
        | inr e => mret (inr e)
        | inl (srcNvdimm, dstNvdimm) => spawn_with_args fuel ctx cfg args srcNvdimm dstNvdimm
        end
  end.

(** [logWriter.Write]: the lines it logs, each with its truncation flag. *)
Definition maxChildProcessLogLine : Z := 4096.
Definition cr : ascii := ascii_of_nat 13.

Definition logWriter_lines (p : string) : list (string * bool) :=
  omap (fun line =>
    let line := TrimRight line (String cr "") in
    if (line =? "")%string then None
    else if slen line >? maxChildProcessLogLine
         then Some (stake (Z.to_nat maxChildProcessLogLine) line, true)
         else Some (line, false))
  (Split lf (TrimRight p (String cr (String lf "")))).

(** ** Properties *)

(** What the replay is allowed to do to the node: the two commands that set up the
    tap device, virtiofsd on the destination's own directories, the pinned QEMU
    that waits for a migration, directories of the destination sandbox, copies of
    allowed images, removals (of the sandbox's sockets or a failed copy) and
    waiting.  It connects to nothing, writes no other file and prints nothing. *)
Definition tap_commands : list (list string) :=
  [["ip"; "tuntap"; "add"; "dev"; "tap0_kata"; "mode"; "tap"]; ["ip"; "link"; "set"; "tap0_kata"; "up"]].

Definition dest_sandbox (cfg : DestConfig) : string :=
  if (dc_SandboxID cfg =? "")%string then "katamaran-dest" else dc_SandboxID cfg.

Definition virtiofsd_args (cfg : DestConfig) : list string :=
  ["--socket-path=" +:+ path_join [path_join ["/run/vc/vm"; dest_sandbox cfg]; "vhost-fs.sock"];
   "--shared-dir=" +:+ path_join ["/run/kata-containers/shared/sandboxes"; dest_sandbox cfg; "shared"];
   "--cache=auto"; "--thread-pool-size=1"; "--announce-submounts"; "--sandbox=none";
   "--migration-on-error=guest-error"].

Definition replay_call_ok (cfg : DestConfig) (ev : event) : Prop :=
  match ev with
  | EvCmd argv _ => argv ∈ tap_commands
  | EvSpawn (b :: args) _ =>
      (b = "/opt/kata/libexec/virtiofsd" ∧ args = virtiofsd_args cfg) ∨
      (b = replay_binary cfg ∧ ∃ pre, args = pre ++ ["-incoming"; "defer"])
  | EvCopy src _ _ => isAllowedNvdimmPath src = true
  | EvMkdir dir _ =>
      dir = path_join ["/run/vc/vm"; dest_sandbox cfg] ∨
      dir = path_join ["/run/kata-containers/shared/sandboxes"; dest_sandbox cfg; "shared"]
  | EvRemove _ | EvSleep _ => True
  | _ => False
  end.

Lemma extractNvdimmPath_allowed args :
  extractNvdimmPath args ≠ "" → isAllowedNvdimmPath (extractNvdimmPath args) = true.
Proof.
  induction args as [|a args IH]; [done|]. cbn [extractNvdimmPath].
  destruct (nvdimm_candidate a) as [p|] eqn:Hc; [|done]. intros _.
  unfold nvdimm_candidate in Hc. destruct (negb _); [done|].
  by apply List.find_some in Hc as [_ [_ ?]%andb_true_iff].
Qed.

Section emits.
Context (P : event → Prop).

Lemma emits_waitForSocket fuel ctx path total :
  (∀ ns, P (EvSleep ns)) → emits P (waitForSocket fuel ctx path total).
Proof.
  intros HP. unfold waitForSocket. emits_step; [repeat emits_step|].
  match goal with |- always _ (wait_socket_loop _ _ _ ?d) => generalize d end.
  induction fuel as [|fuel IH]; intros d; cbn [wait_socket_loop]; repeat emits_step; auto.
Qed.

Lemma emits_spawnDetached name args :
  (∀ e, P (EvSpawn (name :: args) e)) → emits P (spawnDetachedProcess name args).
Proof. intros HP. unfold spawnDetachedProcess. repeat emits_step. apply HP. Qed.
End emits.

Lemma emits_spawn_with_args fuel ctx cfg args src dst :
  emits (replay_call_ok cfg) (spawn_with_args fuel ctx cfg args src dst).
Proof.
  unfold spawn_with_args, setupTapIface, startVirtiofsd.
  repeat first
    [ done
    | lazymatch goal with
      | |- always _ (waitForSocket _ _ _ _) => apply emits_waitForSocket
      | |- always _ (spawnDetachedProcess _ _) => apply emits_spawnDetached; intros ?
      | |- always _ (runCmd _ _) => apply emits_runCmd; intros ?
      end
    | emits_step ].
  - by left.
  - by right.
  - by left.
  - by right; left.
  - by left.
  - right. split; [done|]. unfold transformCmdline in *. destruct args as [|b args]; [done|].
    simplify_eq. eauto.
Qed.

(** C22. Whatever the captured command line says, replaying it executes nothing
    but the two fixed ip commands for the tap device, virtiofsd with fixed options on
    the destination sandbox's directories, and the configured (or bundled) QEMU,
    never argv[0] of the captured line, always waiting for an incoming migration; it
    copies no file outside the allowed Kata image roots, creates directories only for
    the destination sandbox, and talks to no socket or server. *)
Theorem spawnReplayedQEMU_confined fuel ctx cfg env w :
  ∃ t, w_trace (spawnReplayedQEMU fuel ctx cfg env w).2 = w_trace w ++ t ∧
       Forall (replay_call_ok cfg) t.
Proof.
  assert (H : emits (replay_call_ok cfg) (spawnReplayedQEMU fuel ctx cfg)); [|apply H].
  unfold spawnReplayedQEMU, readCmdlineFile, replay_nvdimm, copyNvdimmImage.
  repeat first
    [ apply emits_spawn_with_args
    | done
    | lazymatch goal with
      | |- always _ (let _ := _ in _) => cbv zeta
      | |- always _ (if (extractNvdimmPath ?a =? "")%string then _ else _) =>
          destruct (String.eqb_spec (extractNvdimmPath a) "")
      end
    | emits_step ].
  by apply extractNvdimmPath_allowed.
Qed.
