(* ===== verification/Source.v ===== *)
(** * The source side of a migration (internal/migration/source.go)

    [RunSource] is split at its defers: the part between the registration of a
    defer and the return of the function is a program of its own that also
    returns the variables the defer reads.  State that only decides what is
    written to the log is left out.  Every loop whose exit depends on the
    outside has fuel. *)
From S2P Require Import Prelude GoErrors GoStrings Netip QmpTypes Effects Qmp MigConfig Exec.
From S2P Require Import Tunnel PodResolve Filepath Cmdline DestSpawn.

(** ** Measuring the round-trip time *)

Definition rtt_samples : Z := 3.
Definition maxUnrelatedReplies : Z := rtt_samples * 5.

(** The sampling loop of [measureRTT]: [i] samples taken, [unrelated] foreign
    packets seen.  19 rounds are enough ([measureRTT_total]). *)
Fixpoint rtt_loop (fuel : nat) (id i unrelated best : Z) : M (Z + error) :=
  if i >=? rtt_samples then mret (inl best)
  else
    match fuel with
    | O => spin
    | S fuel =>
        err ← ask e_icmp_send;
        match err with
        | Some e => mret (inr (ErrWrap "RTT sample send failed" e))
        | None =>
            err ← ask e_setdeadline;
            match err with
            | Some e => mret (inr (ErrWrap "RTT sample set deadline" e))
            | None =>
                reply ← ask e_icmp_recv;
                rtt ← ask e_icmp_rtt;
                let other :=
                  if unrelated + 1 >? maxUnrelatedReplies
                  then mret (inr (ErrNew "RTT measurement abandoned after unrelated ICMP replies"))
                  else rtt_loop fuel id i (unrelated + 1) best in
                match reply with
                | IcmpRecvErr e => mret (inr (ErrWrap "RTT sample recv failed" e))
                | IcmpParseErr e => mret (inr (ErrWrap "RTT sample parse failed" e))
                | IcmpOther => other
                | IcmpEcho eid eseq =>
                    if negb (eid =? id) || negb (eseq =? i + 1) then other
                    else
                      rtt_loop fuel id (i + 1) unrelated
                        (if (i =? 0) || (rtt <? best) then rtt else best)
                end
            end
        end
    end.

Definition rtt_fuel : nat := 19.

Definition measureRTT (destIP : Addr) : M (Z + error) :=
  err ← ask e_icmp_listen;
  match err with
  | Some e => mret (inr (ErrWrap "opening ICMP socket (does the pod have CAP_NET_RAW?)" e))
  | None =>
      pid ← ask e_getpid;
      rtt_loop rtt_fuel (Z.land pid 65535) 0 0 0
  end.

(** ** Migration status *)

(** [migrationTerminalError]: is the state terminal, and with which error. *)
Definition migrationTerminalError (status errorDesc : string) : bool * option error :=
  if (status =? MigrateStatusCompleted)%string then (true, None)
  else if (status =? MigrateStatusFailed)%string then
    if negb (errorDesc =? "")%string then (true, Some (ErrWrap errorDesc ErrMigrationFailed))
    else (true, Some ErrMigrationFailed)
  else if (status =? MigrateStatusCancelled)%string then (true, Some ErrMigrationCancelled)
  else (false, None).

(** ** Storage synchronisation *)

(** The fields of [jobState] that decide anything. *)
Record jobState := MkJobState { js_id : string; js_seen : bool; js_ready : bool }.

(** [jobsByID[id]]: the last entry of the reply for that device. *)
Definition jobsByID (jobs : list BlockJobInfo) (id : string) : option BlockJobInfo :=
  List.find (fun j => (bj_device j =? id)%string) (rev jobs).

(** One pass over the jobs: the new states and whether all are ready.  Go visits
    the map in no particular order; the order only selects which of several
    errors is reported. *)
Fixpoint check_jobs (jobs : list BlockJobInfo) (appearDeadline : Z) (states : list jobState)
    : M ((list jobState * bool) + error) :=
  match states with
  | [] => mret (inl ([], true))
  | js :: states =>
      let next (js : jobState) (ok : bool) :=
        r ← check_jobs jobs appearDeadline states;
        mret match r with
             | inr e => inr e
             | inl (sts, ready) => inl (js :: sts, ok && ready)
             end in
      if js_ready js then next js true
      else
        match jobsByID jobs (js_id js) with
        | None =>
            if js_seen js then mret (inr (ErrNew "block mirror job disappeared"))
            else
              now ← Now;
              if now >? appearDeadline then mret (inr (ErrNew "block mirror job did not appear"))
              else next js false
        | Some job =>
            if bj_ready job then next (MkJobState (js_id js) true true) true
            else if (bj_status job =? BlockJobStatusConcluded)%string || (bj_status job =? BlockJobStatusNull)%string
            then mret (inr (ErrNew "block mirror job failed"))
            else next (MkJobState (js_id js) true false) false
        end
  end.

Fixpoint storage_loop (fuel : nat) (appearDeadline : Z) (states : list jobState) : M (option error) :=
  match fuel with
  | O => spin
  | S fuel' =>
      cerr ← CtxErr CtxStorage;
      match cerr with
      | Some ce => mret (Some (ErrWrap "storage sync" ce))
      | None =>
          raw ← Execute fuel CtxStorage "query-block-jobs" NoArgs;
          match raw with
          | inr e =>
              cerr ← CtxErr CtxStorage;
              mret (Some match cerr with
                         | Some ce => ErrWrap "storage sync" ce
                         | None => ErrWrap "querying block jobs" e
                         end)
          | inl raw =>
              jobs ← reads (fun e => e_dec_jobs e raw);
              match jobs with
              | inr e => mret (Some (ErrWrap "unmarshaling block jobs" e))
              | inl jobs =>
                  r ← check_jobs jobs appearDeadline states;
                  match r with
                  | inr e => mret (Some e)
                  | inl (states, allReady) =>
                      if (allReady : bool) then mret None
                      else
                        cerr ← SelectTimer CtxStorage storagePollInterval;
                        match cerr with
                        | Some ce => mret (Some (ErrWrap "storage sync" ce))
                        | None => storage_loop fuel' appearDeadline states
                        end
                  end
              end
          end
      end
  end.

Definition waitForStorageSync (fuel : nat) (jobIDs : list string) : M (option error) :=
  now ← Now;
  storage_loop fuel (now + jobAppearTimeout) ((fun id => MkJobState id false false) <$> jobIDs).

(** ** Completion *)

Definition postActiveStallGrace : Z := 30 * second.

Definition progress_line (info : MigrateInfo) : string :=
  "KATAMARAN_PROGRESS status=" +:+ mi_status info +:+ " ram_transferred=" +:+ Itoa (mi_ramTransferred info)
  +:+ " ram_total=" +:+ Itoa (mi_ramTotal info) +:+ " ram_remaining=" +:+ Itoa (mi_ramRemaining info).

Fixpoint complete_loop (fuel : nat) (prevStatus : string) (lastLoggedRemaining : Z)
    (firstStallAt : option Z) : M (option error) :=
  match fuel with
  | O => spin
  | S fuel' =>
      cerr ← CtxErr CtxMigration;
      match cerr with
      | Some ce => mret (Some (ErrWrap "migration" ce))
      | None =>
          let wait prevStatus lastLoggedRemaining firstStallAt :=
            cerr ← SelectTimer CtxMigration migrationPollInterval;
            match cerr with
            | Some ce => mret (Some (ErrWrap "migration" ce))
            | None => complete_loop fuel' prevStatus lastLoggedRemaining firstStallAt
            end in
          raw ← Execute fuel CtxQuery "query-migrate" NoArgs;
          match raw with
          | inr _ =>
              cerr ← CtxErr CtxMigration;
              match cerr with
              | Some ce => mret (Some (ErrWrap "migration" ce))
              | None =>
                  first ← match firstStallAt with Some t => mret t | None => LoggedNow end;
                  now ← LoggedNow;
                  if now - first >? postActiveStallGrace then mret None
                  else wait prevStatus lastLoggedRemaining (Some first)
              end
          | inl raw =>
              info ← reads (fun e => e_dec_migrate e raw);
              match info with
              | inr e => mret (Some (ErrWrap "unmarshaling migration status" e))
              | inl info =>
                  let statusChanged := negb (mi_status info =? prevStatus)%string in
                  let remainingChanged :=
                    (lastLoggedRemaining >? 0) && (mi_ramRemaining info <=? Z.quot lastLoggedRemaining 2) in
                  let changed := statusChanged || remainingChanged in
                  when changed (Printf (progress_line info));;
                  match migrationTerminalError (mi_status info) (mi_errorDesc info) with
                  | (true, termErr) => mret termErr
                  | (false, _) =>
                      wait (if changed then mi_status info else prevStatus)
                           (if changed then mi_ramRemaining info else lastLoggedRemaining) None
                  end
              end
          end
      end
  end.

Definition waitForMigrationComplete (fuel : nat) : M (option error) :=
  complete_loop fuel "" 0 None.

(** ** The STOP wait *)

Fixpoint stop_loop (fuel : nat) : M (option error) :=
  match fuel with
  | O => spin
  | S fuel' =>
      err ← WaitForEvent fuel CtxRun "STOP" migrationPollInterval;
      match err with
      | None => mret None
      | Some e =>
          if is_net_timeout e then
            raw ← Execute fuel CtxRun "query-migrate" NoArgs;
            match raw with
            | inr _ => stop_loop fuel'
            | inl raw =>
                info ← reads (fun e => e_dec_migrate e raw);
                match info with
                | inr _ => stop_loop fuel'
                | inl info =>
                    match migrationTerminalError (mi_status info) (mi_errorDesc info) with
                    | (true, Some te) => mret (Some (ErrWrap "during STOP polling" te))
                    | (true, None) => mret None
                    | (false, _) => stop_loop fuel'
                    end
                end
            end
          else mret (Some (ErrWrap "unexpected error waiting for STOP event" e))
      end
  end.

(** ** Kata's persisted sandbox state *)

Fixpoint emit_scan (qemuPID : Z) (entries : list dirent) : M unit :=
  match entries with
  | [] => mret tt
  | e :: entries =>
      if negb (de_isdir e) then emit_scan qemuPID entries
      else
        raw ← ReadFile (path_join ["/run/vc/sbs"; de_name e; "persist.json"]);
        match raw with
        | inr _ => emit_scan qemuPID entries
        | inl raw =>
            p ← reads (fun e => e_dec_persist e raw);
            match p with
            | inr _ => emit_scan qemuPID entries
            | inl p =>
                if negb (p_pid p =? qemuPID) then emit_scan qemuPID entries
                else
                  vmCfg ← reads (fun e => e_base64 e (e_enc_vmconfig e p));
                  agent ← reads (fun e => e_base64 e (p_agentConfig p));
                  Printf ("KATAMARAN_VMCONFIG_B64=" +:+ vmCfg);;
                  Printf ("KATAMARAN_AGENTCONFIG_B64=" +:+ agent)
            end
        end
  end.

Definition emitVMConfig (qemuPID : Z) : M unit :=
  entries ← ReadDir "/run/vc/sbs";
  match entries with
  | inr _ => mret tt
  | inl entries => emit_scan qemuPID entries
  end.

(** ** [RunSource] *)

Definition with_pod (cfg : SourceConfig) (vm : Addr) (socket : string) : SourceConfig :=
  MkSourceConfig socket (sc_DestIP cfg) vm (sc_DriveIDs cfg) (sc_SharedStorage cfg) (sc_TunnelMode cfg)
    (sc_DowntimeLimitMS cfg) (sc_AutoDowntime cfg) (sc_AutoDowntimeFloorMS cfg)
    (sc_CNIConvergenceDelay cfg) (sc_MultifdChannels cfg) (sc_PodName cfg) (sc_PodNamespace cfg)
    (sc_EmitCmdlineTo cfg).

Definition with_addrs (cfg : SourceConfig) (dest vm : Addr) (mode : string) : SourceConfig :=
  MkSourceConfig (sc_QMPSocket cfg) dest vm (sc_DriveIDs cfg) (sc_SharedStorage cfg) mode
    (sc_DowntimeLimitMS cfg) (sc_AutoDowntime cfg) (sc_AutoDowntimeFloorMS cfg)
    (sc_CNIConvergenceDelay cfg) (sc_MultifdChannels cfg) (sc_PodName cfg) (sc_PodNamespace cfg)
    (sc_EmitCmdlineTo cfg).

(** Pod mode: the configuration with the resolved address and socket, and the
    PID of the QEMU process (0 outside pod mode). *)
Definition resolve_pod (cfg : SourceConfig) : M ((SourceConfig * Z) + error) :=
  if (sc_PodName cfg =? "")%string then mret (inl (cfg, 0))
  else
    ip ← LookupPodIP CtxCaller (sc_PodNamespace cfg) (sc_PodName cfg);
    match ip with
    | inr e => mret (inr (ErrWrap "lookup pod IP" e))
    | inl ip =>
        match ParseAddr ip with
        | None => mret (inr (ErrNew "parse resolved pod IP"))
        | Some addr =>
            res ← resolveSandbox sandboxRoot ip;
            match res with
            | inr e => mret (inr (ErrWrap "resolve sandbox" e))
            | inl res =>
                let socket :=
                  if (sc_QMPSocket cfg =? "")%string || (sc_QMPSocket cfg =? "/run/vc/vm/extra-monitor.sock")%string
                  then path_join [sandboxRoot; rs_Sandbox res; "extra-monitor.sock"]
                  else sc_QMPSocket cfg in
                _ ← runCmd CtxCaller ["nsenter"; "--net=/proc/" +:+ Itoa (rs_PID res) +:+ "/ns/net";
                                      "tc"; "filter"; "del"; "dev"; "eth0"; "ingress"];
                mret (inl (with_pod cfg addr socket, rs_PID res))
            end
        end
    end.

(** Emitting the captured command line of the source QEMU. *)
Definition emit_cmdline (cfg : SourceConfig) (pid : Z) : M (option error) :=
  if (sc_EmitCmdlineTo cfg =? "")%string then mret None
  else if pid =? 0 then mret (Some (ErrNew "--emit-cmdline-to requires pod-mode (--pod-name) so the QEMU PID can be resolved"))
  else
    err ← captureSourceCmdline pid (sc_EmitCmdlineTo cfg);
    match err with
    | Some e => mret (Some (ErrWrap "capture source QEMU cmdline" e))
    | None =>
        Printf ("KATAMARAN_CMDLINE_AT=" +:+ sc_EmitCmdlineTo cfg);;
        data ← ReadFile (sc_EmitCmdlineTo cfg);
        match data with
        | inr _ => mret None
        | inl data =>
            b ← reads (fun e => e_base64 e data);
            Printf ("KATAMARAN_CMDLINE_B64=" +:+ b);;
            mret None
        end
    end.

(** The checks before anything is connected. *)
Definition check_config (cfg : SourceConfig) : SourceConfig + error :=
  let dest := Unmap (sc_DestIP cfg) in
  let vm := Unmap (sc_VMIP cfg) in
  if negb (IsValid dest) then inr (ErrNew "invalid destination address")
  else if negb (IsValid vm) then inr (ErrNew "invalid VM address")
  else if negb (Bool.eqb (Is4 dest) (Is4 vm)) then
    inr (ErrNew "destination and VM address families must match")
  else
    let mode := if (sc_TunnelMode cfg =? "")%string then TunnelModeIPIP else sc_TunnelMode cfg in
    if negb (mode =? TunnelModeIPIP)%string && negb (mode =? TunnelModeGRE)%string &&
       negb (mode =? TunnelModeNone)%string then inr (ErrNew "invalid tunnel mode")
    else if sc_MultifdChannels cfg <? 0 then inr (ErrNew "multifd channels must be non-negative")
    else
      match (if sc_SharedStorage cfg then None else validateDriveIDs (sc_DriveIDs cfg)) with
      | Some e => inr (ErrWrap "validating drive IDs" e)
      | None => inl (with_addrs cfg dest vm mode)
      end.

(** The downtime limit and the measured RTT, both in milliseconds. *)
Definition downtime_limit (cfg : SourceConfig) : M (Z * Z) :=
  if negb (sc_AutoDowntime cfg) then mret (sc_DowntimeLimitMS cfg, 0)
  else
    let floorMS := if sc_AutoDowntimeFloorMS cfg <=? 0 then rttMinOverheadMS else sc_AutoDowntimeFloorMS cfg in
    rtt ← measureRTT (sc_DestIP cfg);
    mret match rtt with
         | inr _ => (sc_DowntimeLimitMS cfg, 0)
         | inl rtt =>
             let rttMS := Z.quot rtt millisecond in
             (wrap64 (wrap64 (rttMS * rttMultiplier) + floorMS), rttMS)
         end.

Definition source_caps (multifd : Z) : list (string * bool) :=
  ("auto-converge", true) :: (if multifd >? 0 then [("multifd", true)] else []).

Definition bool_text (b : bool) : string := if b then "true" else "false".

Definition limit_line (limit rttMS : Z) (auto : bool) : string :=
  "KATAMARAN_DOWNTIME_LIMIT applied_ms=" +:+ Itoa limit +:+ " rtt_ms=" +:+ Itoa rttMS
  +:+ " auto=" +:+ bool_text auto.

Definition migrate_uri (dest : Addr) : string :=
  "tcp:" +:+ formatQEMUHost dest +:+ ":" +:+ ramMigrationPort.

(** From migrate-set-capabilities to migrate. *)
Definition start_migration (fuel : nat) (cfg : SourceConfig) : M (option error) :=
  r ← Execute fuel CtxRun "migrate-set-capabilities" (MigrateSetCapabilitiesArgs (source_caps (sc_MultifdChannels cfg)));
  match r with
  | inr e => mret (Some (ErrWrap "setting migration capabilities" e))
  | inl _ =>
      d ← downtime_limit cfg;
      let '(limit, rttMS) := d in
      Printf (limit_line limit rttMS (sc_AutoDowntime cfg));;
      r ← Execute fuel CtxRun "migrate-set-parameters"
            (MigrateSetParametersArgs limit maxBandwidth (sc_MultifdChannels cfg));
      match r with
      | inr e => mret (Some (ErrWrap "setting migration parameters" e))
      | inl _ =>
          r ← Execute fuel CtxRun "migrate" (MigrateArgs (migrate_uri (sc_DestIP cfg)));
          match r with
          | inr e => mret (Some (ErrWrap "starting RAM migration" e))
          | inl _ => mret None
          end
      end
  end.

(** The tunnel step: the name of the tunnel that was created, if any. *)
Definition make_tunnel (cfg : SourceConfig) : M (option string + error) :=
  if (sc_TunnelMode cfg =? TunnelModeNone)%string then mret (inl None)
  else
    name ← generateTunnelName;
    match name with
    | inr e => mret (inr (ErrWrap "generating tunnel name" e))
    | inl name =>
        err ← setupTunnel CtxRun (sc_DestIP cfg) (sc_VMIP cfg) (sc_TunnelMode cfg) name;
        mret match err with
             | Some e => inr (ErrWrap "failed to create IP tunnel" e)
             | None => inl (Some name)
             end
    end.

Definition result_line (info : MigrateInfo) : string :=
  "KATAMARAN_RESULT downtime_ms=" +:+ Itoa (mi_downtime info) +:+ " total_time_ms=" +:+ Itoa (mi_totalTime info)
  +:+ " ram_transferred=" +:+ Itoa (mi_ramTransferred info) +:+ " ram_total=" +:+ Itoa (mi_ramTotal info).

(** The final metrics after a successful migration. *)
Definition report_result (fuel : nat) : M unit :=
  raw ← Execute fuel CtxRun "query-migrate" NoArgs;
  match raw with
  | inr _ => mret tt
  | inl raw =>
      info ← reads (fun e => e_dec_migrate e raw);
      match info with
      | inr _ => mret tt
      | inl info => Printf (result_line info)
      end
  end.

Definition cancel_mirrors (fuel : nat) (jobs : list string) : M unit :=
  forM jobs (fun jid =>
    _ ← Execute fuel CtxCleanup "block-job-cancel" (BlockJobCancelArgs jid true);
    mret tt).

(** From the completion wait to the end. *)
Definition finish_migration (fuel : nat) (cfg : SourceConfig) (mirrorJobIDs : list string)
    (tunnel : option string) : M (option error) :=
  migrationErr ← waitForMigrationComplete fuel;
  match migrationErr with
  | None => report_result fuel
  | Some _ => _ ← Execute fuel CtxCleanup "migrate-cancel" NoArgs; mret tt
  end;;
  when (negb (sc_SharedStorage cfg)) (cancel_mirrors fuel mirrorJobIDs);;
  match tunnel with
  | None => mret tt
  | Some tunnelName =>
      (if is_nil migrationErr then
         let delay := if sc_CNIConvergenceDelay cfg <=? 0 then postMigrationTunnelDelay
                      else sc_CNIConvergenceDelay cfg in
         _ ← SelectTimer CtxRun delay; mret tt
       else mret tt);;
      teardownTunnel CtxCleanup tunnelName
  end;;
  mret migrationErr.

(** The body from the RAM migration on, with [mirrorJobIDs] as the deferred
    cleanup finds it: empty once the jobs have been cancelled inline. *)
Definition source_migrate (fuel : nat) (cfg : SourceConfig) (mirrorJobIDs : list string)
    : M (option error * list string) :=
  err ← start_migration fuel cfg;
  match err with
  | Some e => mret (Some e, mirrorJobIDs)
  | None =>
      err ← stop_loop fuel;
      match err with
      | Some e => mret (Some e, mirrorJobIDs)
      | None =>
          t ← make_tunnel cfg;
          match t with
          | inr e => mret (Some e, mirrorJobIDs)
          | inl tunnel =>
              err ← finish_migration fuel cfg mirrorJobIDs tunnel;
              mret (err, [])
          end
      end
  end.

Definition mirror_job (driveID : string) : string := "mirror-" +:+ driveID.

Definition mirror_target (dest : Addr) (driveID : string) : string :=
  "nbd:" +:+ formatQEMUHost dest +:+ ":" +:+ nbdPort +:+ ":exportname=" +:+ driveID.

Definition start_mirror (fuel : nat) (dest : Addr) (driveID : string) : M (option error) :=
  r ← Execute fuel CtxRun "drive-mirror"
        (DriveMirrorArgs driveID (mirror_target dest driveID) "full" "existing" (mirror_job driveID));
  mret match r with
       | inr e => Some (ErrWrap "starting drive-mirror" e)
       | inl _ => None
       end.

(** The body with the connection open. *)
Definition source_connected (fuel : nat) (cfg : SourceConfig) : M (option error) :=
  if sc_SharedStorage cfg then
    r ← source_migrate fuel cfg [];
    mret r.1
  else
    err ← forM_err (sc_DriveIDs cfg) (start_mirror fuel (sc_DestIP cfg));
    match err with
    | Some e => mret (Some e)          (* returns before the cleanup is deferred *)
    | None =>
        let mirrorJobIDs := mirror_job <$> sc_DriveIDs cfg in
        err ← waitForStorageSync fuel mirrorJobIDs;
        r ← match err with
            | Some e => mret (Some (ErrWrap "storage sync failed" e), mirrorJobIDs)
            | None => source_migrate fuel cfg mirrorJobIDs
            end;
        cancel_mirrors fuel r.2;;      (* deferred *)
        mret r.1
    end.

Definition RunSource (fuel : nat) (cfg : SourceConfig) : M (option error) :=
  r ← resolve_pod cfg;
  match r with
  | inr e => mret (Some e)
  | inl (cfg, pid) =>
      err ← emit_cmdline cfg pid;
      match err with
      | Some e => mret (Some e)
      | None =>
          when (negb (pid =? 0)) (emitVMConfig pid);;
          match check_config cfg with
          | inr e => mret (Some e)
          | inl cfg =>
              err ← (if negb (sc_EmitCmdlineTo cfg =? "")%string then SelectTimer CtxRun destReplaySleep
                     else mret None);
              match err with
              | Some e => mret (Some e)
              | None =>
                  err ← NewClient fuel CtxRun (sc_QMPSocket cfg);
                  match err with
                  | Some e => mret (Some (ErrWrap "connecting to source QMP" e))
                  | None =>
                      res ← source_connected fuel cfg;
                      _ ← Close;       (* deferred *)
                      mret res
                  end
              end
          end
      end
  end.
