(* ===== verification/SourceSpec.v ===== *)
(** * Correctness of the source side

    What every run of [RunSource] does to the mirror jobs, to the tunnel devices
    and to the order of the QMP commands, whatever QEMU, the kernel, the
    apiserver and the clock answer. *)
From S2P Require Import Prelude GoErrors GoStrings Netip QmpTypes Effects Qmp MigConfig Exec.
From S2P Require Import Tunnel PodResolve Filepath Cmdline DestSpawn Source.

(** ** Which calls each part makes *)

(** Before the connection: nothing but look-ups, file writes and prints. *)
Definition ev_prelude (ev : event) : Prop :=
  match ev with
  | EvCmd argv _ => adds_tunnel argv = None ∧ dels_link argv = None
  | EvExec _ _ _ | EvWait _ _ | EvSpawn _ _ | EvCopy _ _ _ => False
  | _ => True
  end.

(** While polling. *)
Definition ev_poll (ev : event) : Prop :=
  match ev with
  | EvExec c NoArgs _ => c = "query-migrate" ∨ c = "query-block-jobs"
  | EvWait _ _ | EvPrint _ | EvSleep _ | EvNow _ => True
  | _ => False
  end.

(** Setting up and starting the RAM migration. *)
Definition ev_start (ev : event) : Prop :=
  match ev with
  | EvExec c (MigrateSetCapabilitiesArgs _) _ => c = "migrate-set-capabilities"
  | EvExec c (MigrateSetParametersArgs _ _ _) _ => c = "migrate-set-parameters"
  | EvExec c (MigrateArgs _) _ => c = "migrate"
  | EvPrint _ => True
  | _ => False
  end.

Definition ev_conn (ev : event) : Prop :=
  match ev with EvDial _ _ | EvConnClose => True | _ => False end.

Ltac emits_calls :=
  repeat first
    [ done
    | solve [auto]
    | lazymatch goal with
      | |- always _ (Execute _ _ _ _) => apply emits_Execute; intros ?
      | |- always _ (WaitForEvent _ _ _ _) => apply emits_WaitForEvent; intros ?
      | |- always _ (runCmd _ _) => apply emits_runCmd; intros ?
      | |- always _ (let _ := _ in _) => cbv zeta
      end
    | emits_step ].

Lemma silent_rtt_loop fuel id i u b : silent (rtt_loop fuel id i u b).
Proof.
  revert i u b. induction fuel as [|fuel IH]; intros i u b; cbn [rtt_loop];
    (destruct (i >=? rtt_samples); [apply always_ret, _|]); [apply always_spin, _|].
  repeat first [apply IH | always_step].
Qed.

Lemma silent_downtime_limit cfg : silent (downtime_limit cfg).
Proof.
  unfold downtime_limit, measureRTT. repeat first [apply silent_rtt_loop | always_step].
Qed.

Lemma emits_start_migration fuel cfg : emits ev_start (start_migration fuel cfg).
Proof.
  unfold start_migration. emits_calls. apply emits_silent, silent_downtime_limit.
Qed.

Lemma emits_stop_loop fuel : emits ev_poll (stop_loop fuel).
Proof. induction fuel as [|fuel IH]; cbn [stop_loop]; emits_calls; simpl; auto. Qed.

Lemma emits_complete_loop fuel p l f : emits ev_poll (complete_loop fuel p l f).
Proof.
  revert p l f. induction fuel as [|fuel IH]; intros p l f; cbn [complete_loop]; emits_calls;
    simpl; auto; apply IH.
Qed.

Lemma silent_check_jobs jobs dl sts : silent (check_jobs jobs dl sts).
Proof.
  induction sts as [|js sts IH]; cbn [check_jobs]; repeat first [apply IH | apply silent_ask | always_step].
Qed.

Lemma emits_storage_loop fuel dl sts : emits ev_poll (storage_loop fuel dl sts).
Proof.
  revert sts. induction fuel as [|fuel IH]; intros sts; cbn [storage_loop];
    repeat first [apply emits_silent, silent_check_jobs | progress emits_calls]; simpl; auto; apply IH.
Qed.

Lemma emits_waitForStorageSync fuel ids : emits ev_poll (waitForStorageSync fuel ids).
Proof. unfold waitForStorageSync. emits_calls. apply emits_storage_loop. Qed.

Lemma emits_report_result fuel : emits ev_poll (report_result fuel).
Proof. unfold report_result. emits_calls; simpl; auto. Qed.

Lemma emits_setupTunnel (P : event → Prop) ctx dest vm mode n :
  (∀ argv r, P (EvCmd argv r)) → emits P (setupTunnel ctx dest vm mode n).
Proof. intros HP. unfold setupTunnel, rollbackTunnel. emits_calls. Qed.

Lemma emits_make_tunnel (P : event → Prop) cfg :
  (∀ argv r, P (EvCmd argv r)) → emits P (make_tunnel cfg).
Proof.
  intros HP. unfold make_tunnel, generateTunnelName. emits_calls. by apply emits_setupTunnel.
Qed.

Lemma emits_lookup_attempts (P : event → Prop) ctx ep bs :
  (∀ u, P (EvHTTP u)) → (∀ ns, P (EvSleep ns)) → emits P (lookup_attempts ctx ep bs).
Proof.
  intros H1 H2. induction bs as [|b bs IH]; unfold lookup_attempts; fold lookup_attempts;
    unfold lookupPodIPOnce, HttpGet; emits_calls.
Qed.

Lemma emits_LookupPodIP (P : event → Prop) ctx ns name :
  (∀ u, P (EvHTTP u)) → (∀ ns, P (EvSleep ns)) → emits P (LookupPodIP ctx ns name).
Proof.
  intros H1 H2. unfold LookupPodIP, resolveAPIServerHostPort, Getenv. emits_calls.
  by apply emits_lookup_attempts.
Qed.

Lemma silent_resolveSandbox root ip : silent (resolveSandbox root ip).
Proof.
  assert (Hp : ∀ u, silent (PIDForSandbox u)).
  { intros u. simpl. unfold realProc_PIDForSandbox. repeat first [apply silent_ask | always_step]. }
  assert (Hn : ∀ pid ip, silent (NetnsHasIP pid ip)).
  { intros pid i. simpl. unfold realProc_NetnsHasIP. repeat first [apply silent_ask | always_step]. }
  assert (Hs : ∀ es, silent (resolve_scan ip es)).
  { intros es. induction es as [|e es IH]; cbn [resolve_scan]; repeat first [apply IH | apply Hp | apply Hn | always_step]. }
  unfold resolveSandbox. repeat first [apply Hs | apply silent_ask | always_step].
Qed.

Lemma emits_resolve_pod cfg : emits ev_prelude (resolve_pod cfg).
Proof.
  unfold resolve_pod. emits_calls; [by apply emits_LookupPodIP|].
  apply emits_silent, silent_resolveSandbox.
Qed.

Lemma emits_emit_cmdline cfg pid : emits ev_prelude (emit_cmdline cfg pid).
Proof. unfold emit_cmdline, captureSourceCmdline. emits_calls. Qed.

Lemma emits_emitVMConfig pid : emits ev_prelude (emitVMConfig pid).
Proof.
  assert (Hs : ∀ es, emits ev_prelude (emit_scan pid es)).
  { intros es. induction es as [|e es IH]; cbn [emit_scan]; emits_calls. }
  unfold emitVMConfig. emits_calls.
Qed.

Lemma emits_NewClient (P : event → Prop) fuel ctx path :
  (∀ e, P (EvDial path e)) → P EvConnClose → emits P (NewClient fuel ctx path).
Proof.
  intros H1 H2. unfold NewClient, handshake_fail.
  repeat first [solve [auto] | progress emits_calls | apply emits_silent; solve [eauto with go_wp]].
Qed.

Lemma emits_Close (P : event → Prop) : P EvConnClose → emits P Close.
Proof. intros H. unfold Close. repeat first [solve [auto] | apply emits_silent; apply silent_set_client | progress emits_calls]. Qed.

(** ** Mirror jobs *)

(** The mirror jobs that QEMU has accepted and that no block-job-cancel has been
    sent for. *)
Definition jobs_step (s : gset string) (ev : event) : gset string :=
  match ev with
  | EvExec _ (DriveMirrorArgs _ _ _ _ jid) (inl _) => s ∪ {[jid]}
  | EvExec _ (BlockJobCancelArgs jid _) _ => s ∖ {[jid]}
  | _ => s
  end.

Definition open_jobs (t : list event) : gset string := fold_left jobs_step t ∅.

Lemma open_jobs_app t t1 : open_jobs (t ++ t1) = fold_left jobs_step t1 (open_jobs t).
Proof. unfold open_jobs. by rewrite fold_left_app. Qed.

(** A drive-mirror command that QEMU rejected. *)
Definition mirror_failed (ev : event) : Prop :=
  match ev with EvExec _ (DriveMirrorArgs _ _ _ _ _) (inr _) => True | _ => False end.

Lemma jobs_neutral (P : event → Prop) t t1 :
  (∀ ev s, P ev → jobs_step s ev = s) → Forall P t1 → open_jobs (t ++ t1) = open_jobs t.
Proof. intros Hn Hf. rewrite open_jobs_app. by eapply fold_neutral. Qed.

Lemma jobs_step_poll ev s : ev_poll ev → jobs_step s ev = s.
Proof. by destruct ev as [| |? [] []| | | | | | | | | | |]. Qed.
Lemma jobs_step_start ev s : ev_start ev → jobs_step s ev = s.
Proof. by destruct ev as [| |? [] []| | | | | | | | | | |]. Qed.
Lemma jobs_step_prelude ev s : ev_prelude ev → jobs_step s ev = s.
Proof. by destruct ev. Qed.

(** Running [m] does not touch the mirror jobs. *)
Definition keeps_jobs {A} (m : M A) : Prop := emits (fun ev => ∀ s, jobs_step s ev = s) m.

Lemma twp_keeps_jobs env {A} (m : M A) (Q : A → list event → Prop) t :
  keeps_jobs m → (∀ a t1, open_jobs (t ++ t1) = open_jobs t → Q a (t ++ t1)) →
  twp env m (fun _ => True) Q t.
Proof.
  intros Hm HQ. eapply twp_emits; [exact Hm| |done]. intros a t1 Hf. apply HQ.
  by eapply jobs_neutral; [|exact Hf]; simpl; auto.
Qed.

Lemma cancel_mirrors_open env fuel jobs t :
  twp env (cancel_mirrors fuel jobs) (fun _ => True)
    (fun _ t' => (∃ t1, t' = t ++ t1) ∧ open_jobs t' = open_jobs t ∖ list_to_set jobs) t.
Proof.
  unfold cancel_mirrors.
  set (Inv (done : list string) t' := (∃ t1, t' = t ++ t1) ∧ open_jobs t' = open_jobs t ∖ list_to_set done).
  change (twp env (forM jobs (λ jid, _ ← Execute fuel CtxCleanup "block-job-cancel" (BlockJobCancelArgs jid true); mret tt))
            (fun _ => True) (fun _ t' => Inv ([] ++ jobs) t') t).
  apply twp_forM; unfold Inv.
  - split; [exists []; by rewrite app_nil_r|]. set_solver.
  - intros l x r t' _ [(t1 & ->) Ho]. apply twp_bind, twp_Execute; [|done].
    intros res. apply twp_ret. split; [eexists; by rewrite <- app_assoc|].
    rewrite open_jobs_app, Ho, list_to_set_app_L. simpl. set_solver.
Qed.

Lemma keeps_poll {A} (m : M A) : emits ev_poll m → keeps_jobs m.
Proof. apply emits_mono. intros ev Hev s. by apply jobs_step_poll. Qed.
Lemma keeps_start {A} (m : M A) : emits ev_start m → keeps_jobs m.
Proof. apply emits_mono. intros ev Hev s. by apply jobs_step_start. Qed.
Lemma keeps_prelude {A} (m : M A) : emits ev_prelude m → keeps_jobs m.
Proof. apply emits_mono. intros ev Hev s. by apply jobs_step_prelude. Qed.

#[local] Hint Resolve keeps_poll keeps_start keeps_prelude emits_start_migration emits_stop_loop
  emits_complete_loop emits_waitForStorageSync emits_report_result emits_make_tunnel
  emits_resolve_pod emits_emit_cmdline emits_emitVMConfig : go_wp.

Lemma keeps_finish env fuel cfg ids tunnel t :
  twp env (finish_migration fuel cfg ids tunnel) (fun _ => True)
    (fun _ t' => open_jobs t' = open_jobs t ∖ (if sc_SharedStorage cfg then ∅ else list_to_set ids)) t.
Proof.
  unfold finish_migration. apply twp_bind, twp_keeps_jobs; [unfold waitForMigrationComplete; auto with go_wp|].
  intros merr t1 H1. apply twp_bind.
  assert (Hrep : keeps_jobs (match merr with
     | None => report_result fuel
     | Some _ => _ ← Execute fuel CtxCleanup "migrate-cancel" NoArgs; mret tt end)).
  { destruct merr; [|auto with go_wp]. unfold keeps_jobs. emits_calls. }
  eapply twp_keeps_jobs; [exact Hrep|]. intros _ t2 H2. apply twp_bind.
  assert (Hend : ∀ t3, open_jobs t3 = open_jobs t ∖ (if sc_SharedStorage cfg then ∅ else list_to_set ids) →
    twp env (match tunnel with
      | None => mret tt
      | Some tunnelName =>
          (if is_nil merr then
             let delay := if sc_CNIConvergenceDelay cfg <=? 0 then postMigrationTunnelDelay
                          else sc_CNIConvergenceDelay cfg in
             _ ← SelectTimer CtxRun delay; mret tt
           else mret tt);; teardownTunnel CtxCleanup tunnelName
      end;; mret merr) (fun _ => True)
      (fun _ t' => open_jobs t' = open_jobs t ∖ (if sc_SharedStorage cfg then ∅ else list_to_set ids)) t3).
  { intros t3 H3. apply twp_keeps_jobs; [|by intros a t4 ->].
    unfold keeps_jobs, teardownTunnel. emits_calls. }
  apply twp_when; intros Hs.
  - eapply twp_mono; [apply cancel_mirrors_open|]. intros _ t3 [_ H3]. apply Hend.
    apply negb_true_iff in Hs. rewrite Hs. by rewrite H3, H2, H1.
  - apply Hend. apply negb_false_iff in Hs. rewrite Hs, H2, H1. set_solver.
Qed.

(** After [source_migrate] the jobs are all cancelled or all left to the defer. *)
Lemma source_migrate_jobs env fuel cfg ids t :
  twp env (source_migrate fuel cfg ids) (fun _ => True)
    (fun r t' => (r.2 = ids ∧ open_jobs t' = open_jobs t) ∨
                 (r.2 = [] ∧ open_jobs t' = open_jobs t ∖ (if sc_SharedStorage cfg then ∅ else list_to_set ids))) t.
Proof.
  unfold source_migrate. apply twp_bind, twp_keeps_jobs; [auto with go_wp|].
  intros [e|] t1 H1; [apply twp_ret; by left|].
  apply twp_bind, twp_keeps_jobs; [auto with go_wp|].
  intros [e|] t2 H2; [apply twp_ret; left; by rewrite H2|].
  apply twp_bind, twp_keeps_jobs; [by apply emits_make_tunnel|].
  intros [tun|e] t3 H3; [|apply twp_ret; left; by rewrite H3, H2].
  apply twp_bind. eapply twp_mono; [apply keeps_finish|]. intros r t' Ht'. apply twp_ret. right.
  by rewrite Ht', H3, H2, H1.
Qed.

Lemma start_mirrors_jobs env fuel dest drives t :
  twp env (forM_err drives (start_mirror fuel dest)) (fun _ => True)
    (fun e t' => match e with
                 | None => open_jobs t' = open_jobs t ∪ list_to_set (mirror_job <$> drives)
                 | Some _ => Exists mirror_failed t'
                 end) t.
Proof.
  apply (twp_forM_err env _ _ (fun l t' => open_jobs t' = open_jobs t ∪ list_to_set (mirror_job <$> l))
           (fun _ t' => Exists mirror_failed t') []); [set_solver|].
  intros l x r t' _ Ho. unfold start_mirror. apply twp_bind, twp_Execute; [|done].
  intros [raw|e]; apply twp_ret.
  - rewrite open_jobs_app, Ho, fmap_app, list_to_set_app_L. simpl. set_solver.
  - apply Exists_app. right. by repeat constructor.
Qed.

Lemma source_connected_jobs env fuel cfg t :
  open_jobs t = ∅ →
  twp env (source_connected fuel cfg) (fun _ => True)
    (fun _ t' => open_jobs t' = ∅ ∨ Exists mirror_failed t') t.
Proof.
  intros H0. unfold source_connected. destruct (sc_SharedStorage cfg) eqn:Hs.
  { apply twp_bind. eapply twp_mono; [apply source_migrate_jobs|]. intros r t' H. apply twp_ret. left.
    rewrite Hs in H. set_solver. }
  apply twp_bind. eapply twp_mono; [apply start_mirrors_jobs|]. intros [e|] t1 H1; [apply twp_ret; by right|].
  apply twp_bind, twp_keeps_jobs; [auto with go_wp|]. intros err t2 H2. apply twp_bind.
  set (ids := mirror_job <$> sc_DriveIDs cfg) in *.
  assert (Hgoal : ∀ (r : option error * list string) t3,
    open_jobs t3 ⊆ list_to_set r.2 →
    twp env (cancel_mirrors fuel r.2;; mret r.1) (fun _ => True)
      (fun _ t' => open_jobs t' = ∅ ∨ Exists mirror_failed t') t3).
  { intros r t3 Hsub. apply twp_bind. eapply twp_mono; [apply cancel_mirrors_open|].
    intros _ t' [_ Ho]. apply twp_ret. left. set_solver. }
  assert (Hopen : open_jobs (t1 ++ t2) = list_to_set ids) by by rewrite H2, H1, H0, (left_id_L ∅ (∪)).
  clear H0 H1 H2. destruct err as [e|].
  - apply twp_ret, Hgoal. simpl. by rewrite Hopen.
  - eapply twp_mono; [apply source_migrate_jobs|]. intros r t3 H3. apply Hgoal. rewrite Hs, Hopen in H3.
    destruct H3 as [[-> ->]|[-> ->]]; [done|]. rewrite difference_diag_L. set_solver.
Qed.

Lemma RunSource_jobs env fuel cfg t :
  open_jobs t = ∅ →
  twp env (RunSource fuel cfg) (fun _ => True)
    (fun _ t' => open_jobs t' = ∅ ∨ Exists mirror_failed t') t.
Proof.
  intros H0. unfold RunSource. apply twp_bind, twp_keeps_jobs; [auto with go_wp|].
  intros [[cfg' pid]|e] t1 H1; [|apply twp_ret; left; by rewrite H1].
  apply twp_bind, twp_keeps_jobs; [auto with go_wp|].
  intros [e|] t2 H2; [apply twp_ret; left; by rewrite H2, H1|].
  apply twp_bind, twp_keeps_jobs; [destruct (negb (pid =? 0)); [simpl; auto with go_wp|apply always_ret, _]|].
  intros _ t3 H3. destruct (check_config cfg') as [cfg2|e]; [|apply twp_ret; left; by rewrite H3, H2, H1].
  apply twp_bind, twp_keeps_jobs; [unfold keeps_jobs; destruct (negb _); emits_calls|].
  intros [e|] t4 H4; [apply twp_ret; left; by rewrite H4, H3, H2, H1|].
  apply twp_bind, twp_keeps_jobs; [by apply emits_NewClient|].
  intros [e|] t5 H5; [apply twp_ret; left; by rewrite H5, H4, H3, H2, H1|].
  apply twp_bind. eapply twp_mono; [apply source_connected_jobs; by rewrite H5, H4, H3, H2, H1|].
  intros r t6 H6. apply twp_bind, twp_keeps_jobs; [by apply emits_Close|].
  intros _ t7 H7. apply twp_ret. rewrite H7. destruct H6 as [?|?]; [by left|right]. apply Exists_app. by left.
Qed.

(** ** Tunnel devices *)

(** Every device created since is followed by an attempt to delete it. *)
Definition tunnels_clean (t t' : list event) : Prop := owed t' ⊆ owed t.

Definition tun_neutral (ev : event) : Prop := ∀ s, owed_step s ev = s.

Lemma owed_app_neutral t t1 : Forall tun_neutral t1 → owed (t ++ t1) = owed t.
Proof.
  intros Hf. unfold owed. rewrite fold_left_app. eapply fold_neutral; [|exact Hf]. simpl. auto.
Qed.

Lemma tunnels_clean_neutral t t1 t2 : tunnels_clean t t1 → Forall tun_neutral t2 → tunnels_clean t (t1 ++ t2).
Proof. intros Hc Hf. unfold tunnels_clean. by rewrite owed_app_neutral. Qed.

Lemma tunnels_clean_refl t : tunnels_clean t t.
Proof. unfold tunnels_clean. set_solver. Qed.

Lemma twp_tun_neutral env {A} (m : M A) (Q : A → list event → Prop) t t1 :
  emits tun_neutral m → tunnels_clean t t1 → (∀ a t2, tunnels_clean t (t1 ++ t2) → Q a (t1 ++ t2)) →
  twp env m (fun _ => True) Q t1.
Proof.
  intros Hm Hc HQ. eapply twp_emits; [exact Hm| |done]. intros a t2 Hf. by apply HQ, tunnels_clean_neutral.
Qed.

Lemma tun_neutral_call ev :
  match ev with EvCmd argv _ => adds_tunnel argv = None ∧ dels_link argv = None | _ => True end →
  tun_neutral ev.
Proof. intros H s. destruct ev as [| | | |argv r| | | | | | | | |]; try done. simpl. by destruct H as [-> ->]. Qed.

Lemma tun_prelude {A} (m : M A) : emits ev_prelude m → emits tun_neutral m.
Proof. apply emits_mono. intros ev Hev. apply tun_neutral_call. by destruct ev. Qed.
Lemma tun_poll {A} (m : M A) : emits ev_poll m → emits tun_neutral m.
Proof. apply emits_mono. intros ev Hev. apply tun_neutral_call. by destruct ev. Qed.
Lemma tun_start {A} (m : M A) : emits ev_start m → emits tun_neutral m.
Proof. apply emits_mono. intros ev Hev. apply tun_neutral_call. by destruct ev. Qed.

#[local] Hint Resolve tun_poll tun_start tun_prelude : go_wp.

Lemma tun_cancel_mirrors fuel ids : emits tun_neutral (cancel_mirrors fuel ids).
Proof. unfold cancel_mirrors. emits_calls. Qed.

Lemma tun_start_mirrors fuel dest ds : emits tun_neutral (forM_err ds (start_mirror fuel dest)).
Proof. induction ds as [|d ds IH]; cbn [forM_err]; unfold start_mirror; emits_calls. Qed.

Lemma make_tunnel_clean env cfg t0 t :
  tunnels_clean t0 t →
  twp env (make_tunnel cfg) (fun _ => True) (fun r t' =>
    match r with
    | inl None | inr _ => tunnels_clean t0 t'
    | inl (Some n) => owed t' ⊆ owed t0 ∪ {[n]}
    end) t.
Proof.
  unfold tunnels_clean. intros Hc. unfold make_tunnel. destruct (_ =? _)%string; [by apply twp_ret|].
  apply twp_bind. unfold generateTunnelName. apply twp_bind, twp_ask.
  intros [bs|e]; apply twp_ret; [|by apply twp_ret].
  apply twp_bind. eapply twp_mono; [apply twp_setupTunnel_owed|].
  intros [e|] t' Ht'; cbn [is_nil] in Ht'; apply twp_ret; set_solver.
Qed.

Lemma finish_clean env fuel cfg ids tunnel t0 t :
  (match tunnel with None => tunnels_clean t0 t | Some n => owed t ⊆ owed t0 ∪ {[n]} end) →
  twp env (finish_migration fuel cfg ids tunnel) (fun _ => True) (fun _ t' => tunnels_clean t0 t') t.
Proof.
  unfold tunnels_clean. intros Hc. unfold finish_migration. apply twp_bind.
  eapply (twp_emits env tun_neutral);
    [unfold waitForMigrationComplete; auto with go_wp| |done]. intros merr t1 H1. apply twp_bind.
  eapply (twp_emits env tun_neutral);
    [destruct merr; [emits_calls|auto with go_wp]| |done]. intros _ t2 H2. apply twp_bind.
  eapply (twp_emits env tun_neutral);
    [destruct (negb _); [apply tun_cancel_mirrors|apply always_ret, _]| |done]. intros _ t3 H3.
  apply twp_bind. destruct tunnel as [n|].
  2: { apply twp_ret, twp_ret. by rewrite !owed_app_neutral. }
  apply twp_bind. eapply (twp_emits env tun_neutral);
    [destruct (is_nil merr); emits_calls| |done]. intros _ t4 H4.
  unfold teardownTunnel. apply twp_bind, twp_runCmd. intros r. apply twp_ret, twp_ret.
  rewrite owed_del, !owed_app_neutral by done. set_solver.
Qed.

Lemma source_migrate_clean env fuel cfg ids t0 t :
  tunnels_clean t0 t →
  twp env (source_migrate fuel cfg ids) (fun _ => True) (fun _ t' => tunnels_clean t0 t') t.
Proof.
  intros Hc. unfold source_migrate. apply twp_bind. eapply twp_tun_neutral; [auto with go_wp|exact Hc|].
  intros [e|] t1 H1; [by apply twp_ret|]. apply twp_bind.
  eapply twp_tun_neutral; [auto with go_wp|exact H1|]. intros [e|] t2 H2; [by apply twp_ret|].
  apply twp_bind. eapply twp_mono; [by apply make_tunnel_clean|].
  intros [tun|e] t3 H3; [|by apply twp_ret].
  apply twp_bind. eapply twp_mono; [apply finish_clean|]; [by destruct tun|].
  intros r t4 H4. by apply twp_ret.
Qed.

Lemma source_connected_clean env fuel cfg t0 t :
  tunnels_clean t0 t →
  twp env (source_connected fuel cfg) (fun _ => True) (fun _ t' => tunnels_clean t0 t') t.
Proof.
  intros Hc. unfold source_connected. destruct (sc_SharedStorage cfg).
  { apply twp_bind. eapply twp_mono; [by apply source_migrate_clean|]. intros r t' H. by apply twp_ret. }
  apply twp_bind. eapply twp_tun_neutral; [apply tun_start_mirrors|exact Hc|].
  intros [e|] t1 H1; [by apply twp_ret|]. apply twp_bind.
  eapply twp_tun_neutral; [auto with go_wp|exact H1|]. intros err t2 H2. apply twp_bind.
  assert (Hend : ∀ (r : option error * list string) t3, tunnels_clean t0 t3 →
    twp env (cancel_mirrors fuel r.2;; mret r.1) (fun _ => True) (fun _ t' => tunnels_clean t0 t') t3).
  { intros r t3 H3. apply twp_bind. eapply twp_tun_neutral; [apply tun_cancel_mirrors|exact H3|].
    intros _ t4 H4. by apply twp_ret. }
  destruct err; [by apply twp_ret, Hend|].
  eapply twp_mono; [by apply source_migrate_clean|]. intros r t3 H3. by apply Hend.
Qed.

Lemma RunSource_clean env fuel cfg t :
  twp env (RunSource fuel cfg) (fun _ => True) (fun _ t' => tunnels_clean t t') t.
Proof.
  unfold RunSource. apply twp_bind. eapply twp_tun_neutral; [auto with go_wp|apply tunnels_clean_refl|].
  intros [[cfg' pid]|e] t1 H1; [|by apply twp_ret].
  apply twp_bind. eapply twp_tun_neutral; [auto with go_wp|exact H1|].
  intros [e|] t2 H2; [by apply twp_ret|].
  apply twp_bind. eapply twp_tun_neutral; [destruct (negb (pid =? 0)); [simpl; auto with go_wp|apply always_ret, _]|exact H2|].
  intros _ t3 H3. destruct (check_config cfg') as [cfg2|e]; [|by apply twp_ret].
  apply twp_bind. eapply twp_tun_neutral; [destruct (negb _); emits_calls|exact H3|].
  intros [e|] t4 H4; [by apply twp_ret|].
  apply twp_bind. eapply twp_tun_neutral; [by apply emits_NewClient|exact H4|].
  intros [e|] t5 H5; [by apply twp_ret|].
  apply twp_bind. eapply twp_mono; [by apply source_connected_clean|].
  intros r t6 H6. apply twp_bind. eapply twp_tun_neutral; [by apply emits_Close|exact H6|].
  intros _ t7 H7. by apply twp_ret.
Qed.

(** ** The order of the steps *)

Section order.
Context (env : Env).

(** QEMU has reported the mirror job [id] as ready. *)
Definition ready_seen (t : list event) (id : string) : Prop :=
  ∃ raw jobs job, EvExec "query-block-jobs" NoArgs (inl raw) ∈ t ∧ e_dec_jobs env raw = inl jobs ∧
    job ∈ jobs ∧ bj_device job = id ∧ bj_ready job = true.

(** The source VM has stopped running. *)
Definition paused (t : list event) : Prop :=
  EvWait "STOP" None ∈ t ∨
  ∃ raw info, EvExec "query-migrate" NoArgs (inl raw) ∈ t ∧ e_dec_migrate env raw = inl info ∧
    mi_status info = MigrateStatusCompleted.

Lemma ready_seen_app t t1 id : ready_seen t id → ready_seen (t ++ t1) id.
Proof. intros (raw & jobs & job & ? & ?). exists raw, jobs, job. rewrite elem_of_app. tauto. Qed.

Lemma paused_app t t1 : paused t → paused (t ++ t1).
Proof.
  intros [?|(raw & info & ? & ?)]; [left|right; exists raw, info]; rewrite elem_of_app; tauto.
Qed.

(** What one pass over the jobs establishes. *)
Definition pass_ok (jobs : list BlockJobInfo) (sts : list jobState)
    (r : (list jobState * bool) + error) : Prop :=
  match r with
  | inr _ => True
  | inl (sts', ok) =>
      js_id <$> sts' = js_id <$> sts ∧
      (ok = true → Forall (fun js => js_ready js = true) sts') ∧
      Forall (fun js' => js_ready js' = true →
        (∃ js, js ∈ sts ∧ js_id js = js_id js' ∧ js_ready js = true) ∨
        ∃ job, job ∈ jobs ∧ bj_device job = js_id js' ∧ bj_ready job = true) sts'
  end.

Lemma jobsByID_Some jobs id job :
  jobsByID jobs id = Some job → job ∈ jobs ∧ bj_device job = id.
Proof.
  intros [Hin Hd]%List.find_some. apply String.eqb_eq in Hd. split; [|done].
  apply list_elem_of_In. by apply List.in_rev.
Qed.

(** Extending a pass by one job. *)
Lemma pass_ok_cons jobs js js' ok sts r :
  js_id js' = js_id js → (ok = true → js_ready js' = true) →
  (js_ready js' = true → js_ready js = true ∨
     ∃ job, job ∈ jobs ∧ bj_device job = js_id js' ∧ bj_ready job = true) →
  pass_ok jobs sts r →
  pass_ok jobs (js :: sts) match r with
                           | inr e => inr e
                           | inl (sts', ready) => inl (js' :: sts', ok && ready)
                           end.
Proof.
  intros Hid Hok Hrd. destruct r as [[sts' ready]|]; [|done]. intros (Hids & Hall & Hf).
  split_and!.
  - rewrite !fmap_cons. congruence.
  - intros [??]%andb_true_iff. constructor; auto.
  - constructor.
    + intros [?|?]%Hrd; [left|by right]. exists js. split_and!; [by left|done|done].
    + eapply Forall_impl; [exact Hf|]. intros x Hx Hxr.
      destruct (Hx Hxr) as [(y & ? & ?)|?]; [left; exists y; split; [by right|done]|by right].
Qed.

Lemma check_jobs_pass I jobs dl sts t :
  twp env (check_jobs jobs dl sts) I (fun r t' => t' = t ∧ pass_ok jobs sts r) t.
Proof.
  revert t. induction sts as [|js sts IH]; intros t; cbn [check_jobs].
  { apply twp_ret. by split. }
  assert (Hnext : ∀ js' ok, js_id js' = js_id js → (ok = true → js_ready js' = true) →
    (js_ready js' = true → js_ready js = true ∨
       ∃ job, job ∈ jobs ∧ bj_device job = js_id js' ∧ bj_ready job = true) →
    twp env (r ← check_jobs jobs dl sts;
             mret match r with inr e => inr e | inl (sts, ready) => inl (js' :: sts, ok && ready) end)
      I (fun r t' => t' = t ∧ pass_ok jobs (js :: sts) r) t).
  { intros js' ok H1 H2 H3. apply twp_bind. eapply twp_mono; [apply IH|]. intros r t' [-> Hp].
    apply twp_ret. split; [done|]. by apply pass_ok_cons. }
  cbv zeta. destruct (js_ready js) eqn:Hjr; [apply Hnext; auto|].
  destruct (jobsByID jobs (js_id js)) as [job|] eqn:Hj.
  - apply jobsByID_Some in Hj as [Hin Hd].
    destruct (bj_ready job) eqn:Hbr; [apply Hnext; simpl; eauto 10|].
    destruct (_ || _); [by apply twp_ret|]. by apply Hnext.
  - destruct (js_seen js); [by apply twp_ret|]. apply twp_bind, twp_ask. intros now.
    destruct (now >? dl); [by apply twp_ret|]. apply Hnext; [done|done|congruence].
Qed.

(** The states that are marked ready were reported ready. *)
Definition states_ok (t : list event) (sts : list jobState) : Prop :=
  Forall (fun js => js_ready js = true → ready_seen t (js_id js)) sts.

Lemma pass_ok_states jobs raw sts sts' ok t :
  e_dec_jobs env raw = inl jobs → EvExec "query-block-jobs" NoArgs (inl raw) ∈ t →
  states_ok t sts → pass_ok jobs sts (inl (sts', ok)) → states_ok t sts'.
Proof.
  intros Hd Hin Hst (_ & _ & Hf). eapply Forall_impl; [exact Hf|]. intros js' Hjs Hr.
  destruct (Hjs Hr) as [(js & Hjin & <- & Hjr)|(job & ? & ? & ?)].
  - unfold states_ok in Hst. rewrite Forall_forall in Hst. by apply Hst.
  - exists raw, jobs, job. done.
Qed.

Lemma states_ok_app t t1 sts : states_ok t sts → states_ok (t ++ t1) sts.
Proof. intros H. eapply Forall_impl; [exact H|]. intros js Hjs Hr. by apply ready_seen_app, Hjs. Qed.

Lemma storage_loop_ready fuel dl sts t :
  states_ok t sts →
  twp env (storage_loop fuel dl sts) (fun _ => True)
    (fun r t' => r = None → Forall (ready_seen t') (js_id <$> sts)) t.
Proof.
  revert sts t. induction fuel as [|fuel IH]; intros sts t Hst; cbn [storage_loop]; [by apply twp_spin|].
  apply twp_bind, twp_ask. intros [ce|]; [by apply twp_ret|].
  apply twp_bind, twp_Execute; [|done]. intros [raw|e]; [|apply twp_bind, twp_ask; intros ?; by apply twp_ret].
  apply twp_bind, twp_reads. destruct (e_dec_jobs env raw) as [jobs|e] eqn:Hd; [|by apply twp_ret].
  set (t1 := t ++ [EvExec "query-block-jobs" NoArgs (inl raw)]).
  assert (Ht1 : states_ok t1 sts) by by apply states_ok_app.
  apply twp_bind. eapply twp_mono; [apply check_jobs_pass|]. intros [[sts' ok]|e] t' [-> Hp]; [|by apply twp_ret].
  assert (Hin : EvExec "query-block-jobs" NoArgs (inl raw) ∈ t1) by (unfold t1; set_solver).
  pose proof (pass_ok_states _ _ _ _ _ _ Hd Hin Ht1 Hp) as Hst'. destruct Hp as (Hids & Hall & _).
  destruct ok.
  - apply twp_ret. intros _. rewrite <- Hids. rewrite Forall_fmap. specialize (Hall eq_refl).
    rewrite Forall_forall in *. intros js Hjs. unfold states_ok in Hst'. rewrite Forall_forall in Hst'. auto.
  - unfold SelectTimer. apply twp_bind, twp_bind, twp_log, twp_ask. intros [ce|]; [by apply twp_ret|].
    eapply twp_mono; [apply IH; by apply states_ok_app|]. intros r t' Hr Hn. rewrite <- Hids. auto.
Qed.

Lemma waitForStorageSync_ready fuel ids t :
  twp env (waitForStorageSync fuel ids) (fun _ => True)
    (fun r t' => r = None → Forall (ready_seen t') ids) t.
Proof.
  unfold waitForStorageSync. apply twp_bind, twp_ask. intros now.
  eapply twp_mono; [apply storage_loop_ready|].
  - apply Forall_fmap, Forall_true. done.
  - intros r t' Hr Hn. specialize (Hr Hn). rewrite <- list_fmap_compose in Hr.
    by rewrite list_fmap_id in Hr.
Qed.

Lemma stop_loop_paused fuel t :
  twp env (stop_loop fuel) (fun _ => True) (fun r t' => r = None → paused t') t.
Proof.
  revert t. induction fuel as [|fuel IH]; intros t; cbn [stop_loop]; [by apply twp_spin|].
  apply twp_bind, twp_WaitForEvent; [|done]. intros [e|].
  2: { apply twp_ret. intros _. left. set_solver. }
  destruct (is_net_timeout e); [|by apply twp_ret].
  apply twp_bind, twp_Execute; [|done]. intros [raw|e']; [|apply IH].
  apply twp_bind, twp_reads. destruct (e_dec_migrate env raw) as [info|e'] eqn:Hd; [|apply IH].
  unfold migrationTerminalError.
  destruct (String.eqb_spec (mi_status info) MigrateStatusCompleted).
  { apply twp_ret. intros _. right. exists raw, info. set_solver. }
  destruct (_ =? _)%string; [destruct (negb _); by apply twp_ret|].
  destruct (_ =? _)%string; [by apply twp_ret|apply IH].
Qed.
End order.

(** The condition under which a call may be made after the calls [pre]. *)
Definition source_step_ok (env : Env) (shared : bool) (drives : list string) (pre : list event)
    (ev : event) : Prop :=
  match ev with
  | EvExec _ (MigrateArgs _) _ => shared = true ∨ Forall (ready_seen env pre) (mirror_job <$> drives)
  | EvCmd argv _ => adds_tunnel argv ≠ None → paused env pre
  | _ => True
  end.

Definition source_order_ok (env : Env) (shared : bool) (drives : list string) (t : list event) : Prop :=
  ordered (source_step_ok env shared drives) t.

Section order_proof.
Context (env : Env) (shared : bool) (drives : list string).
Abbreviation ok := (source_order_ok env shared drives).
Abbreviation step_ok := (source_step_ok env shared drives).

Lemma twp_order (P : event → Prop) {A} (m : M A) (Q : A → list event → Prop) t :
  emits P m → (∀ t2 ev, P ev → step_ok (t ++ t2) ev) → ok t →
  (∀ a t1, ok (t ++ t1) → Q a (t ++ t1)) → twp env m (fun _ => True) Q t.
Proof.
  intros Hm Hs Ht HQ. eapply twp_emits; [exact Hm| |done]. intros a t1 Hf. eapply HQ, ordered_ext; eauto.
Qed.

Definition step_free (ev : event) : Prop := ∀ pre, step_ok pre ev.

Lemma free_poll ev : ev_poll ev → step_free ev.
Proof. intros H pre. by destruct ev as [| |? [] ?| | | | | | | | | | |]. Qed.
Lemma free_prelude ev : ev_prelude ev → step_free ev.
Proof. intros H pre. destruct ev as [| |? [] ?| | | | | | | | | | |]; try done. simpl. by destruct H as [-> _]. Qed.

Lemma twp_free {A} (m : M A) (Q : A → list event → Prop) t :
  emits step_free m → ok t → (∀ a t1, ok (t ++ t1) → Q a (t ++ t1)) → twp env m (fun _ => True) Q t.
Proof. intros Hm. eapply twp_order; [exact Hm|]. intros t2 ev Hev. apply Hev. Qed.

Lemma free_emits_poll {A} (m : M A) : emits ev_poll m → emits step_free m.
Proof. apply emits_mono, free_poll. Qed.
Lemma free_emits_prelude {A} (m : M A) : emits ev_prelude m → emits step_free m.
Proof. apply emits_mono, free_prelude. Qed.

Lemma free_cancel fuel ids : emits step_free (cancel_mirrors fuel ids).
Proof. unfold cancel_mirrors. emits_calls. Qed.

#[local] Hint Resolve free_emits_poll free_emits_prelude free_cancel : go_wp.

Lemma order_finish fuel cfg ids tun t :
  ok t → twp env (finish_migration fuel cfg ids tun) (fun _ => True) (fun _ t' => ok t') t.
Proof.
  intros Ht. eapply twp_free; [|done|done].
  assert (Hrep : ∀ merr : option error, emits step_free (match merr with
     | None => report_result fuel
     | Some _ => _ ← Execute fuel CtxCleanup "migrate-cancel" NoArgs; mret tt end)).
  { intros [e|]; [emits_calls|auto with go_wp]. }
  unfold finish_migration, waitForMigrationComplete, teardownTunnel.
  apply always_bind; [apply _|auto with go_wp|]. intros merr.
  apply always_bind; [apply _|apply Hrep|]. intros _. emits_calls; [apply free_cancel|].
  intros pre Hn. by destruct Hn.
Qed.

Lemma order_source_migrate fuel cfg ids t :
  (shared = true ∨ Forall (ready_seen env t) (mirror_job <$> drives)) → ok t →
  twp env (source_migrate fuel cfg ids) (fun _ => True) (fun _ t' => ok t') t.
Proof.
  intros Hr Ht. unfold source_migrate. apply twp_bind.
  eapply (twp_order ev_start); [apply emits_start_migration| |done|].
  { intros t2 ev Hev. destruct ev as [| |? [] ?| | | | | | | | | | |]; try done. simpl.
    destruct Hr as [?|Hr]; [by left|right]. eapply Forall_impl; [exact Hr|].
    intros id Hid. by apply ready_seen_app. }
  intros [e|] t1 H1; [by apply twp_ret|]. apply twp_bind.
  intros w Hw. eapply wp_mono.
  { apply wp_conj; [by apply (stop_loop_paused env fuel (t ++ t1))|].
    apply (twp_free (stop_loop fuel) (fun _ t' => ok t') (t ++ t1)); auto with go_wp. }
  intros r w2 [Hp Ho]. destruct r as [e|]; [by apply twp_ret|]. specialize (Hp eq_refl).
  apply twp_bind.
  eapply (twp_order (fun ev => ∃ argv r, ev = EvCmd argv r)); [apply emits_make_tunnel; eauto| |done|].
  { intros t2 ev (argv & r & ->) _. by apply paused_app. }
  intros [tun|e] t3 H3; [|by apply twp_ret].
  apply twp_bind. eapply twp_mono; [by apply order_finish|]. intros r t4 H4. by apply twp_ret.
Qed.

Lemma order_connected fuel cfg t :
  sc_SharedStorage cfg = shared → sc_DriveIDs cfg = drives → ok t →
  twp env (source_connected fuel cfg) (fun _ => True) (fun _ t' => ok t') t.
Proof.
  intros Hs Hd Ht. unfold source_connected. destruct (sc_SharedStorage cfg).
  { apply twp_bind. eapply twp_mono; [apply order_source_migrate; auto|].
    intros r t' H. by apply twp_ret. }
  apply twp_bind. eapply twp_free; [|done|].
  { generalize (sc_DriveIDs cfg). intros ds. induction ds as [|d ds IH]; cbn [forM_err]; unfold start_mirror; emits_calls. }
  intros [e|] t1 H1; [by apply twp_ret|]. apply twp_bind. intros w Hw. eapply wp_mono.
  { apply wp_conj; [by apply (waitForStorageSync_ready env fuel (mirror_job <$> sc_DriveIDs cfg) (t ++ t1))|].
    apply (twp_free (waitForStorageSync fuel (mirror_job <$> sc_DriveIDs cfg)) (fun _ t' => ok t') (t ++ t1));
      auto with go_wp. }
  intros err w2 [Hr H2]. apply twp_bind.
  assert (Hend : ∀ (r : option error * list string) t3, ok t3 →
    twp env (cancel_mirrors fuel r.2;; mret r.1) (fun _ => True) (fun _ t' => ok t') t3).
  { intros r t3 H3. apply twp_bind. eapply twp_free; [apply free_cancel|exact H3|].
    intros _ t4 H4. by apply twp_ret. }
  destruct err; [by apply twp_ret, Hend|]. specialize (Hr eq_refl). rewrite Hd in Hr.
  eapply twp_mono; [apply order_source_migrate; auto|]. intros r t3 H3. by apply Hend.
Qed.
End order_proof.

(** Resolving the pod and checking the configuration keep the storage settings. *)
Definition same_storage (cfg cfg' : SourceConfig) : Prop :=
  sc_SharedStorage cfg' = sc_SharedStorage cfg ∧ sc_DriveIDs cfg' = sc_DriveIDs cfg.

Lemma resolve_pod_storage env cfg t :
  twp env (resolve_pod cfg) (fun _ => True)
    (fun r _ => ∀ cfg' pid, r = inl (cfg', pid) → same_storage cfg cfg') t.
Proof.
  unfold resolve_pod. destruct (_ =? _)%string; [apply twp_ret; by intros ? ? [= <- _]|].
  apply twp_bind. eapply (twp_emits env (fun _ => True)); [by apply emits_LookupPodIP| |done].
  intros [ip|e] t1 _; [|by apply twp_ret]. destruct (ParseAddr ip) as [a|]; [|by apply twp_ret].
  apply twp_bind, twp_silent; [apply silent_resolveSandbox| |done]. intros [res|e]; [|by apply twp_ret].
  cbv zeta. apply twp_bind, twp_runCmd. intros r. apply twp_ret. by intros ? ? [= <- _].
Qed.

Lemma check_config_storage cfg cfg' : check_config cfg = inl cfg' → same_storage cfg cfg'.
Proof.
  unfold check_config. cbv zeta. intros H.
  repeat match type of H with
         | (if ?b then _ else _) = _ => destruct b
         | match ?o with _ => _ end = _ => destruct o
         end; try discriminate H; by injection H as <-.
Qed.

Lemma order_RunSource env fuel cfg t :
  source_order_ok env (sc_SharedStorage cfg) (sc_DriveIDs cfg) t →
  twp env (RunSource fuel cfg) (fun _ => True)
    (fun _ t' => source_order_ok env (sc_SharedStorage cfg) (sc_DriveIDs cfg) t') t.
Proof.
  intros Ht. unfold RunSource.
  pose proof (fun A (m : M A) H => free_emits_prelude env (sc_SharedStorage cfg) (sc_DriveIDs cfg) m H) as Hfree.
  apply twp_bind. intros w Hw. eapply wp_mono.
  { apply wp_conj; [by apply (resolve_pod_storage env cfg t)|].
    apply (twp_free env (sc_SharedStorage cfg) (sc_DriveIDs cfg) (resolve_pod cfg)
             (fun _ t' => source_order_ok env (sc_SharedStorage cfg) (sc_DriveIDs cfg) t') t); auto.
    apply Hfree, emits_resolve_pod. }
  intros [[cfg' pid]|e] w1 [Hst H1]; [|by apply twp_ret]. destruct (Hst _ _ eq_refl) as [Hs1 Hd1].
  apply twp_bind. eapply twp_free; [apply Hfree, emits_emit_cmdline|exact H1|].
  intros [e|] t2 H2; [by apply twp_ret|].
  apply twp_bind. eapply twp_free; [destruct (negb (pid =? 0)); [apply Hfree, emits_emitVMConfig|apply always_ret, _]|exact H2|].
  intros _ t3 H3. destruct (check_config cfg') as [cfg2|e] eqn:Hc; [|by apply twp_ret].
  apply check_config_storage in Hc as [Hs2 Hd2].
  apply twp_bind. eapply twp_free; [destruct (negb _); emits_calls|exact H3|].
  intros [e|] t4 H4; [by apply twp_ret|].
  apply twp_bind. eapply twp_free; [by apply emits_NewClient|exact H4|].
  intros [e|] t5 H5; [by apply twp_ret|].
  apply twp_bind. eapply twp_mono; [apply (order_connected env (sc_SharedStorage cfg) (sc_DriveIDs cfg)); [congruence|congruence|exact H5]|].
  intros r t6 H6. apply twp_bind. eapply twp_free; [by apply emits_Close|exact H6|].
  intros _ t7 H7. by apply twp_ret.
Qed.

(** ** An example node *)

Definition src_decode (l : string) : response + error :=
  if (l =? "ok")%string then inl (Response (Some "{}") None "")
  else if (l =? "STOP")%string then inl (Response None None "STOP")
  else if (l =? "fail")%string then inl (Response None (Some (QErr "GenericError" "no")) "")
  else inr (ErrNew "json").

Definition src_jobs : list BlockJobInfo :=
  [MkBlockJobInfo "mirror-a" 10 10 0 true "ready" "mirror";
   MkBlockJobInfo "mirror-b" 10 10 0 true "ready" "mirror"].

Definition src_env (rd : nat → string * option error) (info : MigrateInfo)
    (ctxerr : Ctx → nat → option error) : Env := {|
  e_dial := e_dial env0; e_read := rd; e_write := e_write env0;
  e_setdeadline := e_setdeadline env0; e_close := e_close env0; e_ctx := ctxerr;
  e_deadline := e_deadline env0;
  e_select := e_select env0; e_now := e_now env0; e_cmd := e_cmd env0;
  e_cmd_out := e_cmd_out env0; e_spawn := e_spawn env0;
  e_rand _ := inl [1; 35; 69; 103; 137];
  e_readdir := e_readdir env0; e_readfile := e_readfile env0;
  e_writefile := e_writefile env0; e_mkdir := e_mkdir env0; e_issocket := e_issocket env0;
  e_tempfile := e_tempfile env0; e_open := e_open env0; e_isregular := e_isregular env0;
  e_copy := e_copy env0; e_fileop := e_fileop env0; e_getpid := e_getpid env0;
  e_output := e_output env0; e_getenv := e_getenv env0; e_http := e_http env0;
  e_icmp_listen := e_icmp_listen env0; e_icmp_send := e_icmp_send env0;
  e_icmp_recv := e_icmp_recv env0; e_icmp_rtt := e_icmp_rtt env0;
  e_dec_response := src_decode; e_dec_migrate _ := inl info;
  e_dec_jobs _ := inl src_jobs; e_dec_persist := e_dec_persist env0;
  e_dec_podip := e_dec_podip env0; e_pem_ok := e_pem_ok env0;
  e_enc_vmconfig := e_enc_vmconfig env0; e_enc_meta := e_enc_meta env0; e_base64 := e_base64 env0;
  e_unbase64 := e_unbase64 env0 |}.

Definition src_info : MigrateInfo := MkMigrateInfo "completed" "" 100 100 0 12 1 500.

Definition src_cfg : SourceConfig :=
  MkSourceConfig "/run/qmp.sock" (Addr4 10 0 0 2) (Addr4 10 244 1 7) ["a"; "b"] false "" 25 false 0 0 4 "" "" "".

(** Every reply is positive except those of the listed reads. *)
Definition src_read (special : list (nat * string)) (n : nat) : string * option error :=
  match List.find (fun p => Nat.eqb p.1 n) special with
  | Some p => (p.2, None)
  | None => ("ok", None)
  end.

Definition src_ok_env : Env := src_env (src_read [(43%nat, "STOP")]) src_info (fun _ _ => None).

(** ** Properties *)

(** C4. No mirror job outlives [RunSource]: whenever it returns, by whichever
    path, every drive-mirror job that QEMU accepted has been sent a
    block-job-cancel, unless a later drive-mirror command was rejected. *)
Theorem RunSource_cancels_mirrors fuel cfg env w r w' :
  w_trace w = [] → RunSource fuel cfg env w = (Done r, w') →
  open_jobs (w_trace w') = ∅ ∨ Exists mirror_failed (w_trace w').
Proof.
  intros Hw Hrun. by apply (twp_run env _ _ _ _ w r w' (RunSource_jobs env fuel cfg [] eq_refl)).
Qed.

Lemma RunSource_cancels_mirrors_witness :
  let w' := (RunSource 30 src_cfg src_ok_env world0).2 in
  open_jobs (w_trace w') = ∅ ∨ Exists mirror_failed (w_trace w').
Proof.
  apply (RunSource_cancels_mirrors 30 src_cfg src_ok_env world0 None); [reflexivity|].
  apply run_result. vm_compute. reflexivity.
Defined.

(** The exception is real.  When the second drive-mirror command is rejected
    [RunSource] returns before it registers its cleanup, and the job of the
    first drive is never cancelled. *)
Theorem RunSource_leaks_first_mirror :
  let run := RunSource 30 src_cfg (src_env (src_read [(16%nat, "fail")]) src_info (fun _ _ => None)) world0 in
  (∃ e, run.1 = Done (Some e)) ∧ open_jobs (w_trace run.2) = {["mirror-a"]}.
Proof.
  split; [eexists; vm_compute; reflexivity|]. refine (bool_decide_eq_true_1 _ _). vm_compute. reflexivity.
Qed.

(** C5. The migration tunnel never outlives [RunSource]: when it returns, with
    success or an error, every device it has created has been the subject of a later
    delete command, and a device is left only if it was there before the run or if
    deleting it failed while it existed. *)
Theorem RunSource_removes_tunnel fuel cfg env w r w' :
  RunSource fuel cfg env w = (Done r, w') →
  owed (w_trace w') ⊆ owed (w_trace w) ∧
  ∀ n, n ∈ tunnels (w_trace w') → n ∈ owed (w_trace w) ∨ undeletable n (w_trace w').
Proof.
  intros Hrun. assert (Hc : owed (w_trace w') ⊆ owed (w_trace w))
    by exact (twp_run env _ _ _ _ w r w' (RunSource_clean env fuel cfg (w_trace w)) eq_refl Hrun).
  split; [done|]. intros n [Hn|Hn]%tunnel_left; [left; by apply Hc|by right].
Qed.

(** The environment with other results of the commands. *)
Definition set_cmd (f : nat → option error) (env : Env) : Env := {|
  e_dial := e_dial env; e_read := e_read env; e_write := e_write env; e_setdeadline := e_setdeadline
  env; e_close := e_close env; e_ctx := e_ctx env; e_deadline := e_deadline env; e_select := e_select
  env; e_now := e_now env; e_cmd := f; e_cmd_out := e_cmd_out env; e_spawn := e_spawn env; e_rand :=
  e_rand env; e_readdir := e_readdir env; e_readfile := e_readfile env; e_writefile := e_writefile
  env; e_mkdir := e_mkdir env; e_issocket := e_issocket env; e_tempfile := e_tempfile env; e_open :=
  e_open env; e_isregular := e_isregular env; e_copy := e_copy env; e_fileop := e_fileop env; e_getpid
  := e_getpid env; e_output := e_output env; e_getenv := e_getenv env; e_http := e_http env;
  e_icmp_listen := e_icmp_listen env; e_icmp_send := e_icmp_send env; e_icmp_recv := e_icmp_recv env;
  e_icmp_rtt := e_icmp_rtt env; e_dec_response := e_dec_response env; e_dec_migrate := e_dec_migrate
  env; e_dec_jobs := e_dec_jobs env; e_dec_persist := e_dec_persist env; e_dec_podip := e_dec_podip
  env; e_pem_ok := e_pem_ok env; e_enc_vmconfig := e_enc_vmconfig env; e_enc_meta := e_enc_meta env;
  e_base64 := e_base64 env; e_unbase64 := e_unbase64 env |}.

(** The commands of the set-up succeed, deleting the tunnel at the end fails. *)
Definition busy_env : Env :=
  set_cmd (fun k => if (k <? 60)%nat then None else Some (ErrNew "device busy")) src_ok_env.

Lemma RunSource_removes_tunnel_witness :
  let w' := (RunSource 30 src_cfg busy_env world0).2 in
  "mig-0123456789" ∈ tunnels (w_trace w') ∧
  ("mig-0123456789" ∈ owed (w_trace world0) ∨ undeletable "mig-0123456789" (w_trace w')).
Proof.
  assert (Hin : "mig-0123456789" ∈ tunnels (w_trace (RunSource 30 src_cfg busy_env world0).2))
    by (refine (bool_decide_eq_true_1 _ _); vm_compute; reflexivity).
  split; [exact Hin|].
  refine (proj2 (RunSource_removes_tunnel 30 src_cfg busy_env world0 None _ _) "mig-0123456789" Hin).
  apply run_result. vm_compute. reflexivity.
Defined.

(** C1. The steps come in a safe order.  In every run, whatever QEMU answers, the
    RAM migration is started only after every mirror job has been reported
    ready by QEMU (or with shared storage), and the tunnel is created only
    after the VM has been paused: the STOP event or a completed migration was
    seen first. *)
Theorem RunSource_order fuel cfg env w r w' :
  w_trace w = [] → RunSource fuel cfg env w = (Done r, w') →
  source_order_ok env (sc_SharedStorage cfg) (sc_DriveIDs cfg) (w_trace w').
Proof.
  intros Hw Hrun. apply (twp_run env _ _ _ _ w r w' (order_RunSource env fuel cfg [] (ordered_nil _)) Hw Hrun).
Qed.

Lemma RunSource_order_witness :
  source_order_ok src_ok_env false ["a"; "b"] (w_trace (RunSource 30 src_cfg src_ok_env world0).2).
Proof.
  apply (RunSource_order 30 src_cfg src_ok_env world0 None); [reflexivity|].
  apply run_result. vm_compute. reflexivity.
Defined.

(** ** The STOP wait under an expired context *)

(** The three hours of the run are over, and no data arrives. *)
Definition expired_env : Env :=
  src_env (fun _ => ("", Some (ErrNet true))) src_info (fun _ _ => Some ErrDeadlineExceeded).

Lemma expired_wait fuel w :
  c_conn (w_client w) = true → c_events (w_client w) = [] →
  ∃ w', WaitForEvent (S fuel) CtxRun "STOP" migrationPollInterval expired_env w =
    (Done (Some (ErrWrap "waiting for QMP event interrupted" ErrDeadlineExceeded)), w') ∧
    c_conn (w_client w') = true ∧ c_events (w_client w') = [] .
Proof.
  intros Hc He. destruct w as [st io tr [cn ev bf sk]]. simpl in Hc, He. subst cn ev.
  eexists. split; [apply run_result; vm_compute; reflexivity|]. split; vm_compute; reflexivity.
Qed.

Lemma expired_query fuel w :
  c_conn (w_client w) = true → c_events (w_client w) = [] →
  ∃ w', Execute (S fuel) CtxRun "query-migrate" NoArgs expired_env w =
    (Done (inr (ErrWrap "QMP command interrupted" ErrDeadlineExceeded)), w') ∧
    c_conn (w_client w') = true ∧ c_events (w_client w') = [].
Proof.
  intros Hc He. destruct w as [st io tr [cn ev bf sk]]. simpl in Hc, He. subst cn ev.
  eexists. split; [apply run_result; vm_compute; reflexivity|]. split; vm_compute; reflexivity.
Qed.

(** The STOP wait does not end when the migration's own deadline passes.
    The error that reports the expired context (context.DeadlineExceeded) is
    itself a timeout in the sense of net.Error, so the loop takes it for a
    poll timeout, its query fails for the same reason, and it starts over:
    with an expired context and a silent QEMU the loop never returns. *)
Theorem stop_loop_ignores_deadline fuel w :
  c_conn (w_client w) = true → c_events (w_client w) = [] →
  (stop_loop fuel expired_env w).1 = Spin.
Proof.
  revert w. induction fuel as [|fuel IH]; intros w Hc He; [done|].
  cbn [stop_loop]. destruct (expired_wait fuel w Hc He) as (w1 & Hw & Hc1 & He1).
  rewrite (run_bind _ _ _ _ _ _ Hw). cbn [is_net_timeout errors_As_net].
  destruct (expired_query fuel w1 Hc1 He1) as (w2 & Hq & Hc2 & He2).
  rewrite (run_bind _ _ _ _ _ _ Hq). by apply IH.
Qed.

Lemma stop_loop_ignores_deadline_witness :
  (stop_loop 50 expired_env (MkWorld 0 [] [] (MkClient true [] "" "s"))).1 = Spin.
Proof. apply stop_loop_ignores_deadline; reflexivity. Defined.

(** ** Round-trip time and downtime *)

Lemma rtt_loop_total fuel id i u b env w :
  0 ≤ i ≤ rtt_samples → 0 ≤ u ≤ maxUnrelatedReplies →
  rtt_samples - i + (maxUnrelatedReplies - u) + 1 ≤ Z.of_nat fuel →
  ∃ r w', rtt_loop fuel id i u b env w = (Done r, w').
Proof.
  unfold maxUnrelatedReplies, rtt_samples.
  revert i u b w. induction fuel as [|fuel IH]; intros i u b w Hi Hu Hf; [lia|].
  cbn [rtt_loop]. unfold rtt_samples. destruct (Z.geb_spec i 3); [eauto|].
  unfold mbind, M_bind, ask, mret, M_ret.
  destruct (e_icmp_send env _); [eauto|]. destruct (e_setdeadline env _); [eauto|].
  unfold maxUnrelatedReplies, rtt_samples. cbv zeta.
  assert (Hother : ∀ w', ∃ r w'',
    (if u + 1 >? 3 * 5 then (fun _ w => (Done (inr (ErrNew "RTT measurement abandoned after unrelated ICMP replies")), w))
     else rtt_loop fuel id i (u + 1) b) env w' = (Done r, w'')).
  { intros w'. destruct (Z.gtb_spec (u + 1) (3 * 5)); [eauto|]. apply IH; lia. }
  destruct (e_icmp_recv env _) as [e|e| |eid eseq]; [eauto|eauto|apply Hother|].
  destruct (_ || _); [apply Hother|]. apply IH; lia.
Qed.

(** The RTT measurement always ends: after three matching replies, an error,
    or at the latest after its 16th unrelated packet, however many foreign ICMP
    packets keep arriving. *)
Theorem measureRTT_total env dest w : ∃ r w', measureRTT dest env w = (Done r, w').
Proof.
  unfold measureRTT. unfold mbind, M_bind, ask, mret, M_ret.
  destruct (e_icmp_listen env _); [eauto|].
  apply rtt_loop_total; unfold maxUnrelatedReplies, rtt_samples, rtt_fuel; lia.
Qed.

(** The environment with another clock and other ICMP answers. *)
Definition set_clock (now : nat → Z) (listen : nat → option error) (recv : nat → icmp_reply) (rtt : nat → Z) (env : Env) : Env := {|
  e_dial := e_dial env; e_read := e_read env; e_write := e_write env; e_setdeadline := e_setdeadline
  env; e_close := e_close env; e_ctx := e_ctx env; e_deadline := e_deadline env; e_select := e_select
  env; e_now := now; e_cmd := e_cmd env; e_cmd_out := e_cmd_out env; e_spawn := e_spawn env; e_rand :=
  e_rand env; e_readdir := e_readdir env; e_readfile := e_readfile env; e_writefile := e_writefile
  env; e_mkdir := e_mkdir env; e_issocket := e_issocket env; e_tempfile := e_tempfile env; e_open :=
  e_open env; e_isregular := e_isregular env; e_copy := e_copy env; e_fileop := e_fileop env; e_getpid
  := e_getpid env; e_output := e_output env; e_getenv := e_getenv env; e_http := e_http env;
  e_icmp_listen := listen; e_icmp_send := e_icmp_send env; e_icmp_recv := recv;
  e_icmp_rtt := rtt; e_dec_response := e_dec_response env; e_dec_migrate := e_dec_migrate
  env; e_dec_jobs := e_dec_jobs env; e_dec_persist := e_dec_persist env; e_dec_podip := e_dec_podip
  env; e_pem_ok := e_pem_ok env; e_enc_vmconfig := e_enc_vmconfig env; e_enc_meta := e_enc_meta env;
  e_base64 := e_base64 env; e_unbase64 := e_unbase64 env |}.

(** C40. The downtime limit given to QEMU: the configured value unless automatic
    downtime is on and the RTT could be measured, in which case it is twice the
    RTT in milliseconds plus the floor (25 ms unless configured), and never below
    the floor, as long as this sum is an int; a sum of 2^63 or more wraps around to
    a negative limit. *)
Theorem downtime_limit_value env cfg w :
  (∀ rtt w', measureRTT (sc_DestIP cfg) env w = (Done (inl rtt), w') → 0 ≤ rtt < 2 ^ 63) →
  sc_AutoDowntimeFloorMS cfg < 2 ^ 63 →
  ∃ limit rttMS w', downtime_limit cfg env w = (Done (limit, rttMS), w') ∧
    let floor := if sc_AutoDowntimeFloorMS cfg <=? 0 then 25 else sc_AutoDowntimeFloorMS cfg in
    ((limit = sc_DowntimeLimitMS cfg ∧ rttMS = 0 ∧
      (sc_AutoDowntime cfg = true → ∃ e w', measureRTT (sc_DestIP cfg) env w = (Done (inr e), w'))) ∨
     (sc_AutoDowntime cfg = true ∧
      (2 * rttMS + floor < 2 ^ 63 → limit = 2 * rttMS + floor ∧ floor ≤ limit) ∧
      (2 ^ 63 ≤ 2 * rttMS + floor → limit < 0) ∧
      ∃ rtt w', measureRTT (sc_DestIP cfg) env w = (Done (inl rtt), w') ∧ rttMS = rtt / 1000000)).
Proof.
  intros Hrtt Hfl. unfold downtime_limit. destruct (sc_AutoDowntime cfg); cbn [negb].
  2: { exists (sc_DowntimeLimitMS cfg), 0, w. split; [done|]. left. by split_and!. }
  destruct (measureRTT_total env (sc_DestIP cfg) w) as (r & w' & Hm).
  rewrite (run_bind _ _ _ _ _ _ Hm). destruct r as [rtt|e].
  2: { eexists _, _, w'. split; [reflexivity|]. left. split_and!; [done..|]. eauto. }
  eexists _, _, w'. split; [reflexivity|]. right.
  specialize (Hrtt _ _ Hm). unfold millisecond, rttMultiplier, rttMinOverheadMS.
  rewrite Z.quot_div_nonneg by lia.
  assert (0 ≤ rtt / 1000000 < 2 ^ 61).
  { split; [apply Z.div_pos; lia|]. apply Z.div_lt_upper_bound; lia. }
  set (floor := if sc_AutoDowntimeFloorMS cfg <=? 0 then 25 else sc_AutoDowntimeFloorMS cfg).
  assert (0 < floor < 2 ^ 63).
  { unfold floor. destruct (Z.leb_spec (sc_AutoDowntimeFloorMS cfg) 0); lia. }
  rewrite (wrap64_id (rtt / 1000000 * 2)) by lia. split_and!; [done| | |eauto].
  - intros Hs. rewrite wrap64_id by lia. lia.
  - intros Hs. rewrite wrap64_over by lia. lia.
Qed.

Definition auto_cfg : SourceConfig :=
  MkSourceConfig "" (Addr4 10 0 0 2) (Addr4 10 244 1 7) [] true "none" 25 true 40 0 0 "" "" "".

(** Three echo replies, the fastest after 7.5 ms. *)
Definition echo_env : Env :=
  set_clock (e_now env0) (fun _ => None) (fun k => IcmpEcho (Z.land (e_getpid env0 0) 65535) (Z.of_nat k / 4))
    (fun k => if (k =? 9)%nat then 7500000 else 9000000) env0.

Lemma downtime_limit_value_witness :
  ∃ w', measureRTT (Addr4 10 0 0 2) echo_env world0 = (Done (inl 7500000), w') ∧
  ∃ limit rttMS w'', downtime_limit auto_cfg echo_env world0 = (Done (limit, rttMS), w'') ∧ limit = 2 * 7 + 40 ∧ 40 ≤ limit.
Proof.
  eexists. split; [apply run_result; vm_compute; reflexivity|].
  destruct (downtime_limit_value echo_env auto_cfg world0) as (limit & rttMS & w'' & Hd & [(_ & _ & Hx)|(_ & Hv & _ & rtt & w' & Hm & Hr)]).
  - intros rtt w' H. vm_compute in H. injection H as <- _. lia.
  - vm_compute. reflexivity.
  - destruct (Hx eq_refl) as (e & w' & H). vm_compute in H. discriminate H.
  - exists limit, rttMS, w''. split; [exact Hd|]. vm_compute in Hm. injection Hm as <- _. subst rttMS.
    apply Hv. vm_compute. reflexivity.
Defined.

(** ** Completion *)

(** Not a query. *)
Definition no_query (ev : event) : Prop := match ev with EvExec _ _ _ => False | _ => True end.

(** The last query answered that the migration has completed. *)
Definition completed_seen (env : Env) (t : list event) : Prop :=
  ∃ t0 raw info t1, t = t0 ++ EvExec "query-migrate" NoArgs (inl raw) :: t1 ∧ Forall no_query t1 ∧
    e_dec_migrate env raw = inl info ∧ mi_status info = MigrateStatusCompleted.

(** From the failure of a query on, every query has failed; the first of them had
    failed by the time [first], and at the later time [now] the grace is over. *)
Definition failing (ev : event) : Prop :=
  match ev with
  | EvExec "query-migrate" NoArgs (inr _) | EvSleep _ | EvNow _ => True
  | _ => False
  end.

Definition stalling (first : Z) (t : list event) : Prop :=
  ∃ t0 e t1, t = t0 ++ EvExec "query-migrate" NoArgs (inr e) :: EvNow first :: t1 ∧ Forall failing t1.

Definition stalled (t : list event) : Prop :=
  ∃ t0 first now, t = t0 ++ [EvNow now] ∧ stalling first t0 ∧ now - first > postActiveStallGrace.

Lemma stalling_app first t t1 : stalling first t → Forall failing t1 → stalling first (t ++ t1).
Proof.
  intros (t0 & e & t2 & -> & Hf) Hf1. exists t0, e, (t2 ++ t1). rewrite <- app_assoc. split; [done|]. by apply Forall_app.
Qed.

(** What the wait adds to the trace [t0]. *)
Definition evidence (env : Env) (t0 : list event) (r : option error) (t : list event) : Prop :=
  r = None → ∃ t1, t = t0 ++ t1 ∧ (completed_seen env t1 ∨ stalled t1).

(** A poll pauses before it runs again; a cancelled pause is an error. *)
Lemma twp_poll_pause env (k : M (option error)) t0 t :
  twp env k (fun _ => True) (evidence env t0) (t ++ [EvSleep migrationPollInterval]) →
  twp env (cerr ← SelectTimer CtxMigration migrationPollInterval;
           match cerr with
           | Some ce => mret (Some (ErrWrap "migration" ce))
           | None => k
           end) (fun _ => True) (evidence env t0) t.
Proof.
  intros Hk. unfold SelectTimer. apply twp_bind, twp_bind, twp_log, twp_ask.
  intros [ce|]; [by apply twp_ret|apply Hk].
Qed.

(** The branch of a failed query. *)
Lemma twp_stall env fuel p l first t0 t1 :
  (∀ t2, stalling first t2 →
     twp env (complete_loop fuel p l (Some first)) (fun _ => True) (evidence env t0) (t0 ++ t2)) →
  stalling first t1 →
  twp env (now ← LoggedNow;
           if now - first >? postActiveStallGrace then mret None
           else (cerr ← SelectTimer CtxMigration migrationPollInterval;
                 match cerr with
                 | Some ce => mret (Some (ErrWrap "migration" ce))
                 | None => complete_loop fuel p l (Some first)
                 end)) (fun _ => True) (evidence env t0) (t0 ++ t1).
Proof.
  intros IH Hs. apply twp_bind. unfold LoggedNow. apply twp_bind, twp_ask. intros now. apply twp_bind, twp_log, twp_ret.
  destruct (Z.gtb_spec (now - first) postActiveStallGrace).
  - apply twp_ret. intros _. exists (t1 ++ [EvNow now]). rewrite <- app_assoc. split; [done|]. right.
    exists t1, first, now. split_and!; [done..|lia].
  - apply twp_poll_pause. rewrite <- !app_assoc. apply IH. apply stalling_app; [done|]. by repeat constructor.
Qed.

Lemma complete_loop_result env fuel p l f t0 t :
  (∀ first, f = Some first → stalling first t) →
  twp env (complete_loop fuel p l f) (fun _ => True) (evidence env t0) (t0 ++ t).
Proof.
  revert p l f t. induction fuel as [|fuel IH]; intros p l f t Hf; cbn [complete_loop]; [by apply twp_spin|].
  apply twp_bind, twp_ask. intros [ce|]; [by apply twp_ret|]. cbv zeta.
  apply twp_bind, twp_Execute; [|done]. intros [raw|e].
  - apply twp_bind, twp_reads. destruct (e_dec_migrate env raw) as [info|e] eqn:Hd; [|by apply twp_ret].
    apply twp_bind.
    assert (Hk : ∀ t1 p l, Forall no_query t1 →
      twp env (match migrationTerminalError (mi_status info) (mi_errorDesc info) with
               | (true, termErr) => mret termErr
               | (false, _) => cerr ← SelectTimer CtxMigration migrationPollInterval;
                   match cerr with
                   | Some ce => mret (Some (ErrWrap "migration" ce))
                   | None => complete_loop fuel p l None
                   end
               end) (fun _ => True) (evidence env t0)
        (t0 ++ t ++ EvExec "query-migrate" NoArgs (inl raw) :: t1)).
    { intros t1 p' l' Ht1. unfold migrationTerminalError.
      destruct (String.eqb_spec (mi_status info) MigrateStatusCompleted).
      { apply twp_ret. intros _. eexists. split; [done|]. left. by exists t, raw, info, t1. }
      destruct (_ =? _)%string; [destruct (negb _); by apply twp_ret|].
      destruct (_ =? _)%string; [by apply twp_ret|]. apply twp_poll_pause. rewrite <- app_assoc. by apply IH. }
    rewrite <- app_assoc. apply twp_when; intros _; [|by apply (Hk [])]. apply twp_log. rewrite <- !app_assoc.
    apply (Hk [EvPrint _]). by repeat constructor.
  - apply twp_bind, twp_ask. intros [ce|]; [by apply twp_ret|]. apply twp_bind. rewrite <- app_assoc.
    destruct f as [first|].
    + apply twp_ret. apply twp_stall; [intros; apply IH; by intros ? [= <-]|].
      apply stalling_app; [by apply Hf|]. by repeat constructor.
    + unfold LoggedNow at 1. apply twp_bind, twp_ask. intros first. apply twp_bind, twp_log, twp_ret.
      rewrite <- !app_assoc. apply twp_stall; [intros; apply IH; by intros ? [= <-]|]. by exists t, e, [].
Qed.

(** C6. The source reports a migration as complete only on evidence obtained by this
    wait: the last status query answered "completed", or from some failed query on
    every query has failed, with no successful one in between, and more than the
    grace period has passed since the first of these failures. *)
Theorem waitForMigrationComplete_evidence fuel env w w' :
  waitForMigrationComplete fuel env w = (Done None, w') →
  ∃ t, w_trace w' = w_trace w ++ t ∧ (completed_seen env t ∨ stalled t).
Proof.
  intros H. refine (twp_run env _ _ _ _ w None w' (complete_loop_result env fuel "" 0 None (w_trace w) [] ltac:(done)) _ H eq_refl).
  by rewrite app_nil_r.
Qed.

(** QEMU is gone: every read fails, and time passes. *)
Definition gone_env : Env :=
  set_clock (fun k => Z.of_nat k * second) (e_icmp_listen env0) (e_icmp_recv env0) (e_icmp_rtt env0)
    (src_env (fun _ => ("", Some ErrEOF)) src_info (fun _ _ => None)).

Lemma waitForMigrationComplete_evidence_witness :
  let w := MkWorld 0 [] [] (MkClient true [] "" "s") in
  (∃ t, w_trace (waitForMigrationComplete 9 gone_env w).2 = [] ++ t ∧ (completed_seen gone_env t ∨ stalled t)) ∧
  EvPrint (progress_line src_info) ∈ w_trace (waitForMigrationComplete 9 src_ok_env w).2.
Proof.
  intros w. split.
  - apply (waitForMigrationComplete_evidence 9 gone_env w). apply run_result. vm_compute. reflexivity.
  - vm_compute. set_solver.
Defined.
