(* ===== verification/CmdlineFetch.v ===== *)
(** * Fetching markers from a pod log (internal/migration/cmdlinefetch.go) *)
From S2P Require Import Prelude GoErrors GoStrings QmpTypes Effects Qmp MigConfig PodResolve Cmdline.

Definition maxPodLogLineSize : Z := 8 * 1024 * 1024.
Definition maxPodLogScanBytes : Z := 16 * 1024 * 1024.
Definition maxMarkerB64Size : Z := 6 * 1024 * 1024.

Definition cmdlineMarker : string := "KATAMARAN_CMDLINE_B64=".
Definition vmConfigMarker : string := "KATAMARAN_VMCONFIG_B64=".
Definition agentConfigMarker : string := "KATAMARAN_AGENTCONFIG_B64=".

(** [podRefDNSRe]: ^[a-z0-9]([-a-z0-9]*[a-z0-9])?$ *)
Definition dns_edge (c : ascii) : bool := is_lower c || is_digit c.

Fixpoint dns_tail (s : string) : bool :=
  match s with
  | "" => false
  | String c "" => dns_edge c
  | String c s => (dns_edge c || (c =? "-")%char) && dns_tail s
  end.

Definition podRefDNSRe (s : string) : bool :=
  match s with
  | "" => false
  | String c "" => dns_edge c
  | String c s => dns_edge c && dns_tail s
  end.

Definition parsePodRef (ref : string) : (string * string) + error :=
  match IndexByte ref "/" with
  | None => inr (ErrNew "invalid pod ref (expected <namespace>/<name>)")
  | Some i =>
      let ns := stake i ref in
      let pod := sdrop (S i) ref in
      if (ns =? "")%string || (pod =? "")%string then inr (ErrNew "invalid pod ref (expected <namespace>/<name>)")
      else if (slen ns >? 253) || negb (podRefDNSRe ns) then
        inr (ErrNew "invalid pod ref: namespace must be a DNS-1123 label")
      else if (slen pod >? 253) || negb (podRefDNSRe pod) then
        inr (ErrNew "invalid pod ref: pod name must be a DNS-1123 label")
      else inl (ns, pod)
  end.

Definition log_endpoint (host port ns pod : string) : string :=
  "https://" +:+ JoinHostPort host port +:+ "/api/v1/namespaces/" +:+ PathEscape ns +:+ "/pods/"
  +:+ PathEscape pod +:+ "/log?container=katamaran&limitBytes=" +:+ Itoa maxPodLogScanBytes.

(** [newPodLogClient]: the log endpoint. *)
Definition newPodLogClient (ref : string) : M (string + error) :=
  match parsePodRef ref with
  | inr e => mret (inr e)
  | inl (ns, pod) =>
      hp ← resolveAPIServerHostPort;
      match hp with
      | inr e => mret (inr e)
      | inl (host, port) =>
          token ← ReadFile tokenPath;
          match token with
          | inr e => mret (inr (ErrWrap "read service account token" e))
          | inl _ =>
              ca ← ReadFile caPath;
              match ca with
              | inr e => mret (inr (ErrWrap "read service account CA" e))
              | inl ca =>
                  ok ← reads (fun e => e_pem_ok e ca);
                  mret (if negb ok then inr (ErrNew "CA file did not contain any PEM certificates")
                        else inl (log_endpoint host port ns pod))
              end
          end
      end
  end.

(** ** Scanning the log *)

(** [bufio.ScanLines]: the pieces between newlines (a final empty piece is not a
    line); one trailing carriage return is dropped from each. *)
Definition raw_lines (body : string) : list string :=
  match rev (Split lf body) with
  | "" :: ls => rev ls
  | ls => rev ls
  end.

Definition drop_cr (l : string) : string :=
  if HasSuffix l (String (ascii_of_nat 13) "") then stake (String.length l - 1) l else l.

(** The markers found so far, as an association list. *)
Definition found_get (found : list (string * string)) (m : string) : option string :=
  snd <$> List.find (fun p => (p.1 =? m)%string) found.

(** The inner loop over the marker specs; [true] when all are found. *)
Fixpoint scan_line (nspecs : nat) (line : string) (specs : list string)
    (found : list (string * string)) : list (string * string) * bool :=
  match specs with
  | [] => (found, false)
  | m :: specs =>
      match found_get found m with
      | Some _ => scan_line nspecs line specs found
      | None =>
          match Index line m with
          | None => scan_line nspecs line specs found
          | Some i =>
              let found := found ++ [(m, TrimSpace (sdrop (i + String.length m) line))] in
              if (length found =? nspecs)%nat then (found, true)
              else scan_line nspecs line specs found
          end
      end
  end.

(** The loop over the lines. *)
Fixpoint scan_lines (specs : list string) (lines : list string) (bytes : Z)
    (found : list (string * string)) (cut : bool) : list (string * string) * option error :=
  match lines with
  | [] => (found, if cut then Some (ErrNew "pod log scan exceeded bytes") else None)
  | l :: lines =>
      if slen l + 1 >? maxPodLogLineSize then (found, Some (ErrNew "scan response: token too long"))
      else
        let line := drop_cr l in
        let bytes := bytes + (slen line + 1) in
        if bytes >? maxPodLogScanBytes then (found, Some (ErrNew "pod log scan exceeded bytes"))
        else
          match scan_line (length specs) line specs found with
          | (found, true) => (found, None)
          | (found, false) => scan_lines specs lines bytes found cut
          end
  end.

(** [scanPodLogMarkers]; [None] for the nil map of a failed request. *)
Definition scanPodLogMarkers (endpoint : string) (markers : list string)
    : M (option (list (string * string)) * option error) :=
  let specs := List.filter (fun m => negb (m =? "")%string) markers in
  match specs with
  | [] => mret (Some [], None)
  | _ =>
      r ← HttpGet endpoint;
      mret match r with
           | inr e => (None, Some e)
           | inl (status, body) =>
               if negb (status =? 200) then (None, Some (ErrNew "apiserver returned"))
               else
                 let lim := maxPodLogScanBytes + 1 in
                 let cut := slen body >=? lim in
                 let (found, err) := scan_lines specs (raw_lines (stake (Z.to_nat lim) body)) 0 [] cut in
                 (Some found, err)
           end
  end.

(** [writeCmdlineTempFile]. *)
Definition writeCmdlineTempFile (data : string) : M (string + error) :=
  err ← MkdirAll "/tmp/katamaran-cmdlines";
  match err with
  | Some e => mret (inr (ErrWrap "mkdir" e))
  | None =>
      f ← ask (fun e => e_tempfile e "/tmp/katamaran-cmdlines/cmdline-from-podlog-*.txt");
      match f with
      | inr e => mret (inr (ErrWrap "create temp cmdline file" e))
      | inl path =>
          err ← ask (fun e => e_fileop e path);
          match err with
          | Some e => Remove path;; mret (inr (ErrWrap "chmod" e))
          | None =>
              err ← WriteFile path data;
              match err with
              | Some e => Remove path;; mret (inr (ErrWrap "write" e))
              | None =>
                  err ← ask (fun e => e_fileop e path);
                  match err with
                  | Some e => Remove path;; mret (inr (ErrWrap "close" e))
                  | None => mret (inl path)
                  end
              end
          end
      end
  end.

Definition marker_value (r : option (list (string * string))) (m : string) : string :=
  match r with
  | Some found => default "" (found_get found m)
  | None => ""
  end.

Definition cmdline_timeout : error := ErrNew "source pod did not emit KATAMARAN_CMDLINE_B64= within timeout".

(** The retry loop of [fetchCmdlineFromPodLog]. *)
Fixpoint fetch_loop (fuel : nat) (endpoint : string) : M (string + error) :=
  match fuel with
  | O => spin
  | S fuel =>
      cerr ← CtxErr CtxFetch;
      match cerr with
      | Some _ => mret (inr cmdline_timeout)
      | None =>
          r ← scanPodLogMarkers endpoint [cmdlineMarker];
          let b64 := match r.2 with Some _ => "" | None => marker_value r.1 cmdlineMarker end in
          if negb (b64 =? "")%string then
            if slen b64 >? maxMarkerB64Size then mret (inr (ErrNew "KATAMARAN_CMDLINE_B64 marker too large"))
            else
              d ← reads (fun e => e_unbase64 e b64);
              match d with
              | inr e => mret (inr (ErrWrap "decode KATAMARAN_CMDLINE_B64" e))
              | inl d => writeCmdlineTempFile d
              end
          else
            cerr ← SelectTimer CtxFetch (2 * second);
            match cerr with
            | Some _ => mret (inr cmdline_timeout)
            | None => fetch_loop fuel endpoint
            end
      end
  end.

Definition fetchCmdlineFromPodLog (fuel : nat) (ref : string) : M (string + error) :=
  pc ← newPodLogClient ref;
  match pc with
  | inr e => mret (inr e)
  | inl endpoint => fetch_loop fuel endpoint
  end.

(** The [decode] closure: nil is the empty string. *)
Definition decode_marker (b64 : string) : M string :=
  if (b64 =? "")%string || (slen b64 >? maxMarkerB64Size) then mret ""
  else
    d ← reads (fun e => e_unbase64 e b64);
    mret match d with inl d => d | inr _ => "" end.

Definition fetchVMConfigFromPodLog (ref : string) : M (string * string) :=
  pc ← newPodLogClient ref;
  match pc with
  | inr _ => mret ("", "")
  | inl endpoint =>
      r ← scanPodLogMarkers endpoint [vmConfigMarker; agentConfigMarker];
      match r.2, default [] r.1 with
      | Some _, [] => mret ("", "")
      | _, _ =>
          v ← decode_marker (marker_value r.1 vmConfigMarker);
          a ← decode_marker (marker_value r.1 agentConfigMarker);
          mret (v, a)
      end
  end.

(** ** Properties *)

Lemma TrimRightFunc_id f s : forallb_str (fun c => negb (f c)) s = true → TrimRightFunc f s = s.
Proof.
  induction s as [|c s IH]; simpl; [done|]. intros [Hc Hs]%andb_true_iff. apply negb_true_iff in Hc.
  rewrite IH by done. destruct s; [by rewrite Hc|done].
Qed.

Lemma trim_left_id f s : forallb_str (fun c => negb (f c)) s = true → trim_left f s = s.
Proof. destruct s as [|c s]; simpl; [done|]. intros [Hc _]%andb_true_iff. apply negb_true_iff in Hc. by rewrite Hc. Qed.

Lemma TrimSpace_word s : forallb_str (fun c => negb (is_space c)) s = true → TrimSpace s = s.
Proof. intros H. unfold TrimSpace. rewrite TrimRightFunc_id by done. by apply trim_left_id. Qed.

Lemma Index_None s sub : Contains s sub = false → Index s sub = None.
Proof. unfold Contains. by destruct (Index s sub). Qed.

Lemma Index_0 a b : Index (a +:+ b) a = Some 0%nat.
Proof. destruct a; [by destruct b|]. pose proof (HasPrefix_refl (String a a0) b) as H. simpl in H |- *. by rewrite H. Qed.

(** The size of a log, as the scanner counts it. *)
Definition log_bytes (lines : list string) : Z := foldr (fun l n => slen l + 1 + n) 0 lines.

Definition plain_line (l : string) : Prop :=
  slen l + 1 ≤ maxPodLogLineSize ∧ HasSuffix l (String (ascii_of_nat 13) "") = false.

Lemma log_bytes_nonneg lines : 0 ≤ log_bytes lines.
Proof. induction lines as [|l ls IH]; simpl; [lia|]. pose proof (slen_nonneg l). lia. Qed.

Lemma scan_lines_marker m pre val post bytes cut :
  m ≠ "" → Forall (fun l => plain_line l ∧ Contains l m = false) pre →
  plain_line (m +:+ val) → forallb_str (fun c => negb (is_space c)) val = true →
  bytes + log_bytes (pre ++ [m +:+ val]) ≤ maxPodLogScanBytes →
  scan_lines [m] (pre ++ (m +:+ val) :: post) bytes [] cut = ([(m, val)], None).
Proof.
  intros Hm Hpre [Hl Hcr] Hval. revert bytes. induction Hpre as [|l pre [[Hl1 Hcr1] Hno] Hpre IH]; intros bytes Hb;
    cbn [app scan_lines]; simpl in Hb.
  - replace (slen (m +:+ val) + 1 >? maxPodLogLineSize) with false by lia.
    unfold drop_cr. rewrite Hcr. replace (bytes + (slen (m +:+ val) + 1) >? maxPodLogScanBytes) with false by lia.
    cbn [scan_line found_get List.find fmap option_fmap option_map]. rewrite Index_0.
    cbn [length app Nat.eqb Nat.add]. rewrite sdrop_app by done. by rewrite TrimSpace_word.
  - pose proof (log_bytes_nonneg (pre ++ [m +:+ val])).
    replace (slen l + 1 >? maxPodLogLineSize) with false by lia. unfold drop_cr. rewrite Hcr1.
    replace (bytes + (slen l + 1) >? maxPodLogScanBytes) with false by lia.
    cbn [scan_line found_get List.find fmap option_fmap option_map]. rewrite Index_None by done.
    apply IH. lia.
Qed.

(** What the source prints the destination reads: if the source pod's log
    holds, after lines without the marker, the line KATAMARAN_CMDLINE_B64=v,
    and the log so far is within the scan limit, the scan returns exactly v,
    whatever follows in the log. *)
Theorem cmdline_marker_found pre b64 post cut :
  Forall (fun l => plain_line l ∧ Contains l cmdlineMarker = false) pre →
  plain_line (cmdlineMarker +:+ b64) →
  forallb_str (fun c => negb (is_space c)) b64 = true →
  log_bytes (pre ++ [cmdlineMarker +:+ b64]) ≤ maxPodLogScanBytes →
  let (found, err) := scan_lines [cmdlineMarker] (pre ++ (cmdlineMarker +:+ b64) :: post) 0 [] cut in
  err = None ∧ marker_value (Some found) cmdlineMarker = b64.
Proof.
  intros Hpre Hl Hval Hb. rewrite scan_lines_marker; [by split|done..|lia].
Qed.

Lemma cmdline_marker_found_witness :
  let (found, err) := scan_lines [cmdlineMarker]
    (["starting"] ++ (cmdlineMarker +:+ "cWVtdQ==") :: ["KATAMARAN_CMDLINE_B64=other"]) 0 [] false in
  err = None ∧ marker_value (Some found) cmdlineMarker = "cWVtdQ==".
Proof.
  apply cmdline_marker_found.
  - repeat constructor; vm_compute; discriminate.
  - split; vm_compute; [discriminate|reflexivity].
  - vm_compute. reflexivity.
  - vm_compute. discriminate.
Defined.

(** A reference names one namespace and one pod: neither part holds a slash. *)
Lemma dns_tail_no_slash s : dns_tail s = true → no_char "/" s = true.
Proof.
  unfold no_char. induction s as [|c s IH]; [done|]. intros H.
  assert (Hc : negb (c =? "/")%char = true).
  { destruct (Ascii.eqb_spec c "/"); [|done]. subst c. by destruct s. }
  cbn [forallb_str]. rewrite Hc. destruct s; [done|]. apply andb_true_iff in H as [_ H]. by rewrite IH.
Qed.

Lemma podRefDNSRe_no_slash s : podRefDNSRe s = true → no_char "/" s = true.
Proof.
  destruct s as [|c s]; [done|]. intros H.
  assert (Hc : negb (c =? "/")%char = true).
  { destruct (Ascii.eqb_spec c "/"); [|done]. subst c. by destruct s. }
  unfold no_char. cbn [forallb_str]. rewrite Hc. destruct s; [done|].
  apply andb_true_iff in H as [_ H]. by apply dns_tail_no_slash in H.
Qed.

Lemma parsePodRef_sound ref ns pod :
  parsePodRef ref = inl (ns, pod) →
  ref = ns +:+ "/" +:+ pod ∧ podRefDNSRe ns = true ∧ podRefDNSRe pod = true.
Proof.
  unfold parsePodRef, IndexByte. destruct (IndexFunc _ ref) as [i|] eqn:Hi; [|done].
  cbv zeta. destruct ((stake i ref =? "")%string || _); [done|].
  destruct ((slen (stake i ref) >? 253) || _) eqn:H1; [done|].
  destruct ((slen (sdrop (S i) ref) >? 253) || _) eqn:H2; [done|].
  apply orb_false_iff in H1 as [_ H1%negb_false_iff]. apply orb_false_iff in H2 as [_ H2%negb_false_iff].
  intros [= <- <-]. split; [|done].
  clear H1 H2. revert i Hi. induction ref as [|c ref IH]; intros i Hi; [done|]. cbn [IndexFunc] in Hi.
  destruct (Ascii.eqb_spec "/" c) as [<-|]; [by injection Hi as <-|].
  apply fmap_Some in Hi as (j & Hj & ->). simpl. f_equal. by apply IH.
Qed.
