(* ===== verification/Dest.v ===== *)
(** * The destination side of a migration (internal/migration/dest.go)

    As in the model of the source side, the code between the registration of a
    defer and the return is a program that also returns the guard variables the
    defer reads ([qdiscInstalled], [nbdStarted]). *)
From S2P Require Import Prelude GoErrors GoStrings Netip QmpTypes Effects Qmp MigConfig Exec.
From S2P Require Import PodResolve Filepath Cmdline DestSpawn CmdlineFetch.

Definition destDefaultQMPSocket : string := "/run/vc/vm/katamaran-dest/qmp.sock".
Definition adoptedCgroupRoot : string := "/sys/fs/cgroup/katamaran-adopted".

Definition set_socket (cfg : DestConfig) (s : string) : DestConfig :=
  MkDestConfig s (dc_TapIface cfg) (dc_TapNetns cfg) (dc_DriveIDs cfg) (dc_SharedStorage cfg)
    (dc_MultifdChannels cfg) (dc_DestPodName cfg) (dc_DestPodNamespace cfg) (dc_ReplayCmdlineFile cfg)
    (dc_ReplayCmdlineFromPod cfg) (dc_QEMUBinary cfg) (dc_SandboxID cfg) (dc_SourcePodRef cfg).

Definition set_replay (cfg : DestConfig) (f : string) : DestConfig :=
  MkDestConfig (dc_QMPSocket cfg) (dc_TapIface cfg) (dc_TapNetns cfg) (dc_DriveIDs cfg) (dc_SharedStorage cfg)
    (dc_MultifdChannels cfg) (dc_DestPodName cfg) (dc_DestPodNamespace cfg) f
    (dc_ReplayCmdlineFromPod cfg) (dc_QEMUBinary cfg) (dc_SandboxID cfg) (dc_SourcePodRef cfg).

(** ** Before the connection *)

Definition dest_resolve (cfg : DestConfig) : M (DestConfig + error) :=
  if (dc_DestPodName cfg =? "")%string then mret (inl cfg)
  else
    ip ← LookupPodIP CtxCaller (dc_DestPodNamespace cfg) (dc_DestPodName cfg);
    match ip with
    | inr e => mret (inr (ErrWrap "lookup dest pod IP" e))
    | inl ip =>
        res ← resolveSandbox sandboxRoot ip;
        mret match res with
             | inr e => inr (ErrWrap "resolve dest sandbox" e)
             | inl res =>
                 inl (if (dc_QMPSocket cfg =? "")%string || (dc_QMPSocket cfg =? destDefaultQMPSocket)%string
                      then set_socket cfg (path_join [sandboxRoot; rs_Sandbox res; "extra-monitor.sock"])
                      else cfg)
             end
    end.

Definition dest_replay (fuel : nat) (cfg : DestConfig) : M (DestConfig + error) :=
  r ← (if (dc_ReplayCmdlineFromPod cfg =? "")%string then mret (inl cfg)
       else
         path ← fetchCmdlineFromPodLog fuel (dc_ReplayCmdlineFromPod cfg);
         mret match path with
              | inr e => inr (ErrWrap "replay-cmdline-from-pod" e)
              | inl path => inl (set_replay cfg path)
              end);
  match r with
  | inr e => mret (inr e)
  | inl cfg =>
      if (dc_ReplayCmdlineFile cfg =? "")%string then mret (inl cfg)
      else
        s ← spawnReplayedQEMU fuel CtxCaller cfg;
        mret match s with
             | inr e => inr (ErrWrap "replay source QEMU cmdline" e)
             | inl s => inl (set_socket cfg s)
             end
  end.

Definition dest_check (cfg : DestConfig) : option error :=
  if dc_MultifdChannels cfg <? 0 then Some (ErrNew "multifd channels must be non-negative")
  else
    match (if (dc_TapIface cfg =? "")%string then None else validateTapIface (dc_TapIface cfg)) with
    | Some e => Some (ErrWrap "validating tap interface" e)
    | None =>
        match (if (dc_TapNetns cfg =? "")%string then None else validateTapNetns (dc_TapNetns cfg)) with
        | Some e => Some (ErrWrap "validating tap netns" e)
        | None =>
            match (if dc_SharedStorage cfg then None else validateDriveIDs (dc_DriveIDs cfg)) with
            | Some e => Some (ErrWrap "validating drive IDs" e)
            | None => None
            end
        end
    end.

(** ** The network queue *)

Definition qdisc_del (iface : string) : list string := ["tc"; "qdisc"; "del"; "dev"; iface; "root"].
Definition qdisc_add (iface : string) : list string :=
  ["tc"; "qdisc"; "add"; "dev"; iface; "root"; "plug"; "limit"; plugQdiscLimit].
Definition qdisc_change (iface op : string) : list string :=
  ["tc"; "qdisc"; "change"; "dev"; iface; "root"; "plug"; op].

(** Step 1: [qdiscInstalled], or the error that is returned at once. *)
Definition plug_install (cfg : DestConfig) : M (bool + error) :=
  let iface := dc_TapIface cfg in
  let netns := dc_TapNetns cfg in
  if (iface =? "")%string then mret (inl false)
  else
    ifaceErr ← runCmdInNetns CtxCaller netns ["ip"; "link"; "show"; iface];
    match ifaceErr with
    | Some _ => mret (inl false)
    | None =>
        _ ← runCmdInNetns CtxCleanup netns (qdisc_del iface);
        err ← runCmdInNetns CtxCaller netns (qdisc_add iface);
        match err with
        | Some e => mret (inr (ErrWrap "failed to add plug qdisc (is sch_plug available?)" e))
        | None =>
            err ← runCmdInNetns CtxCaller netns (qdisc_change iface "release_indefinite");
            match err with
            | Some e =>
                cleanupErr ← runCmdInNetns CtxCleanup netns (qdisc_del iface);
                mret (inr match errors_Join (Some (ErrWrap "failed to release plug qdisc, removing it" e)) cleanupErr with
                          | Some j => j
                          | None => e
                          end)
            | None => mret (inl true)
            end
        end
    end.

(** ** Adoption metadata *)

Fixpoint find_persist (entries : list dirent) : M (option string) :=
  match entries with
  | [] => mret None
  | e :: entries =>
      if negb (de_isdir e) then find_persist entries
      else
        data ← ReadFile (path_join ["/run/vc/sbs"; de_name e; "persist.json"]);
        match data with
        | inl data => mret (Some data)
        | inr _ => find_persist entries
        end
  end.

Definition findAnyPersistJSON : M (option string) :=
  entries ← ReadDir "/run/vc/sbs";
  match entries with
  | inr _ => mret None
  | inl entries => find_persist entries
  end.

(** The part of the metadata that comes from persist.json or the pod log:
    HypervisorState, VMConfig, AgentConfig. *)
Definition meta_config (cfg : DestConfig) : M (string * string * string) :=
  p ← findAnyPersistJSON;
  match p with
  | Some data =>
      d ← reads (fun e => e_dec_persist e data);
      match d with
      | inr _ => mret ("", "", "")
      | inl p =>
          vm ← reads (fun e => e_enc_vmconfig e p);
          mret (if slen (p_hypervisorConfig p) >? 0
                then (p_hypervisorState p, vm, p_agentConfig p)
                else (p_hypervisorState p, "", ""))
      end
  | None =>
      let srcRef := if (dc_ReplayCmdlineFromPod cfg =? "")%string then dc_SourcePodRef cfg
                    else dc_ReplayCmdlineFromPod cfg in
      if (srcRef =? "")%string then mret ("", "", "")
      else
        r ← fetchVMConfigFromPodLog srcRef;
        mret (if slen r.1 >? 0 then ("", r.1, r.2) else ("", "", ""))
  end.

Definition writeMigrationMeta (fuel : nat) (cfg : DestConfig) : M unit :=
  let dir := Dir (dc_QMPSocket cfg) in
  pidb ← ReadFile (path_join [dir; "pid"]);
  let pid := match pidb with
             | inr _ => 0
             | inl b => default 0 (Atoi (TrimSpace b))
             end in
  _ ← Execute fuel CtxCaller "query-status" NoArgs;
  c ← meta_config cfg;
  let '(hs, vm, agent) := c in
  j ← reads (fun e => e_enc_meta e (MkMeta (Base dir) pid (dc_QMPSocket cfg) hs vm agent));
  match j with
  | inr _ => mret tt
  | inl j => _ ← WriteFile (path_join [dir; "migration-meta.json"]) j; mret tt
  end.

(** [moveKVMHelperThreads] returns the number of threads moved. *)
Fixpoint move_threads (qemuPID procsPath : string) (entries : list dirent) : M Z :=
  match entries with
  | [] => mret 0
  | e :: entries =>
      if negb (de_isdir e) then move_threads qemuPID procsPath entries
      else if is_nil (Atoi (de_name e)) then move_threads qemuPID procsPath entries
      else
        commb ← ReadFile ("/proc/" +:+ de_name e +:+ "/comm");
        match commb with
        | inr _ => move_threads qemuPID procsPath entries
        | inl commb =>
            let comm := TrimSpace commb in
            if negb (HasPrefix comm "kvm-") || negb (HasSuffix comm ("-" +:+ qemuPID))
            then move_threads qemuPID procsPath entries
            else
              err ← WriteFile procsPath (de_name e +:+ String lf "");
              n ← move_threads qemuPID procsPath entries;
              mret (if is_nil err then n + 1 else n)
        end
  end.

Definition moveKVMHelperThreads (qemuPID procsPath : string) : M Z :=
  entries ← ReadDir "/proc";
  match entries with
  | inr _ => mret 0
  | inl entries => move_threads qemuPID procsPath entries
  end.

Definition surviveContainerExit (qmpSocket : string) : M unit :=
  let dir := Dir qmpSocket in
  pidb ← ReadFile (path_join [dir; "pid"]);
  match pidb with
  | inr _ => mret tt
  | inl pidb =>
      let pid := TrimSpace pidb in
      if (pid =? "")%string then mret tt
      else
        let cgroupDir := path_join [adoptedCgroupRoot; Base dir] in
        err ← MkdirAll cgroupDir;
        match err with
        | Some _ => mret tt
        | None =>
            let procsPath := path_join [cgroupDir; "cgroup.procs"] in
            err ← WriteFile procsPath (pid +:+ String lf "");
            match err with
            | Some _ => mret tt
            | None => _ ← moveKVMHelperThreads pid procsPath; mret tt
            end
        end
  end.

(** ** [RunDestination] *)

Definition dest_caps (multifd : Z) : list (string * bool) :=
  ("auto-converge", true) :: (if multifd >? 0 then [("multifd", true)] else []).

Definition incoming_uri : string := "tcp:[::]:" +:+ ramMigrationPort.

(** Capabilities, parameters and the incoming listener. *)
Definition open_incoming (fuel : nat) (cfg : DestConfig) : M (option error) :=
  r ← Execute fuel CtxCaller "migrate-set-capabilities" (MigrateSetCapabilitiesArgs (dest_caps (dc_MultifdChannels cfg)));
  match r with
  | inr e => mret (Some (ErrWrap "setting destination migration capabilities" e))
  | inl _ =>
      r ← (if dc_MultifdChannels cfg >? 0
           then Execute fuel CtxCaller "migrate-set-parameters" (MigrateSetParametersArgs 0 0 (dc_MultifdChannels cfg))
           else mret (inl ""));
      match r with
      | inr e => mret (Some (ErrWrap "setting destination migration parameters" e))
      | inl _ =>
          r ← Execute fuel CtxCaller "migrate-incoming" (MigrateArgs incoming_uri);
          mret match r with
               | inr e => Some (ErrWrap "configuring incoming migration listener" e)
               | inl _ => None
               end
      end
  end.

Definition add_export (fuel : nat) (driveID : string) : M (option error) :=
  r ← Execute fuel CtxCaller "nbd-server-add" (NBDServerAddArgs driveID true);
  mret match r with
       | inr e => Some (ErrWrap "adding NBD export" e)
       | inl _ => None
       end.

(** From the flushed queue on; [nbdStarted] is false from here. *)
Definition dest_finish (fuel : nat) (cfg : DestConfig) : M (option error) :=
  when (negb (dc_SharedStorage cfg)) (_ ← Execute fuel CtxCleanup "nbd-server-stop" NoArgs; mret tt);;
  r ← Execute fuel CtxCleanup "announce-self" (AnnounceSelfArgs garpInitialMS garpMaxMS garpRounds garpStepMS);
  match r with
  | inr e => mret (Some (ErrWrap "GARP announce-self failed" e))
  | inl _ =>
      writeMigrationMeta fuel cfg;;
      surviveContainerExit (dc_QMPSocket cfg);;
      mret None
  end.

(** Steps 4 to 8: the result, [qdiscInstalled] and whether the NBD server was
    stopped inline. *)
Definition dest_resume (fuel : nat) (cfg : DestConfig) (qdisc : bool) : M (option error * bool * bool) :=
  let iface := dc_TapIface cfg in
  let netns := dc_TapNetns cfg in
  err ← (if qdisc then runCmdInNetns CtxCaller netns (qdisc_change iface "block") else mret None);
  match err with
  | Some e => mret (Some (ErrWrap "failed to plug network queue" e), qdisc, false)
  | None =>
      err ← WaitForEvent fuel CtxCaller "RESUME" eventWaitTimeout;
      match err with
      | Some e => mret (Some (ErrWrap "waiting for RESUME event" e), qdisc, false)
      | None =>
          err ← (if qdisc then runCmdInNetns CtxCaller netns (qdisc_change iface "release_indefinite") else mret None);
          match err with
          | Some e => mret (Some (ErrWrap "failed to unplug network queue" e), qdisc, false)
          | None =>
              res ← dest_finish fuel cfg;
              mret (res, false, true)
          end
      end
  end.

Definition stop_nbd (fuel : nat) : M unit :=
  _ ← Execute fuel CtxCleanup "nbd-server-stop" NoArgs; mret tt.

(** Steps 2 to 8 with the connection open: the result and [qdiscInstalled]. *)
Definition dest_connected (fuel : nat) (cfg : DestConfig) (qdisc : bool) : M (option error * bool) :=
  err ← open_incoming fuel cfg;
  match err with
  | Some e => mret (Some e, qdisc)
  | None =>
      if dc_SharedStorage cfg then
        r ← dest_resume fuel cfg qdisc;
        mret (r.1.1, r.1.2)
      else
        _ ← Execute fuel CtxCaller "nbd-server-stop" NoArgs;
        r ← Execute fuel CtxCaller "nbd-server-start" (NBDServerStartArgs "inet" "::" nbdPort);
        match r with
        | inr e => mret (Some (ErrWrap "starting NBD server" e), qdisc)
        | inl _ =>
            err ← forM_err (dc_DriveIDs cfg) (add_export fuel);
            r ← match err with
                | Some e => mret (Some e, qdisc, false)
                | None => dest_resume fuel cfg qdisc
                end;
            when (negb r.2) (stop_nbd fuel);;        (* deferred *)
            mret (r.1.1, r.1.2)
        end
  end.

Definition RunDestination (fuel : nat) (cfg : DestConfig) : M (option error) :=
  r ← dest_resolve cfg;
  match r with
  | inr e => mret (Some e)
  | inl cfg =>
      r ← dest_replay fuel cfg;
      match r with
      | inr e => mret (Some e)
      | inl cfg =>
          match dest_check cfg with
          | Some e => mret (Some e)
          | None =>
              q ← plug_install cfg;
              match q with
              | inr e => mret (Some e)
              | inl qdisc =>
                  err ← NewClient fuel CtxCaller (dc_QMPSocket cfg);
                  r ← match err with
                      | Some e => mret (Some (ErrWrap "connecting to destination QMP" e), qdisc)
                      | None =>
                          r ← dest_connected fuel cfg qdisc;
                          _ ← Close;                   (* deferred *)
                          mret r
                      end;
                  (if (r.2 : bool)                     (* deferred *)
                   then _ ← runCmdInNetns CtxCleanup (dc_TapNetns cfg) (qdisc_del (dc_TapIface cfg)); mret tt
                   else mret tt);;
                  mret r.1
              end
          end
      end
  end.
