(* ===== verification/DestSpec.v ===== *)
(** * Correctness of the destination side

    The network queue and the NBD server in every run of [RunDestination]. *)
From S2P Require Import Prelude GoErrors GoStrings Netip QmpTypes Effects Qmp MigConfig Exec.
From S2P Require Import Tunnel PodResolve Filepath Cmdline DestSpawn Source SourceSpec.
From S2P Require Import CmdlineFetch Dest.

(** ** Monitors *)

(** A monitor is neutral under a call that does not move it, and a program that
    makes only such calls can be skipped. *)
Section monitor.
Context {S : Type} (step : S → event → S) (s0 : S).

Definition mon (t : list event) : S := fold_left step t s0.
Definition neutral (ev : event) : Prop := ∀ s, step s ev = s.

Lemma mon_snoc t ev : mon (t ++ [ev]) = step (mon t) ev.
Proof. unfold mon. by rewrite fold_left_app. Qed.

Lemma mon_neutral t t1 : Forall neutral t1 → mon (t ++ t1) = mon t.
Proof.
  intros Hf. unfold mon. rewrite fold_left_app. eapply fold_neutral; [|exact Hf]. simpl. auto.
Qed.

Lemma twp_neutral env {A} (m : M A) (Q : A → list event → Prop) t :
  emits neutral m → (∀ a t1, mon (t ++ t1) = mon t → Q a (t ++ t1)) →
  twp env m (fun _ => True) Q t.
Proof.
  intros Hm HQ. eapply twp_emits; [exact Hm| |done]. intros a t1 Hf. by apply HQ, mon_neutral.
Qed.
End monitor.

(** ** The network queue *)

(** The plug qdisc of one interface: absent, passing, buffering, or buffering
    after an attempt to delete it has failed. *)
Inductive qstate := QAbsent | QPass | QBlock | QStuck.

#[global] Instance qstate_eq_dec : EqDecision qstate.
Proof. solve_decision. Defined.

Section queue.
Context (netns iface : string).

Definition q_add : list string := netns_argv netns (qdisc_add iface).
Definition q_del : list string := netns_argv netns (qdisc_del iface).
Definition q_block : list string := netns_argv netns (qdisc_change iface "block").
Definition q_release : list string := netns_argv netns (qdisc_change iface "release_indefinite").

(** A new plug qdisc buffers until it is released. *)
Definition qstep (s : qstate) (ev : event) : qstate :=
  match ev with
  | EvCmd argv r =>
      if decide (argv = q_add) then if is_nil r then QBlock else s
      else if decide (argv = q_del) then
        if is_nil r then QAbsent else if decide (s = QBlock) then QStuck else s
      else if decide (argv = q_block) then
        if is_nil r then (if decide (s = QAbsent) then QAbsent else QBlock) else s
      else if decide (argv = q_release) then
        if is_nil r then (if decide (s = QAbsent) then QAbsent else QPass) else s
      else s
  | _ => s
  end.

Abbreviation queue := (mon qstep QAbsent).

Lemma netns_argv_inj a b : netns_argv netns a = netns_argv netns b → a = b.
Proof. unfold netns_argv. destruct (netns =? "")%string; [done|]. by intros [= ->]. Qed.

Lemma qstep_add s r : qstep s (EvCmd q_add r) = if is_nil r then QBlock else s.
Proof. simpl. by rewrite decide_True. Qed.

Lemma qstep_del s r :
  qstep s (EvCmd q_del r) = if is_nil r then QAbsent else if decide (s = QBlock) then QStuck else s.
Proof.
  simpl. rewrite decide_False; [by rewrite decide_True|]. by intros H%netns_argv_inj.
Qed.

Lemma qstep_block s r :
  qstep s (EvCmd q_block r) = if is_nil r then (if decide (s = QAbsent) then QAbsent else QBlock) else s.
Proof.
  simpl. rewrite (decide_False (P := q_block = q_add)) by by intros H%netns_argv_inj.
  rewrite (decide_False (P := q_block = q_del)) by by intros H%netns_argv_inj.
  by rewrite (decide_True (P := q_block = q_block)).
Qed.

Lemma qstep_release s r :
  qstep s (EvCmd q_release r) = if is_nil r then (if decide (s = QAbsent) then QAbsent else QPass) else s.
Proof.
  simpl. rewrite (decide_False (P := q_release = q_add)) by by intros H%netns_argv_inj.
  rewrite (decide_False (P := q_release = q_del)) by by intros H%netns_argv_inj.
  rewrite (decide_False (P := q_release = q_block)) by by intros H%netns_argv_inj.
  by rewrite (decide_True (P := q_release = q_release)).
Qed.

(** A command that is not one of the four. *)
Lemma neutral_other argv r :
  argv ≠ q_add → argv ≠ q_del → argv ≠ q_block → argv ≠ q_release → neutral qstep (EvCmd argv r).
Proof. intros ? ? ? ? s. simpl. by rewrite !decide_False. Qed.

Lemma neutral_ip args r : neutral qstep (EvCmd ("ip" :: args) r).
Proof.
  apply neutral_other; unfold q_add, q_del, q_block, q_release, netns_argv;
    by destruct (netns =? "")%string.
Qed.

Lemma neutral_link_show r : neutral qstep (EvCmd (netns_argv netns ["ip"; "link"; "show"; iface]) r).
Proof. apply neutral_other; by intros H%netns_argv_inj. Qed.

(** Calls that have nothing to do with traffic control and wait for no event. *)
Definition ev_aside (ev : event) : Prop :=
  match ev with EvCmd argv _ => head argv = Some "ip" | EvWait _ _ => False | _ => True end.

Lemma neutral_off ev : ev_aside ev → neutral qstep ev.
Proof.
  destruct ev as [| | | |argv r| | | | | | | | |]; try done. simpl.
  destruct argv as [|a argv]; [done|]. intros [= ->]. apply neutral_ip.
Qed.

(** ** Programs that do not touch the queue *)

Ltac off_queue :=
  repeat first
    [ progress emits_calls
    | lazymatch goal with
      | |- always _ (waitForSocket _ _ _ _) => apply emits_waitForSocket
      | |- always _ (spawnDetachedProcess _ _) => apply emits_spawnDetached; intros ?
      | |- always _ (LookupPodIP _ _ _) => apply emits_LookupPodIP
      | |- always _ (resolveSandbox _ _) => apply emits_silent, silent_resolveSandbox
      end ].

Lemma off_spawn fuel ctx cfg : emits ev_aside (spawnReplayedQEMU fuel ctx cfg).
Proof.
  unfold spawnReplayedQEMU, readCmdlineFile, replay_nvdimm, copyNvdimmImage, spawn_with_args,
    setupTapIface, startVirtiofsd. off_queue.
Qed.

Lemma off_resolve cfg : emits ev_aside (dest_resolve cfg).
Proof. unfold dest_resolve. off_queue. Qed.

Lemma off_newPodLogClient ref : emits ev_aside (newPodLogClient ref).
Proof. unfold newPodLogClient, resolveAPIServerHostPort, Getenv. off_queue. Qed.

Lemma off_scan ep ms : emits ev_aside (scanPodLogMarkers ep ms).
Proof. unfold scanPodLogMarkers, HttpGet. off_queue. Qed.

Lemma off_fetch fuel ref : emits ev_aside (fetchCmdlineFromPodLog fuel ref).
Proof.
  assert (Hl : ∀ ep, emits ev_aside (fetch_loop fuel ep)).
  { intros ep. induction fuel as [|fuel IH]; cbn [fetch_loop]; unfold writeCmdlineTempFile;
      repeat first [apply off_scan | progress off_queue]. }
  unfold fetchCmdlineFromPodLog. repeat first [apply off_newPodLogClient | progress off_queue].
Qed.

Lemma off_replay fuel cfg : emits ev_aside (dest_replay fuel cfg).
Proof. unfold dest_replay. repeat first [apply off_fetch | apply off_spawn | progress off_queue]. Qed.

Lemma off_open_incoming fuel cfg : emits ev_aside (open_incoming fuel cfg).
Proof. unfold open_incoming. off_queue. Qed.

Lemma off_exports fuel ds : emits ev_aside (forM_err ds (add_export fuel)).
Proof. induction ds as [|d ds IH]; cbn [forM_err]; unfold add_export; off_queue. Qed.

Lemma off_findAny : emits ev_aside findAnyPersistJSON.
Proof.
  assert (Hs : ∀ es, emits ev_aside (find_persist es)).
  { intros es. induction es as [|e es IH]; cbn [find_persist]; off_queue. }
  unfold findAnyPersistJSON. off_queue.
Qed.

Lemma off_meta fuel cfg : emits ev_aside (writeMigrationMeta fuel cfg).
Proof.
  unfold writeMigrationMeta, meta_config, fetchVMConfigFromPodLog, decode_marker.
  repeat first [apply off_findAny | apply off_newPodLogClient | apply off_scan | progress off_queue].
Qed.

Lemma off_survive s : emits ev_aside (surviveContainerExit s).
Proof.
  assert (Hm : ∀ p q es, emits ev_aside (move_threads p q es)).
  { intros p q es. induction es as [|e es IH]; cbn [move_threads]; off_queue. }
  unfold surviveContainerExit, moveKVMHelperThreads. off_queue.
Qed.

Lemma off_finish fuel cfg : emits ev_aside (dest_finish fuel cfg).
Proof.
  unfold dest_finish. repeat first [apply off_meta | apply off_survive | progress off_queue].
Qed.

(** ** The queue through a run *)

(** The destination waits for RESUME only while the queue buffers, if there is
    one at all. *)
Definition resume_ok (pre : list event) (ev : event) : Prop :=
  match ev with
  | EvWait name _ => name = "RESUME" → queue pre = QBlock ∨ queue pre = QAbsent
  | _ => True
  end.

Abbreviation good := (ordered resume_ok).

(** Skipping a program that neither touches the queue nor waits. *)
Definition ev_quiet (ev : event) : Prop :=
  neutral qstep ev ∧ match ev with EvWait _ _ => False | _ => True end.

Lemma twp_quiet env {A} (m : M A) (Q : A → list event → Prop) t :
  emits ev_quiet m → good t →
  (∀ a t1, queue (t ++ t1) = queue t → good (t ++ t1) → Q a (t ++ t1)) →
  twp env m (fun _ => True) Q t.
Proof.
  intros Hm Hg HQ. eapply twp_emits; [exact Hm| |done]. intros a t1 Hf. apply HQ.
  - apply mon_neutral. eapply Forall_impl; [exact Hf|]. by intros ev [? _].
  - eapply ordered_ext; [|done|exact Hf]. intros t2 ev [_ Hev]. by destruct ev.
Qed.

Lemma aside_quiet {A} (m : M A) : emits ev_aside m → emits ev_quiet m.
Proof.
  apply emits_mono. intros ev Hev. split; [apply neutral_off; by destruct ev|by destruct ev].
Qed.

Lemma good_cmd t argv r : good t → good (t ++ [EvCmd argv r]).
Proof. intros Hg. by apply ordered_snoc. Qed.

Lemma plug_install_queue env cfg t :
  dc_TapIface cfg = iface → dc_TapNetns cfg = netns → queue t = QAbsent → good t →
  twp env (plug_install cfg) (fun _ => True) (fun r t' => good t' ∧
    match r with
    | inl b => queue t' = if (b : bool) then QPass else QAbsent
    | inr _ => queue t' ≠ QBlock
    end) t.
Proof.
  intros Hi Hn Hq Hg. unfold plug_install. rewrite Hi, Hn. cbv zeta.
  destruct (iface =? "")%string; [by apply twp_ret|].
  apply twp_bind, twp_runCmdInNetns. intros r.
  assert (H1 : queue (t ++ [EvCmd (netns_argv netns ["ip"; "link"; "show"; iface]) r]) = QAbsent).
  { rewrite mon_snoc, neutral_link_show. done. }
  set (t1 := t ++ _) in *. assert (Hg1 : good t1) by by apply good_cmd.
  destruct r as [e|]; [by apply twp_ret|].
  apply twp_bind, twp_runCmdInNetns. intros r2. fold q_del.
  assert (H2 : queue (t1 ++ [EvCmd q_del r2]) = QAbsent).
  { rewrite mon_snoc, qstep_del, H1. by destruct r2. }
  set (t2 := t1 ++ _) in *. assert (Hg2 : good t2) by by apply good_cmd.
  apply twp_bind, twp_runCmdInNetns. intros r3. fold q_add.
  assert (H3 : queue (t2 ++ [EvCmd q_add r3]) = if is_nil r3 then QBlock else QAbsent).
  { rewrite mon_snoc, qstep_add, H2. done. }
  set (t3 := t2 ++ _) in *. assert (Hg3 : good t3) by by apply good_cmd.
  destruct r3 as [e|]; [apply twp_ret; split; [done|]; by rewrite H3|]. simpl in H3.
  apply twp_bind, twp_runCmdInNetns. intros r4. fold q_release.
  assert (H4 : queue (t3 ++ [EvCmd q_release r4]) = if is_nil r4 then QPass else QBlock).
  { rewrite mon_snoc, qstep_release, H3. by destruct r4. }
  set (t4 := t3 ++ _) in *. assert (Hg4 : good t4) by by apply good_cmd.
  destruct r4 as [e|]; [|by apply twp_ret]. simpl in H4.
  apply twp_bind, twp_runCmdInNetns. intros r5. fold q_del. apply twp_ret. split; [by apply good_cmd|].
  rewrite mon_snoc, qstep_del, H4. by destruct r5.
Qed.

(** Steps 4 to 8: buffering while waiting, and passing again if the guard of the
    deferred deletion is off. *)
Lemma dest_resume_queue env fuel cfg q t :
  dc_TapIface cfg = iface → dc_TapNetns cfg = netns →
  queue t = (if (q : bool) then QPass else QAbsent) → good t →
  twp env (dest_resume fuel cfg q) (fun _ => True)
    (fun r t' => good t' ∧ (r.1.2 = false → queue t' ≠ QBlock)) t.
Proof.
  intros Hi Hn Hq Hg. unfold dest_resume. rewrite Hi, Hn. cbv zeta. apply twp_bind.
  assert (Hplug : twp env (if q then runCmdInNetns CtxCaller netns (qdisc_change iface "block") else mret None)
    (fun _ => True) (fun e t' => good t' ∧
      match e with
      | Some _ => q = true
      | None => queue t' = if q then QBlock else QAbsent
      end) t).
  { destruct q; [|by apply twp_ret]. apply twp_runCmdInNetns. fold q_block. intros r.
    split; [by apply good_cmd|]. rewrite mon_snoc, qstep_block, Hq. by destruct r. }
  eapply twp_mono; [exact Hplug|]. intros [e|] t1 [Hg1 H1]; [apply twp_ret; split; [done|]; by rewrite H1|].
  apply twp_bind, twp_WaitForEvent; [|done]. intros r.
  assert (Hg2 : good (t1 ++ [EvWait "RESUME" r])).
  { apply ordered_snoc; [done|]. intros _. rewrite H1. destruct q; auto. }
  assert (H2 : queue (t1 ++ [EvWait "RESUME" r]) = if q then QBlock else QAbsent) by by rewrite mon_snoc.
  set (t2 := t1 ++ _) in *.
  destruct r as [e|]; [apply twp_ret; split; [done|]; simpl; intros ->; by rewrite H2|].
  apply twp_bind.
  assert (Hrel : twp env (if q then runCmdInNetns CtxCaller netns (qdisc_change iface "release_indefinite") else mret None)
    (fun _ => True) (fun e t' => good t' ∧
      match e with
      | Some _ => q = true
      | None => queue t' = if q then QPass else QAbsent
      end) t2).
  { destruct q; [|by apply twp_ret]. apply twp_runCmdInNetns. fold q_release. intros r.
    split; [by apply good_cmd|]. rewrite mon_snoc, qstep_release, H2. by destruct r. }
  eapply twp_mono; [exact Hrel|]. intros [e|] t3 [Hg3 H3]; [apply twp_ret; split; [done|]; by rewrite H3|].
  apply twp_bind. eapply twp_quiet; [apply aside_quiet, off_finish|done|]. intros res t4 H4 Hg4.
  apply twp_ret. split; [done|]. intros _. rewrite H4, H3. by destruct q.
Qed.

Lemma dest_connected_queue env fuel cfg q t :
  dc_TapIface cfg = iface → dc_TapNetns cfg = netns →
  queue t = (if (q : bool) then QPass else QAbsent) → good t →
  twp env (dest_connected fuel cfg q) (fun _ => True)
    (fun r t' => good t' ∧ (r.2 = false → queue t' ≠ QBlock)) t.
Proof.
  intros Hi Hn Hq Hg. unfold dest_connected. apply twp_bind.
  assert (Hdone : ∀ t', queue t' = queue t → q = false → queue t' ≠ QBlock).
  { intros t' H ->. by rewrite H, Hq. }
  eapply twp_quiet; [apply aside_quiet, off_open_incoming|done|]. intros [e|] t1 H1 Hg1; [apply twp_ret; auto|].
  destruct (dc_SharedStorage cfg).
  { apply twp_bind. eapply twp_mono; [apply dest_resume_queue; [done|done|by rewrite H1|done]|].
    intros r t' Hr. by apply twp_ret. }
  apply twp_bind. eapply twp_quiet; [apply aside_quiet; emits_calls|done|]. intros _ t2 H2 Hg2.
  apply twp_bind. eapply twp_quiet; [apply aside_quiet; emits_calls|done|]. intros [raw|e] t3 H3 Hg3.
  2: { apply twp_ret. split; [done|]. apply Hdone. by rewrite H3, H2. }
  apply twp_bind. eapply twp_quiet; [apply aside_quiet, off_exports|done|]. intros err t4 H4 Hg4.
  assert (H : queue ((((t ++ t1) ++ t2) ++ t3) ++ t4) = queue t) by by rewrite H4, H3, H2.
  set (t5 := _ ++ t4) in *. apply twp_bind.
  assert (Hend : ∀ (r : option error * bool * bool) t6, good t6 → (r.1.2 = false → queue t6 ≠ QBlock) →
    twp env (when (negb r.2) (stop_nbd fuel);; mret (r.1.1, r.1.2)) (fun _ => True)
      (fun r t' => good t' ∧ (r.2 = false → queue t' ≠ QBlock)) t6).
  { intros r t6 Hg6 H6. apply twp_bind. eapply twp_quiet;
      [apply aside_quiet; destruct (negb r.2); unfold stop_nbd; emits_calls|done|].
    intros _ t7 H7 Hg7. apply twp_ret. split; [done|]. simpl. by rewrite H7. }
  destruct err as [e|]; [apply twp_ret, Hend; auto|].
  eapply twp_mono; [apply dest_resume_queue; [done|done|by rewrite H|done]|].
  intros r t6 [Hg6 H6]. by apply Hend.
Qed.
End queue.

(** Resolving the pod and replaying QEMU keep the interface and the storage. *)
Definition same_dest (cfg cfg' : DestConfig) : Prop :=
  dc_TapIface cfg' = dc_TapIface cfg ∧ dc_TapNetns cfg' = dc_TapNetns cfg ∧
  dc_SharedStorage cfg' = dc_SharedStorage cfg.

Definition value_ok (cfg : DestConfig) (r : DestConfig + error) (_ : list event) : Prop :=
  ∀ cfg', r = inl cfg' → same_dest cfg cfg'.

Lemma dest_resolve_same env cfg t : twp env (dest_resolve cfg) (fun _ => True) (value_ok cfg) t.
Proof.
  unfold dest_resolve. destruct (_ =? _)%string; [apply twp_ret; by intros ? [= <-]|].
  apply twp_bind. eapply (twp_emits env (fun _ => True)); [by apply emits_LookupPodIP| |done].
  intros [ip|e] t1 _; [|by apply twp_ret].
  apply twp_bind, twp_silent; [apply silent_resolveSandbox| |done].
  intros [res|e]; apply twp_ret; [|done]. intros cfg' [= <-]. by destruct (_ || _).
Qed.

Lemma dest_replay_same env fuel cfg t : twp env (dest_replay fuel cfg) (fun _ => True) (value_ok cfg) t.
Proof.
  unfold dest_replay. apply twp_bind.
  assert (H : twp env (if (dc_ReplayCmdlineFromPod cfg =? "")%string then mret (inl cfg)
       else path ← fetchCmdlineFromPodLog fuel (dc_ReplayCmdlineFromPod cfg);
         mret match path with
              | inr e => inr (ErrWrap "replay-cmdline-from-pod" e)
              | inl path => inl (set_replay cfg path)
              end) (fun _ => True) (value_ok cfg) t).
  { destruct (_ =? _)%string; [apply twp_ret; by intros ? [= <-]|].
    apply twp_bind. eapply twp_emits; [apply off_fetch| |done]. intros [p|e] t1 _; apply twp_ret; [|done].
    by intros cfg' [= <-]. }
  eapply twp_mono; [exact H|]. intros [cfg1|e] t1 H1; [|by apply twp_ret]. specialize (H1 cfg1 eq_refl).
  cbn beta iota. destruct (dc_ReplayCmdlineFile cfg1 =? "")%string; [apply twp_ret; by intros ? [= <-]|].
  apply twp_bind. eapply twp_emits; [apply off_spawn| |done]. intros [s|e] t2 _; apply twp_ret; [|done].
  by intros cfg' [= <-].
Qed.

(** Combining a fact about the result with a fact about the trace. *)
Lemma twp_and env {A} (m : M A) I (Q Q' : A → list event → Prop) t :
  twp env m I Q t → twp env m I Q' t → twp env m I (fun a t' => Q a t' ∧ Q' a t') t.
Proof. intros H1 H2 w Hw. by apply wp_conj; [apply H1|apply H2]. Qed.

Lemma RunDestination_queue env fuel cfg t :
  let netns := dc_TapNetns cfg in
  let iface := dc_TapIface cfg in
  mon (qstep netns iface) QAbsent t = QAbsent → ordered (resume_ok netns iface) t →
  twp env (RunDestination fuel cfg) (fun _ => True) (fun _ t' =>
    mon (qstep netns iface) QAbsent t' ≠ QBlock ∧ ordered (resume_ok netns iface) t') t.
Proof.
  intros netns iface Hq Hg. unfold RunDestination. apply twp_bind.
  eapply twp_mono.
  { apply twp_and; [apply dest_resolve_same|].
    apply (twp_quiet netns iface env _ (fun _ t' => mon (qstep netns iface) QAbsent t' = QAbsent ∧
      ordered (resume_ok netns iface) t')); [apply aside_quiet, off_resolve|done|]. intros a t1 H1 Hg1.
    by rewrite H1. }
  intros [cfg1|e] t1 [Hv [H1 Hg1]]; [|apply twp_ret; by rewrite H1].
  destruct (Hv cfg1 eq_refl) as (Ha1 & Hb1 & _). apply twp_bind. eapply twp_mono.
  { apply twp_and; [apply dest_replay_same|].
    apply (twp_quiet netns iface env _ (fun _ t' => mon (qstep netns iface) QAbsent t' = QAbsent ∧
      ordered (resume_ok netns iface) t')); [apply aside_quiet, off_replay|done|]. intros a t2 H2 Hg2.
    by rewrite H2. }
  intros [cfg2|e] t2 [Hv2 [H2 Hg2]]; [|apply twp_ret; by rewrite H2].
  destruct (Hv2 cfg2 eq_refl) as (Ha2 & Hb2 & _).
  assert (Hi : dc_TapIface cfg2 = iface) by (unfold iface; congruence).
  assert (Hn : dc_TapNetns cfg2 = netns) by (unfold netns; congruence).
  destruct (dest_check cfg2); [apply twp_ret; by rewrite H2|].
  apply twp_bind. eapply twp_mono; [by apply (plug_install_queue netns iface)|].
  intros [q|e] t3 [Hg3 H3]; [|by apply twp_ret].
  apply twp_bind. eapply (twp_quiet netns iface);
    [apply aside_quiet; by apply emits_NewClient|done|].
  intros err t4 H4 Hg4. apply twp_bind. rewrite H3 in H4.
  assert (Hend : ∀ (r : option error * bool) t5, ordered (resume_ok netns iface) t5 →
    (r.2 = false → mon (qstep netns iface) QAbsent t5 ≠ QBlock) →
    twp env ((if (r.2 : bool)
              then _ ← runCmdInNetns CtxCleanup (dc_TapNetns cfg2) (qdisc_del (dc_TapIface cfg2)); mret tt
              else mret tt);; mret r.1) (fun _ => True) (fun _ t' =>
      mon (qstep netns iface) QAbsent t' ≠ QBlock ∧ ordered (resume_ok netns iface) t') t5).
  { intros r t5 Hg5 H5. rewrite Hi, Hn. apply twp_bind. destruct r.2.
    - apply twp_bind, twp_runCmdInNetns. fold (q_del netns iface). intros d. apply twp_ret, twp_ret.
      split; [|by apply good_cmd]. rewrite mon_snoc, qstep_del.
      destruct d; [|done]. simpl. by destruct (decide _).
    - apply twp_ret, twp_ret. auto. }
  destruct err as [e|]; [apply twp_ret, Hend; [done|]; simpl; intros ->; by rewrite H4|].
  apply twp_bind. eapply twp_mono; [by apply (dest_connected_queue netns iface)|].
  intros r t5 [Hg5 H5]. apply twp_bind.
  eapply (twp_quiet netns iface); [apply aside_quiet; by apply emits_Close|done|].
  intros _ t6 H6 Hg6. apply twp_ret, Hend; [done|]. by rewrite H6.
Qed.

(** ** The NBD server *)

(** Whether the server has been started and not yet been told to stop. *)
Definition nbd_step (s : bool) (ev : event) : bool :=
  match ev with
  | EvExec _ (NBDServerStartArgs _ _ _) (inl _) => true
  | EvExec c NoArgs _ => if (c =? "nbd-server-stop")%string then false else s
  | _ => s
  end.

Abbreviation nbd := (mon nbd_step false).

Definition ev_off_nbd (ev : event) : Prop :=
  match ev with
  | EvExec c NoArgs _ => c = "query-status"
  | EvExec _ (NBDServerStartArgs _ _ _) _ => False
  | _ => True
  end.

Lemma off_nbd {A} (m : M A) : emits ev_off_nbd m → emits (neutral nbd_step) m.
Proof.
  apply emits_mono. intros ev Hev s. destruct ev as [| |c [] []| | | | | | | | | | |]; try done;
    simpl in *; by subst c.
Qed.

(** Programs that execute no QMP command. *)
Definition ev_no_exec (ev : event) : Prop := match ev with EvExec _ _ _ => False | _ => True end.

Lemma no_exec_nbd {A} (m : M A) : emits ev_no_exec m → emits (neutral nbd_step) m.
Proof. intros H. apply off_nbd. eapply emits_mono; [|exact H]. by intros []. Qed.

Lemma twp_nbd env {A} (m : M A) (Q : A → list event → Prop) t :
  emits (neutral nbd_step) m → (∀ a t1, nbd (t ++ t1) = nbd t → Q a (t ++ t1)) →
  twp env m (fun _ => True) Q t.
Proof. apply twp_neutral. Qed.

Lemma emits_runCmdInNetns (P : event → Prop) ctx netns argv :
  (∀ a r, P (EvCmd a r)) → emits P (runCmdInNetns ctx netns argv).
Proof. intros HP. unfold runCmdInNetns. emits_calls. Qed.

Ltac calls :=
  repeat first
    [ progress emits_calls
    | lazymatch goal with
      | |- always _ (waitForSocket _ _ _ _) => apply emits_waitForSocket
      | |- always _ (spawnDetachedProcess _ _) => apply emits_spawnDetached; intros ?
      | |- always _ (LookupPodIP _ _ _) => apply emits_LookupPodIP
      | |- always _ (runCmdInNetns _ _ _) => apply emits_runCmdInNetns; intros ? ?
      | |- always _ (resolveSandbox _ _) => apply emits_silent, silent_resolveSandbox
      end ].

Lemma no_exec_newPodLogClient ref : emits ev_no_exec (newPodLogClient ref).
Proof. unfold newPodLogClient, resolveAPIServerHostPort, Getenv. calls. Qed.

Lemma no_exec_scan ep ms : emits ev_no_exec (scanPodLogMarkers ep ms).
Proof. unfold scanPodLogMarkers, HttpGet. calls. Qed.

Lemma no_exec_resolve cfg : emits ev_no_exec (dest_resolve cfg).
Proof. unfold dest_resolve. calls. Qed.

Lemma no_exec_replay fuel cfg : emits ev_no_exec (dest_replay fuel cfg).
Proof.
  assert (Hl : ∀ ep, emits ev_no_exec (fetch_loop fuel ep)).
  { intros ep. induction fuel as [|n IH]; cbn [fetch_loop]; unfold writeCmdlineTempFile;
      repeat first [apply no_exec_scan | progress calls]. }
  assert (Hs : ∀ cfg, emits ev_no_exec (spawnReplayedQEMU fuel CtxCaller cfg)).
  { intros c. unfold spawnReplayedQEMU, readCmdlineFile, replay_nvdimm, copyNvdimmImage, spawn_with_args,
      setupTapIface, startVirtiofsd. calls. }
  unfold dest_replay, fetchCmdlineFromPodLog.
  repeat first [apply no_exec_newPodLogClient | apply Hs | progress calls].
Qed.

Lemma no_exec_plug cfg : emits ev_no_exec (plug_install cfg).
Proof. unfold plug_install. calls. Qed.

Lemma off_nbd_meta fuel cfg : emits ev_off_nbd (writeMigrationMeta fuel cfg).
Proof.
  assert (Hs : ∀ es, emits ev_off_nbd (find_persist es)).
  { intros es. induction es as [|e es IH]; cbn [find_persist]; calls. }
  assert (Hp : emits ev_off_nbd findAnyPersistJSON) by (unfold findAnyPersistJSON; calls).
  assert (Hc : ∀ ref, emits ev_off_nbd (newPodLogClient ref)).
  { intros ref. eapply emits_mono; [|apply no_exec_newPodLogClient]. by intros []. }
  assert (Hm : ∀ ep ms, emits ev_off_nbd (scanPodLogMarkers ep ms)).
  { intros ep ms. eapply emits_mono; [|apply no_exec_scan]. by intros []. }
  unfold writeMigrationMeta, meta_config, fetchVMConfigFromPodLog, decode_marker.
  repeat first [apply Hp | apply Hc | apply Hm | progress calls].
Qed.

Lemma off_nbd_survive s : emits ev_off_nbd (surviveContainerExit s).
Proof.
  assert (Hm : ∀ p q es, emits ev_off_nbd (move_threads p q es)).
  { intros p q es. induction es as [|e es IH]; cbn [move_threads]; calls. }
  unfold surviveContainerExit, moveKVMHelperThreads. calls.
Qed.

Lemma dest_finish_nbd env fuel cfg t :
  twp env (dest_finish fuel cfg) (fun _ => True)
    (fun _ t' => nbd t' = if dc_SharedStorage cfg then nbd t else false) t.
Proof.
  assert (Hrest : ∀ t1, nbd t1 = (if dc_SharedStorage cfg then nbd t else false) →
    twp env (r ← Execute fuel CtxCleanup "announce-self" (AnnounceSelfArgs garpInitialMS garpMaxMS garpRounds garpStepMS);
      match r with
      | inr e => mret (Some (ErrWrap "GARP announce-self failed" e))
      | inl _ => writeMigrationMeta fuel cfg;; surviveContainerExit (dc_QMPSocket cfg);; mret None
      end) (fun _ => True) (fun _ t' => nbd t' = if dc_SharedStorage cfg then nbd t else false) t1).
  { intros t1 H1. apply twp_nbd; [|by intros a t2 ->].
    apply off_nbd. repeat first [apply off_nbd_meta | apply off_nbd_survive | progress calls]. }
  unfold dest_finish. apply twp_bind, twp_when; intros Hs.
  - apply twp_bind, twp_Execute; [|done]. intros r. apply twp_ret, Hrest.
    apply negb_true_iff in Hs. by rewrite Hs, mon_snoc.
  - apply Hrest. apply negb_false_iff in Hs. by rewrite Hs.
Qed.

Lemma dest_resume_nbd env fuel cfg q t :
  twp env (dest_resume fuel cfg q) (fun _ => True)
    (fun r t' => nbd t' = if r.2 && negb (dc_SharedStorage cfg) then false else nbd t) t.
Proof.
  unfold dest_resume. apply twp_bind, twp_nbd; [apply no_exec_nbd; destruct q; calls|].
  intros [e|] t1 H1; [by apply twp_ret|].
  apply twp_bind, twp_nbd; [apply no_exec_nbd; calls|].
  intros [e|] t2 H2; [apply twp_ret; by rewrite H2|].
  apply twp_bind, twp_nbd; [apply no_exec_nbd; destruct q; calls|].
  intros [e|] t3 H3; [apply twp_ret; by rewrite H3, H2|].
  apply twp_bind. eapply twp_mono; [apply dest_finish_nbd|]. intros r t4 H4. apply twp_ret. simpl.
  rewrite H4, H3, H2, H1. by destruct (dc_SharedStorage cfg).
Qed.

Lemma dest_connected_nbd env fuel cfg q t :
  nbd t = false →
  twp env (dest_connected fuel cfg q) (fun _ => True) (fun _ t' => nbd t' = false) t.
Proof.
  intros H0. unfold dest_connected. apply twp_bind, twp_nbd; [apply off_nbd; unfold open_incoming; calls|].
  intros [e|] t1 H1; [apply twp_ret; by rewrite H1|].
  destruct (dc_SharedStorage cfg) eqn:Hs.
  { apply twp_bind. eapply twp_mono; [apply dest_resume_nbd|]. intros r t2 H2. apply twp_ret.
    rewrite H2, H1, Hs, andb_false_r. done. }
  apply twp_bind, twp_Execute; [|done]. intros r1. apply twp_bind, twp_Execute; [|done].
  intros [raw|e]; [|apply twp_ret; by rewrite !mon_snoc].
  apply twp_bind, twp_nbd.
  { apply off_nbd. generalize (dc_DriveIDs cfg). intros ds.
    induction ds as [|d ds IH]; cbn [forM_err]; unfold add_export; calls. }
  intros err t2 _. apply twp_bind.
  assert (Hend : ∀ (r : option error * bool * bool) t3, (r.2 = true → nbd t3 = false) →
    twp env (when (negb r.2) (stop_nbd fuel);; mret (r.1.1, r.1.2)) (fun _ => True)
      (fun _ t' => nbd t' = false) t3).
  { intros r t3 H3. apply twp_bind, twp_when; intros Hr.
    - unfold stop_nbd. apply twp_bind, twp_Execute; [|done]. intros r2. apply twp_ret, twp_ret. by rewrite mon_snoc.
    - apply negb_false_iff in Hr. apply twp_ret. auto. }
  destruct err as [e|]; [by apply twp_ret, Hend|].
  eapply twp_mono; [apply dest_resume_nbd|]. intros r t3 H3. apply Hend. intros Hr.
  by rewrite H3, Hs, Hr.
Qed.

Lemma RunDestination_nbd env fuel cfg t :
  nbd t = false → twp env (RunDestination fuel cfg) (fun _ => True) (fun _ t' => nbd t' = false) t.
Proof.
  intros H0. unfold RunDestination. apply twp_bind, twp_nbd; [apply no_exec_nbd, no_exec_resolve|].
  intros [cfg1|e] t1 H1; [|apply twp_ret; by rewrite H1].
  apply twp_bind, twp_nbd; [apply no_exec_nbd, no_exec_replay|].
  intros [cfg2|e] t2 H2; [|apply twp_ret; by rewrite H2, H1].
  destruct (dest_check cfg2); [apply twp_ret; by rewrite H2, H1|].
  apply twp_bind, twp_nbd; [apply no_exec_nbd, no_exec_plug|].
  intros [q|e] t3 H3; [|apply twp_ret; by rewrite H3, H2, H1].
  apply twp_bind, twp_nbd; [apply no_exec_nbd; by apply emits_NewClient|].
  intros err t4 H4. apply twp_bind.
  assert (Hend : ∀ (r : option error * bool) t5, nbd t5 = false →
    twp env ((if (r.2 : bool)
              then _ ← runCmdInNetns CtxCleanup (dc_TapNetns cfg2) (qdisc_del (dc_TapIface cfg2)); mret tt
              else mret tt);; mret r.1) (fun _ => True) (fun _ t' => nbd t' = false) t5).
  { intros r t5 H5. apply twp_nbd; [apply no_exec_nbd; destruct r.2; calls|]. by intros a t6 ->. }
  destruct err as [e|]; [apply twp_ret, Hend; by rewrite H4, H3, H2, H1|].
  apply twp_bind. eapply twp_mono; [apply dest_connected_nbd; by rewrite H4, H3, H2, H1|].
  intros r t5 H5. apply twp_bind, twp_nbd; [apply no_exec_nbd; by apply emits_Close|].
  intros _ t6 H6. apply twp_ret, Hend. by rewrite H6.
Qed.

(** ** Properties *)

(** An example node: RESUME arrives, every command and reply succeeds. *)
Definition dst_decode (l : string) : response + error :=
  if (l =? "RESUME")%string then inl (Response None None "RESUME") else src_decode l.

Definition dst_env (special : list (nat * string)) : Env := {|
  e_dial := e_dial env0; e_read := src_read special; e_write := e_write env0;
  e_setdeadline := e_setdeadline env0; e_close := e_close env0; e_ctx := e_ctx env0;
  e_deadline := e_deadline env0;
  e_select := e_select env0; e_now := e_now env0; e_cmd := e_cmd env0;
  e_cmd_out := e_cmd_out env0; e_spawn := e_spawn env0; e_rand := e_rand env0;
  e_readdir := e_readdir env0; e_readfile := e_readfile env0;
  e_writefile := e_writefile env0; e_mkdir := e_mkdir env0; e_issocket := e_issocket env0;
  e_tempfile := e_tempfile env0; e_open := e_open env0; e_isregular := e_isregular env0;
  e_copy := e_copy env0; e_fileop := e_fileop env0; e_getpid := e_getpid env0;
  e_output := e_output env0; e_getenv := e_getenv env0; e_http := e_http env0;
  e_icmp_listen := e_icmp_listen env0; e_icmp_send := e_icmp_send env0;
  e_icmp_recv := e_icmp_recv env0; e_icmp_rtt := e_icmp_rtt env0;
  e_dec_response := dst_decode; e_dec_migrate := e_dec_migrate env0;
  e_dec_jobs := e_dec_jobs env0; e_dec_persist := e_dec_persist env0;
  e_dec_podip := e_dec_podip env0; e_pem_ok := e_pem_ok env0;
  e_enc_vmconfig := e_enc_vmconfig env0; e_enc_meta := e_enc_meta env0;
  e_base64 := e_base64 env0; e_unbase64 := e_unbase64 env0 |}.

Definition dst_cfg : DestConfig :=
  MkDestConfig "/run/vc/vm/x/qmp.sock" "tap0_kata" "/proc/42/ns/net" ["a"] false 4 "" "" "" "" "" "" "".

(** The migration succeeds: RESUME is the 54th request. *)
Definition dst_ok_env : Env := dst_env [(54%nat, "RESUME")].

Example dst_run : (RunDestination 40 dst_cfg dst_ok_env world0).1 = Done None.
Proof. vm_compute. reflexivity. Qed.

(** C2. The guest's network is never left blocked: whenever [RunDestination]
    returns, on success or on any error, the plug qdisc it installed is passing
    packets or gone, unless deleting a buffering qdisc was attempted and
    failed. *)
Theorem RunDestination_unplugs fuel cfg env w r w' :
  w_trace w = [] → RunDestination fuel cfg env w = (Done r, w') →
  mon (qstep (dc_TapNetns cfg) (dc_TapIface cfg)) QAbsent (w_trace w') ≠ QBlock.
Proof.
  intros Hw Hrun. pose proof (RunDestination_queue env fuel cfg [] eq_refl (ordered_nil _)) as H.
  by destruct (twp_run env _ _ _ _ w r w' H Hw Hrun).
Qed.

Lemma RunDestination_unplugs_witness :
  mon (qstep "/proc/42/ns/net" "tap0_kata") QAbsent
    (w_trace (RunDestination 40 dst_cfg dst_ok_env world0).2) ≠ QBlock.
Proof.
  apply (RunDestination_unplugs 40 dst_cfg dst_ok_env world0 None); [reflexivity|].
  apply run_result. vm_compute. reflexivity.
Defined.

(** C3. No packet passes during the switch-over: the destination waits for the
    RESUME event only after its queue has started to buffer, so that the flush
    comes after the VM runs (when it has a queue at all). *)
Theorem RunDestination_buffers_until_resume fuel cfg env w r w' :
  w_trace w = [] → RunDestination fuel cfg env w = (Done r, w') →
  ∀ pre res post, w_trace w' = pre ++ EvWait "RESUME" res :: post →
    mon (qstep (dc_TapNetns cfg) (dc_TapIface cfg)) QAbsent pre = QBlock ∨
    mon (qstep (dc_TapNetns cfg) (dc_TapIface cfg)) QAbsent pre = QAbsent.
Proof.
  intros Hw Hrun. pose proof (RunDestination_queue env fuel cfg [] eq_refl (ordered_nil _)) as H.
  destruct (twp_run env _ _ _ _ w r w' H Hw Hrun) as [_ Ho]. intros pre res post Heq.
  exact (Ho _ _ _ Heq eq_refl).
Qed.

Lemma RunDestination_buffers_until_resume_witness :
  let pre := take 12 (w_trace (RunDestination 40 dst_cfg dst_ok_env world0).2) in
  mon (qstep "/proc/42/ns/net" "tap0_kata") QAbsent pre = QBlock ∨
  mon (qstep "/proc/42/ns/net" "tap0_kata") QAbsent pre = QAbsent.
Proof.
  set (t := w_trace (RunDestination 40 dst_cfg dst_ok_env world0).2).
  apply (RunDestination_buffers_until_resume 40 dst_cfg dst_ok_env world0 None
           (RunDestination 40 dst_cfg dst_ok_env world0).2 eq_refl) with (res := None) (post := drop 13 t).
  - apply run_result. vm_compute. reflexivity.
  - vm_compute. reflexivity.
Defined.

(** The NBD server never outlives [RunDestination]: whenever it returns, an
    nbd-server-stop has been sent after every successful nbd-server-start. *)
Theorem RunDestination_stops_nbd fuel cfg env w r w' :
  w_trace w = [] → RunDestination fuel cfg env w = (Done r, w') →
  mon nbd_step false (w_trace w') = false.
Proof.
  intros Hw Hrun.
  exact (twp_run env _ _ _ _ w r w' (RunDestination_nbd env fuel cfg [] eq_refl) Hw Hrun).
Qed.

Lemma RunDestination_stops_nbd_witness :
  mon nbd_step false (w_trace (RunDestination 40 dst_cfg dst_ok_env world0).2) = false.
Proof.
  apply (RunDestination_stops_nbd 40 dst_cfg dst_ok_env world0 None); [reflexivity|].
  apply run_result. vm_compute. reflexivity.
Defined.

(** Both ends configure the same capabilities. *)
Lemma caps_agree n : dest_caps n = source_caps n.
Proof. done. Qed.
