(* ===== verification/OrchTypes.v ===== *)
(** * Requests, phases and Jobs of the orchestrator

    The data of internal/orchestrator: types.go, orchestrator.go, id.go and
    cmdline.go.  The parts of a Kubernetes Job the code reads or writes are
    records here; the rest of the object is not represented. *)
From S2P Require Import Prelude GoErrors GoStrings Tunnel.

Abbreviation MigrationID := string (only parsing).

Record PodRef := MkPodRef { pr_Namespace : string; pr_Name : string }.

#[global] Instance PodRef_eq_dec : EqDecision PodRef.
Proof. solve_decision. Defined.

(** corev1.Toleration, only ever copied. *)
Record Toleration := MkToleration {
  tol_key : string; tol_operator : string; tol_value : string; tol_effect : string;
  tol_seconds : option Z }.

Record Request := MkRequest {
  rq_SourceNode : string;
  rq_DestNode : string;
  rq_DestNodeSelector : gmap string string;
  rq_DestTolerations : list Toleration;
  rq_SourcePod : option PodRef;
  rq_SourceQMP : string;
  rq_VMIP : string;
  rq_DestPod : option PodRef;
  rq_DestQMP : string;
  rq_DestIP : string;
  rq_Image : string;
  rq_SharedStorage : bool;
  rq_ReplayCmdline : bool;
  rq_TunnelMode : string;
  rq_DowntimeMS : Z;
  rq_AutoDowntime : bool;
  rq_AutoDowntimeFloorMS : Z;
  rq_CNIConvergenceDelaySeconds : Z;
  rq_MultifdChannels : Z;
  rq_PodWaitTimeoutSeconds : Z;
  rq_SourceCleanup : string;
  rq_AdoptVM : bool;
  rq_TapIface : string;
  rq_TapNetns : string;
  rq_LogLevel : string;
  rq_LogFormat : string;
  rq_KubectlContext : string }.

(** ** Phases *)

Abbreviation StatusPhase := string (only parsing).
Definition PhaseSubmitted : StatusPhase := "submitted".
Definition PhaseDestStarting : StatusPhase := "dest-starting".
Definition PhaseSrcStarting : StatusPhase := "src-starting".
Definition PhaseTransferring : StatusPhase := "transferring".
Definition PhaseCutover : StatusPhase := "cutover".
Definition PhaseSucceeded : StatusPhase := "succeeded".
Definition PhaseFailed : StatusPhase := "failed".

Definition IsTerminal (p : StatusPhase) : bool :=
  (p =? PhaseSucceeded)%string || (p =? PhaseFailed)%string.

(** The time of the observation is left out: the orchestrator and the controller
    never read it, and the dashboard's model pairs it with the update. *)
Record StatusUpdate := MkUpdate {
  su_ID : MigrationID;
  su_Phase : StatusPhase;
  su_Message : string;
  su_Error : option error;
  su_RAMTransferred : Z;
  su_RAMTotal : Z;
  su_DowntimeMS : Z;
  su_AppliedDowntimeMS : Z;
  su_RTTMS : Z;
  su_AutoDowntime : bool }.

#[global] Instance StatusUpdate_eq_dec : EqDecision StatusUpdate.
Proof. solve_decision. Defined.

(** A [StatusUpdate] literal that sets only these fields. *)
Definition update_of (id : MigrationID) (ph : StatusPhase) (msg : string) (e : option error) : StatusUpdate :=
  MkUpdate id ph msg e 0 0 0 0 0 false.

(** ** Names *)

Definition SourceJobName (id : MigrationID) : string := "katamaran-source-" +:+ id.
Definition DestJobName (id : MigrationID) : string := "katamaran-dest-" +:+ id.

Definition DefaultJobNamespace : string := "kube-system".
Definition MigrationIDLabel : string := "katamaran.io/migration-id".

(** [newID] from the eight random bytes; the source panics when there are none. *)
Definition newID (b : list Z) : MigrationID := hex_encode b.

Definition cmdlineHostDir : string := "/tmp/katamaran-cmdlines".
Definition cmdlinePathFor (id : MigrationID) : string :=
  cmdlineHostDir +:+ "/cmdline-" +:+ id +:+ ".txt".

(** ** Jobs and their conditions *)

Definition ConditionTrue : string := "True".
Definition JobComplete : string := "Complete".
Definition JobFailed : string := "Failed".

Record JobCondition := MkCond {
  jc_Type : string;
  jc_Status : string;
  jc_LastTransitionTime : Z;
  jc_Reason : string;
  jc_Message : string }.

#[global] Instance JobCondition_eq_dec : EqDecision JobCondition.
Proof. solve_decision. Defined.

Record JobStatus := MkJobStatus {
  jst_Conditions : list JobCondition;
  jst_Active : Z;
  jst_Ready : option Z }.

Definition is_terminal_cond (c : JobCondition) : bool :=
  (jc_Status c =? ConditionTrue)%string &&
  ((jc_Type c =? JobComplete)%string || (jc_Type c =? JobFailed)%string).

(** One round of the loop: keep [c] unless it is strictly older. *)
Definition latest_step (latest : option JobCondition) (c : JobCondition) : option JobCondition :=
  if negb (is_terminal_cond c) then latest
  else
    match latest with
    | None => Some c
    | Some l => if jc_LastTransitionTime c <? jc_LastTransitionTime l then latest else Some c
    end.

Definition LatestTerminalJobCondition (job : JobStatus) : option JobCondition :=
  fold_left latest_step (jst_Conditions job) None.

Definition TerminalJobCondition (job : JobStatus) : string :=
  match LatestTerminalJobCondition job with
  | None => ""
  | Some c => jc_Type c
  end.

(** [jobFailedError]. *)
Definition cond_details (cond : JobCondition) : list string :=
  (if (jc_Reason cond =? "")%string then [] else ["reason=" +:+ jc_Reason cond]) ++
  (if (jc_Message cond =? "")%string then [] else ["message=" +:+ jc_Message cond]).

Definition jobFailedError (base : string) (cond : JobCondition) : error :=
  match cond_details cond with
  | [] => ErrNew base
  | details => ErrNew (base +:+ ": " +:+ Join " " details)
  end.

(** ** Facts *)

(** The condition found is terminal, no terminal condition is younger, and
    those after it in the list are strictly older. *)
Lemma latest_fold cs acc c :
  (∀ a, acc = Some a → is_terminal_cond a = true) →
  fold_left latest_step cs acc = Some c →
  is_terminal_cond c = true ∧
  (∀ d, d ∈ cs → is_terminal_cond d = true → jc_LastTransitionTime d ≤ jc_LastTransitionTime c) ∧
  (∀ a, acc = Some a → jc_LastTransitionTime a ≤ jc_LastTransitionTime c) ∧
  (acc = Some c ∨ c ∈ cs).
Proof.
  revert acc. induction cs as [|x cs IH]; intros acc Hacc H; cbn [fold_left] in H.
  { subst acc. split; [auto|]. repeat split; [by intros d ?%elem_of_nil|intros a [= ->]; lia|by left]. }
  destruct (IH (latest_step acc x)) as (Ht & Hd & Ha & Hc); [|exact H|].
  - intros a. unfold latest_step. destruct (is_terminal_cond x) eqn:E; simpl; [|apply Hacc].
    destruct acc as [l|]; [case_match; [apply Hacc|]|]; by intros [= <-].
  - assert (Hx : ∀ a, acc = Some a ∨ (a = x ∧ is_terminal_cond x = true) →
              jc_LastTransitionTime a ≤ jc_LastTransitionTime c).
    { intros a Ha'. unfold latest_step in Ha.
      destruct (is_terminal_cond x) eqn:E; simpl in Ha; [|destruct Ha' as [->|[_ [=]]]; by apply Ha].
      destruct acc as [l|].
      - destruct (Z.ltb_spec (jc_LastTransitionTime x) (jc_LastTransitionTime l));
          destruct Ha' as [[= ->]|[-> _]]; specialize (Ha _ eq_refl); lia.
      - destruct Ha' as [[=]|[-> _]]. by apply Ha. }
    split; [done|]. repeat split.
    + intros d [->|Hin]%elem_of_cons Hd'; [by apply Hx; right|by apply Hd].
    + intros a Ha'. apply Hx. by left.
    + destruct Hc as [Hc|Hc]; [|right; by right].
      unfold latest_step in Hc. repeat case_match; simplify_eq; auto; right; by left.
Qed.

Lemma latest_fold_None cs acc :
  fold_left latest_step cs acc = None →
  acc = None ∧ Forall (fun d => is_terminal_cond d = false) cs.
Proof.
  revert acc. induction cs as [|x cs IH]; intros acc H; [by split|]. simpl in H.
  apply IH in H as [H1 H2]. unfold latest_step in H1.
  destruct (is_terminal_cond x) eqn:E; simpl in H1; [repeat case_match; discriminate|].
  split; [done|]. by constructor.
Qed.

Lemma LatestTerminalJobCondition_Some job c :
  LatestTerminalJobCondition job = Some c →
  c ∈ jst_Conditions job ∧ jc_Status c = ConditionTrue ∧ (jc_Type c = JobComplete ∨ jc_Type c = JobFailed) ∧
  ∀ d, d ∈ jst_Conditions job → is_terminal_cond d = true → jc_LastTransitionTime d ≤ jc_LastTransitionTime c.
Proof.
  intros H. apply latest_fold in H as (Ht & Hd & _ & Hc); [|done].
  destruct Hc as [[=]|Hc]. unfold is_terminal_cond in Ht.
  apply andb_true_iff in Ht as [Hs Ht]. apply orb_true_iff in Ht.
  rewrite !String.eqb_eq in *. auto.
Qed.

Lemma LatestTerminalJobCondition_None job :
  LatestTerminalJobCondition job = None → Forall (fun d => is_terminal_cond d = false) (jst_Conditions job).
Proof. intros H. by apply latest_fold_None in H as [_ ?]. Qed.

#[export] Hint Resolve LatestTerminalJobCondition_None : go_lib.
