(* ===== verification/OrchValidate.v ===== *)
(** * Request validation (internal/orchestrator/validation.go)

    A rune outside ASCII is encoded by bytes of 128 and more, so ranging over
    the bytes instead of the runes of a value accepts the same values.
    [ToLower] maps ASCII letters only; a value with any other letter fails the
    later character check, so acceptance does not depend on it. *)
From S2P Require Import Prelude GoErrors GoStrings Netip OrchTypes.

Definition MaxSafeArgValueLen : Z := 512.

Definition safe_char (c : ascii) : bool :=
  is_lower c || is_upper c || is_digit c || char_in c "_./:@=-".

Definition ValidateSafeArgValue (field value : string) : option error :=
  if (value =? "")%string then None
  else if slen value >? MaxSafeArgValueLen then Some (ErrNew (field +:+ " is too long"))
  else if Contains value ".." then Some (ErrNew (field +:+ " contains invalid path traversal"))
  else if forallb_str safe_char value then None
  else Some (ErrNew (field +:+ " contains invalid characters")).

Definition pod_fields (name : string) (p : option PodRef) : list (string * string) :=
  match p with
  | None => []
  | Some p => [(name +:+ ".Namespace", pr_Namespace p); (name +:+ ".Name", pr_Name p)]
  end.

Definition request_fields (req : Request) : list (string * string) :=
  [("SourceNode", rq_SourceNode req); ("DestNode", rq_DestNode req); ("SourceQMP", rq_SourceQMP req);
   ("VMIP", rq_VMIP req); ("DestQMP", rq_DestQMP req); ("DestIP", rq_DestIP req); ("Image", rq_Image req);
   ("TunnelMode", rq_TunnelMode req); ("TapIface", rq_TapIface req); ("TapNetns", rq_TapNetns req);
   ("LogLevel", rq_LogLevel req); ("LogFormat", rq_LogFormat req);
   ("KubectlContext", rq_KubectlContext req)] ++
  pod_fields "SourcePod" (rq_SourcePod req) ++ pod_fields "DestPod" (rq_DestPod req).

Fixpoint validate_fields (fields : list (string * string)) : option error :=
  match fields with
  | [] => None
  | (name, value) :: fields =>
      match ValidateSafeArgValue name value with
      | Some e => Some e
      | None => validate_fields fields
      end
  end.

Definition validateRequestArgValues (req : Request) : option error := validate_fields (request_fields req).

(** The first of the checks that fails, in order. *)
Fixpoint first_failed (checks : list (bool * string)) : option error :=
  match checks with
  | [] => None
  | (bad, msg) :: checks => if (bad : bool) then Some (ErrNew msg) else first_failed checks
  end.

Definition is_empty (s : string) : bool := (s =? "")%string.
Definition one_of (s : string) (l : list string) : bool := existsb (String.eqb s) l.

Definition pod_incomplete (p : option PodRef) : bool :=
  match p with
  | None => false
  | Some p => is_empty (pr_Name p) || is_empty (pr_Namespace p)
  end.

(** The tests of [Validate] up to [validateRequestArgValues]. *)
Definition request_checks (req : Request) : list (bool * string) :=
  [(is_empty (rq_SourceNode req), "sourceNode is required");
   (is_empty (rq_DestNode req) && is_nil (rq_SourcePod req), "destNode is required when sourcePod is not set");
   (negb (is_empty (rq_DestNode req)) && (rq_SourceNode req =? rq_DestNode req)%string,
    "sourceNode and destNode must differ");
   (negb (is_empty (rq_DestNode req)) && is_empty (rq_DestIP req), "destIP is required");
   (is_empty (rq_Image req), "image is required");
   (is_nil (rq_SourcePod req) && (is_empty (rq_SourceQMP req) || is_empty (rq_VMIP req)),
    "either SourcePod or (SourceQMP + VMIP) is required");
   (pod_incomplete (rq_SourcePod req), "sourcePod requires both Name and Namespace");
   (pod_incomplete (rq_DestPod req), "destPod requires both Name and Namespace");
   (negb (one_of (ToLower (rq_TunnelMode req)) [""; "ipip"; "gre"; "none"]),
    "tunnelMode must be one of ipip, gre, or none");
   ((rq_DowntimeMS req <? 0) || (rq_DowntimeMS req >? 60000), "downtimeMS must be between 0 and 60000");
   (rq_MultifdChannels req <? 0, "multifdChannels must be non-negative");
   (rq_AutoDowntimeFloorMS req <? 0, "autoDowntimeFloorMS must be non-negative");
   (rq_CNIConvergenceDelaySeconds req <? 0, "cniConvergenceDelaySeconds must be non-negative");
   (negb (one_of (ToLower (rq_LogLevel req)) [""; "debug"; "info"; "warn"; "error"]),
    "logLevel must be one of debug, info, warn, or error");
   (negb (one_of (ToLower (rq_LogFormat req)) [""; "text"; "json"]), "logFormat must be one of text or json");
   (rq_PodWaitTimeoutSeconds req <? 0, "podWaitTimeoutSeconds must be non-negative");
   (negb (one_of (rq_SourceCleanup req) [""; "none"; "delete"; "orphan"]),
    "sourceCleanup must be one of none, delete, or orphan")].

Definition ip_ok (s : string) : bool := is_empty s || negb (is_nil (ParseAddr s)).

Definition Validate (req : Request) : option error :=
  match first_failed (request_checks req) with
  | Some e => Some e
  | None =>
      match validateRequestArgValues req with
      | Some e => Some e
      | None =>
          first_failed [(negb (ip_ok (rq_DestIP req)), "destIP is not a valid IP address");
                        (negb (ip_ok (rq_VMIP req)), "vmIP is not a valid IP address")]
      end
  end.

(** ** What an accepted request guarantees *)

(** A value that reaches a command line: short, without "..", and made of
    characters without meaning to a shell. *)
Definition safe_value (v : string) : Prop :=
  slen v ≤ MaxSafeArgValueLen ∧ Contains v ".." = false ∧ forallb_str safe_char v = true.

Lemma ValidateSafeArgValue_None f v : ValidateSafeArgValue f v = None ↔ safe_value v.
Proof.
  unfold ValidateSafeArgValue, safe_value. destruct (String.eqb_spec v "") as [->|Hne].
  { split; [|done]. intros _. split; [vm_compute; discriminate|by split]. }
  destruct (Z.gtb_spec (slen v) MaxSafeArgValueLen); [split; [done|intros (? & _); lia]|].
  destruct (Contains v ".."); [split; [done|by intros (_ & ? & _)]|].
  destruct (forallb_str safe_char v); split; naive_solver.
Qed.

Lemma validate_fields_None fs : validate_fields fs = None ↔ Forall (fun p => safe_value p.2) fs.
Proof.
  induction fs as [|[f v] fs IH]; simpl; [by split|].
  rewrite Forall_cons; simpl. rewrite <- (ValidateSafeArgValue_None f).
  destruct (ValidateSafeArgValue f v); [naive_solver|]. rewrite IH. naive_solver.
Qed.

Lemma first_failed_None cs : first_failed cs = None ↔ Forall (fun p => p.1 = false) cs.
Proof.
  induction cs as [|[b m] cs IH]; simpl; [by split|].
  rewrite Forall_cons; simpl. destruct b; [naive_solver|]. rewrite IH. naive_solver.
Qed.

Lemma Validate_None req :
  Validate req = None →
  Forall (fun p => p.1 = false) (request_checks req) ∧ Forall (fun p => safe_value p.2) (request_fields req) ∧
  ip_ok (rq_DestIP req) = true ∧ ip_ok (rq_VMIP req) = true.
Proof.
  unfold Validate. destruct (first_failed (request_checks req)) eqn:E1; [done|].
  destruct (validateRequestArgValues req) eqn:E2; [done|]. intros E3.
  apply first_failed_None in E1, E3. apply validate_fields_None in E2.
  split; [done|]. split; [done|].
  apply Forall_cons in E3 as [Ha E3]. apply Forall_cons in E3 as [Hb _].
  split; apply negb_false_iff; [exact Ha|exact Hb].
Qed.

(** A safe value of at least one character is a single word. *)
Lemma safe_char_not_space c : safe_char c = true → is_space c = false.
Proof. destruct c as [[] [] [] [] [] [] [] []]; vm_compute; congruence. Qed.

Lemma safe_value_word v : safe_value v → v ≠ "" → is_word v = true.
Proof.
  intros (_ & _ & H) Hne. unfold is_word. destruct (String.eqb_spec v "") as [->|]; [done|]. simpl.
  revert H. apply forallb_str_mono. intros c Hc. by rewrite (safe_char_not_space c Hc).
Qed.
