(* ===== verification/OrchArgs.v ===== *)
(** * Job manifests and log markers of the orchestrator

    native_jobs.go, and of native.go [buildExtraArgs], [injectReplayFromPod],
    [parseProgressFields] and the markers of the source pod's log.  The YAML
    decoder is a parameter; of the embedded templates the shell commands of the
    katamaran containers are represented. *)
From S2P Require Import Prelude GoErrors GoStrings Netip QmpTypes Effects Tunnel PodResolve CmdlineFetch.
From S2P Require Import Source.
From S2P Require Import OrchTypes OrchValidate.

(** ** Arguments *)

Definition opt_arg (flag value : string) : list string := if is_empty value then [] else [flag; value].
Definition pod_args (name_flag ns_flag : string) (p : option PodRef) : list string :=
  match p with
  | None => []
  | Some p => [name_flag; pr_Name p; ns_flag; pr_Namespace p]
  end.

(** The slice [args] of [buildExtraArgs]. *)
Definition extra_words (req : Request) : list string :=
  (if rq_SharedStorage req then ["--shared-storage"] else []) ++
  pod_args "--pod-name" "--pod-namespace" (rq_SourcePod req) ++
  pod_args "--dest-pod-name" "--dest-pod-namespace" (rq_DestPod req) ++
  opt_arg "--tap" (rq_TapIface req) ++
  opt_arg "--tap-netns" (rq_TapNetns req) ++
  opt_arg "--tunnel-mode" (rq_TunnelMode req) ++
  (if rq_DowntimeMS req >? 0 then ["--downtime"; Itoa (rq_DowntimeMS req)] else []) ++
  (if rq_AutoDowntime req
   then "--auto-downtime" ::
        (if rq_AutoDowntimeFloorMS req >? 0
         then ["--auto-downtime-floor-ms"; Itoa (rq_AutoDowntimeFloorMS req)] else [])
   else []) ++
  (if rq_CNIConvergenceDelaySeconds req >? 0
   then ["--cni-convergence-delay"; Itoa (rq_CNIConvergenceDelaySeconds req) +:+ "s"] else []) ++
  ["--multifd-channels"; Itoa (rq_MultifdChannels req)] ++
  opt_arg "--log-level" (rq_LogLevel req) ++
  opt_arg "--log-format" (rq_LogFormat req).

Definition buildExtraArgs (req : Request) : string := Join " " (extra_words req).

(** [srcExtra] of [Apply]. *)
Definition source_extra (req : Request) (id : MigrationID) : string :=
  if rq_ReplayCmdline req
  then TrimSpace (buildExtraArgs req +:+ " --emit-cmdline-to " +:+ cmdlinePathFor id)
  else buildExtraArgs req.

(** ** Templates *)

(** [expandShellVars]: an unknown variable expands to nothing. *)
Fixpoint expand_fuel (fuel : nat) (vars : gmap string string) (s : string) : string :=
  match fuel, s with
  | S fuel, String c r =>
      if HasPrefix s "${" then
        match IndexByte (sdrop 2 s) "}" with
        | Some e => default "" (vars !! stake e (sdrop 2 s)) +:+ expand_fuel fuel vars (sdrop (e + 3) s)
        | None => String c (expand_fuel fuel vars r)
        end
      else String c (expand_fuel fuel vars r)
  | _, _ => ""
  end.

Definition expandShellVars (s : string) (vars : gmap string string) : string :=
  expand_fuel (String.length s) vars s.

(** The fields of a Job that the orchestrator sets or reads. *)
Record Container := MkContainer { ct_Name : string; ct_Command : list string }.
Record Job := MkJob {
  job_Name : string;
  job_NodeName : string;
  job_NodeSelector : gmap string string;
  job_Tolerations : list Toleration;
  job_NotIn : option (string * list string);    (* required node affinity: key NotIn values *)
  job_Containers : list Container }.

(** The embedded templates and the decoder of the rendered text. *)
Class Templates := {
  sourceJobTemplate : string;
  destJobTemplate : string;
  decode_job : string → Job + error }.

Definition cmp_Or (a b : string) : string := if is_empty a then b else a.
Definition jobSuffix (id : MigrationID) : string := id.

Definition source_vars (req : Request) (id : MigrationID) (extraArgs : string) : gmap string string :=
  list_to_map
    [("NODE_NAME", rq_SourceNode req); ("IMAGE", rq_Image req);
     ("QMP_SOCKET", cmp_Or (rq_SourceQMP req) "/run/vc/vm/extra-monitor.sock");
     ("DEST_IP", rq_DestIP req); ("VM_IP", rq_VMIP req); ("EXTRA_ARGS", extraArgs);
     ("KATAMARAN_MIGRATION_ID", id); ("JOB_SUFFIX", jobSuffix id)].

Definition dest_vars (req : Request) (id : MigrationID) (extraArgs : string) : gmap string string :=
  list_to_map
    [("NODE_NAME", rq_DestNode req); ("IMAGE", rq_Image req);
     ("QMP_SOCKET", cmp_Or (rq_DestQMP req) "/run/vc/vm/katamaran-dest/qmp.sock");
     ("EXTRA_ARGS", extraArgs); ("KATAMARAN_MIGRATION_ID", id); ("JOB_SUFFIX", jobSuffix id)].

Definition renderJob `{Templates} (tmpl : string) (vars : gmap string string) : Job + error :=
  match decode_job (expandShellVars tmpl vars) with
  | inl job => inl job
  | inr e => inr (ErrWrap "decode rendered job" e)
  end.

Definition renderSourceJob `{Templates} (req : Request) (id : MigrationID) (extraArgs : string) : Job + error :=
  renderJob sourceJobTemplate (source_vars req id extraArgs).

Definition hostnameKey : string := "kubernetes.io/hostname".

Definition renderDestJob `{Templates} (req : Request) (id : MigrationID) (extraArgs : string) : Job + error :=
  match renderJob destJobTemplate (dest_vars req id extraArgs) with
  | inr e => inr e
  | inl job =>
      inl (if is_empty (rq_DestNode req)
           then MkJob (job_Name job) "" (rq_DestNodeSelector req) (rq_DestTolerations req)
                  (Some (hostnameKey, [rq_SourceNode req])) (job_Containers job)
           else job)
  end.

Definition dq : string := String (ascii_of_nat 34) "".

(** The third element of the katamaran container's command in each template. *)
Definition source_command : string :=
  "/usr/local/bin/katamaran --mode source --dest-ip " +:+ dq +:+ "${DEST_IP}" +:+ dq +:+ " ${EXTRA_ARGS}".
Definition dest_command : string :=
  "mkdir -p " +:+ dq +:+ "$(dirname " +:+ dq +:+ "${QMP_SOCKET}" +:+ dq +:+ ")" +:+ dq
  +:+ " && /usr/local/bin/katamaran --mode dest --qmp " +:+ dq +:+ "${QMP_SOCKET}" +:+ dq +:+ " ${EXTRA_ARGS}".

(** ** [injectReplayFromPod] *)

(** The same expression as [podRefDNSRe]. *)
Definition dns1123LabelRe (s : string) : bool := podRefDNSRe s.

Definition append_last (cmd : list string) (suffix : string) : list string :=
  match last cmd with
  | None => cmd
  | Some l => take (length cmd - 1) cmd ++ [l +:+ suffix]
  end.

Fixpoint inject_containers (cs : list Container) (suffix : string) : list Container + error :=
  match cs with
  | [] => inr (ErrNew "no katamaran container in dest job")
  | c :: cs =>
      if negb (ct_Name c =? "katamaran")%string then
        match inject_containers cs suffix with
        | inl cs => inl (c :: cs)
        | inr e => inr e
        end
      else
        match ct_Command c with
        | [] => inr (ErrNew "katamaran container has empty command")
        | cmd => inl (MkContainer (ct_Name c) (append_last cmd suffix) :: cs)
        end
  end.

Definition bad_label (s : string) : bool := (slen s =? 0) || (slen s >? 253) || negb (dns1123LabelRe s).

Definition injectReplayFromPod (destJob : Job) (ns srcPod : string) : Job + error :=
  match job_Containers destJob with
  | [] => inr (ErrNew "dest job has no containers")
  | cs =>
      if bad_label ns then inr (ErrNew "invalid source pod namespace: must be a DNS-1123 label")
      else if bad_label srcPod then inr (ErrNew "invalid source pod name: must be a DNS-1123 label")
      else
        match inject_containers cs (" --replay-cmdline-from-pod " +:+ ns +:+ "/" +:+ srcPod) with
        | inr e => inr e
        | inl cs =>
            inl (MkJob (job_Name destJob) (job_NodeName destJob) (job_NodeSelector destJob)
                   (job_Tolerations destJob) (job_NotIn destJob) cs)
        end
  end.

(** ** Log markers *)

Definition progressMarker : string := "KATAMARAN_PROGRESS ".
Definition resultMarker : string := "KATAMARAN_RESULT ".
Definition downtimeLimitMarker : string := "KATAMARAN_DOWNTIME_LIMIT ".

Definition add_field (out : gmap string string) (kv : string) : gmap string string :=
  match IndexByte kv "=" with
  | None | Some O => out
  | Some eq => <[stake eq kv := sdrop (S eq) kv]> out
  end.

Definition parseProgressFields (s : string) : gmap string string := fold_left add_field (Fields s) ∅.

Definition parseInt64 (s : string) : Z := (ParseInt s).1.

Definition field (fields : gmap string string) (k : string) : string := default "" (fields !! k).
Definition int_field (fields : gmap string string) (k : string) : Z := parseInt64 (field fields k).

(** What follows the first occurrence of the marker. *)
Definition after_marker (marker line : string) : option string :=
  match Index line marker with
  | None => None
  | Some i => Some (sdrop (i + String.length marker) line)
  end.

(** The three numbers of a result line. *)
Definition parse_result (s : string) : Z * Z * Z :=
  let fields := parseProgressFields s in
  (int_field fields "downtime_ms", int_field fields "ram_transferred", int_field fields "ram_total").

(** ** Facts on the expansion *)

Lemma sdrop_length n s : String.length (sdrop n s) = (String.length s - n)%nat.
Proof. revert n. induction s as [|c s IH]; intros [|n]; simpl; auto. Qed.

Lemma expand_fuel_enough f g vars s :
  (String.length s ≤ f)%nat → (String.length s ≤ g)%nat → expand_fuel f vars s = expand_fuel g vars s.
Proof.
  revert g s. induction f as [|f IH]; intros g [|c r] Hf Hg; simpl in Hf, Hg;
    [by destruct g|lia|by destruct g|]. destruct g as [|g]; [lia|]. cbn [expand_fuel].
  assert (Hr : expand_fuel f vars r = expand_fuel g vars r) by (apply IH; lia). rewrite Hr.
  case_match; [|done]. case_match; [|done]. f_equal.
  apply IH; rewrite sdrop_length; simpl; lia.
Qed.

Lemma expand_plain vars a s :
  no_char "$" a = true → expandShellVars (a +:+ s) vars = a +:+ expandShellVars s vars.
Proof.
  unfold expandShellVars. induction a as [|c a IH]; [done|].
  unfold no_char. cbn [forallb_str]. intros [Hc Ha]%andb_true_iff.
  cbn [String.append String.length expand_fuel].
  assert (HasPrefix (String c (a +:+ s)) "${" = false) as ->.
  { cbn [HasPrefix]. destruct (Ascii.eqb_spec "$" c) as [<-|]; [by vm_compute in Hc|done]. }
  cbn [String.append]. f_equal. by apply IH.
Qed.

Lemma IndexByte_app n c s : no_char c n = true → IndexByte (n +:+ String c s) c = Some (String.length n).
Proof.
  unfold no_char, IndexByte. induction n as [|x n IH]; simpl.
  - by rewrite Ascii.eqb_refl.
  - intros [Hx Hn]%andb_true_iff. rewrite (IH Hn).
    destruct (Ascii.eqb_spec c x) as [<-|]; [by rewrite Ascii.eqb_refl in Hx|done].
Qed.

Lemma expand_var vars n s :
  no_char "}" n = true →
  expandShellVars ("${" +:+ n +:+ "}" +:+ s) vars = default "" (vars !! n) +:+ expandShellVars s vars.
Proof.
  intros Hn. unfold expandShellVars. set (f := String.length _).
  assert (Hf : (String.length s < f)%nat).
  { subst f. cbn [String.append String.length]. rewrite string_app_length. simpl. lia. }
  destruct f as [|f]; [lia|]. cbn [expand_fuel String.append].
  assert (HasPrefix (String "$" (String "{" (n +:+ String "}" s))) "${" = true) as ->
    by apply (HasPrefix_refl "${").
  assert (Hs : sdrop (String.length n + 3) (String "$" (String "{" (n +:+ String "}" s))) = s).
  { rewrite Nat.add_comm. change (String "$" (String "{" (n +:+ String "}" s)))
      with ("${" +:+ (n +:+ String "}" s)). clear. simpl. induction n as [|c n IH]; [done|exact IH]. }
  change (sdrop 2 (String "$" (String "{" (n +:+ String "}" s)))) with (n +:+ String "}" s).
  rewrite IndexByte_app, stake_app, Hs by done. f_equal. apply expand_fuel_enough; lia.
Qed.

Lemma expand_nil vars : expandShellVars "" vars = "".
Proof. done. Qed.

(** ** Words *)

Lemma Join_app a b : a ≠ [] → b ≠ [] → Join " " (a ++ b) = Join " " a +:+ " " +:+ Join " " b.
Proof.
  induction a as [|w a IH]; [done|]. intros _ Hb. destruct a as [|w' a].
  - simpl. by destruct b.
  - change (Join " " ((w :: w' :: a) ++ b)) with (w +:+ " " +:+ Join " " ((w' :: a) ++ b)).
    rewrite IH by done. change (Join " " (w :: w' :: a)) with (w +:+ " " +:+ Join " " (w' :: a)).
    by rewrite <- !string_app_assoc.
Qed.

Lemma TrimRightFunc_app f a w : TrimRightFunc f w = w → w ≠ "" → TrimRightFunc f (a +:+ w) = a +:+ w.
Proof.
  intros Hw Hne. induction a as [|c a IH]; [done|]. cbn [String.append TrimRightFunc]. rewrite IH.
  destruct (a +:+ w) eqn:E; [|done]. destruct a; [|done]. simpl in E. congruence.
Qed.

Lemma is_word_spec w : is_word w = true → w ≠ "" ∧ forallb_str (fun c => negb (is_space c)) w = true.
Proof.
  unfold is_word. intros [H1 H2]%andb_true_iff. split; [|done].
  intros ->. done.
Qed.

(** A list of words joined by spaces has nothing to trim. *)
Lemma TrimSpace_Join ws : ws ≠ [] → Forall (fun w => is_word w = true) ws → TrimSpace (Join " " ws) = Join " " ws.
Proof.
  intros Hne Hws. unfold TrimSpace. assert (Hr : TrimRightFunc is_space (Join " " ws) = Join " " ws).
  { destruct ws as [|w ws _] using rev_ind; [done|]. apply Forall_app in Hws as [_ Hw].
    apply Forall_singleton, is_word_spec in Hw as [Hw1 Hw2].
    destruct ws as [|w' ws]; [by apply TrimRightFunc_id|].
    rewrite Join_app, string_app_assoc by done. apply TrimRightFunc_app; [by apply TrimRightFunc_id|done]. }
  rewrite Hr. destruct ws as [|w ws]; [done|]. apply Forall_cons in Hws as [[Hw1 Hw2]%is_word_spec _].
  destruct w as [|c w]; [done|]. cbn [forallb_str] in Hw2. apply andb_true_iff in Hw2 as [Hc _].
  apply negb_true_iff in Hc. destruct ws; simpl; by rewrite Hc.
Qed.

(** A word that is plain to the shell. *)
Definition plain_word (w : string) : Prop := is_word w = true ∧ forallb_str safe_char w = true.

Lemma plain_safe v : safe_value v → v ≠ "" → plain_word v.
Proof. intros Hv Hne. split; [by apply safe_value_word|by apply Hv]. Qed.

Lemma Itoa_safe z : forallb_str safe_char (Itoa z) = true.
Proof.
  assert (Hd : ∀ s, forallb_str is_digit s = true → forallb_str safe_char s = true).
  { intros s. apply forallb_str_mono. intros c Hc. unfold safe_char. rewrite Hc. by rewrite orb_true_r. }
  destruct (Z.le_gt_cases 0 z) as [Hz|Hz]; [by apply Hd, Itoa_digits|].
  destruct z as [|p|p]; [lia|lia|]. change (Itoa (Z.neg p)) with ("-" +:+ Itoa (Z.pos p)).
  simpl. apply Hd, (Itoa_digits (Z.pos p)). lia.
Qed.

Lemma plain_Itoa z : plain_word (Itoa z).
Proof. split; [apply Itoa_word|apply Itoa_safe]. Qed.

Lemma plain_app a b : plain_word a → forallb_str safe_char b = true → plain_word (a +:+ b).
Proof.
  intros [[H1 H2]%is_word_spec H3] Hb. split.
  - unfold is_word. destruct (String.eqb_spec (a +:+ b) "") as [E|_]; [by destruct a|]. simpl.
    rewrite forallb_str_app, H2. simpl. revert Hb. apply forallb_str_mono. intros c Hc.
    by rewrite (safe_char_not_space c Hc).
  - by rewrite forallb_str_app, H3.
Qed.

Lemma plain_opt flag v : plain_word flag → safe_value v → Forall plain_word (opt_arg flag v).
Proof.
  intros Hf Hv. unfold opt_arg, is_empty. destruct (String.eqb_spec v "") as [->|]; [constructor|].
  repeat constructor; by try apply Hf; try apply plain_safe.
Qed.

Lemma plain_pod n (f1 f2 : string) p :
  plain_word f1 → plain_word f2 → pod_incomplete p = false → Forall (fun q => safe_value q.2) (pod_fields n p) →
  Forall plain_word (pod_args f1 f2 p).
Proof.
  intros H1 H2 Hp Hs. destruct p as [p|]; [|constructor]. simpl in *.
  unfold is_empty in Hp. apply orb_false_iff in Hp as [Hn Hns]. apply String.eqb_neq in Hn, Hns.
  repeat match goal with H : Forall _ (_ :: _) |- _ => apply Forall_cons in H as [? H] end. simpl in *.
  repeat constructor; try apply H1; try apply H2; by apply plain_safe.
Qed.

Ltac plain_const := split; vm_compute; reflexivity.

(** Lists of constant words and numbers. *)
Ltac plain_list :=
  repeat match goal with
  | |- Forall _ [] => apply Forall_nil; exact I
  | |- Forall _ (_ :: _) => apply Forall_cons; split
  | |- Forall _ (if ?b then _ else _) => destruct b
  | |- plain_word (Itoa _) => apply plain_Itoa
  | |- plain_word (Itoa _ +:+ _) => apply plain_app; [apply plain_Itoa|reflexivity]
  | |- plain_word _ => plain_const
  end.

(** Every argument built from an accepted request is one plain word. *)
Lemma extra_words_plain req : Validate req = None → Forall plain_word (extra_words req).
Proof.
  intros (Hc & Hf & _)%Validate_None. unfold request_fields in Hf. unfold request_checks in Hc.
  apply Forall_app in Hf as [Hf [Hs Hd]%Forall_app].
  repeat match goal with H : Forall _ (_ :: _) |- _ => apply Forall_cons in H as [? H] end. simpl in *.
  unfold extra_words. repeat (apply Forall_app; split);
    try (apply plain_opt; [plain_const|done]);
    try (eapply plain_pod; [plain_const|plain_const|done|done]);
    plain_list.
Qed.

Lemma extra_words_nonempty req : extra_words req ≠ [].
Proof.
  intros H. unfold extra_words in H. repeat (apply app_eq_nil in H as [? H]). done.
Qed.

Lemma hex_encode_safe b : Forall octet b → forallb_str safe_char (hex_encode b) = true.
Proof.
  assert (Hh : ∀ d, 0 ≤ d < 16 → safe_char (hex_digit d) = true).
  { intros d Hd. assert (d ∈ seqZ 0 16) as H by (apply elem_of_seqZ; lia).
    clear Hd. revert d H. apply Forall_forall. repeat constructor. }
  induction 1 as [|x b Hx Hb IH]; [done|]. unfold octet in Hx. simpl.
  rewrite !Hh, IH; [done|apply Z.mod_pos_bound; lia|].
  split; [apply Z.div_pos; lia|apply Z.div_lt_upper_bound; lia].
Qed.

Lemma cmdlinePathFor_plain b : Forall octet b → plain_word (cmdlinePathFor (newID b)).
Proof.
  intros Hb. unfold cmdlinePathFor. apply plain_app; [plain_const|].
  rewrite !forallb_str_app, hex_encode_safe by done. done.
Qed.

(** The arguments of the source, the replay path included. *)
Definition source_words (req : Request) (id : MigrationID) : list string :=
  extra_words req ++ (if rq_ReplayCmdline req then ["--emit-cmdline-to"; cmdlinePathFor id] else []).

Lemma source_words_plain req b :
  Validate req = None → Forall octet b → Forall plain_word (source_words req (newID b)).
Proof.
  intros Hv Hb. apply Forall_app. split; [by apply extra_words_plain|].
  case_match; [|constructor]. constructor; [plain_const|].
  constructor; [by apply cmdlinePathFor_plain|constructor].
Qed.

Lemma source_extra_words req b :
  Validate req = None → Forall octet b → source_extra req (newID b) = Join " " (source_words req (newID b)).
Proof.
  intros Hv Hb. pose proof (source_words_plain req b Hv Hb) as Hp.
  unfold source_extra, source_words, buildExtraArgs in *.
  destruct (rq_ReplayCmdline req); [|by rewrite app_nil_r].
  rewrite <- (TrimSpace_Join (_ ++ _)).
  - rewrite Join_app by (done || apply extra_words_nonempty). by cbn [Join].
  - intros H. apply app_eq_nil in H as [_ [=]].
  - eapply Forall_impl; [exact Hp|]. by intros w [? _].
Qed.

(** The value substituted for a variable of the two templates. *)
Lemma expand_source_command req id extra :
  expandShellVars source_command (source_vars req id extra) =
  Join " " ["/usr/local/bin/katamaran"; "--mode"; "source"; "--dest-ip"; dq +:+ rq_DestIP req +:+ dq] +:+ " " +:+ extra.
Proof.
  change source_command with ("/usr/local/bin/katamaran --mode source --dest-ip " +:+ dq +:+
    ("${" +:+ "DEST_IP" +:+ "}" +:+ ((dq +:+ " ") +:+ ("${" +:+ "EXTRA_ARGS" +:+ "}" +:+ "")))).
  rewrite string_app_assoc, expand_plain, expand_var, expand_plain, expand_var, expand_nil by done.
  unfold source_vars. cbn [list_to_map foldr fst snd].
  simpl_map. cbn [default from_option].
  unfold Datatypes.id. rewrite string_app_nil_r. cbn [Join]. rewrite <- !string_app_assoc. reflexivity.
Qed.

Lemma expand_dest_command req id extra :
  let q := cmp_Or (rq_DestQMP req) "/run/vc/vm/katamaran-dest/qmp.sock" in
  expandShellVars dest_command (dest_vars req id extra) =
  "mkdir -p " +:+ dq +:+ "$(dirname " +:+ dq +:+ q +:+ dq +:+ ")" +:+ dq
  +:+ " && /usr/local/bin/katamaran --mode dest --qmp " +:+ dq +:+ q +:+ dq +:+ " " +:+ extra.
Proof.
  intros q. change dest_command with (("mkdir -p " +:+ dq) +:+ ("$(dirname " +:+ dq) +:+
    ("${" +:+ "QMP_SOCKET" +:+ "}" +:+ ((dq +:+ ")" +:+ dq +:+ " && /usr/local/bin/katamaran --mode dest --qmp " +:+ dq) +:+
    ("${" +:+ "QMP_SOCKET" +:+ "}" +:+ ((dq +:+ " ") +:+ ("${" +:+ "EXTRA_ARGS" +:+ "}" +:+ "")))))).
  rewrite expand_plain by done.
  assert (Hd : ∀ vars s, expandShellVars (("$(dirname " +:+ dq) +:+ s) vars = ("$(dirname " +:+ dq) +:+ expandShellVars s vars).
  { intros vars s. unfold expandShellVars. cbn [String.append String.length expand_fuel].
    reflexivity. }
  rewrite Hd, expand_var, expand_plain, expand_var, expand_plain, expand_var, expand_nil by done.
  unfold dest_vars. cbn [list_to_map foldr fst snd]. simpl_map. cbn [default from_option].
  unfold Datatypes.id. fold q. rewrite string_app_nil_r. rewrite <- !string_app_assoc. reflexivity.
Qed.

Lemma word_app a b : is_word a = true → forallb_str (fun c => negb (is_space c)) b = true → is_word (a +:+ b) = true.
Proof.
  intros [H1 H2]%is_word_spec Hb. unfold is_word.
  destruct (String.eqb_spec (a +:+ b) "") as [E|_]; [by destruct a|]. simpl. by rewrite forallb_str_app, H2.
Qed.

(** ** Facts on the markers *)

Lemma add_field_kv out k v :
  k ≠ "" → no_char "=" k = true → add_field out (k +:+ "=" +:+ v) = <[k := v]> out.
Proof.
  intros Hk Hn. unfold add_field. cbn [String.append]. rewrite IndexByte_app by done.
  destruct (String.length k) as [|n] eqn:E; [by destruct k|]. rewrite <- E, stake_app by done.
  change (k +:+ String "=" v) with (k +:+ "=" +:+ v). rewrite string_app_assoc.
  rewrite sdrop_app; [done|]. rewrite string_app_length. simpl. lia.
Qed.

Definition kv_line (kvs : list (string * string)) : string :=
  Join " " ((fun p => p.1 +:+ "=" +:+ p.2) <$> kvs).

(** The fields of a line of key=value words. *)
Lemma parse_fields kvs :
  Forall (fun p => is_word p.1 = true ∧ no_char "=" p.1 = true ∧
                   forallb_str (fun c => negb (is_space c)) p.2 = true) kvs →
  parseProgressFields (kv_line kvs) =
  fold_left (fun m p => <[p.1 := p.2]> m) kvs ∅.
Proof.
  intros H. unfold parseProgressFields, kv_line. rewrite Fields_Join.
  - generalize (∅ : gmap string string). induction H as [|[k v] kvs (Hk & Hn & Hv) Hr IH]; intros m; [done|].
    cbn [fst snd fmap list_fmap fold_left] in *. apply is_word_spec in Hk as [Hk _].
    rewrite add_field_kv by done. apply IH.
  - apply Forall_fmap. eapply Forall_impl; [exact H|]. intros [k v] (Hk & Hn & Hv). simpl in *.
    by apply (word_app k (String "=" v)).
Qed.

Lemma after_marker_prefix m s : after_marker m (m +:+ s) = Some s.
Proof. unfold after_marker. rewrite Index_0. simpl. by rewrite sdrop_app. Qed.

Lemma Itoa_nospace z : forallb_str (fun c => negb (is_space c)) (Itoa z) = true.
Proof. by apply is_word_spec, Itoa_word. Qed.

Lemma int_field_Itoa (m : gmap string string) k z :
  m !! k = Some (Itoa z) → min_int64 ≤ z ≤ max_int64 → int_field m k = z.
Proof. intros Hk Hz. unfold int_field, field, parseInt64. rewrite Hk. simpl. by rewrite ParseInt_Itoa. Qed.

Definition int64 (z : Z) : Prop := min_int64 ≤ z ≤ max_int64.

Lemma parsePodRef_complete ns pod :
  bad_label ns = false → bad_label pod = false → parsePodRef (ns +:+ "/" +:+ pod) = inl (ns, pod).
Proof.
  unfold bad_label, dns1123LabelRe. intros [[H1 H2]%orb_false_iff H3%negb_false_iff]%orb_false_iff
    [[H4 H5]%orb_false_iff H6%negb_false_iff]%orb_false_iff.
  unfold parsePodRef. change (ns +:+ "/" +:+ pod) with (ns +:+ String "/" pod).
  rewrite IndexByte_app by by apply podRefDNSRe_no_slash. cbv zeta.
  rewrite stake_app by done. change (ns +:+ String "/" pod) with (ns +:+ "/" +:+ pod).
  replace (sdrop (S (String.length ns)) (ns +:+ "/" +:+ pod)) with pod.
  2:{ rewrite string_app_assoc, sdrop_app; [done|]. rewrite string_app_length. simpl. lia. }
  assert (∀ s, (slen s =? 0) = false → (s =? "")%string = false) as Hne.
  { intros s Hs. apply String.eqb_neq. intros ->. done. }
  by rewrite !Hne, H2, H3, H5, H6.
Qed.

Lemma append_last_spec cmd l suffix :
  last cmd = Some l → last (append_last cmd suffix) = Some (l +:+ suffix) ∧
  length (append_last cmd suffix) = length cmd.
Proof.
  intros H. unfold append_last. rewrite H. split; [by apply last_snoc|].
  destruct cmd as [|x cmd]; [done|]. rewrite length_app, length_take. simpl. lia.
Qed.

Lemma inject_containers_spec cs suffix cs' :
  inject_containers cs suffix = inl cs' →
  ∃ pre c post l, cs = pre ++ c :: post ∧ Forall (fun c => ct_Name c ≠ "katamaran") pre ∧
    ct_Name c = "katamaran" ∧ last (ct_Command c) = Some l ∧
    cs' = pre ++ MkContainer "katamaran" (append_last (ct_Command c) suffix) :: post.
Proof.
  revert cs'. induction cs as [|c cs IH]; intros cs' H; [done|]. cbn [inject_containers] in H.
  destruct (String.eqb_spec (ct_Name c) "katamaran") as [Hc|Hc]; simpl in H.
  - destruct (ct_Command c) as [|x cmd] eqn:E; [done|]. injection H as <-.
    destruct (last (x :: cmd)) as [l|] eqn:Hl; [|by apply last_None in Hl].
    exists [], c, cs, l. rewrite Hc, E. by repeat split.
  - destruct (inject_containers cs suffix) as [cs1|e]; [|done]. injection H as <-.
    destruct (IH cs1 eq_refl) as (pre & d & post & l & -> & Hp & Hd & Hl & ->).
    exists (c :: pre), d, post, l. by repeat split; try constructor.
Qed.

(** A printed line is its marker followed by its fields. *)
Ltac marker_line m :=
  match goal with
  | |- after_marker m ?l = Some ?s =>
      replace l with (m +:+ s)
        by (unfold kv_line; cbn [Join fmap list_fmap fst snd]; rewrite <- !string_app_assoc; reflexivity);
      apply after_marker_prefix
  end.

(** ** Properties *)

(** The fields of an accepted request that end up between quotes. *)
Lemma request_quoted_safe req :
  Validate req = None → safe_value (rq_DestIP req) ∧
  forallb_str safe_char (cmp_Or (rq_DestQMP req) "/run/vc/vm/katamaran-dest/qmp.sock") = true.
Proof.
  intros Hv. pose proof (Validate_None req Hv) as (_ & Hf & _). unfold request_fields in Hf.
  apply Forall_app in Hf as [Hf _].
  repeat match goal with H : Forall _ (_ :: _) |- _ => apply Forall_cons in H as [? H] end. cbn [fst snd] in *.
  split; [done|]. unfold cmp_Or, is_empty. case_match; [done|]. by destruct H3 as (_ & _ & ?).
Qed.

Lemma quoted_word v : forallb_str safe_char v = true → is_word (dq +:+ v +:+ dq) = true.
Proof.
  intros Hs. apply (word_app dq); [done|]. rewrite forallb_str_app, andb_true_iff. split; [|done].
  revert Hs. apply forallb_str_mono. intros c Hc. by rewrite (safe_char_not_space c Hc).
Qed.

Lemma plain_words_are_words ws : Forall plain_word ws → Forall (fun w => is_word w = true) ws.
Proof. intros Hp. eapply Forall_impl; [exact Hp|]. by intros w [? _]. Qed.

(** The words of the source command. *)
Lemma source_command_fields req b :
  Validate req = None → Forall octet b →
  Fields (expandShellVars source_command (source_vars req (newID b) (source_extra req (newID b)))) =
    ["/usr/local/bin/katamaran"; "--mode"; "source"; "--dest-ip"; dq +:+ rq_DestIP req +:+ dq] ++
    source_words req (newID b).
Proof.
  intros Hv Hb. rewrite expand_source_command, source_extra_words by done.
  rewrite <- Join_app; [|done|].
  2:{ intros E. apply app_eq_nil in E as [E _]. by apply extra_words_nonempty in E. }
  apply Fields_Join, Forall_app. split; [|by apply plain_words_are_words, source_words_plain].
  repeat (apply Forall_cons; split; [vm_compute; reflexivity|]). apply Forall_singleton.
  apply quoted_word. by destruct (request_quoted_safe req Hv) as [(_ & _ & ?) _].
Qed.

(** C9. No request can smuggle anything into the shell of the privileged Jobs:
    for every request that [Validate] accepts, the source Job's command splits
    into exactly the intended words, one per option and per value, the
    destination Job's command is the fixed text around the QMP socket and those
    words, and every substituted value is made of characters without meaning to
    a shell. *)
Theorem request_commands req b :
  Validate req = None → Forall octet b →
  let id := newID b in
  let q := cmp_Or (rq_DestQMP req) "/run/vc/vm/katamaran-dest/qmp.sock" in
  Fields (expandShellVars source_command (source_vars req id (source_extra req id))) =
    ["/usr/local/bin/katamaran"; "--mode"; "source"; "--dest-ip"; dq +:+ rq_DestIP req +:+ dq] ++
    source_words req id ∧
  expandShellVars dest_command (dest_vars req id (buildExtraArgs req)) =
    "mkdir -p " +:+ dq +:+ "$(dirname " +:+ dq +:+ q +:+ dq +:+ ")" +:+ dq
    +:+ " && /usr/local/bin/katamaran --mode dest --qmp " +:+ dq +:+ q +:+ dq +:+ " "
    +:+ Join " " (extra_words req) ∧
  Forall (fun w => forallb_str safe_char w = true) (rq_DestIP req :: q :: source_words req id).
Proof.
  intros Hv Hb id q. pose proof (source_words_plain req b Hv Hb) as Hp.
  destruct (request_quoted_safe req Hv) as [(_ & _ & Hi) Hq].
  split_and!; [by apply source_command_fields|apply expand_dest_command|].
  apply Forall_cons; split; [done|]. apply Forall_cons; split; [done|].
  eapply Forall_impl; [exact Hp|]. by intros w [_ ?].
Qed.

(** The reference to the source pod survives the trip through the
    destination Job's shell command: what [injectReplayFromPod] appends is
    parsed back by the destination binary to the same namespace and pod, and the
    rest of the Job is untouched. *)
Theorem replay_ref_roundtrip job ns pod job' :
  injectReplayFromPod job ns pod = inl job' →
  ∃ pre c post l, job_Containers job = pre ++ c :: post ∧ ct_Name c = "katamaran" ∧
    last (ct_Command c) = Some l ∧
    (∃ cmd, job_Containers job' = pre ++ MkContainer "katamaran" cmd :: post ∧
       last cmd = Some (l +:+ " --replay-cmdline-from-pod " +:+ ns +:+ "/" +:+ pod) ∧
       length cmd = length (ct_Command c)) ∧
    parsePodRef (ns +:+ "/" +:+ pod) = inl (ns, pod) ∧ job_Name job' = job_Name job.
Proof.
  unfold injectReplayFromPod. destruct (job_Containers job) as [|c0 cs]; [done|].
  destruct (bad_label ns) eqn:H1; [done|]. destruct (bad_label pod) eqn:H2; [done|].
  destruct (inject_containers (c0 :: cs) _) as [cs'|e] eqn:Hi; [|done]. intros [= <-].
  apply inject_containers_spec in Hi as (pre & c & post & l & -> & _ & Hc & Hl & ->).
  destruct (append_last_spec _ _ (" --replay-cmdline-from-pod " +:+ ns +:+ "/" +:+ pod) Hl).
  exists pre, c, post, l. split_and!; [done|done|done| |by apply parsePodRef_complete|done].
  eexists. by split_and!.
Qed.

(** C23. The log markers are read back as they were printed: from the lines the
    source prints the orchestrator recovers the downtime, the transferred and
    total RAM, the applied downtime limit, the RTT and whether it was
    automatic, and the migration status, for all 64-bit values. *)
Theorem markers_roundtrip info limit rtt auto :
  Forall int64 [mi_downtime info; mi_totalTime info; mi_ramTransferred info; mi_ramTotal info;
                mi_ramRemaining info; limit; rtt] →
  forallb_str (fun c => negb (is_space c)) (mi_status info) = true →
  (∃ s, after_marker resultMarker (result_line info) = Some s ∧
     parse_result s = (mi_downtime info, mi_ramTransferred info, mi_ramTotal info)) ∧
  (∃ s, after_marker downtimeLimitMarker (limit_line limit rtt auto) = Some s ∧
     let f := parseProgressFields s in
     int_field f "applied_ms" = limit ∧ int_field f "rtt_ms" = rtt ∧ (field f "auto" =? "true")%string = auto) ∧
  (∃ s, after_marker progressMarker (progress_line info) = Some s ∧
     let f := parseProgressFields s in
     field f "status" = mi_status info ∧ int_field f "ram_transferred" = mi_ramTransferred info ∧
     int_field f "ram_total" = mi_ramTotal info).
Proof.
  intros Hi Hs. repeat match goal with H : Forall _ (_ :: _) |- _ => apply Forall_cons in H as [? H] end.
  pose proof Itoa_nospace as Hsp.
  split_and!.
  - exists (kv_line [("downtime_ms", Itoa (mi_downtime info)); ("total_time_ms", Itoa (mi_totalTime info));
      ("ram_transferred", Itoa (mi_ramTransferred info)); ("ram_total", Itoa (mi_ramTotal info))]).
    split; [marker_line resultMarker|]. unfold parse_result.
    rewrite parse_fields by (repeat constructor; simpl; auto).
    cbn [fold_left fst snd]. by erewrite !int_field_Itoa by (done || by simpl_map).
  - exists (kv_line [("applied_ms", Itoa limit); ("rtt_ms", Itoa rtt); ("auto", bool_text auto)]).
    split; [marker_line downtimeLimitMarker|].
    rewrite parse_fields by (repeat constructor; simpl; auto; by destruct auto).
    cbn [fold_left fst snd]. cbv zeta. erewrite !int_field_Itoa by (done || by simpl_map).
    split_and!; [done|done|]. unfold field. simpl_map. by destruct auto.
  - exists (kv_line [("status", mi_status info); ("ram_transferred", Itoa (mi_ramTransferred info));
      ("ram_total", Itoa (mi_ramTotal info)); ("ram_remaining", Itoa (mi_ramRemaining info))]).
    split; [marker_line progressMarker|].
    rewrite parse_fields by (repeat constructor; simpl; auto).
    cbn [fold_left fst snd]. cbv zeta. erewrite !int_field_Itoa by (done || by simpl_map).
    split_and!; [|done|done]. unfold field. by simpl_map.
Qed.

(** ** Examples *)

Definition demo_request : Request :=
  MkRequest "node-a" "node-b" ∅ [] (Some (MkPodRef "default" "web-0")) "" "" None "" "10.0.0.2"
    "ghcr.io/katamaran:v1" true true "ipip" 25 true 40 3 4 0 "none" false "tap0_kata" "" "info" "json" "".

Definition demo_bytes : list Z := [0; 17; 34; 51; 68; 85; 102; 255].

Definition demo_dest_job : Job :=
  MkJob "katamaran-dest-x" "node-b" ∅ [] None
    [MkContainer "katamaran" ["/bin/sh"; "-c"; "katamaran --mode dest"]].

Lemma request_commands_witness :
  Fields (expandShellVars source_command (source_vars demo_request (newID demo_bytes)
                                            (source_extra demo_request (newID demo_bytes)))) =
    ["/usr/local/bin/katamaran"; "--mode"; "source"; "--dest-ip"; dq +:+ "10.0.0.2" +:+ dq] ++
    source_words demo_request (newID demo_bytes).
Proof.
  refine (proj1 (request_commands demo_request demo_bytes _ _)).
  - vm_compute. reflexivity.
  - repeat constructor; vm_compute; congruence.
Defined.

Lemma replay_ref_roundtrip_witness :
  ∃ job', injectReplayFromPod demo_dest_job "kube-system" "katamaran-source-7" = inl job' ∧
    job_Name job' = "katamaran-dest-x".
Proof.
  eexists. split; [vm_compute; reflexivity|].
  pose proof (replay_ref_roundtrip demo_dest_job "kube-system" "katamaran-source-7" _ eq_refl)
    as (pre & c & post & l & _ & _ & _ & _ & _ & H).
  exact H.
Defined.

Lemma markers_roundtrip_witness :
  ∃ s, after_marker resultMarker (result_line (MkMigrateInfo "completed" "" 100 90 0 12 1 500)) = Some s.
Proof.
  destruct (markers_roundtrip (MkMigrateInfo "completed" "" 100 90 0 12 1 500) 65 20 true) as [(s & Hs & _) _].
  - repeat constructor; vm_compute; congruence.
  - vm_compute. reflexivity.
  - exists s. exact Hs.
Defined.
