(* ===== verification/OrchApply.v ===== *)
(** * Submitting, resuming and stopping a migration

    [Apply], [Resume], [Stop] and [Watch] of the native orchestrator
    (internal/orchestrator/native.go) and the discoverer's node lookup
    (discovery_native.go), over the Jobs of one namespace.  The API server is
    the state: a Create of a name that exists fails with AlreadyExists, a Get or
    Delete of one that does not with NotFound, and any call may fail for
    reasons of its own, which the environment decides call by call.  A call
    that fails has no effect.  The goroutines that [Apply] starts are the
    subject of file OrchRun. *)
From S2P Require Import Prelude GoErrors GoStrings Netip QmpTypes Effects OrchTypes OrchValidate OrchArgs.

Record Pod := MkPod { pod_Name : string; pod_NodeName : string }.

(** The orchestrator's podWaitTimeout, and the outcome of the k-th interaction. *)
Record KEnv := MkKEnv {
  k_podWait : Z;
  k_rand : nat → list Z;                        (* crypto/rand.Read *)
  k_fail : nat → option error;                  (* the API call fails *)
  k_pods : string → nat → list Pod + error;     (* pods of a Job *)
  k_node : string → nat → list (string * string) + error;  (* addresses of a node: type, value *)
  k_ctxerr : nat → option error;                (* deadline.Err() *)
  k_wait : Z → nat → option error }.            (* select: the deadline (timeout, ns) or the ticker *)

Inductive kevent :=
| KCreate (name : string) (err : option error)
| KDelete (name : string) (err : option error).

(** What [Apply] remembers of a migration. *)
Record nativeRun := MkRun { run_srcJob : string; run_destJob : string; run_podWait : Z }.

Record KState := MkKState {
  k_step : nat;
  k_jobs : gmap string Job;
  k_trace : list kevent;
  k_inflight : gmap MigrationID nativeRun;
  k_cancelled : gset MigrationID }.             (* runs whose context was cancelled *)

Definition KM (A : Type) : Type := KEnv → KState → outcome A * KState.

#[global] Instance KM_ret : MRet KM := fun A a _ s => (Done a, s).
#[global] Instance KM_bind : MBind KM := fun A B k m env s =>
  match m env s with
  | (Done a, s) => k a env s
  | (Spin, s) => (Spin, s)
  end.

Definition kspin {A} : KM A := fun _ s => (Spin, s).
Definition kask {A} (f : KEnv → nat → A) : KM A := fun env s =>
  (Done (f env (k_step s)),
   MkKState (S (k_step s)) (k_jobs s) (k_trace s) (k_inflight s) (k_cancelled s)).
Definition kget : KM KState := fun _ s => (Done s, s).
Definition set_jobs (jobs : gmap string Job) (ev : kevent) : KM unit := fun _ s =>
  (Done tt, MkKState (k_step s) jobs (k_trace s ++ [ev]) (k_inflight s) (k_cancelled s)).

(** ** Calls of the API server *)

Definition createJob (job : Job) : KM (option error) :=
  err ← kask k_fail;
  s ← kget;
  match err with
  | Some e => set_jobs (k_jobs s) (KCreate (job_Name job) (Some e));; mret (Some e)
  | None =>
      match k_jobs s !! job_Name job with
      | Some _ => set_jobs (k_jobs s) (KCreate (job_Name job) (Some ErrAlreadyExists));; mret (Some ErrAlreadyExists)
      | None => set_jobs (<[job_Name job := job]> (k_jobs s)) (KCreate (job_Name job) None);; mret None
      end
  end.

Definition deleteJob (name : string) : KM (option error) :=
  err ← kask k_fail;
  s ← kget;
  match err with
  | Some e => set_jobs (k_jobs s) (KDelete name (Some e));; mret (Some e)
  | None =>
      match k_jobs s !! name with
      | None => set_jobs (k_jobs s) (KDelete name (Some ErrNotFound));; mret (Some ErrNotFound)
      | Some _ => set_jobs (base.delete name (k_jobs s)) (KDelete name None);; mret None
      end
  end.

Definition getJob (name : string) : KM (Job + error) :=
  err ← kask k_fail;
  s ← kget;
  mret match err with
       | Some e => inr e
       | None => match k_jobs s !! name with Some j => inl j | None => inr ErrNotFound end
       end.

Definition IsNotFound (e : error) : bool := errors_Is e ErrNotFound.
Definition IsAlreadyExists (e : error) : bool := errors_Is e ErrAlreadyExists.

(** ** Waiting for pods *)

Definition defaultPodWaitTimeout : Z := 60 * 1000000000.

Definition pick_pod (pick : Pod → string) (pods : list Pod) : option string :=
  List.find (fun v => negb (is_empty v)) (pick <$> pods).

Fixpoint wait_pod_loop (fuel : nat) (jobName : string) (timeout : Z) (pick : Pod → string)
    (lastListErr : option error) : KM (string + error) :=
  match fuel with
  | O => kspin
  | S fuel =>
      let select last :=
        d ← kask (fun e => k_wait e timeout);
        match d with
        | Some de => mret (inr (ErrWrap "waiting for pod of job" de))
        | None => wait_pod_loop fuel jobName timeout pick last
        end in
      pods ← kask (fun e => k_pods e jobName);
      match pods with
      | inl pods =>
          match pick_pod pick pods with
          | Some v => mret (inl v)
          | None => select lastListErr
          end
      | inr e =>
          derr ← kask k_ctxerr;
          select (if is_nil derr then Some e else lastListErr)
      end
  end.

(** The request's seconds, or the orchestrator's default. *)
Definition pod_wait (podWaitTimeout reqTimeout : Z) : Z :=
  if reqTimeout >? 0 then wrap64 (reqTimeout * 1000000000) else podWaitTimeout.

Definition waitForJobPod (fuel : nat) (jobName : string) (reqTimeout : Z) (pick : Pod → string)
    : KM (string + error) := fun env =>
  wait_pod_loop fuel jobName (pod_wait (k_podWait env) reqTimeout) pick None env.

Definition waitForDestNodeName (fuel : nat) (jobName : string) (reqTimeout : Z) : KM (string + error) :=
  waitForJobPod fuel jobName reqTimeout pod_NodeName.

Definition firstSourcePod (fuel : nat) (jobName : string) (reqTimeout : Z) : KM (string + error) :=
  waitForJobPod fuel jobName reqTimeout pod_Name.

(** ** Node addresses *)

Fixpoint pickInternalIP (addrs : list (string * string)) : string :=
  match addrs with
  | [] => ""
  | (ty, a) :: addrs => if (ty =? "InternalIP")%string then a else pickInternalIP addrs
  end.

Definition LookupNodeInternalIP (name : string) : KM (string + error) :=
  n ← kask (fun e => k_node e name);
  mret match n with
       | inr e => inr (ErrWrap "get node" e)
       | inl addrs =>
           let ip := pickInternalIP addrs in
           if is_empty ip then inr (ErrNew "node has no InternalIP") else inl ip
       end.

(** ** [Apply] *)

Section apply.
Context `{Templates}.

Definition cleanupDestJob (destJobName : string) : KM unit := _ ← deleteJob destJobName; mret tt.

Definition with_dest (req : Request) (node ip : string) : Request :=
  MkRequest (rq_SourceNode req) node (rq_DestNodeSelector req) (rq_DestTolerations req) (rq_SourcePod req)
    (rq_SourceQMP req) (rq_VMIP req) (rq_DestPod req) (rq_DestQMP req) ip (rq_Image req) (rq_SharedStorage req)
    (rq_ReplayCmdline req) (rq_TunnelMode req) (rq_DowntimeMS req) (rq_AutoDowntime req)
    (rq_AutoDowntimeFloorMS req) (rq_CNIConvergenceDelaySeconds req) (rq_MultifdChannels req)
    (rq_PodWaitTimeoutSeconds req) (rq_SourceCleanup req) (rq_AdoptVM req) (rq_TapIface req) (rq_TapNetns req)
    (rq_LogLevel req) (rq_LogFormat req) (rq_KubectlContext req).

(** Source Job first: the destination waits for the captured command line. *)
Definition apply_replay (srcJob : Job) : KM (Job + error) :=
  err ← createJob srcJob;
  mret match err with
       | Some e => inr (ErrWrap "create source job" e)
       | None => inl srcJob
       end.

(** Without a destination node: create the destination Job, see where it is
    scheduled, then render and create the source Job. *)
Definition apply_auto (fuel : nat) (req : Request) (id : MigrationID) (destJob : Job) : KM (Job + error) :=
  err ← createJob destJob;
  match err with
  | Some e => mret (inr (ErrWrap "create dest job" e))
  | None =>
      node ← waitForDestNodeName fuel (job_Name destJob) (rq_PodWaitTimeoutSeconds req);
      match node with
      | inr e =>
          cleanupDestJob (job_Name destJob);;
          mret (inr (ErrWrap "wait for dest pod scheduling" e))
      | inl node =>
          if (node =? rq_SourceNode req)%string then
            cleanupDestJob (job_Name destJob);;
            mret (inr (ErrNew "dest pod scheduled on source node; cannot migrate to same node"))
          else
            ip ← LookupNodeInternalIP node;
            match ip with
            | inr e =>
                cleanupDestJob (job_Name destJob);;
                mret (inr (ErrWrap "resolve dest node IP" e))
            | inl ip =>
                let req := with_dest req node ip in
                match renderSourceJob req id (buildExtraArgs req) with
                | inr e => mret (inr (ErrWrap "re-render source job" e))
                | inl srcJob =>
                    err ← createJob srcJob;
                    match err with
                    | Some e =>
                        cleanupDestJob (job_Name destJob);;
                        mret (inr (ErrWrap "create source job" e))
                    | None => mret (inl srcJob)
                    end
                end
            end
      end
  end.

(** Destination first, so that it listens before the source connects. *)
Definition apply_pair (srcJob destJob : Job) : KM (Job + error) :=
  err ← createJob destJob;
  match err with
  | Some e => mret (inr (ErrWrap "create dest job" e))
  | None =>
      err ← createJob srcJob;
      match err with
      | Some e =>
          cleanupDestJob (job_Name destJob);;
          mret (inr (ErrWrap "create source job" e))
      | None => mret (inl srcJob)
      end
  end.

Definition register (id : MigrationID) (run : nativeRun) : KM unit := fun _ s =>
  (Done tt, MkKState (k_step s) (k_jobs s) (k_trace s) (<[id := run]> (k_inflight s)) (k_cancelled s)).

Definition Apply (fuel : nat) (req : Request) : KM (MigrationID + error) :=
  match Validate req with
  | Some e => mret (inr e)
  | None =>
      b ← kask k_rand;
      let id := newID b in
      match renderSourceJob req id (source_extra req id) with
      | inr e => mret (inr (ErrWrap "render source job" e))
      | inl srcJob =>
          match renderDestJob req id (buildExtraArgs req) with
          | inr e => mret (inr (ErrWrap "render dest job" e))
          | inl destJob =>
              r ← (if rq_ReplayCmdline req then apply_replay srcJob
                   else if is_empty (rq_DestNode req) then apply_auto fuel req id destJob
                   else apply_pair srcJob destJob);
              match r with
              | inr e => mret (inr e)
              | inl srcJob =>
                  register id (MkRun (job_Name srcJob) (job_Name destJob) (rq_PodWaitTimeoutSeconds req));;
                  mret (inl id)
              end
          end
      end
  end.

(** ** [Resume], [Stop] and [Watch] *)

(** [Resume]: whether this call created the destination Job. *)
Definition Resume (fuel : nat) (id : MigrationID) (req : Request) : KM (bool + error) :=
  if negb (rq_ReplayCmdline req) then mret (inl false)
  else
    d ← getJob (DestJobName id);
    match d with
    | inl _ => mret (inl false)
    | inr e =>
        if negb (IsNotFound e) then mret (inr (ErrWrap "get dest job" e))
        else
          src ← getJob (SourceJobName id);
          match src with
          | inr e => mret (inr (ErrWrap "get source job" e))
          | inl _ =>
              pod ← firstSourcePod fuel (SourceJobName id) (rq_PodWaitTimeoutSeconds req);
              match pod with
              | inr e => mret (inr (ErrWrap "locate source pod" e))
              | inl srcPod =>
                  match renderDestJob req id (buildExtraArgs req) with
                  | inr e => mret (inr (ErrWrap "render dest job" e))
                  | inl destJob =>
                      match injectReplayFromPod destJob DefaultJobNamespace srcPod with
                      | inr e => mret (inr (ErrWrap "inject replay flag" e))
                      | inl patched =>
                          err ← createJob patched;
                          mret match err with
                               | Some e => if IsAlreadyExists e then inl false
                                           else inr (ErrWrap "create dest job" e)
                               | None => inl true
                               end
                      end
                  end
              end
          end
    end.

Definition cancelRun (id : MigrationID) : KM unit := fun _ s =>
  (Done tt, MkKState (k_step s) (k_jobs s) (k_trace s) (k_inflight s) ({[id]} ∪ k_cancelled s)).

Definition Stop (id : MigrationID) : KM (option error) :=
  s ← kget;
  match k_inflight s !! id with
  | None => mret (Some ErrUnknownID)
  | Some run =>
      _ ← deleteJob (run_srcJob run);
      _ ← deleteJob (run_destJob run);
      cancelRun id;;
      mret None
  end.

(** [Watch]: the run whose channel is returned. *)
Definition Watch (id : MigrationID) : KM (nativeRun + error) :=
  s ← kget;
  mret match k_inflight s !! id with
       | None => inr ErrUnknownID
       | Some run => inl run
       end.

End apply.

(** ** Reasoning about the calls *)

Section facts.
Implicit Types (s : KState) (env : KEnv).

(** Everything but the interaction counter is unchanged. *)
Definition same s s' : Prop :=
  k_jobs s' = k_jobs s ∧ k_trace s' = k_trace s ∧ k_inflight s' = k_inflight s ∧ k_cancelled s' = k_cancelled s.

#[global] Instance same_preorder : PreOrder same.
Proof. split; [by repeat split|]. intros s1 s2 s3 (?&?&?&?) (?&?&?&?). repeat split; congruence. Qed.

Lemma kbind_inv {A B} (m : KM A) (k : A → KM B) env s b s' :
  (m ≫= k) env s = (Done b, s') → ∃ a s1, m env s = (Done a, s1) ∧ k a env s1 = (Done b, s').
Proof. unfold mbind, KM_bind. destruct (m env s) as [[a|] s1]; [eauto|done]. Qed.

Lemma kask_inv {A} (f : KEnv → nat → A) env s a s' :
  kask f env s = (Done a, s') → same s s' ∧ a = f env (k_step s).
Proof. by intros [= <- <-]. Qed.

Lemma createJob_inv j env s r s' :
  createJob j env s = (Done r, s') →
  k_inflight s' = k_inflight s ∧ k_cancelled s' = k_cancelled s ∧
  k_trace s' = k_trace s ++ [KCreate (job_Name j) r] ∧
  match r with
  | None => k_jobs s !! job_Name j = None ∧ k_jobs s' = <[job_Name j := j]> (k_jobs s)
  | Some _ => k_jobs s' = k_jobs s
  end.
Proof.
  unfold createJob. intros (err & s1 & ((Hj & Ht & Hi & Hc) & _)%kask_inv & Hk)%kbind_inv.
  apply kbind_inv in Hk as (s2 & ? & [= <- <-] & Hk).
  destruct err as [e|]; [|destruct (k_jobs s1 !! job_Name j) eqn:E];
    apply kbind_inv in Hk as ([] & ? & [= <-] & [= <- <-]); simpl; rewrite <- ?Hj; by split_and!; congruence.
Qed.

Lemma deleteJob_inv n env s r s' :
  deleteJob n env s = (Done r, s') →
  k_inflight s' = k_inflight s ∧ k_cancelled s' = k_cancelled s ∧
  k_trace s' = k_trace s ++ [KDelete n r] ∧
  match r with
  | None => is_Some (k_jobs s !! n) ∧ k_jobs s' = base.delete n (k_jobs s)
  | Some e => k_jobs s' = k_jobs s ∧ (e = ErrNotFound → k_jobs s !! n = None ∨ k_fail env (k_step s) = Some e)
  end.
Proof.
  unfold deleteJob. intros (err & s1 & ((Hj & Ht & Hi & Hc) & He)%kask_inv & Hk)%kbind_inv.
  apply kbind_inv in Hk as (s2 & ? & [= <- <-] & Hk).
  destruct err as [e|]; [|destruct (k_jobs s1 !! n) eqn:E];
    apply kbind_inv in Hk as ([] & ? & [= <-] & [= <- <-]); simpl; rewrite <- ?Hj;
    split_and!; try congruence; eauto.
Qed.

Lemma getJob_inv n env s r s' :
  getJob n env s = (Done r, s') → same s s' ∧ ∀ j, r = inl j → k_jobs s !! n = Some j.
Proof.
  unfold getJob. intros (err & s1 & (Hs & _)%kask_inv & Hk)%kbind_inv.
  apply kbind_inv in Hk as (s2 & ? & [= <- <-] & [= <- <-]). split; [done|]. intros j.
  destruct Hs as (<- & _). destruct err; [done|]. by destruct (k_jobs s1 !! n) eqn:E; intros [= <-].
Qed.

Lemma wait_pod_inv fuel n timeout pick last env s r s' :
  wait_pod_loop fuel n timeout pick last env s = (Done r, s') → same s s'.
Proof.
  revert last s. induction fuel as [|fuel IH]; intros last s Hk; [done|]. cbn [wait_pod_loop] in Hk.
  apply kbind_inv in Hk as (pods & s1 & (H1 & _)%kask_inv & Hk). trans s1; [done|].
  assert (Hsel : ∀ l s1, (d ← kask (fun e => k_wait e timeout);
            match d with
            | Some de => mret (inr (ErrWrap "waiting for pod of job" de))
            | None => wait_pod_loop fuel n timeout pick l
            end) env s1 = (Done r, s') → same s1 s').
  { intros l s2 (d & s3 & (H3 & _)%kask_inv & Hd)%kbind_inv. trans s3; [done|].
    destruct d; [by injection Hd as <- <-|by eapply IH]. }
  destruct pods as [pods|e].
  - destruct (pick_pod pick pods); [by injection Hk as <- <-|by eapply Hsel].
  - apply kbind_inv in Hk as (derr & s2 & (H2 & _)%kask_inv & Hk). trans s2; [done|]. by eapply Hsel.
Qed.

Lemma LookupNodeInternalIP_inv n env s r s' : LookupNodeInternalIP n env s = (Done r, s') → same s s'.
Proof. unfold LookupNodeInternalIP. by intros (? & s1 & (H1 & _)%kask_inv & [= _ <-])%kbind_inv. Qed.

(** Deleting a Job that was just created undoes the creation or fails. *)
Lemma cleanup_inv dest jobs env s s' :
  cleanupDestJob (job_Name dest) env s = (Done (), s') →
  jobs !! job_Name dest = None → k_jobs s = <[job_Name dest := dest]> jobs →
  k_inflight s' = k_inflight s ∧
  (k_jobs s' = jobs ∨
   k_jobs s' = <[job_Name dest := dest]> jobs ∧ ∃ e, KDelete (job_Name dest) (Some e) ∈ k_trace s').
Proof.
  unfold cleanupDestJob. intros (r & s1 & (Hi & _ & Ht & Hr)%deleteJob_inv & [= <-])%kbind_inv Hn Hj.
  split; [done|]. destruct r as [e|].
  - right. destruct Hr as [-> _]. split; [done|]. exists e. rewrite Ht. set_solver.
  - left. destruct Hr as [_ ->]. rewrite Hj. by rewrite delete_insert_id.
Qed.

End facts.

Section apply_facts.
Context `{Templates}.
Implicit Types (s : KState) (env : KEnv).

Definition add_job (j : Job) (jobs : gmap string Job) : gmap string Job := <[job_Name j := j]> jobs.

(** The state in which a failed submission leaves the Jobs: as they were, or
    with the destination Job, when deleting it failed or when the source Job
    could not be rendered a second time. *)
Definition failed_ok (req : Request) s s' : Prop :=
  k_inflight s' = k_inflight s ∧
  (k_jobs s' = k_jobs s ∨
   ∃ dest, k_jobs s' = add_job dest (k_jobs s) ∧
     ((∃ e, KDelete (job_Name dest) (Some e) ∈ k_trace s') ∨
      (∃ id node ip e, let req := with_dest req node ip in
         renderSourceJob req id (buildExtraArgs req) = inr e))).

Definition submit_ok (req : Request) (dest : Job) s (r : Job + error) s' : Prop :=
  match r with
  | inr _ => failed_ok req s s'
  | inl src =>
      k_inflight s' = k_inflight s ∧ k_jobs s !! job_Name src = None ∧
      k_jobs s' = add_job src (if rq_ReplayCmdline req then k_jobs s else add_job dest (k_jobs s))
  end.

Lemma failed_cleanup req dest env s s0 s' :
  cleanupDestJob (job_Name dest) env s = (Done (), s') →
  k_jobs s0 !! job_Name dest = None → k_jobs s = add_job dest (k_jobs s0) → k_inflight s = k_inflight s0 →
  failed_ok req s0 s'.
Proof.
  intros Hc Hn Hj Hi. destruct (cleanup_inv dest (k_jobs s0) env s s' Hc Hn Hj) as [Hi' [Hj'|[Hj' He]]];
    (split; [congruence|]); [by left|]. right. exists dest. split; [done|by left].
Qed.

Lemma apply_replay_ok req src dest env s r s' :
  rq_ReplayCmdline req = true → apply_replay src env s = (Done r, s') → submit_ok req dest s r s'.
Proof.
  intros Hr (err & s1 & (Hi & _ & _ & He)%createJob_inv & [= <- <-])%kbind_inv. destruct err as [e|]; simpl.
  - split; [done|by left].
  - rewrite Hr. destruct He. by split_and!.
Qed.

Lemma apply_pair_ok req src dest env s r s' :
  rq_ReplayCmdline req = false → apply_pair src dest env s = (Done r, s') → submit_ok req dest s r s'.
Proof.
  intros Hr (err & s1 & (Hi & _ & _ & He)%createJob_inv & Hk)%kbind_inv. destruct err as [e|].
  { injection Hk as <- <-. split; [done|by left]. }
  destruct He as [Hn Hj]. apply kbind_inv in Hk as (err & s2 & (Hi2 & _ & _ & He)%createJob_inv & Hk).
  destruct err as [e|].
  - apply kbind_inv in Hk as ([] & s3 & Hc & [= <- <-]). eapply failed_cleanup; [exact Hc|done|unfold add_job; congruence|congruence].
  - injection Hk as <- <-. destruct He as [Hn2 Hj2]. simpl. rewrite Hr. split_and!; [congruence| |].
    + rewrite Hj in Hn2. by apply lookup_insert_None in Hn2 as [? _].
    + rewrite Hj2, Hj. done.
Qed.

Lemma apply_auto_ok fuel req id dest env s r s' :
  rq_ReplayCmdline req = false → apply_auto fuel req id dest env s = (Done r, s') → submit_ok req dest s r s'.
Proof.
  intros Hr (err & s1 & (Hi & _ & _ & He)%createJob_inv & Hk)%kbind_inv. destruct err as [e|].
  { injection Hk as <- <-. split; [done|by left]. }
  destruct He as [Hn Hj].
  apply kbind_inv in Hk as (node & s2 & (Hj2 & _ & Hi2 & _)%wait_pod_inv & Hk).
  assert (Hclean : ∀ (s3 : KState) e, (cleanupDestJob (job_Name dest);; mret (inr e)) env s3 = (Done r, s') →
            k_jobs s3 = k_jobs s1 → k_inflight s3 = k_inflight s1 → submit_ok req dest s r s').
  { intros s3 e ([] & s4 & Hc & [= <- <-])%kbind_inv Hj3 Hi3.
    eapply failed_cleanup; [exact Hc|done|unfold add_job; congruence|congruence]. }
  destruct node as [node|e]; [|by eapply Hclean].
  destruct (node =? rq_SourceNode req)%string; [by eapply Hclean|].
  apply kbind_inv in Hk as (ip & s3 & (Hj3 & _ & Hi3 & _)%LookupNodeInternalIP_inv & Hk).
  destruct ip as [ip|e]; [|eapply Hclean; [exact Hk|congruence|congruence]].
  cbv zeta in Hk. destruct (renderSourceJob _ _ _) as [src|e] eqn:Er.
  - apply kbind_inv in Hk as (err & s4 & (Hi4 & _ & _ & He)%createJob_inv & Hk). destruct err as [e|].
    { eapply Hclean; [exact Hk|congruence|congruence]. }
    injection Hk as <- <-. destruct He as [Hn2 Hj4]. simpl. rewrite Hr. split_and!; [congruence| |].
    + rewrite Hj3, Hj2, Hj in Hn2. by apply lookup_insert_None in Hn2 as [? _].
    + rewrite Hj4, Hj3, Hj2, Hj. done.
  - injection Hk as <- <-. split; [congruence|]. right. exists dest. split; [unfold add_job; congruence|].
    right. exists id, node, ip, e. exact Er.
Qed.

End apply_facts.

(** ** Every call returns

    The deadline of the waits expires at some interaction [N]. *)
Section returns.
Context (env : KEnv) (N : nat) (Hdl : ∀ timeout k, (N ≤ k)%nat → is_Some (k_wait env timeout k)).

Definition returns {A} (m : KM A) : Prop := ∀ s, ∃ a s', m env s = (Done a, s').

Lemma returns_ret {A} (a : A) : returns (mret a).
Proof. intros s. by exists a, s. Qed.

Lemma returns_ask {A} (f : KEnv → nat → A) : returns (kask f).
Proof. intros s. by eexists _, _. Qed.

Lemma returns_get : returns kget.
Proof. intros s. by eexists _, _. Qed.

Lemma returns_set jobs ev : returns (set_jobs jobs ev).
Proof. intros s. by eexists _, _. Qed.

Lemma returns_bind {A B} (m : KM A) (k : A → KM B) : returns m → (∀ a, returns (k a)) → returns (mbind k m).
Proof.
  intros Hm Hk s. destruct (Hm s) as (a & s1 & E). destruct (Hk a s1) as (b & s2 & E2).
  exists b, s2. unfold mbind, KM_bind. by rewrite E.
Qed.

(** Every round of a wait takes at least one interaction. *)
Lemma wait_pod_returns fuel n timeout pick last s :
  (0 < fuel)%nat → (N ≤ k_step s + fuel)%nat → ∃ r s', wait_pod_loop fuel n timeout pick last env s = (Done r, s').
Proof.
  revert s last. induction fuel as [|fuel IH]; intros s last H0 HN; [lia|].
  assert (Hsel : ∀ s1 last1, (k_step s < k_step s1)%nat →
    ∃ r s', (d ← kask (fun e => k_wait e timeout);
             match d with
             | Some de => mret (inr (ErrWrap "waiting for pod of job" de))
             | None => wait_pod_loop fuel n timeout pick last1
             end) env s1 = (Done r, s')).
  { intros s1 last1 Hs. unfold mbind, KM_bind, kask. destruct (k_wait env timeout (k_step s1)) eqn:E; [by eexists _, _|].
    destruct (decide (N ≤ k_step s1)%nat) as [Hge|Hlt]; [destruct (Hdl timeout _ Hge); congruence|].
    apply IH; cbn [k_step]; lia. }
  cbn [wait_pod_loop]. unfold mbind at 1, KM_bind at 1, kask at 1.
  destruct (k_pods env n (k_step s)) as [pods|e].
  - destruct (pick_pod pick pods); [by eexists _, _|]. apply Hsel. cbn [k_step]. lia.
  - unfold mbind at 1, KM_bind at 1, kask at 1. apply Hsel. cbn [k_step]. lia.
Qed.

Lemma waitForJobPod_returns fuel n timeout pick : (N < fuel)%nat → returns (waitForJobPod fuel n timeout pick).
Proof. intros HN s. apply wait_pod_returns; lia. Qed.

End returns.

Create HintDb returns.
#[local] Hint Resolve returns_ret returns_ask returns_get returns_set waitForJobPod_returns : returns.

(** Case analysis on what a call answers, then the next one. *)
Ltac solve_returns :=
  repeat first
    [ progress intros
    | apply returns_ret | apply returns_ask | apply returns_get | apply returns_set
    | solve [eauto with returns]
    | apply returns_bind
    | case_match ].

Lemma createJob_returns env j : returns env (createJob j).
Proof. unfold createJob. solve_returns. Qed.

Lemma deleteJob_returns env n : returns env (deleteJob n).
Proof. unfold deleteJob. solve_returns. Qed.

Lemma cleanup_returns env n : returns env (cleanupDestJob n).
Proof. unfold cleanupDestJob. apply returns_bind; [apply deleteJob_returns|]. solve_returns. Qed.

Lemma getJob_returns env n : returns env (getJob n).
Proof. unfold getJob. solve_returns. Qed.

#[local] Hint Resolve createJob_returns deleteJob_returns cleanup_returns getJob_returns : returns.

(** ** Properties *)

Lemma Apply_effect `{Templates} fuel req env s r s' :
  Apply fuel req env s = (Done r, s') →
  match r with
  | inr _ => failed_ok req s s'
  | inl id => ∃ src dest,
      k_inflight s' = <[id := MkRun (job_Name src) (job_Name dest) (rq_PodWaitTimeoutSeconds req)]> (k_inflight s) ∧
      k_jobs s !! job_Name src = None ∧
      k_jobs s' = add_job src (if rq_ReplayCmdline req then k_jobs s else add_job dest (k_jobs s))
  end.
Proof.
  assert (Hrefl : ∀ s2, same s s2 → failed_ok req s s2).
  { intros s2 (Hj & _ & Hi & _). split; [done|by left]. }
  unfold Apply. destruct (Validate req); [intros [= <- <-]; by apply Hrefl|].
  intros (b & s1 & (Hs & _)%kask_inv & Hk)%kbind_inv. cbv zeta in Hk.
  destruct (renderSourceJob req _ _) as [src|e]; [|injection Hk as <- <-; by apply Hrefl].
  destruct (renderDestJob req _ _) as [dest|e]; [|injection Hk as <- <-; by apply Hrefl].
  apply kbind_inv in Hk as (r1 & s2 & Hk1 & Hk).
  assert (Hok : submit_ok req dest s1 r1 s2).
  { destruct (rq_ReplayCmdline req) eqn:Hr; [by eapply apply_replay_ok|].
    destruct (is_empty (rq_DestNode req)); [by eapply apply_auto_ok|by eapply apply_pair_ok]. }
  destruct Hs as (Hj & _ & Hi & _). destruct r1 as [src1|e].
  - apply kbind_inv in Hk as ([] & s3 & [= <-] & [= <- <-]). destruct Hok as (Hi2 & Hn & Hj2).
    exists src1, dest. simpl. rewrite Hi2, Hi. rewrite Hj in *. done.
  - injection Hk as <- <-. unfold submit_ok, failed_ok in *. by rewrite Hj, Hi in Hok.
Qed.

Lemma Apply_returns `{Templates} fuel req env N :
  (∀ timeout k, (N ≤ k)%nat → is_Some (k_wait env timeout k)) → (N < fuel)%nat → returns env (Apply fuel req).
Proof.
  intros Hdl HN. pose proof (fun n t p => waitForJobPod_returns env N Hdl fuel n t p HN) as Hw.
  assert (Hreg : ∀ id run, returns env (register id run)) by (intros id run s; by eexists _, _).
  unfold Apply, apply_replay, apply_auto, apply_pair, waitForDestNodeName, LookupNodeInternalIP. solve_returns.
Qed.

(** C11. [Apply] is all or nothing.  It returns, the deadline of its wait for the
    destination pod being reached at some point.  When it succeeds the migration is registered
    under its id with the names of the Jobs that were created: the source Job
    alone in replay mode, both Jobs otherwise, none of which replaced an
    existing one.  When it fails nothing is registered and no Job of the
    migration is left, unless deleting the destination Job failed or the source
    Job could not be rendered for the node that was chosen. *)
Theorem Apply_all_or_nothing `{Templates} fuel req env s N :
  (∀ timeout k, (N ≤ k)%nat → is_Some (k_wait env timeout k)) → (N < fuel)%nat →
  ∃ r s', Apply fuel req env s = (Done r, s') ∧
  match r with
  | inr _ => failed_ok req s s'
  | inl id => ∃ src dest,
      k_inflight s' = <[id := MkRun (job_Name src) (job_Name dest) (rq_PodWaitTimeoutSeconds req)]> (k_inflight s) ∧
      k_jobs s !! job_Name src = None ∧
      k_jobs s' = add_job src (if rq_ReplayCmdline req then k_jobs s else add_job dest (k_jobs s))
  end.
Proof.
  intros Hdl HN. destruct (Apply_returns fuel req env N Hdl HN s) as (r & s' & E).
  exists r, s'. split; [exact E|]. by eapply Apply_effect.
Qed.

(** What the embedded destination template says about the Job's name:
    metadata.name is katamaran-dest-${JOB_SUFFIX}. *)
Class TemplatesNamed `{Templates} : Prop :=
  dest_named : ∀ req id extra job,
    decode_job (expandShellVars destJobTemplate (dest_vars req id extra)) = inl job →
    job_Name job = DestJobName id.

Section resume_facts.
Context `{TemplatesNamed}.

Lemma renderDestJob_name req id extra job : renderDestJob req id extra = inl job → job_Name job = DestJobName id.
Proof.
  unfold renderDestJob, renderJob. destruct (decode_job _) as [j|] eqn:E; [|done]. apply dest_named in E.
  intros [= <-]. by destruct (is_empty _).
Qed.

Lemma injectReplay_name job ns pod job' : injectReplayFromPod job ns pod = inl job' → job_Name job' = job_Name job.
Proof. unfold injectReplayFromPod. repeat case_match; naive_solver. Qed.

Lemma Resume_effect fuel id req env s r s' :
  Resume fuel id req env s = (Done r, s') →
  match r with
  | inl true => k_jobs s !! DestJobName id = None ∧ is_Some (k_jobs s !! SourceJobName id) ∧
      ∃ job, job_Name job = DestJobName id ∧ k_jobs s' = add_job job (k_jobs s)
  | _ => k_jobs s' = k_jobs s
  end.
Proof.
  unfold Resume. destruct (rq_ReplayCmdline req); cbn [negb]; [|by intros [= <- <-]].
  intros (d & s1 & ((Hj1 & _) & Hd)%getJob_inv & Hk)%kbind_inv.
  destruct d as [d|e]; [injection Hk as <- <-; done|].
  destruct (IsNotFound e); cbn [negb] in Hk; [|injection Hk as <- <-; done].
  apply kbind_inv in Hk as (src & s2 & ((Hj2 & _) & Hsrc)%getJob_inv & Hk).
  destruct src as [src|]; [|injection Hk as <- <-; congruence].
  apply kbind_inv in Hk as (pod & s3 & (Hj3 & _)%wait_pod_inv & Hk).
  destruct pod as [pod|]; [|injection Hk as <- <-; congruence].
  destruct (renderDestJob _ _ _) as [job|] eqn:E1; [|injection Hk as <- <-; congruence].
  destruct (injectReplayFromPod _ _ _) as [job'|] eqn:E2; [|injection Hk as <- <-; congruence].
  apply kbind_inv in Hk as (err & s4 & (_ & _ & _ & Hc)%createJob_inv & [= <- <-]).
  apply renderDestJob_name in E1. apply injectReplay_name in E2.
  destruct err as [e'|]; [destruct (IsAlreadyExists e'); simpl; congruence|]. destruct Hc as [Hn Hj4].
  simpl. split_and!; [congruence| |].
  - exists src. rewrite <- Hj1. by apply Hsrc.
  - exists job'. split; [congruence|]. unfold add_job. congruence.
Qed.

End resume_facts.

Lemma Resume_returns `{Templates} fuel id req env N :
  (∀ timeout k, (N ≤ k)%nat → is_Some (k_wait env timeout k)) → (N < fuel)%nat → returns env (Resume fuel id req).
Proof.
  intros Hdl HN. pose proof (fun n t p => waitForJobPod_returns env N Hdl fuel n t p HN) as Hw.
  unfold Resume, firstSourcePod. solve_returns.
Qed.

(** [Resume] returns and creates the destination Job at most once.  It reports a creation
    only when the source Job exists and the destination Job did not, and then
    it has added exactly that Job; in every other case the Jobs are unchanged.
    After a creation, calling it again changes nothing and, as soon as the API
    server answers, reports that nothing was created. *)
Theorem Resume_idempotent `{TemplatesNamed} fuel id req env s N :
  (∀ timeout k, (N ≤ k)%nat → is_Some (k_wait env timeout k)) → (N < fuel)%nat →
  ∃ r s', Resume fuel id req env s = (Done r, s') ∧
  match r with
  | inl true => k_jobs s !! DestJobName id = None ∧ is_Some (k_jobs s !! SourceJobName id) ∧
      (∃ job, job_Name job = DestJobName id ∧ k_jobs s' = add_job job (k_jobs s)) ∧
      (∀ env', k_fail env' (k_step s') = None →
         ∃ s'', Resume fuel id req env' s' = (Done (inl false), s'') ∧ k_jobs s'' = k_jobs s')
  | _ => k_jobs s' = k_jobs s
  end.
Proof.
  intros Hdl HN. destruct (Resume_returns fuel id req env N Hdl HN s) as (r & s' & Hk).
  exists r, s'. split; [exact Hk|]. pose proof (Resume_effect _ _ _ _ _ _ _ Hk) as He. destruct r as [[]|]; [|done|done].
  destruct He as (Hd & Hs & job & Hn & Hj). split_and!; [done|done|by exists job|].
  intros env' Hf. unfold Resume in *. destruct (rq_ReplayCmdline req); cbn [negb] in *; [|by injection Hk].
  eexists. unfold mbind, KM_bind, getJob, kask, kget, mret, KM_ret. simpl. rewrite Hf, Hj.
  unfold add_job. rewrite <- Hn, lookup_insert_eq. done.
Qed.

(** ** Examples *)

(** Templates reduced to the lines that matter, and a decoder that reads them. *)
Definition demo_decode_job (s : string) : Job + error :=
  match Split (ascii_of_nat 10) s with
  | [name; node; cmd] => inl (MkJob name node ∅ [] None [MkContainer "katamaran" ["/bin/sh"; "-c"; cmd]])
  | _ => inr (ErrNew "yaml")
  end.

Definition lf1 : string := String (ascii_of_nat 10) "".

#[local] Instance demo_templates : Templates := {|
  sourceJobTemplate := "katamaran-source-${JOB_SUFFIX}" +:+ lf1 +:+ "${NODE_NAME}" +:+ lf1 +:+ source_command;
  destJobTemplate := "katamaran-dest-${JOB_SUFFIX}" +:+ lf1 +:+ "${NODE_NAME}" +:+ lf1 +:+ dest_command;
  decode_job := demo_decode_job |}.

Definition demo_kenv : KEnv :=
  MkKEnv defaultPodWaitTimeout (fun _ => demo_bytes) (fun _ => None) (fun _ _ => inl [MkPod "katamaran-source-7" "node-b"])
    (fun _ _ => inl [("InternalIP", "10.0.0.2")]) (fun _ => None) (fun _ k => if (5 <=? k)%nat then Some ErrDeadlineExceeded else None).

Lemma demo_deadline timeout k : (5 ≤ k)%nat → is_Some (k_wait demo_kenv timeout k).
Proof. intros Hk. cbn [k_wait demo_kenv]. destruct (Nat.leb_spec 5 k); [eauto|lia]. Qed.

Definition kstate0 : KState := MkKState 0 ∅ [] ∅ ∅.

Lemma Apply_all_or_nothing_witness :
  ∃ s', Apply 6 demo_request demo_kenv kstate0 = (Done (inl "00112233445566ff"), s') ∧
    is_Some (k_inflight s' !! "00112233445566ff").
Proof.
  destruct (Apply_all_or_nothing 6 demo_request demo_kenv kstate0 5 demo_deadline ltac:(lia)) as (r & s' & E & H).
  assert (r = inl "00112233445566ff") as ->.
  { assert (Hr : Done r = (Apply 6 demo_request demo_kenv kstate0).1) by (by rewrite E).
    vm_compute in Hr. by injection Hr. }
  exists s'. split; [exact E|]. destruct H as (src & dest & Hi & _). rewrite Hi, lookup_insert_eq. eauto.
Defined.

#[local] Instance demo_named : TemplatesNamed.
Proof.
  intros req id extra job. set (vars := dest_vars req id extra).
  assert (E : expandShellVars destJobTemplate vars =
    ("katamaran-dest-" +:+ id) +:+ String (ascii_of_nat 10)
      (rq_DestNode req +:+ String (ascii_of_nat 10) (expandShellVars dest_command vars))).
  { change destJobTemplate with ("katamaran-dest-" +:+ ("${" +:+ "JOB_SUFFIX" +:+ "}" +:+
      (lf1 +:+ ("${" +:+ "NODE_NAME" +:+ "}" +:+ (lf1 +:+ dest_command))))).
    rewrite expand_plain, expand_var, expand_plain, expand_var, expand_plain by done.
    unfold vars at 1 2, dest_vars. cbn [list_to_map foldr fst snd]. simpl_map. cbn [default from_option].
    unfold Datatypes.id, jobSuffix. by rewrite <- !string_app_assoc. }
  rewrite E. change decode_job with demo_decode_job. unfold demo_decode_job. rewrite !Split_app_sep.
  unfold DestJobName. clear E. generalize (expandShellVars dest_command vars) as cmd. clear vars.
  generalize (ascii_of_nat 10), ("katamaran-dest-" +:+ id), (rq_DestNode req). intros sep name node cmd.
  pose proof (Join_Split sep name) as HJ. pose proof (Split_nonempty sep name).
  pose proof (Split_nonempty sep node). pose proof (Split_nonempty sep cmd).
  destruct (Split sep name) as [|a [|a' l]]; [done| |].
  - simpl in HJ. subst a. cbn [app].
    destruct (Split sep node ++ Split sep cmd) as [|x [|y [|]]]; intros Hj; try discriminate Hj.
    by injection Hj as <-.
  - destruct (Split sep node) as [|b l2]; [done|]. destruct (Split sep cmd) as [|c l3]; [done|].
    destruct l as [|? [|]]; destruct l2 as [|? [|]]; destruct l3; intros Hj; discriminate Hj.
Qed.

Definition demo_source_only : KState := MkKState 0 {["katamaran-source-7" := demo_dest_job]} [] ∅ ∅.

Lemma Resume_idempotent_witness :
  ∃ s', Resume 6 "7" demo_request demo_kenv demo_source_only = (Done (inl true), s') ∧
    k_jobs demo_source_only !! DestJobName "7" = None.
Proof.
  destruct (Resume_idempotent 6 "7" demo_request demo_kenv demo_source_only 5 demo_deadline ltac:(lia)) as (r & s' & E & H).
  assert (r = inl true) as ->.
  { assert (Hr : Done r = (Resume 6 "7" demo_request demo_kenv demo_source_only).1) by (by rewrite E).
    vm_compute in Hr. by injection Hr. }
  exists s'. split; [exact E|]. exact (proj1 H).
Defined.
