(* ===== verification/Clients.v ===== *)
(** * Clients of the API server
    (internal/orchestrator: native.go and discovery_native.go, the constructors;
    cmd/katamaran-mgr/kubeconfig.go; the set-up in the mains)

    How the daemons get their connection: credentials of the pod, or a kubeconfig.
    client-go is a parameter: the in-cluster configuration, the kubeconfig loading
    rules with an explicit path and a context, and the client of a configuration.
    Its answers do not change during the set-up of a process. *)
From S2P Require Import Prelude GoErrors GoStrings OrchTypes OrchValidate OrchApply.

(** client-go, as a process finds it. *)
Record kube_world (cfg client : Type) := MkKubeWorld {
  kw_inCluster : cfg + error;                                        (* rest.InClusterConfig *)
  kw_load : option string → option string → cfg + error;             (* explicit path, context *)
  kw_clientset : cfg → client + error }.                             (* kubernetes.NewForConfig *)
Arguments MkKubeWorld {cfg client}.
Arguments kw_inCluster {cfg client}.
Arguments kw_load {cfg client}.
Arguments kw_clientset {cfg client}.

(** The orchestrator ([native]), as far as its constructors set it. *)
Record native (client : Type) := MkNative {
  na_client : client;
  na_namespace : string;
  na_podWaitTimeout : Z;
  na_inflight : gmap MigrationID nativeRun }.
Arguments MkNative {client}.
Arguments na_client {client}.
Arguments na_namespace {client}.
Arguments na_podWaitTimeout {client}.
Arguments na_inflight {client}.

Section constructors.
Context {cfg client : Type} (w : kube_world cfg client).

Definition newFromClient (c : client) : native client := MkNative c DefaultJobNamespace defaultPodWaitTimeout ∅.
Definition NewFromClient : client → native client := newFromClient.

Definition newFromRestConfig (c : cfg) : native client + error :=
  match kw_clientset w c with
  | inr e => inr (ErrWrap "clientset" e)
  | inl cs => inl (newFromClient cs)
  end.

Definition New : native client + error :=
  match kw_inCluster w with
  | inr e => inr (ErrWrap "in-cluster config" e)
  | inl c => newFromRestConfig c
  end.

(** An empty string leaves the default rules. *)
Definition explicit (s : string) : option string := if is_empty s then None else Some s.

Definition loadKubeconfig (path contextName : string) : cfg + error :=
  match kw_load w (explicit path) (explicit contextName) with
  | inr e => inr (ErrWrap "kubeconfig" e)
  | inl c => inl c
  end.

Definition NewFromKubeconfig (path contextName : string) : native client + error :=
  match loadKubeconfig path contextName with
  | inr e => inr e
  | inl c => newFromRestConfig c
  end.

(** A Discoverer is its client. *)
Definition NewDiscoverer : client + error :=
  match kw_inCluster w with
  | inr e => inr (ErrWrap "in-cluster config" e)
  | inl c => match kw_clientset w c with inr e => inr (ErrWrap "clientset" e) | inl cs => inl cs end
  end.

Definition NewDiscovererFromKubeconfig (path contextName : string) : client + error :=
  match loadKubeconfig path contextName with
  | inr e => inr e
  | inl c => match kw_clientset w c with inr e => inr (ErrWrap "clientset" e) | inl cs => inl cs end
  end.

Definition SetPodWaitTimeout (o : native client) (d : Z) : native client :=
  if d >? 0 then MkNative (na_client o) (na_namespace o) d (na_inflight o) else o.

(** [loadConfig] of the manager. *)
Definition loadConfig (kubeconfig : string) : cfg + error :=
  match kw_inCluster w with
  | inl c => inl c
  | inr _ => kw_load w (explicit kubeconfig) None
  end.

(** The mains of the manager and of katamaran-orchestrator: the pod's credentials
    first, then the kubeconfig. *)
Definition wire_orch (kubeconfig : string) : native client + error :=
  match New with inl o => inl o | inr _ => NewFromKubeconfig kubeconfig "" end.
Definition wire_disc (kubeconfig : string) : client + error :=
  match NewDiscoverer with inl d => inl d | inr _ => NewDiscovererFromKubeconfig kubeconfig "" end.

(** [Run] of the dashboard: the orchestrator, and the discoverer of the same kind. *)
Definition wire_dashboard : option (native client * option client) :=
  let opt {A} (r : A + error) := match r with inl a => Some a | inr _ => None end in
  match New with
  | inl o => Some (o, opt NewDiscoverer)
  | inr _ => match NewFromKubeconfig "" "" with inl o => Some (o, opt (NewDiscovererFromKubeconfig "" "")) | inr _ => None end
  end.

Lemma New_client (o : native client) : New = inl o → NewDiscoverer = inl (na_client o) ∧ o = newFromClient (na_client o).
Proof.
  unfold New, NewDiscoverer, newFromRestConfig. destruct (kw_inCluster w) as [c|]; [|done].
  destruct (kw_clientset w c); [|done]. by intros [= <-].
Qed.

Lemma NewFromKubeconfig_client (path ctx : string) (o : native client) :
  NewFromKubeconfig path ctx = inl o →
  NewDiscovererFromKubeconfig path ctx = inl (na_client o) ∧ o = newFromClient (na_client o).
Proof.
  unfold NewFromKubeconfig, NewDiscovererFromKubeconfig, newFromRestConfig. destruct (loadKubeconfig path ctx) as [c|]; [|done].
  destruct (kw_clientset w c); [|done]. by intros [= <-].
Qed.

(** The discoverer of the dashboard is there whenever its orchestrator is, and uses
    the same client. *)
Lemma dashboard_one_client (o : native client) (d : option client) :
  wire_dashboard = Some (o, d) → d = Some (na_client o).
Proof.
  unfold wire_dashboard. destruct New as [o1|] eqn:Hn.
  - apply New_client in Hn as [-> _]. by intros [= <- <-].
  - destruct (NewFromKubeconfig "" "") as [o1|] eqn:Hk; [|done].
    apply NewFromKubeconfig_client in Hk as [-> _]. by intros [= <- <-].
Qed.

(** The clients of the manager: the configuration it has loaded is the one that the
    orchestrator and the discoverer use. *)
Lemma manager_one_client (kubeconfig : string) (c : cfg) (cs : client) :
  loadConfig kubeconfig = inl c → kw_clientset w c = inl cs →
  wire_orch kubeconfig = inl (newFromClient cs) ∧ wire_disc kubeconfig = inl cs.
Proof.
  unfold loadConfig, wire_orch, wire_disc, New, NewDiscoverer, NewFromKubeconfig, NewDiscovererFromKubeconfig, loadKubeconfig,
    newFromRestConfig.
  destruct (kw_inCluster w) as [c1|]; [intros [= ->] ->; done|].
  change (explicit "") with (@None string). intros -> Hc. cbn beta iota. by rewrite Hc.
Qed.
End constructors.
