(* ===== verification/Prom.v ===== *)
(** * Quoted strings and the metrics text format

    [strconv.Quote] (the %q verb), and the text format of a Prometheus scrape with
    a reader for it: a page printed from well-formed families is read back to
    these families.  The reader is the specification against which the metrics
    pages of the dashboard and of katamaran-mgr are proved (file Metrics). *)
From S2P Require Import Prelude GoErrors GoStrings Netip OrchTypes OrchValidate.

Definition dquote : ascii := ascii_of_nat 34.
Definition backslash : ascii := ascii_of_nat 92.
Definition newline : ascii := ascii_of_nat 10.

(** ** Runes *)

(** unicode.IsPrint beyond ASCII: a table of the Unicode version. *)
Class Unicode := is_print_rune : Z → bool.

Definition code (c : ascii) : Z := Z.of_N (N_of_ascii c).
Definition between (lo hi z : Z) : bool := (lo <=? z) && (z <=? hi).
Definition cont (c : ascii) : bool := between 128 191 (code c).

(** utf8.DecodeRuneInString for a first byte of at least 0x80: the rune and the
    number of further bytes; [None] is RuneError with width 1. *)
Definition decode_rune (c : ascii) (s : string) : option (Z * nat) :=
  let b := code c in
  match s with
  | String c1 s1 =>
      let b1 := code c1 in
      if between 194 223 b then
        if cont c1 then Some ((b - 192) * 64 + (b1 - 128), 1%nat) else None
      else
        match s1 with
        | String c2 s2 =>
            let b2 := code c2 in
            if between 224 239 b then
              let lo := if b =? 224 then 160 else 128 in
              let hi := if b =? 237 then 159 else 191 in
              if between lo hi b1 && cont c2
              then Some ((b - 224) * 4096 + (b1 - 128) * 64 + (b2 - 128), 2%nat) else None
            else
              match s2 with
              | String c3 _ =>
                  let lo := if b =? 240 then 144 else 128 in
                  let hi := if b =? 244 then 143 else 191 in
                  if between 240 244 b && between lo hi b1 && cont c2 && cont c3
                  then Some ((b - 240) * 262144 + (b1 - 128) * 4096 + (b2 - 128) * 64 + (code c3 - 128), 3%nat)
                  else None
              | _ => None
              end
        | _ => None
        end
  | _ => None
  end.

Definition hex2 (z : Z) : string := String (hex_digit (z / 16)) (String (hex_digit (z mod 16)) "").
Definition hex4 (z : Z) : string := hex2 (z / 256) +:+ hex2 (z mod 256).
Definition hex8 (z : Z) : string := hex4 (z / 65536) +:+ hex4 (z mod 65536).

Definition escape (s : string) : string := String backslash s.

(** strconv's appendEscapedRune below 0x80. *)
Definition quote_ascii (c : ascii) : string :=
  if Ascii.eqb c dquote || Ascii.eqb c backslash then escape (String c "")
  else if between 32 126 (code c) then String c ""
  else if code c =? 7 then escape "a"
  else if code c =? 8 then escape "b"
  else if code c =? 12 then escape "f"
  else if code c =? 10 then escape "n"
  else if code c =? 13 then escape "r"
  else if code c =? 9 then escape "t"
  else if code c =? 11 then escape "v"
  else escape ("x" +:+ hex2 (code c)).

(** The text between the quotes; [skip] bytes belong to a rune that has been
    written. *)
Fixpoint quote_body `{Unicode} (skip : nat) (s : string) : string :=
  match s with
  | EmptyString => ""
  | String c s =>
      match skip with
      | S k => quote_body k s
      | O =>
          if code c <? 128 then quote_ascii c +:+ quote_body 0 s
          else
            match decode_rune c s with
            | None => escape ("x" +:+ hex2 (code c)) +:+ quote_body 0 s
            | Some (r, w) =>
                (if is_print_rune r then String c (stake w s)
                 else if r <? 65536 then escape ("u" +:+ hex4 r)
                 else escape ("U" +:+ hex8 r)) +:+ quote_body w s
            end
      end
  end.

Definition Quote `{Unicode} (s : string) : string :=
  String dquote (quote_body 0 s +:+ String dquote "").

(** ** Families and their text *)

Record sample := MkSample { sm_labels : list (string * string); sm_value : Z }.
Record family := MkFamily { fm_name : string; fm_help : string; fm_kind : string; fm_samples : list sample }.

#[global] Instance sample_eq_dec : EqDecision sample.
Proof. solve_decision. Defined.
#[global] Instance family_eq_dec : EqDecision family.
Proof. solve_decision. Defined.

Definition line (s : string) : string := s +:+ String newline "".
Definition help_line (name help : string) : string := "# HELP " +:+ name +:+ " " +:+ help.
Definition type_line (name kind : string) : string := "# TYPE " +:+ name +:+ " " +:+ kind.

Section print.
Context `{Unicode}.

Definition print_label (l : string * string) : string := l.1 +:+ "=" +:+ Quote l.2.
Definition print_labels (ls : list (string * string)) : string :=
  match ls with [] => "" | _ => "{" +:+ Join "," (print_label <$> ls) +:+ "}" end.
Definition print_sample (name : string) (s : sample) : string :=
  name +:+ print_labels (sm_labels s) +:+ " " +:+ Itoa (sm_value s).

Definition family_lines (f : family) : list string :=
  help_line (fm_name f) (fm_help f) :: type_line (fm_name f) (fm_kind f) ::
  (print_sample (fm_name f) <$> fm_samples f).

(** A page: every line is ended by a newline. *)
Definition unlines (ls : list string) : string := foldr (λ l acc, line l +:+ acc) "" ls.
Definition print_page (fs : list family) : string := unlines (fs ≫= family_lines).
End print.

(** ** The reader *)

Fixpoint span (p : ascii → bool) (s : string) : string * string :=
  match s with
  | EmptyString => ("", "")
  | String c r => if p c then let '(a, b) := span p r in (String c a, b) else ("", s)
  end.

Definition name_char (c : ascii) : bool := is_alnum c || char_in c "_:".
Definition is_name (s : string) : bool := negb (is_empty s) && forallb_str name_char s.

(** A label value up to its closing quote: a backslash stands before a backslash, a
    quote or an n. *)
Fixpoint read_quoted (s : string) : option (string * string) :=
  match s with
  | EmptyString => None
  | String c s =>
      if Ascii.eqb c dquote then Some ("", s)
      else if Ascii.eqb c backslash then
        match s with
        | EmptyString => None
        | String e s =>
            let put x := '(v, r) ← read_quoted s; Some (String x v, r) in
            if Ascii.eqb e "n" then put newline
            else if Ascii.eqb e dquote || Ascii.eqb e backslash then put e
            else None
        end
      else '(v, r) ← read_quoted s; Some (String c v, r)
  end.

(** Labels after the opening brace. *)
Fixpoint read_labels (fuel : nat) (s : string) : option (list (string * string) * string) :=
  match fuel with
  | O => None
  | S fuel =>
      let '(n, r) := span name_char s in
      if is_empty n then None
      else
        match r with
        | String e (String q r) =>
            if Ascii.eqb e "=" && Ascii.eqb q dquote then
              '(v, r) ← read_quoted r;
              match r with
              | String c r =>
                  if Ascii.eqb c "}" then Some ([(n, v)], r)
                  else if Ascii.eqb c "," then '(ls, r) ← read_labels fuel r; Some ((n, v) :: ls, r)
                  else None
              | EmptyString => None
              end
            else None
        | _ => None
        end
  end.

Definition read_value (s : string) : option Z :=
  match s with
  | String "-" r => n ← parse_uint r; Some (- n)
  | _ => parse_uint s
  end.

Definition read_sample (s : string) : option (string * sample) :=
  let '(n, r) := span name_char s in
  if is_empty n then None
  else
    '(ls, r) ← match r with
               | String c r' => if Ascii.eqb c "{" then read_labels (String.length r') r' else Some ([], r)
               | EmptyString => None
               end;
    match r with
    | String c r => if Ascii.eqb c " " then v ← read_value r; Some (n, MkSample ls v) else None
    | EmptyString => None
    end.

Definition after_prefix (p s : string) : option string :=
  if HasPrefix s p then Some (sdrop (String.length p) s) else None.

(** A name, a blank and the rest. *)
Definition read_name (s : string) : option (string * string) :=
  let '(n, r) := span name_char s in
  match r with
  | String c r => if negb (is_empty n) && Ascii.eqb c " " then Some (n, r) else None
  | EmptyString => None
  end.

Inductive text_line := LHelp (name help : string) | LType (name kind : string) | LSample (name : string) (s : sample).

Definition read_line (s : string) : option text_line :=
  match after_prefix "# HELP " s with
  | Some r => '(n, h) ← read_name r; Some (LHelp n h)
  | None =>
      match after_prefix "# TYPE " s with
      | Some r => '(n, k) ← read_name r; Some (LType n k)
      | None => '(n, v) ← read_sample s; Some (LSample n v)
      end
  end.

(** The lines of a family follow each other: its help, its type, its samples. *)
Fixpoint read_samples (name : string) (ls : list text_line) : list sample * list text_line :=
  match ls with
  | LSample n v :: ls' =>
      if (n =? name)%string then let '(vs, r) := read_samples name ls' in (v :: vs, r) else ([], ls)
  | _ => ([], ls)
  end.

Fixpoint read_families (fuel : nat) (ls : list text_line) : option (list family) :=
  match ls, fuel with
  | [], _ => Some []
  | LHelp n h :: LType n' k :: ls, S fuel =>
      if (n =? n')%string && one_of k ["counter"; "gauge"] then
        let '(vs, r) := read_samples n ls in
        fs ← read_families fuel r; Some (MkFamily n h k vs :: fs)
      else None
  | _, _ => None
  end.

Definition read_page (s : string) : option (list family) :=
  match reverse (Split newline s) with
  | last :: ls =>
      if is_empty last then
        ts ← mapM read_line (reverse ls); read_families (length ts) ts
      else None
  | [] => None
  end.

(** ** What the reader gets back *)

(** Characters whose quoted form the reader knows: the printable ones and the
    newline. *)
Definition label_char (c : ascii) : bool := between 32 126 (code c) || Ascii.eqb c newline.

Record sample_ok (s : sample) : Prop := {
  so_names : Forall (λ l, is_name l.1 = true ∧ forallb_str label_char l.2 = true) (sm_labels s) }.

Record family_ok (f : family) : Prop := {
  fo_name : is_name (fm_name f) = true;
  fo_help : forallb_str (λ c, negb (char_in c (String newline (String backslash "")))) (fm_help f) = true;
  fo_kind : one_of (fm_kind f) ["counter"; "gauge"] = true;
  fo_samples : Forall sample_ok (fm_samples f) }.

Lemma span_app (p : ascii → bool) (a b : string) :
  forallb_str p a = true → match b with String c _ => p c = false | EmptyString => True end →
  span p (a +:+ b) = (a, b).
Proof.
  intros Ha Hb. induction a as [|c a IH]; simpl in *.
  - destruct b as [|c b]; [done|]. simpl. by rewrite Hb.
  - apply andb_true_iff in Ha as [Hc Ha]. by rewrite Hc, IH.
Qed.

Lemma is_name_spec (s : string) : is_name s = true → is_empty s = false ∧ forallb_str name_char s = true.
Proof. unfold is_name. by rewrite andb_true_iff, negb_true_iff. Qed.

(** The three ways in which a label character is quoted. *)
Lemma quote_ascii_cases (c : ascii) :
  label_char c = true →
  (code c <? 128) = true ∧
  ((quote_ascii c = String c "" ∧ Ascii.eqb c dquote = false ∧ Ascii.eqb c backslash = false ∧ Ascii.eqb c newline = false) ∨
   (quote_ascii c = String backslash (String c "") ∧ (c = dquote ∨ c = backslash)) ∨
   (quote_ascii c = String backslash "n" ∧ c = newline)).
Proof. destruct c as [[] [] [] [] [] [] [] []]; vm_compute; intros H; try discriminate H; tauto. Qed.

Section roundtrip.
Context `{Unicode}.

Lemma quote_body_cons (c : ascii) (s : string) :
  label_char c = true → quote_body 0 (String c s) = quote_ascii c +:+ quote_body 0 s.
Proof. intros [Hc _]%quote_ascii_cases. cbn [quote_body]. by rewrite Hc. Qed.

Lemma read_quote_body (v r : string) :
  forallb_str label_char v = true → read_quoted (quote_body 0 v +:+ String dquote r) = Some (v, r).
Proof.
  induction v as [|c v IH]; [done|]. cbn [forallb_str]. intros [Hc Hv]%andb_true_iff.
  rewrite quote_body_cons, <- string_app_assoc by done. specialize (IH Hv).
  destruct (quote_ascii_cases c Hc) as [_ [(-> & Hq & Hb & _) | [(-> & [-> | ->]) | (-> & ->)]]];
    simpl; rewrite ?Hq, ?Hb, IH; done.
Qed.

Lemma quote_body_no_newline (v : string) :
  forallb_str label_char v = true → no_char newline (quote_body 0 v) = true.
Proof.
  unfold no_char. induction v as [|c v IH]; [done|]. cbn [forallb_str]. intros [Hc Hv]%andb_true_iff.
  rewrite quote_body_cons, forallb_str_app, IH by done.
  destruct (quote_ascii_cases c Hc) as [_ [(-> & _ & _ & Hn) | [(-> & [-> | ->]) | (-> & ->)]]]; try done.
  simpl. by rewrite Hn.
Qed.

Lemma name_char_not (c : ascii) : char_in c "={} ," = true → name_char c = false.
Proof. destruct c as [[] [] [] [] [] [] [] []]; vm_compute; congruence. Qed.

Lemma read_labels_ok (fuel : nat) (l : string * string) (ls : list (string * string)) (r : string) :
  (length ls < fuel)%nat → Forall (λ l, is_name l.1 = true ∧ forallb_str label_char l.2 = true) (l :: ls) →
  read_labels fuel (Join "," (print_label <$> l :: ls) +:+ "}" +:+ r) = Some (l :: ls, r).
Proof.
  revert fuel l. induction ls as [|l' ls IH]; intros fuel [n v] Hf [[[Hne Hn]%is_name_spec Hv] Hls]%Forall_cons;
    (destruct fuel as [|fuel]; [simpl in Hf; lia|]); cbn [read_labels fst snd] in *.
  - simpl Join. unfold print_label, Quote. simpl fst. simpl snd. rewrite <- !string_app_assoc.
    rewrite (span_app name_char n) by done. rewrite Hne. cbn -[read_quoted quote_body].
    rewrite <- !string_app_assoc. cbn -[read_quoted quote_body]. by rewrite read_quote_body.
  - rewrite !fmap_cons. change (Join "," (print_label (n, v) :: print_label l' :: (print_label <$> ls)))
      with (print_label (n, v) +:+ "," +:+ Join "," (print_label <$> l' :: ls)).
    unfold print_label at 1, Quote. simpl fst. simpl snd. rewrite <- !string_app_assoc.
    rewrite (span_app name_char n) by done. rewrite Hne. cbn -[read_quoted quote_body Join read_labels fmap list_fmap].
    rewrite <- !string_app_assoc. cbn -[read_quoted quote_body Join read_labels fmap list_fmap].
    rewrite read_quote_body by done. cbn -[Join read_labels fmap list_fmap].
    change (Join "," (print_label <$> l' :: ls) +:+ String "}" r) with (Join "," (print_label <$> l' :: ls) +:+ "}" +:+ r).
    rewrite IH; [done| |done]. simpl in Hf. lia.
Qed.

Lemma read_value_Itoa (z : Z) : read_value (Itoa z) = Some z.
Proof.
  assert (Hp : ∀ p, parse_uint (pretty_N_go (Npos p) "") = Some (Zpos p)).
  { intros p. destruct (pretty_N_go_head (Npos p) "") as (c & r & E & Hd & _); [lia|].
    rewrite E, parse_uint_digits by done. by rewrite <- E, digits_acc_pretty. }
  unfold Itoa, pretty, pretty_Z. destruct z as [|p|p]; [done| |].
  - change (pretty p) with (pretty_N_go (Npos p) "").
    destruct (pretty_N_go_head (Npos p) "") as (c & r & E & Hd & _); [lia|].
    specialize (Hp p). rewrite E in *. unfold read_value.
    destruct c as [[] [] [] [] [] [] [] []]; try exact Hp; vm_compute in Hd; discriminate Hd.
  - change (pretty p) with (pretty_N_go (Npos p) ""). unfold read_value. simpl. by rewrite Hp.
Qed.

Lemma print_labels_join (l : string * string) (ls : list (string * string)) :
  print_labels (l :: ls) = "{" +:+ Join "," (print_label <$> l :: ls) +:+ "}".
Proof. done. Qed.

Lemma Join_length (ls : list string) : (length ls ≤ S (String.length (Join "," ls)))%nat.
Proof.
  induction ls as [|x [|y ls] IH]; [simpl; lia..|].
  change (Join "," (x :: y :: ls)) with (x +:+ "," +:+ Join "," (y :: ls)).
  rewrite !string_app_length. change (String.length ",") with 1%nat. cbn [length] in *. lia.
Qed.

Lemma read_sample_ok (name : string) (s : sample) :
  is_name name = true → sample_ok s → read_sample (print_sample name s) = Some (name, s).
Proof.
  intros [Hne Hn]%is_name_spec [Hl]. destruct s as [[|l ls] v]; unfold read_sample, print_sample; cbn [sm_labels sm_value] in *.
  - simpl print_labels. simpl String.append at 2. rewrite (span_app name_char name) by done. rewrite Hne.
    cbn -[read_value Itoa]. by rewrite read_value_Itoa.
  - rewrite print_labels_join, <- !string_app_assoc, (span_app name_char name), Hne by done.
    set (r := Join "," (print_label <$> l :: ls) +:+ "}" +:+ " " +:+ Itoa v).
    change ("{" +:+ r) with (String "{" r). cbn -[read_labels read_value Itoa r].
    unfold r at 2. rewrite read_labels_ok; [|unfold r; rewrite !string_app_length|done].
    + cbn -[read_value Itoa]. by rewrite read_value_Itoa.
    + pose proof (Join_length (print_label <$> l :: ls)) as Hj. rewrite length_fmap in Hj. simpl length in Hj.
      change (String.length "}") with 1%nat. lia.
Qed.

Lemma after_prefix_app (p s : string) : after_prefix p (p +:+ s) = Some s.
Proof. unfold after_prefix. by rewrite HasPrefix_refl, sdrop_app. Qed.

Lemma read_name_app (n r : string) : is_name n = true → read_name (n +:+ " " +:+ r) = Some (n, r).
Proof.
  intros [Hne Hn]%is_name_spec. unfold read_name. rewrite (span_app name_char n) by done.
  simpl. by rewrite Hne.
Qed.

(** A sample line starts with a name, so it is no comment. *)
Lemma name_no_comment (n r p : string) : is_name n = true → after_prefix (String "#" p) (n +:+ r) = None.
Proof.
  unfold after_prefix. destruct n as [|c n]; [done|]. intros [_ Hn]%is_name_spec.
  cbn [String.append HasPrefix]. destruct (Ascii.eqb_spec "#" c) as [<-|]; [discriminate Hn|]. done.
Qed.

Lemma read_line_help (f : family) : family_ok f → read_line (help_line (fm_name f) (fm_help f)) = Some (LHelp (fm_name f) (fm_help f)).
Proof. intros [Hn _ _ _]. unfold read_line, help_line. by rewrite after_prefix_app, read_name_app. Qed.

Lemma read_line_type (f : family) : family_ok f → read_line (type_line (fm_name f) (fm_kind f)) = Some (LType (fm_name f) (fm_kind f)).
Proof.
  intros [Hn _ _ _]. unfold read_line, type_line.
  replace (after_prefix "# HELP " _) with (@None string) by done.
  by rewrite after_prefix_app, read_name_app.
Qed.

Lemma read_line_sample (name : string) (s : sample) :
  is_name name = true → sample_ok s → read_line (print_sample name s) = Some (LSample name s).
Proof.
  intros Hn Hs. unfold read_line. pose proof (read_sample_ok name s Hn Hs) as Hr. revert Hr. unfold print_sample.
  rewrite !name_no_comment by done. by intros ->.
Qed.

(** The lines of a page as the reader sees them. *)
Definition family_texts (f : family) : list text_line :=
  LHelp (fm_name f) (fm_help f) :: LType (fm_name f) (fm_kind f) :: (LSample (fm_name f) <$> fm_samples f).

Lemma mapM_app_Some {A B : Type} (f : A → option B) (l1 l2 : list A) (k1 k2 : list B) :
  mapM f l1 = Some k1 → mapM f l2 = Some k2 → mapM f (l1 ++ l2) = Some (k1 ++ k2).
Proof. rewrite !mapM_Some. apply Forall2_app. Qed.

Lemma read_family_lines (f : family) : family_ok f → mapM read_line (family_lines f) = Some (family_texts f).
Proof.
  intros Hf. unfold family_lines, family_texts. cbn [mapM]. rewrite read_line_help, read_line_type by done.
  assert (mapM read_line (print_sample (fm_name f) <$> fm_samples f) = Some (LSample (fm_name f) <$> fm_samples f)) as ->; [|done].
  apply mapM_Some. destruct Hf as [Hn _ _ Hs]. rewrite Forall2_fmap.
  induction Hs as [|s ss Hs Hss IH]; constructor; [by apply read_line_sample|done].
Qed.

Lemma read_pages (fs : list family) :
  Forall family_ok fs → mapM read_line (fs ≫= family_lines) = Some (fs ≫= family_texts).
Proof.
  induction 1 as [|f fs Hf Hfs IH]; [done|]. rewrite !bind_cons. by apply mapM_app_Some; [apply read_family_lines|].
Qed.

(** No line of a page starts with a sample, so samples are read up to the next family. *)
Lemma read_samples_app (name : string) (ss : list sample) (fs : list family) :
  read_samples name ((LSample name <$> ss) ++ (fs ≫= family_texts)) = (ss, fs ≫= family_texts).
Proof.
  induction ss as [|s ss IH]; [by destruct fs|].
  rewrite fmap_cons. cbn [app read_samples]. by rewrite String.eqb_refl, IH.
Qed.

Lemma read_families_ok (fuel : nat) (fs : list family) :
  Forall family_ok fs → (length fs ≤ fuel)%nat → read_families fuel (fs ≫= family_texts) = Some fs.
Proof.
  intros Hfs. revert fuel. induction Hfs as [|f fs [Hn Hh Hk Hs] Hfs IH]; intros fuel Hl; [by destruct fuel|].
  destruct fuel as [|fuel]; [simpl in Hl; lia|].
  rewrite bind_cons. unfold family_texts at 1. cbn [app read_families].
  rewrite String.eqb_refl, Hk. cbn [andb]. rewrite read_samples_app, IH by (simpl in Hl; lia).
  by destruct f.
Qed.

Lemma Split_unlines (ls : list string) :
  Forall (λ l, no_char newline l = true) ls → Split newline (unlines ls) = ls ++ [""].
Proof.
  induction 1 as [|l ls Hl Hls IH]; [done|]. simpl unlines. unfold line.
  rewrite <- string_app_assoc. simpl String.append at 2. rewrite Split_app by done. by rewrite IH.
Qed.

Lemma no_char_app (c : ascii) (a b : string) : no_char c (a +:+ b) = no_char c a && no_char c b.
Proof. apply forallb_str_app. Qed.

Lemma name_no_newline (n : string) : forallb_str name_char n = true → no_char newline n = true.
Proof.
  apply forallb_str_mono. intros c. destruct c as [[] [] [] [] [] [] [] []]; vm_compute; congruence.
Qed.

Lemma Itoa_no_newline (z : Z) : no_char newline (Itoa z) = true.
Proof.
  pose proof (Itoa_word z) as Hw. unfold is_word in Hw. apply andb_true_iff in Hw as [_ Hw].
  revert Hw. apply forallb_str_mono. intros c. destruct c as [[] [] [] [] [] [] [] []]; vm_compute; congruence.
Qed.

Lemma Join_no_newline (ls : list string) :
  Forall (λ l, no_char newline l = true) ls → no_char newline (Join "," ls) = true.
Proof.
  induction 1 as [|x ls Hx Hls IH]; [done|]. destruct ls as [|y ls]; [done|].
  change (Join "," (x :: y :: ls)) with (x +:+ "," +:+ Join "," (y :: ls)).
  by rewrite !no_char_app, Hx, IH.
Qed.

Lemma print_sample_no_newline (name : string) (s : sample) :
  is_name name = true → sample_ok s → no_char newline (print_sample name s) = true.
Proof.
  intros [_ Hn]%is_name_spec [Hl]. unfold print_sample.
  rewrite !no_char_app, (name_no_newline name), Itoa_no_newline by done.
  destruct (sm_labels s) as [|l ls]; [done|]. rewrite print_labels_join, !no_char_app, Join_no_newline; [done|].
  apply Forall_fmap. eapply Forall_impl; [exact Hl|]. intros [n v] [[_ Hn']%is_name_spec Hv]. simpl in *.
  unfold print_label, Quote. simpl fst. simpl snd.
  change (String dquote (quote_body 0 v +:+ String dquote ""))
    with (String dquote "" +:+ quote_body 0 v +:+ String dquote "").
  by rewrite !no_char_app, quote_body_no_newline, (name_no_newline n).
Qed.

Lemma family_lines_no_newline (f : family) :
  family_ok f → Forall (λ l, no_char newline l = true) (family_lines f).
Proof.
  intros [[Hne Hn]%is_name_spec Hh Hk Hs]. unfold family_lines, help_line, type_line. repeat constructor.
  - rewrite !no_char_app, (name_no_newline (fm_name f)) by done. simpl. revert Hh. apply forallb_str_mono.
    intros c. destruct c as [[] [] [] [] [] [] [] []]; vm_compute; congruence.
  - rewrite !no_char_app, (name_no_newline (fm_name f)) by done. simpl.
    unfold one_of in Hk. apply existsb_exists in Hk as (k & Hk & ->%String.eqb_eq). simpl in Hk.
    by destruct_or!; subst.
  - apply Forall_fmap. eapply Forall_impl; [exact Hs|]. intros s Hs'. simpl.
    apply print_sample_no_newline; [|done]. unfold is_name. by rewrite Hne, Hn.
Qed.

(** A page of well-formed families is read back to them: names, help, types, labels
    and values. *)
Lemma page_roundtrip (fs : list family) : Forall family_ok fs → read_page (print_page fs) = Some fs.
Proof.
  intros Hfs. unfold read_page, print_page.
  rewrite Split_unlines, reverse_snoc; [cbn [is_empty]|].
  - rewrite reverse_involutive, read_pages by done. cbn. apply read_families_ok; [done|].
    clear Hfs. induction fs as [|f fs IH]; [done|]. rewrite bind_cons, length_app. simpl. lia.
  - apply Forall_bind. eapply Forall_impl; [exact Hfs|]. apply family_lines_no_newline.
Qed.
End roundtrip.

(** A value with a control character is not a label the reader knows: Quote writes
    an escape of Go. *)
Example tab_is_no_label `{Unicode} : read_quoted (quote_body 0 (String (ascii_of_nat 9) "") +:+ String dquote "") = None.
Proof. reflexivity. Qed.

Example quote_example :
  @Quote (λ _, false) (String (ascii_of_nat 195) (String (ascii_of_nat 164) "a")) =
  String dquote (String backslash ("u00e4a" +:+ String dquote "")).
Proof. reflexivity. Qed.
