(* ===== verification/Cli.v ===== *)
(** * The command line of the katamaran binary (internal/katamaran/cli.go)

    [Run] from the arguments to the exit code: the flags, the checks in the
    order of the code, the configuration handed to [RunSource] or
    [RunDestination], and the code for their result.  Output is left out; of
    logging.SetupLogger (internal/logging/logging.go) the check of its two
    arguments is represented.  As everywhere, [ToLower] maps ASCII letters. *)
From S2P Require Import Prelude GoErrors GoStrings Netip QmpTypes Effects Flags Qmp MigConfig Source Dest.
From S2P Require Import OrchTypes OrchValidate OrchArgs CmdlineFetch.

Definition roleSource : string := "source".
Definition roleDest : string := "dest".

(** The defined flags with their defaults. *)
Definition cli_flags : formals :=
  [("mode", FStr ""); ("qmp", FStr "/run/vc/vm/extra-monitor.sock"); ("tap", FStr ""); ("tap-netns", FStr "");
   ("dest-ip", FStr ""); ("vm-ip", FStr ""); ("drive-id", FStr "drive-virtio-disk0"); ("shared-storage", FBool false);
   ("tunnel-mode", FStr "ipip"); ("downtime", FInt 25); ("auto-downtime", FBool false);
   ("auto-downtime-floor-ms", FInt 0); ("cni-convergence-delay", FDur 0);
   ("multifd-channels", FInt DefaultMultifdChannels); ("log-format", FStr "text"); ("log-level", FStr "info");
   ("pod-name", FStr ""); ("pod-namespace", FStr ""); ("dest-pod-name", FStr ""); ("dest-pod-namespace", FStr "");
   ("emit-cmdline-to", FStr ""); ("replay-cmdline", FStr ""); ("replay-cmdline-from-pod", FStr "");
   ("version", FBool false); ("v", FBool false); ("help", FBool false); ("h", FBool false)].

(** The variable behind a flag. *)
Definition value (actual : gmap string fval) (name : string) : fval :=
  default (FStr "") (match actual !! name with Some x => Some x | None => formal_lookup cli_flags name end).
Definition str (actual : gmap string fval) (name : string) : string :=
  match value actual name with FStr s => s | _ => "" end.
Definition boolean (actual : gmap string fval) (name : string) : bool :=
  match value actual name with FBool b => b | _ => false end.
Definition num (actual : gmap string fval) (name : string) : Z :=
  match value actual name with FInt z | FDur z => z | _ => 0 end.
Definition seen (actual : gmap string fval) (name : string) : bool := negb (is_nil (actual !! name)).

(** logging.SetupLogger accepts its arguments. *)
Definition parseLevel (s : string) : bool := one_of s ["debug"; "info"; "warn"; "error"].
Definition SetupLogger (format level : string) : option error :=
  if negb (parseLevel level) then Some (ErrNew "invalid log level")
  else if one_of format ["json"; "text"] then None
  else Some (ErrNew "invalid log format").

(** What [Run] decides before the migration starts: an exit code, or a
    configuration to run. *)
Inductive cli_action :=
| CliExit (code : Z)
| CliDest (cfg : DestConfig)
| CliSource (cfg : SourceConfig).

Definition dest_action (a : gmap string fval) : cli_action :=
  if negb (eqb (seen a "dest-pod-name") (seen a "dest-pod-namespace")) then CliExit 2
  else if negb (eqb (seen a "pod-name") (seen a "pod-namespace")) then CliExit 2
  else if negb (is_empty (str a "replay-cmdline")) && negb (is_empty (str a "replay-cmdline-from-pod")) then CliExit 2
  else
    let sourcePodRef :=
      if negb (is_empty (str a "pod-namespace")) && negb (is_empty (str a "pod-name"))
      then str a "pod-namespace" +:+ "/" +:+ str a "pod-name" else "" in
    CliDest (MkDestConfig (str a "qmp") (str a "tap") (str a "tap-netns") (Split "," (str a "drive-id"))
      (boolean a "shared-storage") (num a "multifd-channels") (str a "dest-pod-name") (str a "dest-pod-namespace")
      (str a "replay-cmdline") (str a "replay-cmdline-from-pod") "" "" sourcePodRef).

(** The addresses of the source: [None] on an error. *)
Definition source_addrs (hasPod : bool) (destIP vmIP : string) : option (Addr * Addr) :=
  match ParseAddr destIP with
  | None => None
  | Some dest =>
      let dest := Unmap dest in
      if hasPod then Some (dest, AddrInvalid)
      else
        match ParseAddr vmIP with
        | None => None
        | Some vm => let vm := Unmap vm in if negb (eqb (Is4 dest) (Is4 vm)) then None else Some (dest, vm)
        end
  end.

Definition source_action (a : gmap string fval) : cli_action :=
  if is_empty (str a "dest-ip") then CliExit 2
  else if negb (eqb (seen a "pod-name") (seen a "pod-namespace")) then CliExit 2
  else
    let hasPod := negb (is_empty (str a "pod-name")) && negb (is_empty (str a "pod-namespace")) in
    if hasPod && (seen a "vm-ip" || seen a "qmp") then CliExit 2
    else if negb hasPod && is_empty (str a "vm-ip") then CliExit 2
    else
      match source_addrs hasPod (str a "dest-ip") (str a "vm-ip") with
      | None => CliExit 2
      | Some (dest, vm) =>
          let tm := ToLower (str a "tunnel-mode") in
          if negb (one_of tm [TunnelModeIPIP; TunnelModeGRE; TunnelModeNone]) then CliExit 2
          else if (num a "downtime" <? 1) || (num a "downtime" >? 60000) then CliExit 2
          else
            CliSource (MkSourceConfig (str a "qmp") dest vm (Split "," (str a "drive-id"))
              (boolean a "shared-storage") tm (num a "downtime") (boolean a "auto-downtime")
              (num a "auto-downtime-floor-ms") (num a "cni-convergence-delay") (num a "multifd-channels")
              (str a "pod-name") (str a "pod-namespace") (str a "emit-cmdline-to"))
      end.

Definition mode_action (a : gmap string fval) : cli_action :=
  let mode := ToLower (str a "mode") in
  if negb (one_of mode [roleSource; roleDest]) then CliExit 2
  else if negb (is_nil (SetupLogger (ToLower (str a "log-format")) (ToLower (str a "log-level")))) then CliExit 2
  else if num a "multifd-channels" <? 0 then CliExit 2
  else if (mode =? roleSource)%string && (num a "auto-downtime-floor-ms" <? 0) then CliExit 2
  else if (mode =? roleSource)%string && (num a "cni-convergence-delay" <? 0) then CliExit 2
  else if (mode =? roleDest)%string then dest_action a else source_action a.

Section cli.
Context `{FloatFraction}.

Definition cli (args : list string) : cli_action :=
  match Parse cli_flags args ∅ with
  | None => CliExit 2
  | Some (a, rest) =>
      if boolean a "help" || boolean a "h" then CliExit 0
      else if boolean a "version" || boolean a "v" then CliExit 0
      else match rest with [] => mode_action a | _ => CliExit 2 end
  end.

(** The exit code for the result of the migration. *)
Definition exit_code (err : option error) : Z :=
  match err with
  | None => 0
  | Some e => if errors_Is e ErrCanceled then 130 else 1
  end.

Definition Run (fuel : nat) (args : list string) : M Z :=
  match cli args with
  | CliExit code => mret code
  | CliDest cfg => err ← RunDestination fuel cfg; mret (exit_code err)
  | CliSource cfg => err ← RunSource fuel cfg; mret (exit_code err)
  end.

End cli.

(** ** Maps of flags *)

Definition setif (c : bool) (k : string) (x : fval) (a : gmap string fval) : gmap string fval :=
  if c then <[k := x]> a else a.

Lemma lookup_setif c k x a k' :
  setif c k x a !! k' = if c && (k =? k')%string then Some x else a !! k'.
Proof.
  destruct c; [|done]. cbn [setif andb]. destruct (String.eqb_spec k k') as [->|Hk].
  - by rewrite lookup_insert_eq.
  - by rewrite lookup_insert_ne.
Qed.

Section parse.
Context `{FloatFraction}.

Lemma Parse_if_bool (c : bool) s rest a name b :
  classify s = AFlag name None → formal_lookup cli_flags name = Some (FBool b) →
  Parse cli_flags ((if c then [s] else []) ++ rest) a = Parse cli_flags rest (setif c name (FBool true) a).
Proof. intros Hc Hf. destruct c; [|done]. by apply Parse_bool with b. Qed.

Lemma Parse_if_value (c : bool) s v rest a name d x :
  classify s = AFlag name None → formal_lookup cli_flags name = Some d → is_bool_flag d = false →
  (c = true → set_value d v = Some x) →
  Parse cli_flags ((if c then [s; v] else []) ++ rest) a = Parse cli_flags rest (setif c name x a).
Proof. intros Hc Hf Hb Hv. destruct c; [|done]. by apply (Parse_value _ s v rest a name d x Hc Hf Hb), Hv. Qed.

Lemma Parse_opt s v rest a name d :
  classify s = AFlag name None → formal_lookup cli_flags name = Some (FStr d) →
  Parse cli_flags (opt_arg s v ++ rest) a = Parse cli_flags rest (setif (negb (is_empty v)) name (FStr v) a).
Proof.
  intros Hc Hf. unfold opt_arg. destruct (is_empty v); cbn [negb]; [done|].
  by apply (Parse_value _ s v rest a name _ (FStr v) Hc Hf).
Qed.

Lemma Parse_pod f1 f2 p rest a n1 n2 :
  classify f1 = AFlag n1 None → formal_lookup cli_flags n1 = Some (FStr "") →
  classify f2 = AFlag n2 None → formal_lookup cli_flags n2 = Some (FStr "") →
  Parse cli_flags (pod_args f1 f2 p ++ rest) a =
  Parse cli_flags rest (setif (negb (is_nil p)) n2 (FStr (default "" (pr_Namespace <$> p)))
                         (setif (negb (is_nil p)) n1 (FStr (default "" (pr_Name <$> p))) a)).
Proof.
  intros H1 F1 H2 F2. destruct p as [p|]; [|done]. cbn [pod_args app].
  rewrite (Parse_value _ f1 _ _ _ n1 _ (FStr (pr_Name p)) H1 F1) by done.
  by rewrite (Parse_value _ f2 _ _ _ n2 _ (FStr (pr_Namespace p)) H2 F2) by done.
Qed.

(** The flags that [buildExtraArgs] sets. *)
Definition extra_flags (req : Request) (a : gmap string fval) : gmap string fval :=
  setif (negb (is_empty (rq_LogFormat req))) "log-format" (FStr (rq_LogFormat req)) $
  setif (negb (is_empty (rq_LogLevel req))) "log-level" (FStr (rq_LogLevel req)) $
  setif true "multifd-channels" (FInt (rq_MultifdChannels req)) $
  setif (rq_CNIConvergenceDelaySeconds req >? 0) "cni-convergence-delay" (FDur (rq_CNIConvergenceDelaySeconds req * second)) $
  setif (rq_AutoDowntime req && (rq_AutoDowntimeFloorMS req >? 0)) "auto-downtime-floor-ms" (FInt (rq_AutoDowntimeFloorMS req)) $
  setif (rq_AutoDowntime req) "auto-downtime" (FBool true) $
  setif (rq_DowntimeMS req >? 0) "downtime" (FInt (rq_DowntimeMS req)) $
  setif (negb (is_empty (rq_TunnelMode req))) "tunnel-mode" (FStr (rq_TunnelMode req)) $
  setif (negb (is_empty (rq_TapNetns req))) "tap-netns" (FStr (rq_TapNetns req)) $
  setif (negb (is_empty (rq_TapIface req))) "tap" (FStr (rq_TapIface req)) $
  setif (negb (is_nil (rq_DestPod req))) "dest-pod-namespace" (FStr (default "" (pr_Namespace <$> rq_DestPod req))) $
  setif (negb (is_nil (rq_DestPod req))) "dest-pod-name" (FStr (default "" (pr_Name <$> rq_DestPod req))) $
  setif (negb (is_nil (rq_SourcePod req))) "pod-namespace" (FStr (default "" (pr_Namespace <$> rq_SourcePod req))) $
  setif (negb (is_nil (rq_SourcePod req))) "pod-name" (FStr (default "" (pr_Name <$> rq_SourcePod req))) $
  setif (rq_SharedStorage req) "shared-storage" (FBool true) a.

(** The numbers of a request fit the types of the flags. *)
Definition flags_fit (req : Request) : Prop :=
  rq_MultifdChannels req ≤ max_int64 ∧ rq_AutoDowntimeFloorMS req ≤ max_int64 ∧
  rq_CNIConvergenceDelaySeconds req * second ≤ max_int64.

Lemma Parse_extra req rest a :
  flags_fit req → 0 ≤ rq_MultifdChannels req → rq_DowntimeMS req ≤ 60000 →
  Parse cli_flags (extra_words req ++ rest) a = Parse cli_flags rest (extra_flags req a).
Proof.
  intros (Hm & Hf & Hc) Hm0 Hd. unfold extra_words. rewrite <- !app_assoc.
  rewrite (Parse_if_bool _ "--shared-storage" _ _ "shared-storage" false) by done.
  rewrite (Parse_pod "--pod-name" "--pod-namespace" _ _ _ "pod-name" "pod-namespace") by done.
  rewrite (Parse_pod "--dest-pod-name" "--dest-pod-namespace" _ _ _ "dest-pod-name" "dest-pod-namespace") by done.
  rewrite (Parse_opt "--tap" _ _ _ "tap" "") by done.
  rewrite (Parse_opt "--tap-netns" _ _ _ "tap-netns" "") by done.
  rewrite (Parse_opt "--tunnel-mode" _ _ _ "tunnel-mode" "ipip") by done.
  assert (Hi : ∀ z d, z ≤ max_int64 → (z >? 0) = true → set_value (FInt d) (Itoa z) = Some (FInt z)).
  { intros z d Hz Hp. cbn [set_value]. by rewrite ParseInt0_Itoa by lia. }
  rewrite (Parse_if_value _ "--downtime" _ _ _ "downtime" (FInt 25) (FInt (rq_DowntimeMS req)))
    by (done || (apply Hi; unfold max_int64; lia)).
  replace (if rq_AutoDowntime req then _ else _) with
    ((if rq_AutoDowntime req then ["--auto-downtime"] else []) ++
     (if rq_AutoDowntime req && (rq_AutoDowntimeFloorMS req >? 0)
      then ["--auto-downtime-floor-ms"; Itoa (rq_AutoDowntimeFloorMS req)] else []))
    by (by destruct (rq_AutoDowntime req)).
  rewrite <- app_assoc. rewrite (Parse_if_bool _ "--auto-downtime" _ _ "auto-downtime" false) by done.
  rewrite (Parse_if_value _ "--auto-downtime-floor-ms" _ _ _ "auto-downtime-floor-ms" (FInt 0)
             (FInt (rq_AutoDowntimeFloorMS req)))
    by (done || (intros [_ Hp]%andb_true_iff; by apply Hi)).
  rewrite (Parse_if_value _ "--cni-convergence-delay" _ _ _ "cni-convergence-delay" (FDur 0)
             (FDur (rq_CNIConvergenceDelaySeconds req * second)))
    by (done || (intros Hp; cbn [set_value]; by rewrite ParseDuration_seconds by lia)).
  rewrite (Parse_if_value true "--multifd-channels" (Itoa (rq_MultifdChannels req)) _ _ "multifd-channels"
             (FInt DefaultMultifdChannels) (FInt (rq_MultifdChannels req)))
    by (done || (intros _; cbn [set_value]; by rewrite ParseInt0_Itoa by lia)).
  rewrite (Parse_opt "--log-level" _ _ _ "log-level" "info") by done.
  by rewrite (Parse_opt "--log-format" _ _ _ "log-format" "text") by done.
Qed.

End parse.

(** ** Reading the flags back *)

Lemma value_setif_ne c k x a k' : (k =? k')%string = false → value (setif c k x a) k' = value a k'.
Proof. intros Hk. unfold value. by rewrite lookup_setif, Hk, andb_false_r. Qed.

Lemma value_setif_eq c k x a : value (setif c k x a) k = if c then x else value a k.
Proof. unfold value. rewrite lookup_setif, String.eqb_refl, andb_true_r. by destruct c. Qed.

Lemma seen_setif_ne c k x a k' : (k =? k')%string = false → seen (setif c k x a) k' = seen a k'.
Proof. intros Hk. unfold seen. by rewrite lookup_setif, Hk, andb_false_r. Qed.

Lemma seen_setif_eq c k x a : seen (setif c k x a) k = c || seen a k.
Proof. unfold seen. rewrite lookup_setif, String.eqb_refl, andb_true_r. by destruct c. Qed.

(** Reads one flag of a chain of [setif]s. *)
Ltac read_flag :=
  unfold str, boolean, num, extra_flags;
  repeat first
    [ rewrite value_setif_ne by reflexivity | rewrite seen_setif_ne by reflexivity
    | rewrite value_setif_eq | rewrite seen_setif_eq ].

(** ** What the shell of a Job passes to the binary

    Field splitting and quote removal, which is all that a POSIX shell does to a
    command made of plain words and words in double quotes. *)
Fixpoint unquote (s : string) : string :=
  match s with
  | EmptyString => EmptyString
  | String c s => if Ascii.eqb c (ascii_of_nat 34) then unquote s else String c (unquote s)
  end.

Definition shell_argv (cmd : string) : list string := unquote <$> drop 1 (Fields cmd).

Lemma unquote_app a b : unquote (a +:+ b) = unquote a +:+ unquote b.
Proof. induction a as [|c a IH]; [done|]. cbn [String.append unquote]. rewrite IH. by case_match. Qed.

Lemma unquote_safe v : forallb_str safe_char v = true → unquote v = v.
Proof.
  induction v as [|c v IH]; [done|]. cbn [forallb_str unquote]. intros [Hc Hv]%andb_true_iff.
  rewrite IH by done. destruct (Ascii.eqb_spec c (ascii_of_nat 34)) as [->|]; [by vm_compute in Hc|done].
Qed.

Lemma unquote_plain ws : Forall plain_word ws → unquote <$> ws = ws.
Proof.
  induction 1 as [|w ws [_ Hw] Hws IH]; [done|]. rewrite fmap_cons, IH. by rewrite unquote_safe.
Qed.

Lemma unquote_quoted v : forallb_str safe_char v = true → unquote (dq +:+ v +:+ dq) = v.
Proof. intros Hv. rewrite !unquote_app, (unquote_safe v Hv). cbn. apply string_app_nil_r. Qed.

Section jobs.
Context `{FloatFraction}.

(** The configuration a request stands for, on the source. *)
Definition source_config_of (req : Request) (p : PodRef) (id : MigrationID) : SourceConfig :=
  MkSourceConfig "/run/vc/vm/extra-monitor.sock"
    (Unmap (default AddrInvalid (ParseAddr (rq_DestIP req)))) AddrInvalid ["drive-virtio-disk0"]
    (rq_SharedStorage req) (ToLower (cmp_Or (rq_TunnelMode req) "ipip"))
    (if rq_DowntimeMS req >? 0 then rq_DowntimeMS req else 25)
    (rq_AutoDowntime req)
    (if rq_AutoDowntime req then rq_AutoDowntimeFloorMS req else 0)
    (rq_CNIConvergenceDelaySeconds req * second) (rq_MultifdChannels req)
    (pr_Name p) (pr_Namespace p) (if rq_ReplayCmdline req then cmdlinePathFor id else "").

Lemma source_parse req id :
  flags_fit req → 0 ≤ rq_MultifdChannels req → rq_DowntimeMS req ≤ 60000 →
  Parse cli_flags (["--mode"; "source"; "--dest-ip"; rq_DestIP req] ++ source_words req id) ∅ =
  Some (setif (rq_ReplayCmdline req) "emit-cmdline-to" (FStr (cmdlinePathFor id))
          (extra_flags req (setif true "dest-ip" (FStr (rq_DestIP req)) (setif true "mode" (FStr "source") ∅))), []).
Proof.
  intros Hf Hm Hd. unfold source_words.
  change (["--mode"; "source"; "--dest-ip"; rq_DestIP req] ++ ?l) with
    ((if true then ["--mode"; "source"] else []) ++ (if true then ["--dest-ip"; rq_DestIP req] else []) ++ l).
  rewrite (Parse_if_value true "--mode" "source" _ _ "mode" (FStr "") (FStr "source")) by done.
  rewrite (Parse_if_value true "--dest-ip" _ _ _ "dest-ip" (FStr "") (FStr (rq_DestIP req))) by done.
  rewrite Parse_extra by done. rewrite <- (app_nil_r (if rq_ReplayCmdline req then _ else _)).
  by rewrite (Parse_if_value _ "--emit-cmdline-to" _ _ _ "emit-cmdline-to" (FStr "") (FStr (cmdlinePathFor id))) by done.
Qed.

(** What [Validate] guarantees to the binary. *)
Lemma Validate_flags req :
  Validate req = None →
  pod_incomplete (rq_SourcePod req) = false ∧ pod_incomplete (rq_DestPod req) = false ∧
  one_of (ToLower (cmp_Or (rq_TunnelMode req) "ipip")) [TunnelModeIPIP; TunnelModeGRE; TunnelModeNone] = true ∧
  0 ≤ rq_DowntimeMS req ≤ 60000 ∧ 0 ≤ rq_MultifdChannels req ∧ 0 ≤ rq_AutoDowntimeFloorMS req ∧
  0 ≤ rq_CNIConvergenceDelaySeconds req ∧
  SetupLogger (ToLower (cmp_Or (rq_LogFormat req) "text")) (ToLower (cmp_Or (rq_LogLevel req) "info")) = None ∧
  ip_ok (rq_DestIP req) = true.
Proof.
  intros (Hc & _ & Hi & _)%Validate_None. unfold request_checks in Hc.
  repeat match goal with H : Forall _ (_ :: _) |- _ => apply Forall_cons in H as [? H] end. cbn [fst] in *.
  repeat match goal with H : negb _ = false |- _ => apply negb_false_iff in H end.
  assert (Hlow : ∀ s d l, one_of (ToLower s) ("" :: l) = true → one_of (ToLower d) l = true →
                          one_of (ToLower (cmp_Or s d)) l = true).
  { intros s d l Hs Hd. unfold cmp_Or, is_empty. destruct (String.eqb_spec s "") as [->|Hne]; [done|].
    unfold one_of in *. cbn [existsb] in Hs. apply orb_true_iff in Hs as [Hs|Hs]; [|done].
    apply String.eqb_eq in Hs. by destruct s. }
  split_and!; try done; try lia.
  - by apply Hlow.
  - unfold SetupLogger, parseLevel. rewrite Hlow by done. cbn [negb].
    assert (Hf : one_of (ToLower (cmp_Or (rq_LogFormat req) "text")) ["text"; "json"] = true) by (by apply Hlow).
    unfold one_of in *. cbn [existsb] in *. rewrite orb_false_r in *. rewrite orb_comm, Hf. done.
Qed.

(** A map that sets none of the flags of [buildExtraArgs]. *)
Definition extra_names : list string :=
  ["log-format"; "log-level"; "multifd-channels"; "cni-convergence-delay"; "auto-downtime-floor-ms"; "auto-downtime";
   "downtime"; "tunnel-mode"; "tap-netns"; "tap"; "dest-pod-namespace"; "dest-pod-name"; "pod-namespace"; "pod-name";
   "shared-storage"].

Definition base_ok (a : gmap string fval) : Prop := Forall (fun k => a !! k = None) extra_names.

(** The values of the flags after the arguments of a request. *)
Lemma extra_flag_values req a :
  base_ok a → 0 ≤ rq_AutoDowntimeFloorMS req → 0 ≤ rq_CNIConvergenceDelaySeconds req →
  let e := extra_flags req a in
  str e "log-format" = cmp_Or (rq_LogFormat req) "text" ∧ str e "log-level" = cmp_Or (rq_LogLevel req) "info" ∧
  num e "multifd-channels" = rq_MultifdChannels req ∧
  num e "cni-convergence-delay" = rq_CNIConvergenceDelaySeconds req * second ∧
  num e "auto-downtime-floor-ms" = (if rq_AutoDowntime req then rq_AutoDowntimeFloorMS req else 0) ∧
  boolean e "auto-downtime" = rq_AutoDowntime req ∧
  num e "downtime" = (if rq_DowntimeMS req >? 0 then rq_DowntimeMS req else 25) ∧
  str e "tunnel-mode" = cmp_Or (rq_TunnelMode req) "ipip" ∧
  str e "tap-netns" = rq_TapNetns req ∧ str e "tap" = rq_TapIface req ∧
  str e "dest-pod-namespace" = default "" (pr_Namespace <$> rq_DestPod req) ∧
  str e "dest-pod-name" = default "" (pr_Name <$> rq_DestPod req) ∧
  str e "pod-namespace" = default "" (pr_Namespace <$> rq_SourcePod req) ∧
  str e "pod-name" = default "" (pr_Name <$> rq_SourcePod req) ∧
  boolean e "shared-storage" = rq_SharedStorage req ∧
  seen e "dest-pod-name" = seen e "dest-pod-namespace" ∧ seen e "pod-name" = seen e "pod-namespace".
Proof.
  intros Hb Hf Hc e. unfold e, base_ok, extra_names in *.
  repeat match goal with H : Forall _ (_ :: _) |- _ => apply Forall_cons in H as [? H] end.
  assert (Hv : ∀ k d, a !! k = None → formal_lookup cli_flags k = Some d → value a k = d).
  { intros k d Hk Hd. unfold value. by rewrite Hk, Hd. }
  assert (Hs : ∀ k, a !! k = None → seen a k = false) by (intros k Hk; unfold seen; by rewrite Hk).
  split_and!; read_flag;
    repeat match goal with
    | |- context [value a ?k] => rewrite (Hv k _ ltac:(assumption) eq_refl)
    | |- context [seen a ?k] => rewrite (Hs k ltac:(assumption))
    end; cbn [snd]; unfold cmp_Or.
  all: repeat match goal with
       | |- context [is_empty ?s] => unfold is_empty; destruct (String.eqb_spec s ""); cbn [negb]
       | |- context [is_nil ?p] => destruct p; cbn [is_nil negb]
       | |- context [rq_AutoDowntime ?r] => destruct (rq_AutoDowntime r); cbn [andb]
       | |- context [?x >? 0] => destruct (Z.gtb_spec x 0); cbn [andb]
       | |- context [if ?b then _ else _] => destruct b; cbn [andb]
       end; unfold second; try done; try lia.
Qed.

(** A flag that nothing sets has its default. *)
Lemma extra_flags_unset req a k :
  a !! k = None → existsb (String.eqb k) extra_names = false →
  value (extra_flags req a) k = default (FStr "") (formal_lookup cli_flags k) ∧ seen (extra_flags req a) k = false.
Proof.
  intros Ha Hk. unfold extra_names in Hk. cbn [existsb] in Hk.
  repeat match goal with H : _ || _ = false |- _ => apply orb_false_iff in H as [? H] end.
  repeat match goal with H : (k =? _)%string = false |- _ => rewrite String.eqb_sym in H end.
  unfold extra_flags. split.
  - rewrite !value_setif_ne by done. unfold value. by rewrite Ha.
  - rewrite !seen_setif_ne by done. unfold seen. by rewrite Ha.
Qed.

Lemma unset_boolean a k :
  value a k = default (FStr "") (formal_lookup cli_flags k) →
  (match formal_lookup cli_flags k with Some (FBool b) => b | _ => false end) = false → boolean a k = false.
Proof. intros Hv Hf. unfold boolean. rewrite Hv. by destruct (formal_lookup cli_flags k) as [[]|]. Qed.

(** Setting one flag leaves the others alone. *)
Lemma setif_same c k x a :
  let a' := setif c k x a in
  (∀ k', (k =? k')%string = false → str a' k' = str a k') ∧
  (∀ k', (k =? k')%string = false → boolean a' k' = boolean a k') ∧
  (∀ k', (k =? k')%string = false → num a' k' = num a k') ∧
  (∀ k', (k =? k')%string = false → seen a' k' = seen a k').
Proof.
  intros a'. split_and!; intros k' Hk; unfold a', str, boolean, num;
    by rewrite ?value_setif_ne, ?seen_setif_ne by done.
Qed.

(** The checks both modes share. *)
Lemma mode_action_ok a mode :
  str a "mode" = mode → mode = roleSource ∨ mode = roleDest →
  SetupLogger (ToLower (str a "log-format")) (ToLower (str a "log-level")) = None →
  0 ≤ num a "multifd-channels" → 0 ≤ num a "auto-downtime-floor-ms" → 0 ≤ num a "cni-convergence-delay" →
  mode_action a = if (mode =? roleDest)%string then dest_action a else source_action a.
Proof.
  intros Hm Hor Hl H1 H2 H3. unfold mode_action. rewrite Hm, Hl.
  replace (num a "multifd-channels" <? 0) with false by lia.
  replace (num a "auto-downtime-floor-ms" <? 0) with false by lia.
  replace (num a "cni-convergence-delay" <? 0) with false by lia.
  rewrite !andb_false_r. by destruct Hor as [-> | ->].
Qed.

(** The checks of the source in pod mode. *)
Lemma source_action_pod a ip pod ns :
  str a "dest-ip" ≠ "" → ParseAddr (str a "dest-ip") = Some ip →
  str a "pod-name" = pod → str a "pod-namespace" = ns → pod ≠ "" → ns ≠ "" →
  seen a "pod-name" = seen a "pod-namespace" → seen a "vm-ip" = false → seen a "qmp" = false →
  one_of (ToLower (str a "tunnel-mode")) [TunnelModeIPIP; TunnelModeGRE; TunnelModeNone] = true →
  1 ≤ num a "downtime" ≤ 60000 →
  source_action a =
  CliSource (MkSourceConfig (str a "qmp") (Unmap ip) AddrInvalid (Split "," (str a "drive-id"))
    (boolean a "shared-storage") (ToLower (str a "tunnel-mode")) (num a "downtime") (boolean a "auto-downtime")
    (num a "auto-downtime-floor-ms") (num a "cni-convergence-delay") (num a "multifd-channels") pod ns
    (str a "emit-cmdline-to")).
Proof.
  intros H1 H2 H3 H4 H5 H6 H7 H8 H9 H10 H11. unfold source_action, is_empty.
  rewrite H3, H4, H7, eqb_reflx, H8, H9, H10. destruct (String.eqb_spec (str a "dest-ip") ""); [done|].
  destruct (String.eqb_spec pod ""); [done|]. destruct (String.eqb_spec ns ""); [done|]. cbn [negb andb orb].
  unfold source_addrs. rewrite H2. replace (num a "downtime" <? 1) with false by lia.
  by replace (num a "downtime" >? 60000) with false by lia.
Qed.

Ltac base_ok_tac := unfold base_ok, extra_names; repeat constructor; by rewrite ?lookup_setif.

(** The binary in one of the two Jobs: past the checks that both modes share.
    [k] is the flag that the replay of a command line adds. *)
Lemma cli_job req args base mode c k v :
  Validate req = None → base_ok base → base !! "mode" = Some (FStr mode) → mode = roleSource ∨ mode = roleDest →
  Forall (fun k => base !! k = None) ["help"; "h"; "version"; "v"] →
  k = "emit-cmdline-to" ∨ k = "replay-cmdline-from-pod" →
  let e := extra_flags req base in
  Parse cli_flags args ∅ = Some (setif c k (FStr v) e, []) →
  cli args = if (mode =? roleDest)%string then dest_action (setif c k (FStr v) e)
             else source_action (setif c k (FStr v) e).
Proof.
  intros Hv Hb Hmode Hor Hnone Hk e Hparse.
  destruct (Validate_flags req Hv) as (_ & _ & _ & _ & Hmf & Hfl & Hcni & Hlog & _).
  destruct (extra_flag_values req base Hb Hfl Hcni) as (F1 & F2 & F3 & F4 & F5 & _). fold e in F1, F2, F3, F4, F5.
  destruct (setif_same c k (FStr v) e) as (T1 & T2 & T3 & _).
  assert (Hne : ∀ k', existsb (String.eqb k') ["emit-cmdline-to"; "replay-cmdline-from-pod"] = false → (k =? k')%string = false).
  { intros k' Hk'. apply String.eqb_neq. intros <-. destruct Hk as [-> | ->]; done. }
  assert (Hb4 : Forall (fun k => boolean e k = false) ["help"; "h"; "version"; "v"]).
  { repeat (apply Forall_cons in Hnone as [? Hnone]). repeat constructor;
      (apply unset_boolean; [by apply extra_flags_unset|reflexivity]). }
  repeat (apply Forall_cons in Hb4 as [? Hb4]).
  unfold cli. rewrite Hparse, !T2 by (by apply Hne).
  repeat match goal with H : boolean e _ = false |- _ => rewrite H; clear H end. cbn [orb].
  apply mode_action_ok; rewrite ?T1, ?T3 by (by apply Hne); rewrite ?F1, ?F2, ?F3, ?F4, ?F5;
    [|done|done|done|by destruct (rq_AutoDowntime req)|unfold second; lia].
  unfold e. read_flag. unfold value. by rewrite Hmode.
Qed.

(** The arguments of the source binary and the decision it takes on them. *)
Lemma source_job_action req b :
  Validate req = None → Forall octet b → flags_fit req →
  let base := setif true "dest-ip" (FStr (rq_DestIP req)) (setif true "mode" (FStr "source") ∅) in
  cli (shell_argv (expandShellVars source_command (source_vars req (newID b) (source_extra req (newID b))))) =
  source_action (setif (rq_ReplayCmdline req) "emit-cmdline-to" (FStr (cmdlinePathFor (newID b))) (extra_flags req base)).
Proof.
  intros Hv Hb Hfit base. destruct (Validate_flags req Hv) as (_ & _ & _ & Hdt & Hmf & _).
  destruct (request_quoted_safe req Hv) as [(_ & _ & Hsafe) _].
  unfold shell_argv. rewrite source_command_fields by done. cbn [app drop].
  rewrite !fmap_cons, unquote_plain by (by apply source_words_plain). rewrite unquote_quoted by done.
  change (unquote "--mode") with "--mode". change (unquote "source") with "source".
  change (unquote "--dest-ip") with "--dest-ip".
  pose proof (source_parse req (newID b) Hfit Hmf ltac:(lia)) as Hparse. cbn [app] in Hparse. fold base in Hparse.
  by rewrite (cli_job req _ base "source" (rq_ReplayCmdline req) "emit-cmdline-to" (cmdlinePathFor (newID b)) Hv
             ltac:(base_ok_tac) eq_refl (or_introl eq_refl) ltac:(by repeat constructor) (or_introl eq_refl) Hparse).
Qed.

(** C17. The source binary runs the migration that was asked for.  For every
    accepted request in pod mode with a destination address, whose numbers are
    64-bit integers and whose CNI convergence delay fits a Duration (at most
    9223372036 seconds: Validate accepts more, and then the binary exits with 2,
    [long_delay_rejected] below), the command line that the shell of the source
    Job builds is accepted by the binary, no value of the request is taken for a
    flag, and [RunSource] gets exactly the configuration the request describes,
    with the documented defaults for what it leaves out. *)
Theorem source_job_config req p b :
  Validate req = None → Forall octet b → rq_SourcePod req = Some p → rq_DestIP req ≠ "" → flags_fit req →
  cli (shell_argv (expandShellVars source_command (source_vars req (newID b) (source_extra req (newID b))))) =
  CliSource (source_config_of req p (newID b)).
Proof.
  intros Hv Hb Hp Hip Hfit. rewrite source_job_action by done. cbv zeta.
  destruct (Validate_flags req Hv) as (Hpod & _ & Htm & Hdt & Hmf & Hfl & Hcni & _ & Hok).
  set (base := setif true "dest-ip" (FStr (rq_DestIP req)) (setif true "mode" (FStr "source") ∅)) in *.
  destruct (extra_flag_values req base) as (_ & _ & F3 & F4 & F5 & F6 & F7 & F8 & _ & _ & _ & _ & F9 & F10 & F11 & _ & F12);
    [base_ok_tac|done|done|].
  assert (Hdest : str (extra_flags req base) "dest-ip" = rq_DestIP req) by (by unfold base; read_flag).
  pose proof (extra_flags_unset req base) as Hun.
  set (e := extra_flags req base) in *.
  destruct (Hun "vm-ip" eq_refl eq_refl) as [Hvm Hvm2]. destruct (Hun "qmp" eq_refl eq_refl) as [Hq Hq2].
  destruct (Hun "emit-cmdline-to" eq_refl eq_refl) as [Hemit _].
  rewrite Hp in F9, F10. cbn in F9, F10.
  destruct (setif_same (rq_ReplayCmdline req) "emit-cmdline-to" (FStr (cmdlinePathFor (newID b))) e) as (T1 & T2 & T3 & T4).
  destruct (ParseAddr (rq_DestIP req)) as [ip|] eqn:Eip; cycle 1.
  { unfold ip_ok, is_empty in Hok. rewrite Eip in Hok. by destruct (String.eqb_spec (rq_DestIP req) ""). }
  rewrite Hp in Hpod. unfold pod_incomplete in Hpod. apply orb_false_iff in Hpod as [Hpn Hpns].
  apply String.eqb_neq in Hpn, Hpns.
  rewrite (source_action_pod _ ip (pr_Name p) (pr_Namespace p));
    rewrite ?T1, ?T2, ?T3, ?T4 by done; rewrite ?Hdest, ?F3, ?F4, ?F5, ?F6, ?F7, ?F8, ?F11; try done.
  - unfold source_config_of, str. rewrite Eip, Hq, value_setif_eq, Hemit.
    destruct (Hun "drive-id" eq_refl eq_refl) as [-> _]. by destruct (rq_ReplayCmdline req).
  - case_match; lia.
Qed.

(** Two kinds of accepted request never start a migration: without a source
    pod (SourceQMP and VMIP given instead) or without a destination address (a
    replayed command line with the destination node left open), the source binary
    rejects the command line of its Job. *)
Theorem source_job_rejected req b :
  Validate req = None → Forall octet b → flags_fit req → rq_SourcePod req = None ∨ rq_DestIP req = "" →
  cli (shell_argv (expandShellVars source_command (source_vars req (newID b) (source_extra req (newID b))))) = CliExit 2.
Proof.
  intros Hv Hb Hfit Hbad. rewrite source_job_action by done. cbv zeta.
  destruct (Validate_flags req Hv) as (_ & _ & _ & _ & _ & Hfl & Hcni & _).
  set (base := setif true "dest-ip" (FStr (rq_DestIP req)) (setif true "mode" (FStr "source") ∅)) in *.
  destruct (extra_flag_values req base) as (_ & _ & _ & _ & _ & _ & _ & _ & _ & _ & _ & _ & _ & F10 & _);
    [base_ok_tac|done|done|].
  assert (Hdest : str (extra_flags req base) "dest-ip" = rq_DestIP req) by (by unfold base; read_flag).
  assert (Hvm : str (extra_flags req base) "vm-ip" = "")
    by (unfold str; by rewrite (proj1 (extra_flags_unset req base "vm-ip" eq_refl eq_refl))).
  set (e := extra_flags req base) in *.
  destruct (setif_same (rq_ReplayCmdline req) "emit-cmdline-to" (FStr (cmdlinePathFor (newID b))) e) as (T1 & _ & _ & T4).
  unfold source_action. rewrite !T1, !T4, Hdest, Hvm, F10 by done.
  destruct Hbad as [Hbad|Hbad]; rewrite Hbad; [|done]. by repeat case_match.
Qed.

(** The configuration a request stands for, on the destination; [ref] is the
    reference to the source pod that staging appends, if any. *)
Definition dest_config_of (req : Request) (ref : string) : DestConfig :=
  MkDestConfig (cmp_Or (rq_DestQMP req) "/run/vc/vm/katamaran-dest/qmp.sock") (rq_TapIface req) (rq_TapNetns req)
    ["drive-virtio-disk0"] (rq_SharedStorage req) (rq_MultifdChannels req)
    (default "" (pr_Name <$> rq_DestPod req)) (default "" (pr_Namespace <$> rq_DestPod req)) "" ref "" ""
    match rq_SourcePod req with None => "" | Some p => pr_Namespace p +:+ "/" +:+ pr_Name p end.

Definition replay_words (ref : string) : list string := opt_arg "--replay-cmdline-from-pod" ref.
Definition replay_suffix (ref : string) : string :=
  if is_empty ref then "" else " --replay-cmdline-from-pod " +:+ ref.

Lemma dns_tail_safe s : dns_tail s = true → forallb_str safe_char s = true.
Proof.
  assert (He : ∀ c, dns_edge c = true → safe_char c = true).
  { intros c. unfold dns_edge, safe_char, is_alnum. destruct (is_lower c), (is_digit c); by rewrite ?orb_true_r. }
  induction s as [|c s IH]; [done|]. cbn [dns_tail forallb_str]. destruct s as [|c' s].
  - intros Hc. by rewrite He.
  - intros [[Hc|Hc]%orb_true_iff Hs]%andb_true_iff; rewrite (IH Hs), andb_true_r; [by apply He|].
    apply Ascii.eqb_eq in Hc as ->. done.
Qed.

Lemma label_safe s : bad_label s = false → plain_word s.
Proof.
  unfold bad_label, dns1123LabelRe. intros [_ Hd%negb_false_iff]%orb_false_iff.
  destruct s as [|c s]; [done|]. assert (Hs : forallb_str safe_char (String c s) = true).
  { apply dns_tail_safe. unfold podRefDNSRe in Hd. cbn [dns_tail]. destruct s; [done|].
    apply andb_true_iff in Hd as [-> ->]. done. }
  split; [|done]. apply andb_true_iff. split; [done|]. revert Hs. apply forallb_str_mono.
  intros x Hx. by rewrite (safe_char_not_space x Hx).
Qed.

Lemma dest_main_fields req ref :
  Validate req = None → Forall plain_word (replay_words ref) →
  let q := cmp_Or (rq_DestQMP req) "/run/vc/vm/katamaran-dest/qmp.sock" in
  Fields ("/usr/local/bin/katamaran --mode dest --qmp " +:+ dq +:+ q +:+ dq +:+ " "
          +:+ Join " " (extra_words req) +:+ replay_suffix ref) =
  ["/usr/local/bin/katamaran"; "--mode"; "dest"; "--qmp"; dq +:+ q +:+ dq] ++ extra_words req ++ replay_words ref.
Proof.
  intros Hv Hr q. destruct (request_quoted_safe req Hv) as [_ Hq].
  assert (Hj : Join " " (extra_words req) +:+ replay_suffix ref = Join " " (extra_words req ++ replay_words ref)).
  { unfold replay_suffix, replay_words, opt_arg. destruct (is_empty ref).
    - by rewrite app_nil_r, string_app_nil_r.
    - rewrite Join_app by (done || apply extra_words_nonempty). done. }
  rewrite Hj. set (ws := extra_words req ++ replay_words ref) in *.
  assert (Hws : ws ≠ []) by (intros E; apply app_eq_nil in E as [E _]; by apply extra_words_nonempty in E).
  rewrite <- (Fields_Join (_ ++ ws)).
  - f_equal. rewrite Join_app by done. cbn [Join]. by rewrite <- !string_app_assoc.
  - apply Forall_app. split; [|apply plain_words_are_words, Forall_app; split; [by apply extra_words_plain|done]].
    repeat (apply Forall_cons; split; [vm_compute; reflexivity|]). apply Forall_singleton. by apply quoted_word.
Qed.

Lemma dest_parse req q ref :
  flags_fit req → 0 ≤ rq_MultifdChannels req → rq_DowntimeMS req ≤ 60000 →
  Parse cli_flags (["--mode"; "dest"; "--qmp"; q] ++ extra_words req ++ replay_words ref) ∅ =
  Some (setif (negb (is_empty ref)) "replay-cmdline-from-pod" (FStr ref)
          (extra_flags req (setif true "qmp" (FStr q) (setif true "mode" (FStr "dest") ∅))), []).
Proof.
  intros Hf Hm Hd.
  change (["--mode"; "dest"; "--qmp"; q] ++ ?l) with
    ((if true then ["--mode"; "dest"] else []) ++ (if true then ["--qmp"; q] else []) ++ l).
  rewrite (Parse_if_value true "--mode" "dest" _ _ "mode" (FStr "") (FStr "dest")) by done.
  rewrite (Parse_if_value true "--qmp" _ _ _ "qmp" (FStr "/run/vc/vm/extra-monitor.sock") (FStr q)) by done.
  rewrite Parse_extra by done. rewrite <- (app_nil_r (replay_words ref)).
  by rewrite (Parse_opt "--replay-cmdline-from-pod" _ _ _ "replay-cmdline-from-pod" "") by done.
Qed.

Lemma pod_names_ok (p : option PodRef) :
  pod_incomplete p = false →
  (if negb (is_empty (default "" (pr_Namespace <$> p))) && negb (is_empty (default "" (pr_Name <$> p)))
   then default "" (pr_Namespace <$> p) +:+ "/" +:+ default "" (pr_Name <$> p) else "") =
  match p with None => "" | Some p => pr_Namespace p +:+ "/" +:+ pr_Name p end.
Proof.
  destruct p as [p|]; [|done]. intros [H1 H2]%orb_false_iff.
  change (default _ (_ <$> Some p)) with (pr_Namespace p) at 1 3. change (default _ (pr_Name <$> Some p)) with (pr_Name p).
  by rewrite H1, H2.
Qed.

(** The destination binary runs the migration that was asked for.  The
    destination Job's command creates the directory of the QMP socket and then
    starts the binary; for every accepted request, with or without the reference
    to the source pod that staging appends, the binary accepts its arguments and
    [RunDestination] gets exactly the configuration the request describes. *)
Theorem dest_job_config req id ref :
  Validate req = None → flags_fit req →
  ref = "" ∨ (∃ ns pod, bad_label ns = false ∧ bad_label pod = false ∧ ref = ns +:+ "/" +:+ pod) →
  let q := cmp_Or (rq_DestQMP req) "/run/vc/vm/katamaran-dest/qmp.sock" in
  ∃ main, expandShellVars dest_command (dest_vars req id (buildExtraArgs req)) =
      "mkdir -p " +:+ dq +:+ "$(dirname " +:+ dq +:+ q +:+ dq +:+ ")" +:+ dq +:+ " && " +:+ main ∧
    cli (shell_argv (main +:+ replay_suffix ref)) = CliDest (dest_config_of req ref).
Proof.
  intros Hv Hfit Href q.
  destruct (Validate_flags req Hv) as (Hpod & Hdpod & _ & Hdt & Hmf & Hfl & Hcni & Hlog & _).
  destruct (request_quoted_safe req Hv) as [_ Hq].
  assert (Hr : Forall plain_word (replay_words ref)).
  { unfold replay_words, opt_arg. destruct Href as [->|(ns & pod & Hn & Hp & ->)]; [constructor|].
    case_match; [constructor|]. constructor; [plain_const|]. constructor; [|constructor].
    apply plain_app; [by apply label_safe|]. simpl. by apply label_safe in Hp as [_ ->]. }
  exists ("/usr/local/bin/katamaran --mode dest --qmp " +:+ dq +:+ q +:+ dq +:+ " " +:+ buildExtraArgs req).
  split; [by rewrite expand_dest_command|].
  unfold shell_argv, buildExtraArgs. rewrite <- !string_app_assoc.
  pose proof (dest_main_fields req ref Hv Hr) as Hfields. cbv zeta in Hfields. fold q in Hfields. rewrite Hfields.
  cbn [app drop].
  rewrite !fmap_cons, fmap_app, !unquote_plain by (by try apply extra_words_plain). rewrite unquote_quoted by done.
  change (unquote "--mode") with "--mode". change (unquote "dest") with "dest". change (unquote "--qmp") with "--qmp".
  pose proof (dest_parse req q ref Hfit Hmf ltac:(lia)) as Hparse. cbn [app] in Hparse.
  set (base := setif true "qmp" (FStr q) (setif true "mode" (FStr "dest") ∅)) in *.
  rewrite (cli_job req _ base "dest" (negb (is_empty ref)) "replay-cmdline-from-pod" ref Hv
             ltac:(base_ok_tac) eq_refl (or_intror eq_refl) ltac:(by repeat constructor) (or_intror eq_refl) Hparse).
  destruct (extra_flag_values req base) as (_ & _ & F3 & _ & _ & _ & _ & _ & F8 & F9 & F10 & F11 & F12 & F13 & F14 & F15 & F16);
    [base_ok_tac|done|done|].
  pose proof (extra_flags_unset req base) as Hun.
  assert (Hqmp : str (extra_flags req base) "qmp" = q) by (by unfold base; read_flag).
  set (e := extra_flags req base) in *.
  destruct (Hun "replay-cmdline-from-pod" eq_refl eq_refl) as [Hfrom _].
  assert (Hrep : str e "replay-cmdline" = "") by (unfold str; by rewrite (proj1 (Hun "replay-cmdline" eq_refl eq_refl))).
  assert (Hdrv : str e "drive-id" = "drive-virtio-disk0")
    by (unfold str; by rewrite (proj1 (Hun "drive-id" eq_refl eq_refl))).
  destruct (setif_same (negb (is_empty ref)) "replay-cmdline-from-pod" (FStr ref) e) as (T1 & T2 & T3 & T4).
  change ("dest" =? roleDest)%string with true. cbv iota. unfold dest_action.
  rewrite !T4, F15, F16, !eqb_reflx by done. cbn [negb]. rewrite (T1 "replay-cmdline"), Hrep by done. cbn [is_empty String.eqb negb andb].
  assert (Href' : str (setif (negb (is_empty ref)) "replay-cmdline-from-pod" (FStr ref) e) "replay-cmdline-from-pod" = ref).
  { unfold str. rewrite value_setif_eq, Hfrom. unfold is_empty. by destruct (String.eqb_spec ref "") as [->|]. }
  rewrite Href'. rewrite !T1, !T2, !T3, F3, F8, F9, F10, F11, F12, F13, F14, Hqmp, Hdrv by done.
  rewrite pod_names_ok by done. reflexivity.
Qed.

End jobs.

(** ** Examples *)

#[local] Instance demo_fraction : FloatFraction := fun _ _ _ => 0.

Lemma demo_request_ok : Validate demo_request = None ∧ Forall octet demo_bytes ∧ flags_fit demo_request.
Proof.
  split; [vm_compute; reflexivity|]. split; [repeat constructor; vm_compute; congruence|].
  split_and!; vm_compute; congruence.
Qed.

Lemma source_job_config_witness :
  cli (shell_argv (expandShellVars source_command
         (source_vars demo_request (newID demo_bytes) (source_extra demo_request (newID demo_bytes))))) =
  CliSource (source_config_of demo_request (MkPodRef "default" "web-0") (newID demo_bytes)).
Proof.
  destruct demo_request_ok as (Hv & Hb & Hf).
  apply (source_job_config demo_request (MkPodRef "default" "web-0") demo_bytes Hv Hb eq_refl ltac:(discriminate) Hf).
Defined.

(** A delay that Validate accepts and the binary does not. *)
Definition long_delay_request : Request :=
  MkRequest "node-a" "node-b" ∅ [] (Some (MkPodRef "default" "web-0")) "" "" None "" "10.0.0.2"
    "ghcr.io/katamaran:v1" true true "ipip" 25 true 40 9223372037 4 0 "none" false "tap0_kata" "" "info" "json" "".

Lemma long_delay_rejected :
  Validate long_delay_request = None ∧
  cli (shell_argv (expandShellVars source_command
         (source_vars long_delay_request (newID demo_bytes) (source_extra long_delay_request (newID demo_bytes))))) = CliExit 2.
Proof. split; vm_compute; reflexivity. Qed.

Definition legacy_request : Request :=
  MkRequest "node-a" "node-b" ∅ [] None "/run/vc/vm/x/extra-monitor.sock" "10.244.1.5" None "" "10.0.0.2"
    "ghcr.io/katamaran:v1" true false "" 0 false 0 0 0 0 "" false "" "" "" "" "".

Lemma source_job_rejected_witness :
  Validate legacy_request = None ∧
  cli (shell_argv (expandShellVars source_command
         (source_vars legacy_request (newID demo_bytes) (source_extra legacy_request (newID demo_bytes))))) = CliExit 2.
Proof.
  destruct demo_request_ok as (_ & Hb & _). split; [vm_compute; reflexivity|].
  apply (source_job_rejected legacy_request demo_bytes); [vm_compute; reflexivity|exact Hb| |left; reflexivity].
  split_and!; vm_compute; congruence.
Defined.

Lemma dest_job_config_witness :
  ∃ main, cli (shell_argv (main +:+ replay_suffix "kube-system/katamaran-source-7")) =
          CliDest (dest_config_of demo_request "kube-system/katamaran-source-7").
Proof.
  destruct demo_request_ok as (Hv & _ & Hf).
  destruct (dest_job_config demo_request "7" "kube-system/katamaran-source-7" Hv Hf) as (main & _ & H).
  - right. exists "kube-system", "katamaran-source-7". vm_compute. auto.
  - exists main. exact H.
Defined.
