(* ===== verification/OrchRun.v ===== *)
(** * A running migration of the native orchestrator

    The goroutines of internal/orchestrator/native.go that [Apply] starts:
    [poll], [tailProgress] and, in replay mode, [stageThenStartDest], which
    share the channel of status updates.  One round of each is a function of
    what the API server answers; their interleaving is a step relation on the
    shared state, in which [poll] executes the real [poll_tick].  Waiting times
    other than the grace window, panics and the debug log are left out. *)
From S2P Require Import Prelude GoErrors GoStrings QmpTypes Effects OrchTypes OrchValidate OrchArgs OrchApply.

(** ** What the source pod's log says *)

(** The fields guarded by [resultMu]. *)
Record runResult := MkResult {
  rr_captured : bool; rr_downtime : Z; rr_ramXfer : Z; rr_ramTotal : Z;
  rr_downtimeCaptured : bool; rr_applied : Z; rr_rttMS : Z; rr_auto : bool }.

Definition result0 : runResult := MkResult false 0 0 0 false 0 0 false.

Definition set_result (d x t : Z) (r : runResult) : runResult :=
  MkResult true d x t (rr_downtimeCaptured r) (rr_applied r) (rr_rttMS r) (rr_auto r).
Definition set_limit (applied rtt : Z) (auto : bool) (r : runResult) : runResult :=
  MkResult (rr_captured r) (rr_downtime r) (rr_ramXfer r) (rr_ramTotal r) true applied rtt auto.

Definition transferring (id : MigrationID) (msg : string) (x t applied rtt : Z) (auto : bool) : StatusUpdate :=
  MkUpdate id PhaseTransferring msg None x t 0 applied rtt auto.

(** One line of the tail: the lines seen, the result, the update to send and
    whether the goroutine ends. *)
Definition tail_line (id : MigrationID) (seen : gset string) (run : runResult) (line : string)
    : gset string * runResult * option StatusUpdate * bool :=
  if negb (Contains line "KATAMARAN_") then (seen, run, None, false)
  else if bool_decide (line ∈ seen) then (seen, run, None, false)
  else
    match after_marker resultMarker line with
    | Some s =>
        let '(d, x, t) := parse_result s in (seen, set_result d x t run, None, true)
    | None =>
        match after_marker downtimeLimitMarker line with
        | Some s =>
            let f := parseProgressFields s in
            let applied := int_field f "applied_ms" in
            let rttMS := int_field f "rtt_ms" in
            let auto := (field f "auto" =? "true")%string in
            let msg := "downtime limit applied: " +:+ Itoa applied +:+ "ms" +:+
              (if auto then " (auto from " +:+ Itoa rttMS +:+ "ms RTT)" else "") in
            ({[line]} ∪ seen, set_limit applied rttMS auto run,
             Some (transferring id msg 0 0 applied rttMS auto), false)
        | None =>
            match after_marker progressMarker line with
            | None => (seen, run, None, false)
            | Some s =>
                let f := parseProgressFields s in
                let status := field f "status" in
                ({[line]} ∪ seen, run,
                 Some (transferring id ("status=" +:+ status) (int_field f "ram_transferred")
                         (int_field f "ram_total") 0 0 false),
                 (status =? "failed")%string || (status =? "cancelled")%string)
            end
        end
    end.

Fixpoint tail_lines (id : MigrationID) (seen : gset string) (run : runResult) (lines : list string)
    : gset string * runResult * list StatusUpdate * bool :=
  match lines with
  | [] => (seen, run, [], false)
  | line :: lines =>
      let '(seen, run, u, fin) := tail_line id seen run line in
      if (fin : bool) then (seen, run, option_list u, true)
      else
        let '(seen, run, us, fin) := tail_lines id seen run lines in
        (seen, run, option_list u ++ us, fin)
  end.

(** One tick of [tailProgress] on the fetched window. *)
Definition tail_tick (id : MigrationID) (seen : gset string) (run : runResult) (window : list string + error)
    : gset string * runResult * list StatusUpdate * bool :=
  let seen := if (Z.of_nat (size seen) >? 1024) then ∅ else seen in
  match window with
  | inr _ => (seen, run, [], false)
  | inl lines => tail_lines id seen run lines
  end.

(** [scrapeResultMarker]: the last result line of the log, given the source pod
    and the lines the scanner delivers. *)
Definition scrapeResultMarker (pod : string + error) (log : list string + error) : option (Z * Z * Z) :=
  match pod, log with
  | inl _, inl lines =>
      fold_left (fun acc line =>
        match after_marker resultMarker line with
        | None => acc
        | Some s => Some (parse_result s)
        end) lines None
  | _, _ => None
  end.

(** [succeededUpdate]; the log is fetched only when nothing was captured. *)
Definition succeededUpdate (id : MigrationID) (run : runResult) (pod : string + error)
    (log : list string + error) : StatusUpdate * runResult :=
  let mk d x t :=
    if rr_downtimeCaptured run
    then MkUpdate id PhaseSucceeded "" None x t d (rr_applied run) (rr_rttMS run) (rr_auto run)
    else MkUpdate id PhaseSucceeded "" None x t d 0 0 false in
  if rr_captured run then (mk (rr_downtime run) (rr_ramXfer run) (rr_ramTotal run), run)
  else
    match scrapeResultMarker pod log with
    | Some (d, x, t) => (mk d x t, set_result d x t run)
    | None => (mk 0 0 0, run)
    end.

(** ** [poll] *)

Definition sourceFailGrace : Z := 90 * 1000000000.

Record pollState := MkPoll { ps_announced : bool; ps_sourceFailedAt : option Z }.
Definition poll0 : pollState := MkPoll false None.

(** What one tick sees: the two Jobs, [time.Now()] when a failure is first
    noted, and the time at which the grace window is checked. *)
Record tick := MkTick {
  tk_src : JobStatus + error; tk_dest : JobStatus + error; tk_now : Z; tk_check : Z }.

Inductive poll_next :=
| PollGo (p : pollState) (u : option StatusUpdate)
| PollExit (u : StatusUpdate).

Definition failed_update (id : MigrationID) (e : error) : StatusUpdate := update_of id PhaseFailed "" (Some e).

(** The part after the destination has been looked at. *)
Definition poll_source (id : MigrationID) (p : pollState) (t : tick) : poll_next :=
  match tk_src t with
  | inr e =>
      if IsNotFound e then PollExit (failed_update id (ErrNew "source job disappeared"))
      else PollGo p None
  | inl src =>
      let idle :=
        if negb (ps_announced p) &&
           ((jst_Active src >? 0) || match jst_Ready src with Some n => n >? 0 | None => false end)
        then PollGo (MkPoll true (ps_sourceFailedAt p)) (Some (update_of id PhaseTransferring "" None))
        else PollGo p None in
      match LatestTerminalJobCondition src with
      | Some c =>
          if (jc_Type c =? JobFailed)%string then
            let at_ := default (tk_now t) (ps_sourceFailedAt p) in
            if tk_check t - at_ >? sourceFailGrace
            then PollExit (failed_update id
                   (jobFailedError "source job failed and dest did not complete within grace window" c))
            else PollGo (MkPoll (ps_announced p) (Some at_)) None
          else idle
      | None => idle
      end
  end.

(** One tick; [succ] is the update [succeededUpdate] would build now. *)
Definition poll_tick (id : MigrationID) (succ : StatusUpdate) (p : pollState) (t : tick) : poll_next :=
  match tk_dest t with
  | inl dest =>
      match LatestTerminalJobCondition dest with
      | Some c =>
          if (jc_Type c =? JobComplete)%string then PollExit succ
          else if (jc_Type c =? JobFailed)%string
          then PollExit (failed_update id (jobFailedError "dest job failed" c))
          else poll_source id p t
      | None => poll_source id p t
      end
  | inr _ => poll_source id p t
  end.

(** What the [select] of the loop yields: a tick, or the end of the context, with
    ctx.Err(). *)
Inductive poll_select := OnTick (t : tick) | OnDone (e : error).

(** The loop: the updates on the way and the last one, if the run ends. *)
Fixpoint poll_run (id : MigrationID) (succ : StatusUpdate) (p : pollState) (ss : list poll_select)
    : list StatusUpdate * option StatusUpdate :=
  match ss with
  | [] => ([], None)
  | OnDone e :: _ => ([], Some (failed_update id e))
  | OnTick t :: ss =>
      match poll_tick id succ p t with
      | PollExit u => ([], Some u)
      | PollGo p u =>
          let (us, last) := poll_run id succ p ss in
          (option_list u ++ us, last)
      end
  end.

(** ** The outcome of a run *)

(** What a tick says about the destination. *)
Definition dest_verdict (t : tick) : option string :=
  match tk_dest t with
  | inl d => jc_Type <$> LatestTerminalJobCondition d
  | inr _ => None
  end.

Definition source_gone (t : tick) : Prop := ∃ e, tk_src t = inr e ∧ IsNotFound e = true.
Definition source_failed (t : tick) : Prop :=
  ∃ src c, tk_src t = inl src ∧ LatestTerminalJobCondition src = Some c ∧ jc_Type c = JobFailed.

Lemma poll_tick_dest id succ p t :
  match dest_verdict t with
  | Some ty => poll_tick id succ p t = PollExit succ ∧ ty = JobComplete ∨
      (∃ e, poll_tick id succ p t = PollExit (failed_update id e)) ∧ ty = JobFailed
  | None => poll_tick id succ p t = poll_source id p t
  end.
Proof.
  unfold dest_verdict, poll_tick. destruct (tk_dest t) as [d|]; [|done]. simpl.
  destruct (LatestTerminalJobCondition d) as [c|] eqn:E; [|done]. simpl.
  apply LatestTerminalJobCondition_Some in E as (_ & _ & [Hc|Hc] & _); rewrite Hc; [left|right]; split; eauto.
Qed.

(** What makes the source end a run. *)
Lemma poll_source_exit id p t u :
  poll_source id p t = PollExit u →
  (∃ e, u = failed_update id e) ∧
  (source_gone t ∨ source_failed t ∧
     tk_check t - default (tk_now t) (ps_sourceFailedAt p) > sourceFailGrace).
Proof.
  unfold poll_source, source_gone, source_failed. destruct (tk_src t) as [src|e].
  - destruct (LatestTerminalJobCondition src) as [c|] eqn:E.
    + destruct (String.eqb_spec (jc_Type c) JobFailed) as [Hc|].
      * destruct (Z.gtb_spec (tk_check t - default (tk_now t) (ps_sourceFailedAt p)) sourceFailGrace); [|done].
        intros [= <-]. split; [eauto|]. right. split; [eauto 10|lia].
      * case_match; done.
    + case_match; done.
  - destruct (IsNotFound e) eqn:He; [|done]. intros [= <-]. split; eauto.
Qed.

(** The time of the first failure is only ever set from a failed source. *)
Lemma poll_source_go id p t p' u :
  poll_source id p t = PollGo p' u →
  (ps_sourceFailedAt p' = ps_sourceFailedAt p ∨
   source_failed t ∧ ps_sourceFailedAt p' = Some (default (tk_now t) (ps_sourceFailedAt p))) ∧
  (∀ v, u = Some v → su_Phase v = PhaseTransferring).
Proof.
  unfold poll_source, source_failed. destruct (tk_src t) as [src|e].
  - destruct (LatestTerminalJobCondition src) as [c|] eqn:E.
    + destruct (String.eqb_spec (jc_Type c) JobFailed) as [Hc|].
      * case_match; [done|]. intros [= <- <-]. split; [right; eauto 10|done].
      * case_match; intros [= <- <-]; (split; [by left|]); by intros v [= <-].
    + case_match; intros [= <- <-]; (split; [by left|]); by intros v [= <-].
  - case_match; [done|]. intros [= <- <-]. by split; [left|].
Qed.

(** Why a run ends at [t] after [pre], starting from [p]. *)
Definition ends_for (id : MigrationID) (succ : StatusUpdate) (at0 : option Z) (pre : list tick) (t : tick)
    (u : StatusUpdate) : Prop :=
  dest_verdict t = Some JobComplete ∧ u = succ ∨
  (∃ e, u = failed_update id e) ∧
  (dest_verdict t = Some JobFailed ∨
   dest_verdict t = None ∧ source_gone t ∨
   dest_verdict t = None ∧ source_failed t ∧
     ∃ t0, (at0 = Some t0 ∨ at0 = None ∧ ∃ tk, tk ∈ pre ++ [t] ∧ source_failed tk ∧ tk_now tk = t0) ∧
           tk_check t - t0 > sourceFailGrace).

(** Where a run that ended has ended. *)
Definition run_end (id : MigrationID) (succ : StatusUpdate) (at0 : option Z) (pre : list tick) (x : poll_select)
    (u : StatusUpdate) : Prop :=
  match x with
  | OnTick t => ends_for id succ at0 pre t u
  | OnDone e => u = failed_update id e
  end.

(** The grace window counts from the first failure, also across a tick. *)
Lemma ends_for_cons id succ p p' pre t t1 u :
  ps_sourceFailedAt p' = ps_sourceFailedAt p ∨
  source_failed t ∧ ps_sourceFailedAt p' = Some (default (tk_now t) (ps_sourceFailedAt p)) →
  ends_for id succ (ps_sourceFailedAt p') pre t1 u → ends_for id succ (ps_sourceFailedAt p) (t :: pre) t1 u.
Proof.
  intros Hat [He|[Hu He]]; [by left|right]. split; [done|].
  destruct He as [He|[He|(Hn & Hf & t0 & Ht0 & Hg)]]; [by left|by right; left|].
  right; right. split; [done|]. split; [done|]. exists t0. split; [|done].
  destruct Hat as [Hat|[Hsf Hat]]; rewrite Hat in Ht0.
  - destruct Ht0 as [Ht0|[Ht0 (tk & Hin & ?)]]; [by left|right].
    split; [done|]. exists tk. split; [set_solver|done].
  - destruct Ht0 as [[= <-]|[[=] _]]. destruct (ps_sourceFailedAt p) as [a|]; simpl; [by left|right].
    split; [done|]. exists t. split; [set_solver|done].
Qed.

Lemma poll_run_ends id succ p ss us u :
  poll_run id succ p ss = (us, Some u) →
  ∃ pre x post, ss = (OnTick <$> pre) ++ x :: post ∧ Forall (fun t => dest_verdict t = None) pre ∧
    run_end id succ (ps_sourceFailedAt p) pre x u.
Proof.
  revert p us. induction ss as [|[t|e] ss IH]; intros p us H; [done| |].
  2: { injection H as <- <-. by exists [], (OnDone e), ss. }
  cbn [poll_run] in H. pose proof (poll_tick_dest id succ p t) as Hd.
  destruct (dest_verdict t) as [ty|] eqn:Hv.
  { destruct Hd as [[E ->]|[[e E] ->]]; rewrite E in H; injection H as <- <-;
      exists [], (OnTick t), ss; (split; [done|]; split; [constructor|]).
    - by left.
    - right. split; [by exists e|by left]. }
  rewrite Hd in H. destruct (poll_source id p t) as [p' v|v] eqn:Hs.
  - destruct (poll_run id succ p' ss) as [us' last] eqn:Hr. injection H as <- ->.
    destruct (IH _ _ Hr) as (pre & x & post & -> & Hpre & He).
    exists (t :: pre), x, post. split; [done|]. split; [by constructor|].
    apply poll_source_go in Hs as [Hat _]. destruct x as [t1|e]; [|done]. by apply (ends_for_cons id succ p p').
  - injection H as <- <-. apply poll_source_exit in Hs as [Hu He].
    exists [], (OnTick t), ss. split; [done|]. split; [constructor|]. right. split; [done|].
    destruct He as [He|[Hf Hg]]; [by right; left|right; right]. split; [done|]. split; [done|].
    exists (default (tk_now t) (ps_sourceFailedAt p)). split; [|done].
    destruct (ps_sourceFailedAt p); simpl; [by left|right]. split; [done|].
    exists t. split; [set_solver|done].
Qed.

(** A run goes on only over ticks without a verdict, with progress updates. *)
Lemma poll_run_goes_on id succ p ss us :
  poll_run id succ p ss = (us, None) → ∃ ts, ss = OnTick <$> ts ∧ Forall (fun t => dest_verdict t = None) ts.
Proof.
  revert p us. induction ss as [|[t|e] ss IH]; intros p us H; [by exists []| |done].
  cbn [poll_run] in H. pose proof (poll_tick_dest id succ p t) as Hd.
  destruct (dest_verdict t) as [ty|] eqn:Hv; [destruct Hd as [[E _]|[[e E] _]]; by rewrite E in H|].
  destruct (poll_tick id succ p t) as [p' v|v]; [|done]. destruct (poll_run id succ p' ss) as [us' last] eqn:Hr.
  injection H as <- ->. destruct (IH _ _ Hr) as (ts & -> & Hts). exists (t :: ts). split; [done|by constructor].
Qed.

Lemma poll_run_updates id succ p ss : Forall (fun u => su_Phase u = PhaseTransferring) (poll_run id succ p ss).1.
Proof.
  revert p. induction ss as [|[t|e] ss IH]; intros p; [constructor| |constructor].
  cbn [poll_run]. pose proof (poll_tick_dest id succ p t) as Hd. destruct (poll_tick id succ p t) as [p' v|v] eqn:E; [|constructor].
  specialize (IH p'). destruct (poll_run id succ p' ss) as [us last]. apply Forall_app. split; [|done].
  destruct (dest_verdict t) as [ty|]; [destruct Hd as [[? _]|[[e ?] _]]; congruence|].
  symmetry in Hd. apply poll_source_go in Hd as [_ Hu]. destruct v as [v|]; [|constructor].
  apply Forall_singleton. by apply Hu.
Qed.

(** ** The goroutines together *)

(** Where [poll] is: between ticks, about to send an update and go on, about to
    send its last update, or in its deferred clean-up. *)
Inductive poll_pc :=
| PRun (p : pollState)
| PSend (u : StatusUpdate) (p : pollState)
| PLast (u : StatusUpdate)
| PFinish | PClose | PDelete | PDone.

(** Where [tailProgress] is: reading, about to send, or gone. *)
Inductive tail_pc := TIdle | TSend (u : StatusUpdate) | TGone.

(** Where [stageThenStartDest] is: not started, staging, about to report a
    failure, about to cancel the run, or gone. *)
Inductive stage_pc := SNone | SStaging | SSend (u : StatusUpdate) | SCancel | SGone.

(** The channel is its history and the number of updates the consumer took. *)
Record RunState := MkRunState {
  rs_hist : list StatusUpdate;
  rs_taken : nat;
  rs_cancelled : bool;
  rs_finished : bool;
  rs_closed : bool;
  rs_poll : poll_pc;
  rs_tail : tail_pc;
  rs_stage : stage_pc;
  rs_complete : bool }.   (* a tick of [poll] has seen the destination Job complete *)

Definition updatesCap : nat := 8.

Definition room (s : RunState) : Prop := (length (rs_hist s) - rs_taken s < updatesCap)%nat.

Definition set_poll (pc : poll_pc) (s : RunState) : RunState :=
  MkRunState (rs_hist s) (rs_taken s) (rs_cancelled s) (rs_finished s) (rs_closed s) pc (rs_tail s) (rs_stage s) (rs_complete s).
Definition set_tail (pc : tail_pc) (s : RunState) : RunState :=
  MkRunState (rs_hist s) (rs_taken s) (rs_cancelled s) (rs_finished s) (rs_closed s) (rs_poll s) pc (rs_stage s) (rs_complete s).
Definition set_stage (pc : stage_pc) (s : RunState) : RunState :=
  MkRunState (rs_hist s) (rs_taken s) (rs_cancelled s) (rs_finished s) (rs_closed s) (rs_poll s) (rs_tail s) pc (rs_complete s).
Definition push (u : StatusUpdate) (s : RunState) : RunState :=
  MkRunState (rs_hist s ++ [u]) (rs_taken s) (rs_cancelled s) (rs_finished s) (rs_closed s) (rs_poll s) (rs_tail s) (rs_stage s) (rs_complete s).
Definition cancel (s : RunState) : RunState :=
  MkRunState (rs_hist s) (rs_taken s) true (rs_finished s) (rs_closed s) (rs_poll s) (rs_tail s) (rs_stage s) (rs_complete s).
Definition see (t : tick) (s : RunState) : RunState :=
  MkRunState (rs_hist s) (rs_taken s) (rs_cancelled s) (rs_finished s) (rs_closed s) (rs_poll s) (rs_tail s) (rs_stage s)
    (rs_complete s || bool_decide (dest_verdict t = Some JobComplete)).

(** Where a tick leads. *)
Definition poll_goto (n : poll_next) : poll_pc :=
  match n with
  | PollGo p None => PRun p
  | PollGo p (Some u) => PSend u p
  | PollExit u => PLast u
  end.

Section run.
Context (id : MigrationID).

Inductive step : RunState → RunState → Prop :=
(* the consumer of the channel *)
| step_take s :
    (rs_taken s < length (rs_hist s))%nat →
    step s (MkRunState (rs_hist s) (S (rs_taken s)) (rs_cancelled s) (rs_finished s) (rs_closed s)
              (rs_poll s) (rs_tail s) (rs_stage s) (rs_complete s))
(* Stop *)
| step_stop s : step s (cancel s)
(* poll *)
| step_poll_cancelled s p :
    rs_poll s = PRun p → rs_cancelled s = true →
    step s (set_poll (PLast (failed_update id ErrCanceled)) s)
| step_poll_tick s p t run pod log :
    rs_poll s = PRun p →
    step s (see t (set_poll (poll_goto (poll_tick id (succeededUpdate id run pod log).1 p t)) s))
| step_poll_send s u p :
    rs_poll s = PSend u p → room s → step s (set_poll (PRun p) (push u s))
| step_poll_last s u :
    rs_poll s = PLast u → room s → step s (set_poll PFinish (push u s))
| step_poll_finish s :
    rs_poll s = PFinish →
    step s (MkRunState (rs_hist s) (rs_taken s) (rs_cancelled s) true (rs_closed s) PClose (rs_tail s) (rs_stage s) (rs_complete s))
| step_poll_close s :
    rs_poll s = PClose →
    step s (MkRunState (rs_hist s) (rs_taken s) (rs_cancelled s) (rs_finished s) true PDelete (rs_tail s) (rs_stage s) (rs_complete s))
| step_poll_delete s : rs_poll s = PDelete → step s (set_poll PDone s)
(* tailProgress: the updates of a tick one after the other *)
| step_tail_check s seen run window seen' run' us fin u :
    rs_tail s = TIdle → rs_cancelled s = false → rs_finished s = false →
    tail_tick id seen run window = (seen', run', us, fin) → u ∈ us →
    step s (set_tail (TSend u) s)
| step_tail_send s u :
    rs_tail s = TSend u → room s → rs_closed s = false → step s (set_tail TIdle (push u s))
| step_tail_drop s u :
    rs_tail s = TSend u → rs_finished s = true ∨ rs_closed s = true → step s (set_tail TIdle s)
| step_tail_exit s : rs_tail s = TIdle → step s (set_tail TGone s)
(* stageThenStartDest *)
| step_stage_ok s : rs_stage s = SStaging → step s (set_stage SGone s)
| step_stage_fail s e : rs_stage s = SStaging → step s (set_stage (SSend (failed_update id e)) s)
| step_stage_send s u :
    rs_stage s = SSend u → room s → rs_closed s = false → step s (set_stage SCancel (push u s))
| step_stage_drop s u :
    rs_stage s = SSend u → rs_finished s = true ∨ rs_closed s = true → step s (set_stage SCancel s)
| step_stage_cancel s : rs_stage s = SCancel → step s (cancel (set_stage SGone s)).

(** The state in which [Apply] starts the goroutines. *)
Definition run0 (replay : bool) : RunState :=
  MkRunState [update_of id PhaseSubmitted "" None] 0 false false false (PRun poll0) TIdle
    (if replay then SStaging else SNone) false.

Definition reachable (replay : bool) (s : RunState) : Prop := rtc step (run0 replay) s.

(** ** The invariant *)

Definition terminal (u : StatusUpdate) : bool := IsTerminal (su_Phase u).
Definition terminals (us : list StatusUpdate) : nat := length (List.filter terminal us).

Lemma terminals_snoc us u : terminals (us ++ [u]) = (terminals us + if terminal u then 1 else 0)%nat.
Proof. unfold terminals. rewrite List.filter_app, length_app. simpl. by destruct (terminal u). Qed.

(** Terminal updates sent by [poll] and by [stageThenStartDest]. *)
Definition poll_sent (pc : poll_pc) : nat :=
  match pc with PRun _ | PSend _ _ | PLast _ => 0 | _ => 1 end.

(** What the updates about to be sent look like. *)
Definition poll_ok (complete : bool) (pc : poll_pc) : Prop :=
  match pc with
  | PSend u _ => terminal u = false
  | PLast u => terminal u = true ∧ (su_Phase u = PhaseSucceeded → complete = true)
  | _ => True
  end.

Record run_inv (replay : bool) (s : RunState) : Prop := {
  inv_first : ∃ us, rs_hist s = update_of id PhaseSubmitted "" None :: us;
  inv_count : ∃ n, terminals (rs_hist s) = (poll_sent (rs_poll s) + n)%nat ∧ (n ≤ 1)%nat ∧
    match rs_stage s with SNone => n = 0%nat ∧ replay = false | SStaging | SSend _ => n = 0%nat ∧ replay = true | _ => replay = true end;
  inv_poll : poll_ok (rs_complete s) (rs_poll s);
  inv_succ : Exists (fun u => su_Phase u = PhaseSucceeded) (rs_hist s) → rs_complete s = true;
  inv_tail : match rs_tail s with TSend u => su_Phase u = PhaseTransferring | _ => True end;
  inv_stage : match rs_stage s with SSend u => su_Phase u = PhaseFailed | _ => True end;
  inv_finished : rs_finished s = true ↔ match rs_poll s with PClose | PDelete | PDone => True | _ => False end;
  inv_closed : rs_closed s = true ↔ match rs_poll s with PDelete | PDone => True | _ => False end }.

(** ** Preservation *)

Lemma succeededUpdate_phase run pod log : su_Phase (succeededUpdate id run pod log).1 = PhaseSucceeded.
Proof.
  unfold succeededUpdate. destruct (rr_captured run), (rr_downtimeCaptured run); simpl; try done;
    by destruct (scrapeResultMarker pod log) as [[[? ?] ?]|].
Qed.

Lemma tail_line_phase seen run line seen' run' u fin :
  tail_line id seen run line = (seen', run', Some u, fin) → su_Phase u = PhaseTransferring.
Proof. unfold tail_line. repeat case_match; intros [= <- <- <- <-]; done. Qed.

Lemma tail_tick_phase seen run window seen' run' us fin :
  tail_tick id seen run window = (seen', run', us, fin) → Forall (fun u => su_Phase u = PhaseTransferring) us.
Proof.
  unfold tail_tick. destruct window as [lines|e]; [|intros [= _ _ <- _]; constructor].
  generalize (if Z.of_nat (size seen) >? 1024 then ∅ else seen) as sn. clear seen. intros sn. revert sn run us fin.
  induction lines as [|line lines IH]; intros sn run us fin; cbn [tail_lines]; [intros [= _ _ <- _]; constructor|].
  destruct (tail_line id sn run line) as [[[sn1 run1] u] fin1] eqn:E.
  assert (Hu : Forall (fun u => su_Phase u = PhaseTransferring) (option_list u)).
  { destruct u as [u|]; [|constructor]. apply Forall_singleton. by eapply tail_line_phase. }
  destruct fin1; [intros [= _ _ <- _]; done|].
  destruct (tail_lines id sn1 run1 lines) as [[[sn2 run2] us2] fin2] eqn:E2. intros [= -> -> <- ->].
  apply Forall_app. split; [done|by eapply IH].
Qed.

(** A tick leaves [poll] with a well-formed update. *)
Lemma poll_goto_ok succ p t b :
  su_Phase succ = PhaseSucceeded →
  let pc := poll_goto (poll_tick id succ p t) in
  poll_ok (b || bool_decide (dest_verdict t = Some JobComplete)) pc ∧ poll_sent pc = 0%nat ∧
  match pc with PRun _ | PSend _ _ | PLast _ => True | _ => False end.
Proof.
  intros Hs pc. subst pc. pose proof (poll_tick_dest id succ p t) as Hd.
  destruct (dest_verdict t) as [ty|].
  - destruct Hd as [[-> ->]|[[e ->] ->]]; simpl; unfold terminal; [rewrite Hs|];
      split_and!; try done; intros _; by rewrite orb_true_r.
  - rewrite Hd. destruct (poll_source id p t) as [p' [u|]|u] eqn:E; simpl; [|done|].
    + apply poll_source_go in E as [_ Hu]. unfold terminal. by rewrite (Hu u).
    + apply poll_source_exit in E as [[e ->] _]. done.
Qed.

Lemma succ_snoc us u :
  Exists (fun u => su_Phase u = PhaseSucceeded) (us ++ [u]) →
  Exists (fun u => su_Phase u = PhaseSucceeded) us ∨ su_Phase u = PhaseSucceeded.
Proof. rewrite Exists_app, Exists_cons, Exists_nil. naive_solver. Qed.

Lemma first_snoc us u :
  (∃ l, us = update_of id PhaseSubmitted "" None :: l) → ∃ l, us ++ [u] = update_of id PhaseSubmitted "" None :: l.
Proof. intros [l ->]. by eexists. Qed.

(** An update that is not terminal changes no count and no verdict. *)
Lemma nonterminal_snoc us u :
  terminal u = false →
  terminals (us ++ [u]) = terminals us ∧
  (Exists (fun u => su_Phase u = PhaseSucceeded) (us ++ [u]) → Exists (fun u => su_Phase u = PhaseSucceeded) us).
Proof.
  intros Hu. rewrite terminals_snoc, Hu. split; [lia|].
  intros [?|Hs]%succ_snoc; [done|]. unfold terminal in Hu. by rewrite Hs in Hu.
Qed.

Lemma run_inv_init replay : run_inv replay (run0 replay).
Proof.
  split; simpl; try done.
  - by eexists.
  - exists 0%nat. split; [done|]. split; [lia|]. by destruct replay.
  - intros H. apply Exists_cons in H as [H|H]; [done|by apply Exists_nil in H].
  - by destruct replay.
Qed.

(** The steps of [poll]. *)
Lemma inv_poll_step replay s pc :
  run_inv replay s → poll_ok (rs_complete s) pc → poll_sent pc = poll_sent (rs_poll s) →
  match rs_poll s with PClose | PDelete | PDone => False | _ => True end →
  match pc with PClose | PDelete | PDone => False | _ => True end →
  run_inv replay (set_poll pc s).
Proof.
  intros [F C P S T G Fi Cl] Hp Hn H1 H2. split; simpl; try done.
  - by rewrite Hn.
  - rewrite Fi. by destruct (rs_poll s), pc.
  - rewrite Cl. by destruct (rs_poll s), pc.
Qed.

Lemma inv_see replay s t : run_inv replay s → run_inv replay (see t s).
Proof.
  intros [F C P S T G Fi Cl]. split; simpl; try done.
  - destruct (rs_poll s); simpl in *; try done. destruct P as [P1 P2]. split; [done|].
    intros H. by rewrite P2.
  - intros H. by rewrite S.
Qed.

(** A progress update may be added at any time. *)
Lemma inv_push replay s u : run_inv replay s → terminal u = false → run_inv replay (push u s).
Proof.
  intros [F C P S T G Fi Cl] Hu. destruct (nonterminal_snoc (rs_hist s) u Hu) as [Ht Hs].
  split; simpl; try done; [by apply first_snoc|by rewrite Ht|by intros ?%Hs%S].
Qed.

Lemma inv_tail_step replay s pc :
  run_inv replay s → match pc with TSend u => su_Phase u = PhaseTransferring | _ => True end →
  run_inv replay (set_tail pc s).
Proof. intros [F C P S T G Fi Cl] H. by split. Qed.

Lemma inv_stage_step replay s pc :
  run_inv replay s → rs_stage s ≠ SNone →
  match pc with SNone => False | SStaging => rs_stage s = SStaging
           | SSend u => rs_stage s = SStaging ∧ su_Phase u = PhaseFailed | _ => True end →
  run_inv replay (set_stage pc s).
Proof.
  intros [F C P S T G Fi Cl] Hn H. split; simpl; try done.
  - destruct C as (n & C1 & C2 & C3). exists n. split; [done|]. split; [done|].
    destruct (rs_stage s), pc; naive_solver.
  - destruct pc; naive_solver.
Qed.

Lemma inv_poll_last replay s u :
  run_inv replay s → rs_poll s = PLast u → run_inv replay (set_poll PFinish (push u s)).
Proof.
  intros [F C P S T G Fi Cl] H. rewrite H in *. simpl in P. destruct P as [P1 P2]. split; simpl; try done.
  - by apply first_snoc.
  - destruct C as (n & C1 & C2). exists n. rewrite terminals_snoc, P1, C1. split; [simpl; lia|done].
  - by intros [?|?]%succ_snoc; auto.
Qed.

Lemma inv_stage_send replay s u :
  run_inv replay s → rs_stage s = SSend u → run_inv replay (set_stage SCancel (push u s)).
Proof.
  intros [F C P S T G Fi Cl] H. rewrite H in *. split; simpl; try done.
  - by apply first_snoc.
  - destruct C as (n & C1 & _ & [-> Hr]). exists 1%nat. rewrite terminals_snoc, C1. unfold terminal. rewrite G.
    split; [simpl; lia|]. by split; [lia|].
  - intros [?|Hs]%succ_snoc; [auto|]. rewrite G in Hs. done.
Qed.

Lemma run_inv_step replay s s' : step s s' → run_inv replay s → run_inv replay s'.
Proof.
  intros Hst Hi. pose proof Hi as [F C P S T G Fi Cl]. inversion Hst; subst; clear Hst.
  - by split.
  - by split.
  - apply inv_poll_step; try done; rewrite H; done.
  - destruct (poll_goto_ok (succeededUpdate id run pod log).1 p t (rs_complete s) (succeededUpdate_phase run pod log))
      as (Hg1 & Hg2 & Hg3).
    apply (inv_poll_step replay (see t s)); simpl; rewrite ?H; try done; [by apply inv_see|by destruct (poll_goto _)].
  - rewrite H in P. apply inv_poll_step; simpl; rewrite ?H; try done. by apply inv_push.
  - by apply inv_poll_last.
  - rewrite H in *. by split.
  - rewrite H in *. by split.
  - rewrite H in *. by split.
  - apply inv_tail_step; [done|]. apply tail_tick_phase in H2. rewrite Forall_forall in H2. by apply H2.
  - rewrite H in T. apply inv_tail_step; [|done]. apply inv_push; [done|]. unfold terminal. by rewrite T.
  - by apply inv_tail_step.
  - by apply inv_tail_step.
  - apply inv_stage_step; [done|by rewrite H|done].
  - apply inv_stage_step; [done|by rewrite H|done].
  - by apply inv_stage_send.
  - apply inv_stage_step; [done|by rewrite H|done].
  - assert (Hs := inv_stage_step replay s SGone Hi). rewrite H in Hs. specialize (Hs ltac:(done) I).
    destruct Hs as [F' C' P' S' T' G' Fi' Cl']. by split.
Qed.

Lemma reachable_inv replay s : reachable replay s → run_inv replay s.
Proof.
  intros Hr. unfold reachable in Hr. assert (H0 := run_inv_init replay).
  induction Hr; [done|]. eauto using run_inv_step.
Qed.

End run.

(** ** A run can always be brought to its end *)

Section closing.
Context (id : MigrationID).

Definition set_taken (n : nat) (s : RunState) : RunState :=
  MkRunState (rs_hist s) n (rs_cancelled s) (rs_finished s) (rs_closed s) (rs_poll s) (rs_tail s) (rs_stage s) (rs_complete s).

(** The consumer empties the channel. *)
Lemma drain s : ∃ n, rtc (step id) s (set_taken n s) ∧ (length (rs_hist s) ≤ n)%nat.
Proof.
  remember (length (rs_hist s) - rs_taken s)%nat as k eqn:Hk. revert s Hk.
  induction k as [|k IH]; intros s Hk.
  - exists (rs_taken s). split; [|lia]. by destruct s.
  - set (s1 := set_taken (S (rs_taken s)) s).
    destruct (IH s1) as (n & Hn & Hl); [simpl; lia|]. exists n. split; [|done].
    apply rtc_l with s1; [|exact Hn]. apply step_take. lia.
Qed.

Lemma close_from_last s u : rs_poll s = PLast u → ∃ s', rtc (step id) s s' ∧ rs_closed s' = true.
Proof.
  intros Hp. destruct (drain s) as (n & Hd & Hn). eexists. split; [|shelve].
  etrans; [exact Hd|]. eapply rtc_l; [eapply step_poll_last; [exact Hp|unfold room, updatesCap; simpl; lia]|].
  eapply rtc_l; [by apply step_poll_finish|]. eapply rtc_l; [by apply step_poll_close|]. apply rtc_refl.
  Unshelve. done.
Qed.

Lemma close_from_run s p : rs_poll s = PRun p → ∃ s', rtc (step id) s s' ∧ rs_closed s' = true.
Proof.
  intros Hp. destruct (close_from_last (set_poll (PLast (failed_update id ErrCanceled)) (cancel s)) _ eq_refl)
    as (s' & Hs & Hc).
  exists s'. split; [|done]. eapply rtc_l; [apply step_stop|].
  eapply rtc_l; [|exact Hs]. by eapply (step_poll_cancelled id (cancel s)).
Qed.

Lemma run_can_close replay s : run_inv id replay s → ∃ s', rtc (step id) s s' ∧ rs_closed s' = true.
Proof.
  intros Hi. destruct (rs_poll s) as [p|u p|u| | | |] eqn:Hp.
  - by eapply close_from_run.
  - destruct (drain s) as (n & Hd & Hn).
    destruct (close_from_run (set_poll (PRun p) (push u (set_taken n s))) p eq_refl) as (s' & Hs & Hc).
    exists s'. split; [|done]. etrans; [exact Hd|]. eapply rtc_l; [|exact Hs].
    apply step_poll_send; [done|]. unfold room, updatesCap. simpl. lia.
  - by eapply close_from_last.
  - eexists. split; [eapply rtc_l; [by apply step_poll_finish|]; eapply rtc_l; [by apply step_poll_close|apply rtc_refl]|done].
  - eexists. split; [eapply rtc_l; [by apply step_poll_close|apply rtc_refl]|done].
  - exists s. split; [done|]. apply (inv_closed _ _ _ Hi). by rewrite Hp.
  - exists s. split; [done|]. apply (inv_closed _ _ _ Hi). by rewrite Hp.
Qed.

End closing.

(** What a consumer of the stream relies on. *)
Lemma stream_verdict id replay s :
  reachable id replay s →
  (Exists (fun u => su_Phase u = PhaseSucceeded) (rs_hist s) → rs_complete s = true) ∧
  (rs_closed s = true → (1 ≤ terminals (rs_hist s))%nat).
Proof.
  intros Hi%reachable_inv. pose proof Hi as [F (n & C1 & C2 & C3) P S T G Fi Cl]. split; [done|].
  intros Hc. apply Cl in Hc. destruct (rs_poll s); simpl in *; lia.
Qed.

(** ** Properties *)

(** C8. The outcome that [poll] reports is the one the Jobs have.  A run ends at the
    first tick at which the destination has a verdict, at the latest, and before
    that only because of the source or of the end of its context.  It reports success
    exactly when it ends at a tick that finds the destination Job complete, whatever
    became of the source; otherwise it reports a failure, because the context has
    ended (with the context's error), the destination failed, the source Job is gone,
    or the source failed more than 90 seconds earlier and the destination is still
    not done.  All other updates say that the transfer is going on. *)
Theorem poll_outcome id succ ss us last :
  su_Phase succ = PhaseSucceeded → poll_run id succ poll0 ss = (us, last) →
  Forall (fun u => su_Phase u = PhaseTransferring) us ∧
  match last with
  | None => ∃ ts, ss = OnTick <$> ts ∧ Forall (fun t => dest_verdict t = None) ts
  | Some u => ∃ pre x post, ss = (OnTick <$> pre) ++ x :: post ∧ Forall (fun t => dest_verdict t = None) pre ∧
      match x with
      | OnDone e => u = failed_update id e
      | OnTick t =>
          su_Phase u = PhaseSucceeded ∧ dest_verdict t = Some JobComplete ∨
          su_Phase u = PhaseFailed ∧
          (dest_verdict t = Some JobFailed ∨
           dest_verdict t = None ∧ source_gone t ∨
           dest_verdict t = None ∧ source_failed t ∧
             ∃ t0, t0 ∈ pre ++ [t] ∧ source_failed t0 ∧ tk_check t - tk_now t0 > sourceFailGrace)
      end
  end.
Proof.
  intros Hs Hr. split; [pose proof (poll_run_updates id succ poll0 ss) as H; by rewrite Hr in H|].
  destruct last as [u|]; [|by eapply poll_run_goes_on].
  destruct (poll_run_ends _ _ _ _ _ _ Hr) as (pre & x & post & -> & Hpre & He).
  exists pre, x, post. split; [done|]. split; [done|]. destruct x as [t|e]; [|done].
  destruct He as [[Hv ->]|[[e ->] He]]; [by left|right]. split; [done|].
  destruct He as [He|[He|(Hn & Hf & t0 & [[=]|[_ (tk & Hin & Htk & <-)]] & Hg)]]; [by left|by right; left|].
  right; right. split; [done|]. split; [done|]. by exists tk.
Qed.

(** C7. The stream of updates that [Watch] hands out, over every interleaving of
    the goroutines: it starts with "submitted"; success is in it only if [poll]
    saw the destination Job complete; it has at most one terminal update (two in
    replay mode); it is closed only after a terminal update and nothing is added
    to it afterwards; and from every state the run can be brought to that close,
    so that no goroutine can deadlock the others. *)
Theorem update_stream id replay s :
  reachable id replay s →
  (∃ us, rs_hist s = update_of id PhaseSubmitted "" None :: us) ∧
  (Exists (fun u => su_Phase u = PhaseSucceeded) (rs_hist s) → rs_complete s = true) ∧
  (terminals (rs_hist s) ≤ if replay then 2 else 1)%nat ∧
  (rs_closed s = true → (1 ≤ terminals (rs_hist s))%nat ∧ ∀ s', step id s s' → rs_hist s' = rs_hist s) ∧
  ∃ s', rtc (step id) s s' ∧ rs_closed s' = true.
Proof.
  intros Hi%reachable_inv. pose proof Hi as [F (n & C1 & C2 & C3) P S T G Fi Cl].
  split_and!; [done|done| | |by eapply run_can_close].
  - assert (poll_sent (rs_poll s) ≤ 1)%nat by (destruct (rs_poll s); simpl; lia).
    destruct replay; [lia|]. destruct (rs_stage s); naive_solver lia.
  - intros Hc. apply Cl in Hc as Hpc. split; [destruct (rs_poll s); simpl in *; lia|].
    intros s' Hst. inversion Hst; subst; simpl; try done; try (rewrite H in Hpc; done); congruence.
Qed.

(** In replay mode a failed staging is reported twice: after the failure of
    [stageThenStartDest] the cancelled [poll] sends a second terminal update,
    although no update should follow a terminal one. *)
Theorem staging_failure_reported_twice id e :
  ∃ s, reachable id true s ∧ rs_closed s = true ∧
    rs_hist s = [update_of id PhaseSubmitted "" None; failed_update id e; failed_update id ErrCanceled].
Proof.
  eexists. split; [|split].
  - unfold reachable.
    eapply rtc_l; [by apply step_stage_fail with (e := e)|].
    eapply rtc_l; [eapply step_stage_send; [reflexivity|unfold room, updatesCap; simpl; lia|done]|].
    eapply rtc_l; [by apply step_stage_cancel|].
    eapply rtc_l; [by eapply step_poll_cancelled|].
    eapply rtc_l; [eapply step_poll_last; [reflexivity|unfold room, updatesCap; simpl; lia]|].
    eapply rtc_l; [by apply step_poll_finish|].
    eapply rtc_l; [by apply step_poll_close|]. apply rtc_refl.
  - done.
  - done.
Qed.

(** ** Examples *)

Definition running : JobStatus := MkJobStatus [] 1 None.
Definition complete_status : JobStatus := MkJobStatus [MkCond JobComplete ConditionTrue 5 "" ""] 0 None.
Definition demo_ticks : list tick :=
  [MkTick (inl running) (inr ErrNotFound) 0 0; MkTick (inl running) (inl running) 2 2;
   MkTick (inr (ErrNew "timeout")) (inl complete_status) 4 4].

Definition demo_selects : list poll_select := (OnTick <$> demo_ticks) ++ [OnDone ErrCanceled].

Lemma poll_outcome_witness :
  ∃ pre t post, demo_selects = (OnTick <$> pre) ++ OnTick t :: post ∧ Forall (fun t => dest_verdict t = None) pre ∧
    dest_verdict t = Some JobComplete.
Proof.
  destruct (poll_outcome "7" (update_of "7" PhaseSucceeded "" None) demo_selects
              [update_of "7" PhaseTransferring "" None] (Some (update_of "7" PhaseSucceeded "" None)))
    as (_ & pre & [t|e] & post & Hts & Hpre & H).
  - reflexivity.
  - vm_compute. reflexivity.
  - destruct H as [[_ H]|[H _]]; [|discriminate H]. exists pre, t, post. split; [exact Hts|]. split; [exact Hpre|exact H].
  - discriminate H.
Defined.

(** A run that is stopped: one step of each kind up to the close. *)
Definition stopped : RunState :=
  MkRunState [update_of "7" PhaseSubmitted "" None; failed_update "7" ErrCanceled] 0 true true true PDelete TIdle SNone false.

Lemma stopped_reachable : reachable "7" false stopped.
Proof.
  unfold reachable.
  eapply rtc_l; [apply step_stop|]. eapply rtc_l; [eapply step_poll_cancelled; reflexivity|].
  eapply rtc_l; [eapply step_poll_last; [reflexivity|unfold room, updatesCap; simpl; lia]|].
  eapply rtc_l; [apply step_poll_finish; reflexivity|].
  eapply rtc_l; [apply step_poll_close; reflexivity|]. apply rtc_refl.
Qed.

Lemma update_stream_witness : reachable "7" false stopped ∧ (1 ≤ terminals (rs_hist stopped))%nat.
Proof.
  split; [exact stopped_reachable|].
  destruct (update_stream "7" false stopped stopped_reachable) as (_ & _ & _ & Hc & _). exact (proj1 (Hc eq_refl)).
Defined.
