(* ===== verification/Admission.v ===== *)
(** * Pod admission during an adoption (internal/controller/admission.go)

    The registry of workload controllers whose source pod has been deleted, and
    the decision of the validating webhook.  The mutex makes every operation
    atomic; the clock is a parameter, read where the code reads it. *)
From S2P Require Import Prelude GoErrors GoStrings OrchTypes OrchValidate.

Abbreviation UID := string (only parsing).

Record pendingAdoption := MkPending { pa_rsUID : UID; pa_migrationID : string; pa_expiresAt : Z }.

Definition pendingAdoptionTTL : Z := 5 * 60 * 1000000000.

Abbreviation registry := (gmap string pendingAdoption) (only parsing).

Definition newPendingAdoptionRegistry : registry := ∅.

Definition Mark (now : Z) (uid : UID) (migrationID : string) (p : registry) : registry :=
  if is_empty uid then p
  else <[uid := MkPending uid migrationID (now + pendingAdoptionTTL)]> p.

Definition Clear (uid : UID) (p : registry) : registry :=
  if is_empty uid then p else base.delete uid p.

(** [MigrationFor]: the answer and the registry without the expired entry. *)
Definition MigrationFor (now : Z) (uid : UID) (p : registry) : string * registry :=
  if is_empty uid then ("", p)
  else
    match p !! uid with
    | None => ("", p)
    | Some e => if now >? pa_expiresAt e then ("", base.delete uid p) else (pa_migrationID e, p)
    end.

Record OwnerReference := MkOwner {
  or_APIVersion : string; or_Kind : string; or_Name : string; or_UID : UID;
  or_Controller : option bool; or_BlockOwnerDeletion : option bool }.

Record PodMeta := MkPodMeta { pm_Labels : gmap string string; pm_Owners : list OwnerReference }.

Definition isManagedPodControllerKind (kind : string) : bool :=
  one_of kind ["ReplicaSet"; "StatefulSet"; "DaemonSet"; "Job"].

Definition is_controller (o : OwnerReference) : bool := default false (or_Controller o).

Definition deny_reason (migID kind : string) : string :=
  "katamaran migration " +:+ migID +:+ " in progress; " +:+ kind
  +:+ " pod replacement denied (adoption pod pending)".

(** The loop over the owners; [clock i] is the time at the i-th of them. *)
Fixpoint deny_loop (clock : nat → Z) (i : nat) (owners : list OwnerReference) (p : registry) : string * registry :=
  match owners with
  | [] => ("", p)
  | o :: owners =>
      if negb (is_controller o) || negb (isManagedPodControllerKind (or_Kind o)) then deny_loop clock (S i) owners p
      else
        let '(migID, p) := MigrationFor (clock i) (or_UID o) p in
        if is_empty migID then deny_loop clock (S i) owners p
        else (deny_reason migID (or_Kind o), p)
  end.

Definition componentLabel : string := "app.kubernetes.io/component".

Definition ShouldDenyPodCreate (clock : nat → Z) (pod : PodMeta) (p : registry) : string * registry :=
  if (default "" (pm_Labels pod !! componentLabel) =? "adopted-vm")%string then ("", p)
  else deny_loop clock 0 (pm_Owners pod) p.

(** ** What the registry means

    The observable content at a time: the migration an owner is pending for.
    Removing expired entries does not change it. *)
Definition pending_at (p : registry) (now : Z) (uid : UID) : option string :=
  match p !! uid with
  | Some e => if now >? pa_expiresAt e then None else Some (pa_migrationID e)
  | None => None
  end.

Lemma MigrationFor_answer now uid p :
  uid ≠ "" → (MigrationFor now uid p).1 = default "" (pending_at p now uid).
Proof.
  intros Hu. unfold MigrationFor, is_empty, pending_at. destruct (String.eqb_spec uid "") as [|_]; [done|].
  destruct (p !! uid) as [e|]; [|done]. by destruct (now >? pa_expiresAt e).
Qed.

Lemma MigrationFor_pending now uid p t u :
  now ≤ t → pending_at (MigrationFor now uid p).2 t u = pending_at p t u.
Proof.
  intros Ht. unfold MigrationFor. case_match; [done|]. destruct (p !! uid) as [e|] eqn:E; [|done].
  destruct (Z.gtb_spec now (pa_expiresAt e)); [|done]. simpl. unfold pending_at.
  destruct (decide (u = uid)) as [->|]; [|by rewrite lookup_delete_ne].
  rewrite lookup_delete_eq, E. replace (t >? pa_expiresAt e) with true by lia. done.
Qed.

Lemma deny_loop_pending clock i owners p t u :
  (∀ j, clock j ≤ t) → pending_at (deny_loop clock i owners p).2 t u = pending_at p t u.
Proof.
  intros Hc. revert i p. induction owners as [|o owners IH]; intros i p; [done|]. cbn [deny_loop].
  case_match; [apply IH|]. destruct (MigrationFor (clock i) (or_UID o) p) as [m p'] eqn:E.
  assert (Hp : pending_at p' t u = pending_at p t u).
  { change p' with (m, p').2. rewrite <- E. by apply MigrationFor_pending. }
  case_match; [by rewrite IH|done].
Qed.

(** An owner that blocks the pod at a given time. *)
Definition blocks (p : registry) (now : Z) (o : OwnerReference) : Prop :=
  is_controller o = true ∧ isManagedPodControllerKind (or_Kind o) = true ∧ or_UID o ≠ "" ∧
  ∃ m, pending_at p now (or_UID o) = Some m ∧ m ≠ "".

Lemma deny_reason_nonempty m k : deny_reason m k ≠ "".
Proof. done. Qed.

(** With a clock that stands still during the decision. *)
Lemma deny_loop_iff now i owners p :
  (deny_loop (fun _ => now) i owners p).1 ≠ "" ↔ Exists (blocks p now) owners.
Proof.
  revert i p. induction owners as [|o owners IH]; intros i p; [by rewrite Exists_nil|].
  rewrite Exists_cons. cbn [deny_loop].
  destruct (negb (is_controller o) || negb (isManagedPodControllerKind (or_Kind o))) eqn:Hk.
  { rewrite IH. split; [by right|]. intros [(H1 & H2 & _)|?]; [|done]. by rewrite H1, H2 in Hk. }
  apply orb_false_iff in Hk as [H1%negb_false_iff H2%negb_false_iff].
  destruct (MigrationFor now (or_UID o) p) as [m p'] eqn:E.
  assert (Hp : ∀ u, pending_at p' now u = pending_at p now u).
  { intros u. change p' with (m, p').2. rewrite <- E. by apply MigrationFor_pending. }
  assert (Hex : Exists (blocks p' now) owners ↔ Exists (blocks p now) owners).
  { apply Exists_proper; [|done]. intros o'. unfold blocks. by rewrite Hp. }
  assert (Hm : m ≠ "" ↔ blocks p now o).
  { unfold blocks. destruct (String.eqb_spec (or_UID o) "") as [Hu|Hu].
    - unfold MigrationFor, is_empty in E. rewrite Hu in E. injection E as <- _.
      split; [done|]. by intros (_ & _ & [] & _).
    - pose proof (MigrationFor_answer now (or_UID o) p Hu) as Ha. rewrite E in Ha. simpl in Ha. subst m.
      destruct (pending_at p now (or_UID o)) as [m|]; simpl; naive_solver. }
  unfold is_empty. destruct (String.eqb_spec m "") as [->|Hne]; simpl.
  - rewrite IH, Hex, <- Hm. naive_solver.
  - naive_solver.
Qed.

(** ** Histories *)

Inductive op := OMark (now : Z) (uid : UID) (mid : string) | OClear (uid : UID)
              | OQuery (now : Z) (uid : UID) | ODecide (now : Z) (pod : PodMeta).

Definition run_op (p : registry) (o : op) : registry :=
  match o with
  | OMark now uid mid => Mark now uid mid p
  | OClear uid => Clear uid p
  | OQuery now uid => (MigrationFor now uid p).2
  | ODecide now pod => (ShouldDenyPodCreate (fun _ => now) pod p).2
  end.

Definition op_time (o : op) (t : Z) : Prop :=
  match o with OMark now _ _ | OQuery now _ | ODecide now _ => now ≤ t | OClear _ => True end.

(** The last mark of a controller that was not cleared: its time and migration. *)
Definition track_mark (uid : UID) (acc : option (Z * string)) (o : op) : option (Z * string) :=
  match o with
  | OMark now u mid => if (u =? uid)%string then Some (now, mid) else acc
  | OClear u => if (u =? uid)%string then None else acc
  | _ => acc
  end.
Definition last_mark (uid : UID) (ops : list op) : option (Z * string) := fold_left (track_mark uid) ops None.

(** The controller of the reference is inside the adoption window that its last
    mark opened. *)
Definition in_window (ops : list op) (t : Z) (o : OwnerReference) : Prop :=
  is_controller o = true ∧ isManagedPodControllerKind (or_Kind o) = true ∧ or_UID o ≠ "" ∧
  ∃ t0 mid, last_mark (or_UID o) ops = Some (t0, mid) ∧ mid ≠ "" ∧ t ≤ t0 + pendingAdoptionTTL.

Lemma run_op_pending uid t o p :
  uid ≠ "" → op_time o t →
  pending_at (run_op p o) t uid =
  match o with
  | OMark now u mid =>
      if (u =? uid)%string then (if t >? now + pendingAdoptionTTL then None else Some mid) else pending_at p t uid
  | OClear u => if (u =? uid)%string then None else pending_at p t uid
  | _ => pending_at p t uid
  end.
Proof.
  intros Hu Ht. destruct o as [now u mid|u|now u|now pod]; simpl in *.
  - unfold Mark, is_empty, pending_at. destruct (String.eqb_spec u uid) as [->|Hne].
    + destruct (String.eqb_spec uid ""); [done|]. by rewrite lookup_insert_eq.
    + destruct (String.eqb_spec u ""); [done|]. by rewrite lookup_insert_ne.
  - unfold Clear, is_empty, pending_at. destruct (String.eqb_spec u uid) as [->|Hne].
    + destruct (String.eqb_spec uid ""); [done|]. by rewrite lookup_delete_eq.
    + destruct (String.eqb_spec u ""); [done|]. by rewrite lookup_delete_ne.
  - by apply MigrationFor_pending.
  - unfold ShouldDenyPodCreate. case_match; [done|]. by apply deny_loop_pending.
Qed.

(** The registry knows the last mark, for five minutes. *)
Lemma run_ops_pending uid t ops :
  uid ≠ "" → Forall (λ o, op_time o t) ops →
  pending_at (fold_left run_op ops ∅) t uid =
  match last_mark uid ops with
  | Some (t0, mid) => if t >? t0 + pendingAdoptionTTL then None else Some mid
  | None => None
  end.
Proof.
  intros Hu. unfold last_mark. induction ops as [|o ops IH] using rev_ind; intros H; [done|].
  apply Forall_app in H as [H Ho]. apply Forall_cons in Ho as [Ho _]. rewrite !fold_left_app. cbn [fold_left].
  rewrite run_op_pending, IH by done. destruct o as [now u mid|u| |]; cbn [track_mark]; try done.
  - by destruct (u =? uid)%string.
  - by destruct (u =? uid)%string.
Qed.

(** C35. The webhook blocks replacements for exactly the adoption window.  After
    every history of the registry (marks, repeated marks, clears, queries and
    decisions, in any order, none later than the decision), a pod is denied if and
    only if it does not carry the adopted-vm label and one of its controllers, of a
    kind that replaces pods, was marked, not cleared since, and its last mark is at
    most five minutes old. *)
Theorem admission_window ops t pod :
  Forall (λ o, op_time o t) ops →
  let reg := fold_left run_op ops ∅ in
  (ShouldDenyPodCreate (fun _ => t) pod reg).1 ≠ "" ↔
  pm_Labels pod !! componentLabel ≠ Some "adopted-vm" ∧ Exists (in_window ops t) (pm_Owners pod).
Proof.
  intros Hops reg. assert (Hb : ∀ o, blocks reg t o ↔ in_window ops t o).
  { intros o. unfold blocks, in_window. destruct (decide (or_UID o = "")) as [Hu|Hu]; [naive_solver|].
    unfold reg. rewrite run_ops_pending by done.
    destruct (last_mark (or_UID o) ops) as [[t0 mid]|]; [|naive_solver].
    destruct (Z.gtb_spec t (t0 + pendingAdoptionTTL)); naive_solver lia. }
  unfold ShouldDenyPodCreate.
  destruct (String.eqb_spec (default "" (pm_Labels pod !! componentLabel)) "adopted-vm") as [E|E].
  - split; [done|]. intros [Hl _]. destruct (pm_Labels pod !! componentLabel); simpl in E; congruence.
  - rewrite deny_loop_iff. assert (Hex : Exists (blocks reg t) (pm_Owners pod) ↔ Exists (in_window ops t) (pm_Owners pod)).
    { split; intros H; (eapply Exists_impl; [exact H|]); intros o; apply Hb. }
    rewrite Hex. split; [|by intros [_ ?]]. intros H. split; [|done]. intros Hl. by rewrite Hl in E.
Qed.

(** Marked twice, a controller is blocked for five minutes from the second mark;
    cleared, it is not blocked at all. *)
Definition demo_owner : OwnerReference := MkOwner "apps/v1" "ReplicaSet" "web" "u1" (Some true) None.
Definition demo_history : list op :=
  [OMark 0 "u1" "m1"; OQuery 30 "u2"; OMark (200 * second) "u1" "m2"; ODecide (301 * second) (MkPodMeta ∅ [demo_owner])].

Lemma admission_window_witness :
  (ShouldDenyPodCreate (fun _ => 400 * second) (MkPodMeta ∅ [demo_owner]) (fold_left run_op demo_history ∅)).1 ≠ "" ∧
  (ShouldDenyPodCreate (fun _ => 400 * second) (MkPodMeta ∅ [demo_owner])
     (fold_left run_op (demo_history ++ [OClear "u1"]) ∅)).1 = "".
Proof.
  split.
  - apply (proj2 (admission_window demo_history (400 * second) (MkPodMeta ∅ [demo_owner])
      ltac:(repeat constructor; vm_compute; discriminate))).
    split; [cbn [pm_Labels]; rewrite lookup_empty; discriminate|]. left. split; [reflexivity|]. split; [reflexivity|].
    split; [discriminate|]. exists (200 * second), "m2". split; [reflexivity|]. split; [discriminate|].
    vm_compute. discriminate.
  - destruct (decide ((ShouldDenyPodCreate (fun _ => 400 * second) (MkPodMeta ∅ [demo_owner])
      (fold_left run_op (demo_history ++ [OClear "u1"]) ∅)).1 = "")) as [H|H]; [exact H|].
    apply (proj1 (admission_window (demo_history ++ [OClear "u1"]) (400 * second) (MkPodMeta ∅ [demo_owner])
      ltac:(repeat constructor; vm_compute; discriminate))) in H as [_ H].
    apply Exists_cons in H as [(_ & _ & _ & t0 & mid & Hm & _)|H]; [discriminate Hm|by apply Exists_nil in H].
Defined.
