(* ===== verification/Reconciler.v ===== *)
(** * The Migration controller (internal/controller/reconciler.go)

    [dispatch], [recover] and the status patches are programs over the answers
    of the API server, the orchestrator and the discoverer; their effects are a
    trace.  A call of [dispatch] may also panic; [dispatch] recovers.
    [reconcileAll] and the worker goroutines it starts share the
    tracking map; their interleaving is a step relation, and panics and the loop
    of passes are there too (file Controller).  The gauges are exported by file
    Metrics.  Log output is left out; the text of an error is the error itself. *)
From S2P Require Import Prelude GoErrors GoStrings QmpTypes Effects OrchTypes OrchValidate OrchArgs OrchApply.
From S2P Require Import OrchRun Admission.

(** ** The spec of a Migration *)

(** The accessors of the unstructured object: [None] when a field is absent or
    has another type. *)
Record Spec := MkSpec {
  sp_string : list string → option string;
  sp_bool : list string → option bool;
  sp_int : list string → option Z;
  sp_map : list string → option (gmap string string) }.

Definition get_string (sp : Spec) (path : list string) : string := default "" (sp_string sp path).
Definition get_bool (sp : Spec) (path : list string) : bool := default false (sp_bool sp path).
Definition get_int (sp : Spec) (path : list string) : Z := default 0 (sp_int sp path).

Definition specToRequest (sp : Spec) : Request + error :=
  let srcNS := get_string sp ["spec"; "sourcePod"; "namespace"] in
  let srcName := get_string sp ["spec"; "sourcePod"; "name"] in
  if is_empty srcNS || is_empty srcName then inr (ErrNew "spec.sourcePod.{namespace,name} are required")
  else
    let dstNS := get_string sp ["spec"; "destPod"; "namespace"] in
    let destPod := if is_empty dstNS then None
                   else Some (MkPodRef dstNS (get_string sp ["spec"; "destPod"; "name"])) in
    let image := get_string sp ["spec"; "image"] in
    if is_empty image then inr (ErrNew "spec.image is required")
    else
      inl (MkRequest "" (get_string sp ["spec"; "destNode"])
             (default ∅ (sp_map sp ["spec"; "destNodeSelector"])) []
             (Some (MkPodRef srcNS srcName)) "" "" destPod "" "" image
             (get_bool sp ["spec"; "sharedStorage"]) (get_bool sp ["spec"; "replayCmdline"])
             (get_string sp ["spec"; "tunnelMode"]) (get_int sp ["spec"; "downtimeMS"])
             (get_bool sp ["spec"; "autoDowntime"]) (get_int sp ["spec"; "autoDowntimeFloorMS"])
             (get_int sp ["spec"; "cniConvergenceDelaySeconds"]) (get_int sp ["spec"; "multifdChannels"])
             (get_int sp ["spec"; "podWaitTimeoutSeconds"]) (get_string sp ["spec"; "sourceCleanup"])
             (get_bool sp ["spec"; "adoptVM"]) "" "" "" "" "").

(** ** Effects *)

Record PodScheduling := MkSched { sd_NodeSelector : gmap string string; sd_Tolerations : list Toleration }.

(** The pod that [createAdoptionPod] submits. *)
Record AdoptionPod := MkAdoption {
  ap_Name : string; ap_Namespace : string; ap_Meta : PodMeta;
  ap_SandboxID : string; ap_RuntimeClass : string; ap_NodeName : string }.

Inductive cevent :=
| CPatch (u : StatusUpdate) (err : option error)          (* a status patch and its result *)
| CApply (req : Request)
| CCount (counter : string)
| CMark (uid : UID) (mid : string)
| CDeletePod (ns name : string)
| COrphanDelete (ns name : string)
| CAdopt (pod : AdoptionPod) (err : option error)
| CResume (id : MigrationID)
| CInflight (d : Z)                                       (* the gauge of running workers *)
| CGauge (u : StatusUpdate)                               (* updateProgressMetrics *)
| CGaugeDrop (id : MigrationID).                          (* migrationProgress.Delete *)

Record DEnv := MkDEnv {
  de_discoverer : bool;                                   (* Discoverer wired *)
  de_kube : bool;                                         (* Kube clientset wired *)
  de_podNode : string → string → string + error;
  de_sched : string → string → PodScheduling + error;
  de_nodeIP : string → string + error;
  de_apply : Request → MigrationID + error;
  de_watch : MigrationID → list StatusUpdate + error;     (* the updates until the channel closes *)
  de_patch : nat → option error;
  de_srcPod : nat → PodMeta + error;
  de_adopt : nat → option error;
  de_panics : string → nat → bool }.                      (* whether a call panics *)

(** Programs that append to the trace; an answer may depend on its length. *)
Definition CM (A : Type) : Type := DEnv → list cevent → A * list cevent.

#[global] Instance CM_ret : MRet CM := fun A a _ t => (a, t).
#[global] Instance CM_bind : MBind CM := fun A B k m env t => let (a, t) := m env t in k a env t.

Definition emit (ev : cevent) : CM unit := fun _ t => (tt, t ++ [ev]).
Definition cask {A} (f : DEnv → nat → A) : CM A := fun env t => (f env (length t), t).
Definition cwhen (b : bool) (m : CM unit) : CM unit := if b then m else mret tt.

(** Programs that may panic: [None].  [call site m] is a call that panics, before
    it does anything, or behaves like [m]; [lift m] cannot panic. *)
Definition PM (A : Type) : Type := DEnv → list cevent → option A * list cevent.

#[global] Instance PM_ret : MRet PM := fun A a _ t => (Some a, t).
#[global] Instance PM_bind : MBind PM := fun A B k m env t =>
  match m env t with (Some a, t) => k a env t | (None, t) => (None, t) end.

Definition panic {A} : PM A := fun _ t => (None, t).
Definition lift {A} (m : CM A) : PM A := fun env t => let (a, t) := m env t in (Some a, t).
Definition call {A} (site : string) (m : CM A) : PM A := fun env t =>
  if de_panics env site (length t) then (None, t) else lift m env t.
Definition pwhen (b : bool) (m : PM unit) : PM unit := if b then m else mret tt.

(** A deferred call that does not recover, and one that does. *)
Definition finally {A} (m : PM A) (fin : CM unit) : PM A := fun env t =>
  let (r, t) := m env t in let (_, t) := fin env t in (r, t).
Definition recovering {A} (m : PM A) : CM (option A) := m.

(** ** Status patches *)

(** The values of the patched fields; [SNull] removes the field. *)
Inductive sval := SNull | SStr (s : string) | SErr (e : error) | SInt (z : Z) | SBool (b : bool) | STime.

#[global] Instance sval_eq_dec : EqDecision sval.
Proof. solve_decision. Defined.

Definition status_fields (u : StatusUpdate) : list (string * sval) :=
  [("phase", SStr (su_Phase u));
   ("message", if is_empty (su_Message u) then SNull else SStr (su_Message u));
   ("error", match su_Error u with None => SNull | Some e => SErr e end)] ++
  (if is_empty (su_ID u) then [] else [("migrationID", SStr (su_ID u))]) ++
  (if (su_RAMTransferred u >? 0) || (su_RAMTotal u >? 0)
   then [("ramTransferred", SInt (su_RAMTransferred u)); ("ramTotal", SInt (su_RAMTotal u))] else []) ++
  (if su_DowntimeMS u >? 0 then [("actualDowntimeMS", SInt (su_DowntimeMS u))] else []) ++
  (if su_AppliedDowntimeMS u >? 0 then [("appliedDowntimeMS", SInt (su_AppliedDowntimeMS u))] else []) ++
  (if su_RTTMS u >? 0 then [("rttMS", SInt (su_RTTMS u))] else []) ++
  (if su_AutoDowntime u then [("autoDowntime", SBool true)] else []) ++
  (if (su_Phase u =? PhaseSubmitted)%string then [("startedAt", STime)] else []) ++
  (if IsTerminal (su_Phase u) then [("completedAt", STime)] else []).

Definition patchStatusUpdate (u : StatusUpdate) : CM (option error) :=
  err ← cask de_patch;
  emit (CPatch u err);;
  cwhen (negb (is_nil err)) (emit (CCount "status_patch_errors"));;
  mret err.

Definition patchStatus (migrationID phase message : string) (e : option error) : CM (option error) :=
  patchStatusUpdate (update_of migrationID phase message e).

Definition patchFailedStatus (migrationID message : string) (e : option error) : CM unit :=
  err ← patchStatus migrationID PhaseFailed message e;
  cwhen (is_nil err) (emit (CCount "failed")).

(** ** The adoption pod *)

Definition adoption_labels (srcPod : string) : gmap string string :=
  list_to_map [("app.kubernetes.io/name", "katamaran"); (componentLabel, "adopted-vm");
               ("katamaran.io/source-pod", srcPod)].

(** The source pod's labels are added where the key is not taken. *)
Definition createAdoptionPod (req : Request) (src : PodRef) (name destNode : string) : CM (option error) :=
  meta ← cask (fun e n => if de_kube e then de_srcPod e n else inr (ErrNew "no clientset"));
  let labels := adoption_labels (pr_Name src) in
  let pm := match meta with
            | inl m => MkPodMeta (labels ∪ pm_Labels m) (pm_Owners m)
            | inr _ => MkPodMeta labels []
            end in
  err ← cask de_adopt;
  emit (CAdopt (MkAdoption name (pr_Namespace src) pm "katamaran-dest" "katamaran-adopted" destNode) err);;
  mret err.

(** ** [dispatch] *)

(** Resolving the nodes of a request; a failure has been reported. *)
Definition merge_selector (req_sel sched_sel : gmap string string) : gmap string string := req_sel ∪ sched_sel.

Definition with_nodes (req : Request) (srcNode destIP : string) (sel : gmap string string)
    (tols : list Toleration) : Request :=
  MkRequest srcNode (rq_DestNode req) sel tols (rq_SourcePod req)
    (rq_SourceQMP req) (rq_VMIP req) (rq_DestPod req) (rq_DestQMP req) destIP (rq_Image req) (rq_SharedStorage req)
    (rq_ReplayCmdline req) (rq_TunnelMode req) (rq_DowntimeMS req) (rq_AutoDowntime req)
    (rq_AutoDowntimeFloorMS req) (rq_CNIConvergenceDelaySeconds req) (rq_MultifdChannels req)
    (rq_PodWaitTimeoutSeconds req) (rq_SourceCleanup req) (rq_AdoptVM req) (rq_TapIface req) (rq_TapNetns req)
    (rq_LogLevel req) (rq_LogFormat req) (rq_KubectlContext req).

Definition fail_dispatch (message : string) (e : error) : PM (option Request) :=
  call "Patch" (patchFailedStatus "" message (Some e));; mret None.

Definition resolve_request (req : Request) : PM (option Request) :=
  match rq_SourcePod req with
  | None => mret (Some req)
  | Some src =>
      have ← lift (cask (fun e _ => de_discoverer e));
      if negb have then fail_dispatch "resolve migration" (ErrNew "discoverer unavailable")
      else
        node ← call "LookupPodNode" (cask (fun e _ => de_podNode e (pr_Namespace src) (pr_Name src)));
        match node with
        | inr e => fail_dispatch "resolve source pod node" e
        | inl srcNode =>
            if is_empty srcNode then fail_dispatch "resolve source pod node" (ErrNew "source pod node is empty")
            else if is_empty (rq_DestNode req) then
              sched ← call "LookupPodScheduling" (cask (fun e _ => de_sched e (pr_Namespace src) (pr_Name src)));
              match sched with
              | inr e => fail_dispatch "resolve source pod scheduling" e
              | inl sched =>
                  mret (Some (with_nodes req srcNode (rq_DestIP req)
                    (merge_selector (rq_DestNodeSelector req) (sd_NodeSelector sched)) (sd_Tolerations sched)))
              end
            else
              ip ← call "LookupNodeInternalIP" (cask (fun e _ => de_nodeIP e (rq_DestNode req)));
              match ip with
              | inr e => fail_dispatch "resolve dest node IP" e
              | inl ip =>
                  if is_empty ip then
                    fail_dispatch "resolve dest node IP" (ErrNew "destination node InternalIP is empty")
                  else if (srcNode =? rq_DestNode req)%string then
                    fail_dispatch "invalid spec" (ErrNew "source pod already runs on destNode")
                  else mret (Some (with_nodes req srcNode ip (rq_DestNodeSelector req) (rq_DestTolerations req)))
              end
        end
  end.

(** Consuming the updates: the phase of the last one, empty if there was none. *)
Fixpoint consume (updates : list StatusUpdate) (lastPhase : string) : PM string :=
  match updates with
  | [] => mret lastPhase
  | u :: updates =>
      _ ← call "Patch" (patchStatusUpdate u);
      lift (emit (CGauge u));;
      consume updates (su_Phase u)
  end.

(** The switch on the last phase. *)
Definition close_watch (id : MigrationID) (lastPhase : string) : PM unit :=
  if (lastPhase =? PhaseSucceeded)%string then lift (emit (CCount "succeeded"))
  else if (lastPhase =? PhaseFailed)%string then lift (emit (CCount "failed"))
  else
    lift (emit (CCount "failed"));;
    lift (emit (CCount "watch_lost"));;
    _ ← call "Patch" (patchStatus id PhaseFailed
          ("watch closed without terminal status" +:+
           (if is_empty lastPhase then "" else " (last phase " +:+ lastPhase +:+ ")")) None);
    mret tt.

(** Marks the first controller among the owners of the source pod. *)
Fixpoint mark_owner (owners : list OwnerReference) (id : MigrationID) : CM unit :=
  match owners with
  | [] => mret tt
  | o :: owners =>
      if is_controller o && isManagedPodControllerKind (or_Kind o) then emit (CMark (or_UID o) id)
      else mark_owner owners id
  end.

Definition cleanup_source (req : Request) (id : MigrationID) (src : PodRef) : PM unit :=
  have ← lift (cask (fun e _ => de_discoverer e));
  if negb have then mret tt
  else
    kube ← lift (cask (fun e _ => de_kube e));
    pwhen (kube && rq_AdoptVM req)
      (m ← call "GetPod" (cask de_srcPod);
       match m with
       | inl m => lift (mark_owner (pm_Owners m) id)
       | inr _ => mret tt
       end);;
    if (rq_SourceCleanup req =? "delete")%string
    then call "DeletePod" (emit (CDeletePod (pr_Namespace src) (pr_Name src)))
    else if (rq_SourceCleanup req =? "orphan")%string
    then call "OrphanAndDeletePod" (emit (COrphanDelete (pr_Namespace src) (pr_Name src)))
    else mret tt.

(** [s[:n]]: out of range is a panic. *)
Definition slice_to (n : nat) (s : string) : PM string :=
  if (String.length s <? n)%nat then panic else mret (stake n s).

(** After the stream: clean-up of the source and adoption, on success only. *)
Definition after_watch (req : Request) (id : MigrationID) (lastPhase : string) : PM unit :=
  match rq_SourcePod req with
  | None => mret tt
  | Some src =>
      let ok := (lastPhase =? PhaseSucceeded)%string in
      pwhen (ok && negb (is_empty (rq_SourceCleanup req)) && negb (rq_SourceCleanup req =? "none")%string)
        (cleanup_source req id src);;
      pwhen (ok && rq_AdoptVM req)
        (short ← slice_to 8 id;
         pwhen (negb (is_empty (rq_DestNode req)))
           (_ ← call "CreatePod" (createAdoptionPod req src ("adopted-" +:+ short) (rq_DestNode req)); mret tt))
  end.

(** From the accepted submission on. *)
Definition dispatch_watch (req : Request) (id : MigrationID) : PM unit :=
  lift (emit (CCount "dispatched"));;
  _ ← call "Patch" (patchStatus id PhaseSubmitted "submitted to orchestrator" None);
  updates ← call "Watch" (cask (fun e _ => de_watch e id));
  match updates with
  | inr e => call "Patch" (patchFailedStatus id "Watch failed" (Some e))
  | inl updates =>
      lastPhase ← consume updates "";
      close_watch id lastPhase;;
      after_watch req id lastPhase
  end.

Definition dispatch_body (sp : Spec) : PM unit :=
  match specToRequest sp with
  | inr e => call "Patch" (patchFailedStatus "" "invalid spec" (Some e))
  | inl req =>
      r ← resolve_request req;
      match r with
      | None => mret tt
      | Some req =>
          lift (emit (CApply req));;
          res ← call "Apply" (cask (fun e _ => de_apply e req));
          match res with
          | inr e => call "Patch" (patchFailedStatus "" "Apply failed" (Some e))
          | inl id => finally (dispatch_watch req id) (emit (CGaugeDrop id))
          end
      end
  end.

Definition dispatch (sp : Spec) : CM unit :=
  emit (CInflight 1);;
  r ← recovering (dispatch_body sp);
  cwhen (is_nil r) (emit (CCount "worker_panics"));;
  emit (CInflight (-1)).                                  (* deferred *)

(** ** Progress gauges *)

Record MigrationProgressEntry := MkProgress {
  mp_Phase : string; mp_RAMTransferred : Z; mp_RAMTotal : Z; mp_DowntimeMS : Z;
  mp_AppliedDowntimeMS : Z; mp_RTTMS : Z }.

Definition progress0 : MigrationProgressEntry := MkProgress "" 0 0 0 0 0.

(** A number replaces the old one only if it is positive. *)
Definition keep_positive (new old : Z) : Z := if new >? 0 then new else old.

Definition updateProgressMetrics (u : StatusUpdate) (m : gmap string MigrationProgressEntry)
    : gmap string MigrationProgressEntry :=
  if is_empty (su_ID u) then m
  else
    let e := default progress0 (m !! su_ID u) in
    <[su_ID u := MkProgress (su_Phase u) (keep_positive (su_RAMTransferred u) (mp_RAMTransferred e))
        (keep_positive (su_RAMTotal u) (mp_RAMTotal e)) (keep_positive (su_DowntimeMS u) (mp_DowntimeMS e))
        (keep_positive (su_AppliedDowntimeMS u) (mp_AppliedDowntimeMS e))
        (keep_positive (su_RTTMS u) (mp_RTTMS e))]> m.

(** The gauges after a trace. *)
Definition gauges (t : list cevent) : gmap string MigrationProgressEntry :=
  fold_left (fun m ev =>
    match ev with
    | CGauge u => updateProgressMetrics u m
    | CGaugeDrop id => base.delete id m
    | _ => m
    end) t ∅.

(** ** Reasoning about traces *)

Definition cwp {A} (env : DEnv) (m : CM A) (Q : A → list cevent → Prop) (t : list cevent) : Prop :=
  Q (m env t).1 (m env t).2.

Section cwp.
Context (env : DEnv).

Lemma cwp_bind {A B} (m : CM A) (k : A → CM B) Q t :
  cwp env m (fun a t => cwp env (k a) Q t) t → cwp env (m ≫= k) Q t.
Proof. unfold cwp, mbind, CM_bind. by destruct (m env t). Qed.

Lemma cwp_ret {A} (a : A) (Q : A → list cevent → Prop) t : Q a t → cwp env (mret a) Q t.
Proof. done. Qed.

Lemma cwp_emit ev (Q : unit → list cevent → Prop) t : Q tt (t ++ [ev]) → cwp env (emit ev) Q t.
Proof. done. Qed.

Lemma cwp_ask {A} (f : DEnv → nat → A) (Q : A → list cevent → Prop) t :
  Q (f env (length t)) t → cwp env (cask f) Q t.
Proof. done. Qed.

Lemma cwp_mono {A} (m : CM A) (Q R : A → list cevent → Prop) t :
  cwp env m Q t → (∀ a t, Q a t → R a t) → cwp env m R t.
Proof. unfold cwp. auto. Qed.

Lemma cwp_when b (m : CM unit) (Q : unit → list cevent → Prop) t :
  (b = true → cwp env m Q t) → (b = false → Q tt t) → cwp env (cwhen b m) Q t.
Proof. destruct b; unfold cwhen; intros H1 H2; [by apply H1|by apply cwp_ret, H2]. Qed.

End cwp.

(** The update of the last status patch, whether the API server refused it, and
    the last update that it accepted: the stored status. *)
Definition last_patch (t : list cevent) : option StatusUpdate :=
  fold_left (fun acc ev => match ev with CPatch u _ => Some u | _ => acc end) t None.
Definition refused (t : list cevent) : bool :=
  fold_left (fun acc ev => match ev with CPatch _ err => negb (is_nil err) | _ => acc end) t false.
Definition stored (t : list cevent) : option StatusUpdate :=
  fold_left (fun acc ev => match ev with CPatch u None => Some u | _ => acc end) t None.

Lemma last_patch_snoc t ev :
  last_patch (t ++ [ev]) = match ev with CPatch u _ => Some u | _ => last_patch t end.
Proof. unfold last_patch. rewrite fold_left_app. by destruct ev. Qed.

Lemma refused_snoc t ev :
  refused (t ++ [ev]) = match ev with CPatch _ err => negb (is_nil err) | _ => refused t end.
Proof. unfold refused. rewrite fold_left_app. by destruct ev. Qed.

Lemma stored_snoc t ev :
  stored (t ++ [ev]) = match ev with CPatch u None => Some u | _ => stored t end.
Proof. unfold stored. rewrite fold_left_app. by destruct ev. Qed.

Lemma stored_last t : refused t = false → stored t = last_patch t.
Proof.
  induction t as [|ev t IH] using rev_ind; [done|]. rewrite refused_snoc, stored_snoc, last_patch_snoc.
  destruct ev as [u [e|]| | | | | | | | | |]; auto; done.
Qed.

(** How often a counter was incremented; the sum of the changes of the gauge. *)
Definition counts (c : string) (ev : cevent) : bool := match ev with CCount d => (d =? c)%string | _ => false end.
Definition counted (c : string) (t : list cevent) : nat := length (List.filter (counts c) t).
Definition inflight_of (ev : cevent) : Z := match ev with CInflight d => d | _ => 0 end.
Definition inflight (t : list cevent) : Z := foldr (fun ev n => inflight_of ev + n) 0 t.

Lemma counted_snoc c t ev : counted c (t ++ [ev]) = (counted c t + if counts c ev then 1 else 0)%nat.
Proof. unfold counted. rewrite List.filter_app, length_app. simpl. by destruct (counts c ev). Qed.

Lemma inflight_snoc t ev : inflight (t ++ [ev]) = inflight t + inflight_of ev.
Proof. induction t as [|x t IH]; simpl; [lia|]. rewrite IH. lia. Qed.

(** Whether and how a migration was counted as finished. *)
Definition tally (t : list cevent) : nat * nat := (counted "succeeded" t, counted "failed" t).

Inductive booking := Uncounted | CountedSucceeded | CountedFailed.
Definition booking_tally (v : booking) : nat * nat :=
  match v with Uncounted => (0, 0)%nat | CountedSucceeded => (1, 0)%nat | CountedFailed => (0, 1)%nat end.

(** Effects that must not happen before a migration has succeeded. *)
Definition destructive (ev : cevent) : Prop :=
  match ev with
  | CMark _ _ | CDeletePod _ _ | COrphanDelete _ _ | CAdopt _ _ => True
  | _ => False
  end.

Definition phase_of (u : option StatusUpdate) : string := match u with Some u => su_Phase u | None => "" end.

(** An event is in order after the trace: destructive effects follow a patch
    that reported success, and an adoption pod passes the webhook. *)
Definition cevent_ok (pre : list cevent) (ev : cevent) : Prop :=
  (destructive ev → phase_of (last_patch pre) = PhaseSucceeded) ∧
  match ev with
  | CAdopt pod _ => pm_Labels (ap_Meta pod) !! componentLabel = Some "adopted-vm"
  | _ => True
  end.

Definition trace_ok (t : list cevent) : Prop := ∀ pre ev post, t = pre ++ ev :: post → cevent_ok pre ev.

Lemma trace_ok_nil : trace_ok [].
Proof. by intros [|] ? ? ?. Qed.

Lemma trace_ok_snoc t ev : trace_ok t → cevent_ok t ev → trace_ok (t ++ [ev]).
Proof.
  intros Ht He pre ev' post E. destruct post as [|x post _] using rev_ind.
  - apply app_inj_tail in E as [<- <-]. done.
  - rewrite app_comm_cons, app_assoc in E. apply app_inj_tail in E as [-> _]. by eapply Ht.
Qed.

(** The state of the trace of a running dispatch: in order, with the last patch
    in a given phase, a given booking, no panic and one worker in flight. *)
Definition tr (t : list cevent) (ph : string) (v : booking) : Prop :=
  trace_ok t ∧ phase_of (last_patch t) = ph ∧ tally t = booking_tally v ∧
  counted "worker_panics" t = 0%nat ∧ inflight t = 1.

(** Events that change none of it. *)
Definition plain (ev : cevent) : bool :=
  match ev with
  | CApply _ | CGauge _ | CGaugeDrop _ | CResume _ => true
  | CCount c => negb (existsb (String.eqb c) ["succeeded"; "failed"; "worker_panics"])
  | _ => false
  end.

Lemma tally_snoc t ev :
  tally (t ++ [ev]) = ((tally t).1 + if counts "succeeded" ev then 1 else 0,
                       (tally t).2 + if counts "failed" ev then 1 else 0)%nat.
Proof. unfold tally. by rewrite !counted_snoc. Qed.

(** Appending an event that is in order and leaves the counts alone. *)
Lemma tr_snoc t ph v ev :
  tr t ph v → cevent_ok t ev →
  counts "succeeded" ev = false → counts "failed" ev = false → counts "worker_panics" ev = false →
  inflight_of ev = 0 → tr (t ++ [ev]) (match ev with CPatch u _ => su_Phase u | _ => ph end) v.
Proof.
  intros (Ht & Hp & Hv & Hw & Hi) He H1 H2 H3 H4. split_and!.
  - by apply trace_ok_snoc.
  - rewrite last_patch_snoc. by destruct ev.
  - by rewrite tally_snoc, H1, H2, !Nat.add_0_r, <- surjective_pairing.
  - by rewrite counted_snoc, H3, Hw.
  - by rewrite inflight_snoc, H4, Hi.
Qed.

Lemma ok_unless_destructive t ev : ¬ destructive ev → cevent_ok t ev.
Proof. intros H. split; [done|]. by destruct ev; try (exfalso; apply H; exact I). Qed.

Lemma tr_plain t ph v ev : tr t ph v → plain ev = true → tr (t ++ [ev]) ph v.
Proof.
  intros Ht Hp. assert (Hok : cevent_ok t ev) by (apply ok_unless_destructive; destruct ev; (discriminate || intros [])).
  destruct ev as [|req|c| | | | |id| |u|id]; try done;
    [by apply (tr_snoc t ph v (CApply req))| |by apply (tr_snoc t ph v (CResume id))
    |by apply (tr_snoc t ph v (CGauge u))|by apply (tr_snoc t ph v (CGaugeDrop id))].
  apply negb_true_iff in Hp. simpl in Hp. apply orb_false_iff in Hp as [H1 Hp].
  apply orb_false_iff in Hp as [H2 Hp]. apply orb_false_iff in Hp as [H3 _].
  by apply (tr_snoc t ph v (CCount c)).
Qed.

Lemma tr_patch t ph v u err : tr t ph v → tr (t ++ [CPatch u err]) (su_Phase u) v.
Proof. intros Ht. apply (tr_snoc t ph v (CPatch u err)); done. Qed.

Lemma tr_destructive t v ev :
  tr t PhaseSucceeded v → destructive ev →
  match ev with CAdopt pod _ => pm_Labels (ap_Meta pod) !! componentLabel = Some "adopted-vm" | _ => True end →
  tr (t ++ [ev]) PhaseSucceeded v.
Proof.
  intros Ht Hd He. assert (Hok : cevent_ok t ev) by (split; [intros _; by destruct Ht as (_ & ? & _)|done]).
  pose proof (tr_snoc t PhaseSucceeded v ev Ht Hok) as H. destruct ev; try done; by apply H.
Qed.

Lemma tr_count t ph v c :
  tr t ph Uncounted → v ≠ Uncounted → c = match v with CountedSucceeded => "succeeded" | _ => "failed" end →
  tr (t ++ [CCount c]) ph v.
Proof.
  intros (Ht & Hp & Hv & Hw & Hi) Hne ->. split_and!.
  - apply trace_ok_snoc; [done|]. apply ok_unless_destructive. intros [].
  - by rewrite last_patch_snoc.
  - rewrite tally_snoc, Hv. by destruct v.
  - rewrite counted_snoc, Hw. by destruct v.
  - by rewrite inflight_snoc, Hi.
Qed.

(** ** The stages of a dispatch *)

Section dispatch.
Context (env : DEnv).

(** Where a panic can come from: a call, or a migration id with fewer than the
    eight characters that name the adoption pod. *)
Definition blame : Prop :=
  (∃ site n, de_panics env site n = true) ∨ (∃ req id, de_apply env req = inl id ∧ (String.length id < 8)%nat).

Definition pwp {A} (m : PM A) (Q : A → list cevent → Prop) (t : list cevent) : Prop :=
  match m env t with
  | (Some a, t') => Q a t'
  | (None, t') => (∃ ph v, tr t' ph v) ∧ blame
  end.

Lemma pwp_bind {A B} (m : PM A) (k : A → PM B) Q t :
  pwp m (fun a t => pwp (k a) Q t) t → pwp (m ≫= k) Q t.
Proof. unfold pwp, mbind, PM_bind. by destruct (m env t) as [[a|] t']. Qed.

Lemma pwp_ret {A} (a : A) (Q : A → list cevent → Prop) t : Q a t → pwp (mret a) Q t.
Proof. done. Qed.

Lemma pwp_lift {A} (m : CM A) (Q : A → list cevent → Prop) t : cwp env m Q t → pwp (lift m) Q t.
Proof. unfold cwp, pwp, lift. by destruct (m env t). Qed.

Lemma pwp_call {A} site (m : CM A) (Q : A → list cevent → Prop) t ph v :
  tr t ph v → cwp env m Q t → pwp (call site m) Q t.
Proof.
  intros Ht H. unfold pwp, call. destruct (de_panics env site (length t)) eqn:E.
  - split; [eauto|]. left. eauto.
  - by apply pwp_lift.
Qed.

Lemma pwp_mono {A} (m : PM A) (Q R : A → list cevent → Prop) t :
  pwp m Q t → (∀ a t, Q a t → R a t) → pwp m R t.
Proof. unfold pwp. destruct (m env t) as [[a|] t']; auto. Qed.

Lemma pwp_when b (m : PM unit) (Q : unit → list cevent → Prop) t :
  (b = true → pwp m Q t) → (b = false → Q tt t) → pwp (pwhen b m) Q t.
Proof. destruct b; unfold pwhen; intros H1 H2; [by apply H1|by apply pwp_ret, H2]. Qed.

Lemma tr_patchStatusUpdate u t ph v (Q : option error → list cevent → Prop) :
  tr t ph v →
  (∀ err t', tr t' (su_Phase u) v → refused t' = negb (is_nil err) → Q err t') →
  cwp env (patchStatusUpdate u) Q t.
Proof.
  intros Ht HQ. unfold patchStatusUpdate. apply cwp_bind, cwp_ask, cwp_bind, cwp_emit, cwp_bind, cwp_when.
  - intros _. apply cwp_emit, cwp_ret, HQ; [|by rewrite !refused_snoc].
    apply tr_plain; [|done]. by eapply tr_patch.
  - intros _. apply cwp_ret, HQ; [by eapply tr_patch|by rewrite refused_snoc].
Qed.

(** A dispatch that has reported its outcome. *)
Definition reported (t : list cevent) : Prop :=
  tr t PhaseSucceeded CountedSucceeded ∨ tr t PhaseFailed CountedFailed ∨
  tr t PhaseFailed Uncounted ∧ refused t = true.

Lemma tr_patchFailedStatus mid msg e t ph (Q : unit → list cevent → Prop) :
  tr t ph Uncounted → (∀ t', reported t' → Q tt t') →
  cwp env (patchFailedStatus mid msg e) Q t.
Proof.
  intros Ht HQ. unfold patchFailedStatus. apply cwp_bind. eapply tr_patchStatusUpdate; [exact Ht|].
  intros err t' Ht' Hr. apply cwp_when; intros Hn; rewrite Hn in Hr.
  - apply cwp_emit, HQ. right. left. by apply tr_count.
  - apply HQ. right. by right.
Qed.

Lemma tr_call_failed mid msg e t ph (Q : unit → list cevent → Prop) :
  tr t ph Uncounted → (∀ t', reported t' → Q tt t') →
  pwp (call "Patch" (patchFailedStatus mid msg e)) Q t.
Proof. intros Ht HQ. eapply pwp_call; [exact Ht|]. by eapply tr_patchFailedStatus. Qed.

Lemma tr_consume us lp t v (Q : string → list cevent → Prop) :
  tr t lp v ∨ us ≠ [] ∧ (∃ ph, tr t ph v) →
  (∀ r t', tr t' r v → Q r t') → pwp (consume us lp) Q t.
Proof.
  intros Ht HQ. revert lp t Ht. induction us as [|u us IH]; intros lp t Ht.
  - destruct Ht as [Ht|[[] _]]; [|done]. by apply pwp_ret, HQ.
  - assert (∃ ph, tr t ph v) as [ph Hph] by (destruct Ht as [?|[_ ?]]; eauto).
    cbn [consume]. apply pwp_bind. eapply pwp_call; [exact Hph|]. eapply tr_patchStatusUpdate; [exact Hph|].
    intros err t' Ht' _. apply pwp_bind, pwp_lift, cwp_emit, IH. left. by apply tr_plain.
Qed.

Lemma tr_close_watch id r t (Q : unit → list cevent → Prop) :
  tr t r Uncounted ∨ r = "" ∧ (∃ ph, tr t ph Uncounted) →
  (∀ t', (tr t' PhaseSucceeded CountedSucceeded ∨ r ≠ PhaseSucceeded ∧ tr t' PhaseFailed CountedFailed) → Q tt t') →
  pwp (close_watch id r) Q t.
Proof.
  intros Ht HQ. unfold close_watch.
  destruct (String.eqb_spec r PhaseSucceeded) as [->|Hs].
  { destruct Ht as [Ht|[[=] _]]. apply pwp_lift, cwp_emit, HQ. left. by apply tr_count. }
  destruct (String.eqb_spec r PhaseFailed) as [->|Hf].
  { destruct Ht as [Ht|[[=] _]]. apply pwp_lift, cwp_emit, HQ. right. split; [done|]. by apply tr_count. }
  assert (∃ ph, tr t ph Uncounted) as [ph Hph] by (destruct Ht as [?|[_ ?]]; eauto).
  apply pwp_bind, pwp_lift, cwp_emit, pwp_bind, pwp_lift, cwp_emit, pwp_bind.
  assert (Hc : tr ((t ++ [CCount "failed"]) ++ [CCount "watch_lost"]) ph CountedFailed)
    by (apply tr_plain; [by apply tr_count|done]).
  eapply pwp_call; [exact Hc|]. eapply tr_patchStatusUpdate; [exact Hc|].
  intros err t' Ht' _. apply pwp_ret, HQ. by right.
Qed.

Lemma tr_mark_owner owners id t v (Q : unit → list cevent → Prop) :
  tr t PhaseSucceeded v → (∀ t', tr t' PhaseSucceeded v → Q tt t') →
  cwp env (mark_owner owners id) Q t.
Proof.
  intros Ht HQ. induction owners as [|o owners IH]; [by apply cwp_ret, HQ|]. cbn [mark_owner].
  case_match; [|exact IH]. apply cwp_emit, HQ. by apply tr_destructive.
Qed.

Lemma tr_cleanup_source req id src t v (Q : unit → list cevent → Prop) :
  tr t PhaseSucceeded v → (∀ t', tr t' PhaseSucceeded v → Q tt t') →
  pwp (cleanup_source req id src) Q t.
Proof.
  intros Ht HQ. unfold cleanup_source. apply pwp_bind, pwp_lift, cwp_ask. case_match; [by apply pwp_ret, HQ|].
  apply pwp_bind, pwp_lift, cwp_ask, pwp_bind.
  set (fin := if (rq_SourceCleanup req =? "delete")%string then _ else _).
  assert (Hend : ∀ t', tr t' PhaseSucceeded v → pwp fin Q t').
  { intros t' Ht'. unfold fin. repeat case_match; [| |by apply pwp_ret, HQ];
      (eapply pwp_call; [exact Ht'|]); by apply cwp_emit, HQ, tr_destructive. }
  apply pwp_when; [|auto]. intros _. apply pwp_bind. eapply pwp_call; [exact Ht|]. apply cwp_ask.
  destruct (de_srcPod env (length t)) as [m|e]; [|by apply pwp_ret, Hend].
  apply pwp_lift. by apply (tr_mark_owner _ _ _ v).
Qed.

Lemma adoption_label src m : (adoption_labels src ∪ m) !! componentLabel = Some "adopted-vm".
Proof. by apply lookup_union_Some_l. Qed.

Lemma tr_createAdoptionPod req src name node t v (Q : option error → list cevent → Prop) :
  tr t PhaseSucceeded v → (∀ err t', tr t' PhaseSucceeded v → Q err t') →
  cwp env (createAdoptionPod req src name node) Q t.
Proof.
  intros Ht HQ. unfold createAdoptionPod. apply cwp_bind, cwp_ask, cwp_bind, cwp_ask, cwp_bind, cwp_emit, cwp_ret.
  apply HQ, tr_destructive; [done|done|]. cbn [ap_Meta]. case_match; cbn [pm_Labels]; [apply adoption_label|done].
Qed.

Lemma tr_after_watch req id r t ph v (Q : unit → list cevent → Prop) :
  tr t ph v → (r = PhaseSucceeded → ph = PhaseSucceeded) → ((String.length id < 8)%nat → blame) →
  (∀ t', tr t' ph v → Q tt t') → pwp (after_watch req id r) Q t.
Proof.
  intros Ht Hr Hid HQ. unfold after_watch. destruct (rq_SourcePod req) as [src|]; [|by apply pwp_ret, HQ].
  set (adopt := pwhen ((r =? PhaseSucceeded)%string && rq_AdoptVM req) _).
  assert (Hadopt : ∀ t', tr t' ph v → pwp adopt Q t').
  { intros t' Ht'. apply pwp_when; [|auto].
    intros [Hs%String.eqb_eq _]%andb_true_iff. rewrite (Hr Hs) in *.
    apply pwp_bind. unfold slice_to. destruct (Nat.ltb_spec (String.length id) 8) as [Hl|Hl]; [split; eauto|].
    apply pwp_ret, pwp_when; [|auto]. intros _. apply pwp_bind. eapply pwp_call; [exact Ht'|].
    eapply tr_createAdoptionPod; [exact Ht'|]. intros err t'' Ht''. by apply pwp_ret, HQ. }
  apply pwp_bind, pwp_when; [|intros _; by apply Hadopt].
  intros [[Hs%String.eqb_eq _]%andb_true_iff _]%andb_true_iff. rewrite (Hr Hs) in *.
  eapply tr_cleanup_source; [exact Ht|]. auto.
Qed.

Lemma tr_fail_dispatch msg e t ph (Q : option Request → list cevent → Prop) :
  tr t ph Uncounted → (∀ t', reported t' → Q None t') → pwp (fail_dispatch msg e) Q t.
Proof.
  intros Ht HQ. unfold fail_dispatch. apply pwp_bind. eapply tr_call_failed; [exact Ht|].
  intros t' Ht'. by apply pwp_ret, HQ.
Qed.

Lemma tr_resolve req t ph :
  tr t ph Uncounted →
  pwp (resolve_request req) (fun r t' => match r with None => reported t' | Some _ => t' = t end) t.
Proof.
  intros Ht. unfold resolve_request. destruct (rq_SourcePod req) as [src|]; [|by apply pwp_ret].
  assert (Hf : ∀ msg e, pwp (fail_dispatch msg e)
    (fun r t' => match r with None => reported t' | Some _ => t' = t end) t).
  { intros msg e. by eapply tr_fail_dispatch. }
  apply pwp_bind, pwp_lift, cwp_ask. destruct (de_discoverer env); [|apply Hf]. cbn [negb].
  apply pwp_bind. eapply pwp_call; [exact Ht|]. apply cwp_ask. destruct (de_podNode env _ _) as [node|]; [|apply Hf].
  destruct (is_empty node); [apply Hf|]. destruct (is_empty (rq_DestNode req)).
  - apply pwp_bind. eapply pwp_call; [exact Ht|]. apply cwp_ask.
    destruct (de_sched env _ _); [by apply pwp_ret|apply Hf].
  - apply pwp_bind. eapply pwp_call; [exact Ht|]. apply cwp_ask.
    destruct (de_nodeIP env _) as [ip|]; [|apply Hf].
    destruct (is_empty ip); [apply Hf|].
    destruct (node =? rq_DestNode req)%string; [apply Hf|by apply pwp_ret].
Qed.

Lemma tr_dispatch_watch req id t ph :
  tr t ph Uncounted → ((String.length id < 8)%nat → blame) →
  pwp (dispatch_watch req id) (fun _ t' => reported t') t.
Proof.
  intros Ht Hid. unfold dispatch_watch. apply pwp_bind, pwp_lift, cwp_emit, pwp_bind.
  assert (H0 : tr (t ++ [CCount "dispatched"]) ph Uncounted) by by apply tr_plain.
  eapply pwp_call; [exact H0|]. eapply tr_patchStatusUpdate; [exact H0|].
  intros _ t1 Ht1 _. apply pwp_bind. eapply pwp_call; [exact Ht1|]. apply cwp_ask.
  destruct (de_watch env id) as [us|e].
  - apply pwp_bind.
    assert (Hrest : ∀ r t2, tr t2 r Uncounted ∨ r = "" ∧ (∃ ph, tr t2 ph Uncounted) →
      pwp (close_watch id r;; after_watch req id r) (fun _ t' => reported t') t2).
    { intros r t2 H2. apply pwp_bind. eapply tr_close_watch; [exact H2|]. intros t3 [H3|[Hne H3]].
      - eapply tr_after_watch; [exact H3|done|done|]. intros t' H'. by left.
      - eapply tr_after_watch; [exact H3|done|done|]. intros t' H'. right. by left. }
    destruct us as [|u us]; [apply pwp_ret, Hrest; right; eauto|].
    eapply tr_consume; [right; split; [done|by eexists]|]. intros r t2 H2. apply Hrest. by left.
  - eapply tr_call_failed; [exact Ht1|]. auto.
Qed.

Lemma reported_plain t ev : reported t → plain ev = true → reported (t ++ [ev]).
Proof.
  intros [H|[H|[H Hr]]] He; [left|right; left|right; right]; [by apply tr_plain|by apply tr_plain|].
  split; [by apply tr_plain|]. rewrite refused_snoc. by destruct ev.
Qed.

Lemma pwp_finally {A} (m : PM A) ev (Q : A → list cevent → Prop) t :
  plain ev = true → pwp m (fun a t => Q a (t ++ [ev])) t → pwp (finally m (emit ev)) Q t.
Proof.
  intros He. unfold pwp, finally, emit. destruct (m env t) as [[a|] t']; [done|].
  intros [(ph & v & Ht) Hb]. split; [|done]. exists ph, v. by apply tr_plain.
Qed.

Lemma tr_start : tr [CInflight 1] "" Uncounted.
Proof.
  split; [|done]. apply (trace_ok_snoc [] (CInflight 1)); [apply trace_ok_nil|]. by split; [intros []|].
Qed.

Lemma tr_dispatch_body sp : pwp (dispatch_body sp) (fun _ t' => reported t') [CInflight 1].
Proof.
  pose proof tr_start as H0. unfold dispatch_body. destruct (specToRequest sp) as [req|e].
  2:{ eapply tr_call_failed; [exact H0|]. auto. }
  apply pwp_bind. eapply pwp_mono; [by eapply tr_resolve|]. cbv beta. intros [req'|] t1 H1; [|by apply pwp_ret].
  subst t1. apply pwp_bind, pwp_lift, cwp_emit, pwp_bind.
  assert (Ht : tr ([CInflight 1] ++ [CApply req']) "" Uncounted) by by apply tr_plain.
  eapply pwp_call; [exact Ht|]. apply cwp_ask. destruct (de_apply env req') as [id|e] eqn:Eid.
  - apply pwp_finally; [done|]. eapply pwp_mono; [eapply tr_dispatch_watch; [exact Ht|]|].
    + intros Hl. right. eauto.
    + intros [] t' Ht'. by apply reported_plain.
  - eapply tr_call_failed; [exact Ht|]. auto.
Qed.

End dispatch.

(** A stream whose last update is not terminal. *)

Definition no_panics (env : DEnv) : Prop := ∀ site n, de_panics env site n = false.

Lemma bind_lift {A B} env (m : CM A) (k : A → PM B) t :
  (lift m ≫= k) env t = k (m env t).1 env (m env t).2.
Proof. unfold mbind, PM_bind, lift. by destruct (m env t). Qed.

Lemma bind_call {A B} env site (m : CM A) (k : A → PM B) t :
  no_panics env → (call site m ≫= k) env t = k (m env t).1 env (m env t).2.
Proof. intros H. rewrite <- bind_lift. unfold mbind, PM_bind, call. by rewrite H. Qed.

Lemma consume_result env us lp t :
  no_panics env → (consume us lp env t).1 = Some (default lp (su_Phase <$> last us)).
Proof.
  intros Hq. revert lp t. induction us as [|u us IH]; intros lp t; [done|]. cbn [consume].
  rewrite (bind_call _ _ _ _ _ Hq), bind_lift, IH.
  destruct us as [|v us]; [done|]. change (last (u :: v :: us)) with (last (v :: us)).
  destruct (last (v :: us)) eqn:El; [done|]. by apply last_None in El.
Qed.

Lemma patch_last env u t : phase_of (last_patch (patchStatusUpdate u env t).2) = su_Phase u.
Proof.
  unfold patchStatusUpdate, mbind, CM_bind, cask, emit, cwhen, mret, CM_ret.
  destruct (is_nil _); cbn [negb snd]; by rewrite !last_patch_snoc.
Qed.

Lemma dispatch_watch_lost env req id us u t :
  no_panics env → de_watch env id = inl (us ++ [u]) → terminal u = false →
  phase_of (last_patch (dispatch_watch req id env t).2) = PhaseFailed.
Proof.
  intros Hq Hw Hu. unfold dispatch_watch. rewrite bind_lift, !(bind_call _ _ _ _ _ Hq). cbn [cask fst snd].
  rewrite Hw. set (t1 := (patchStatus id PhaseSubmitted _ _ env _).2).
  pose proof (consume_result env (us ++ [u]) "" t1 Hq) as Hr. unfold mbind at 1, PM_bind.
  destruct (consume (us ++ [u]) "" env t1) as [r t2].
  rewrite last_snoc in Hr. simpl in Hr. subst r.
  unfold terminal, IsTerminal in Hu. apply orb_false_iff in Hu as [H1 H2].
  unfold close_watch, after_watch. rewrite H1, H2. cbn [andb]. unfold mbind at 1, PM_bind.
  rewrite !bind_lift, (bind_call _ _ _ _ _ Hq). cbn [mret PM_ret].
  destruct (rq_SourcePod req); apply patch_last.
Qed.

(** ** Properties of a dispatch *)

(** The events around the body: the gauge, and the counter of panics. *)
Lemma dispatch_events env sp :
  let b := dispatch_body sp env [CInflight 1] in
  (dispatch sp env []).2 = (b.2 ++ (if is_nil b.1 then [CCount "worker_panics"] else [])) ++ [CInflight (-1)].
Proof.
  intros b. unfold dispatch, recovering, mbind, CM_bind, emit, cwhen. cbn [app]. fold b.
  destruct b as [[u|] t]; simpl; [by rewrite app_nil_r|done].
Qed.

(** C10. Every dispatch reports and counts its Migration, or has panicked.
    [dispatch] may be given any spec, any answers of the API server, the
    discoverer and the orchestrator (with a stream of updates that ends) and
    panics in any call.  A body that returns leaves "succeeded" or "failed" as its
    last status patch and counts the migration once, under the phase of that
    patch; the one exception is a failure whose own status patch the API server
    refused, which is not counted.  If the last patch was accepted, it is the
    stored status.  A body that panics is recovered and counted once as a panic,
    with the migration counted at most once; without a panicking call, it panics
    only on a migration id of fewer than eight characters.  In every case the
    gauge of workers in flight is restored, the source pod is marked, deleted or
    orphaned and the adoption pod created only after "succeeded" was the last
    reported phase, and the webhook never denies that adoption pod. *)
Theorem dispatch_outcome env sp :
  let r := (dispatch_body sp env [CInflight 1]).1 in
  let t := (dispatch sp env []).2 in
  (r = Some tt →
     counted "worker_panics" t = 0%nat ∧
     (phase_of (last_patch t) = PhaseSucceeded ∧ tally t = (1, 0)%nat ∨
      phase_of (last_patch t) = PhaseFailed ∧ tally t = (0, 1)%nat ∨
      phase_of (last_patch t) = PhaseFailed ∧ tally t = (0, 0)%nat ∧ refused t = true)) ∧
  (r = None → counted "worker_panics" t = 1%nat ∧ (fst (tally t) + snd (tally t) ≤ 1)%nat ∧ blame env) ∧
  (refused t = false → stored t = last_patch t) ∧
  inflight t = 0 ∧
  ∀ pre ev post, t = pre ++ ev :: post →
    (destructive ev → phase_of (last_patch pre) = PhaseSucceeded) ∧
    (∀ pod err, ev = CAdopt pod err →
       ∀ clock reg, ShouldDenyPodCreate clock (ap_Meta pod) reg = ("", reg)).
Proof.
  intros r t. pose proof (tr_dispatch_body env sp) as H. unfold pwp in H.
  pose proof (dispatch_events env sp) as Et. cbv zeta in Et. fold t in Et.
  destruct (dispatch_body sp env [CInflight 1]) as [o b]. cbn [fst snd] in *. subst r.
  assert (Hb : ∃ ph v, tr b ph v).
  { destruct o as [[]|]; [|by destruct H]. destruct H as [H|[H|[H _]]]; eauto. }
  assert (Hok : trace_ok t).
  { destruct Hb as (ph & v & Hok & _). rewrite Et. destruct (is_nil o); rewrite ?app_nil_r;
      repeat (apply trace_ok_snoc; [|apply ok_unless_destructive; by intros []]); done. }
  split_and!.
  - intros ->. rewrite Et. simpl. rewrite app_nil_r, counted_snoc, tally_snoc, last_patch_snoc, refused_snoc. simpl.
    rewrite !Nat.add_0_r. change (counted "succeeded" b, counted "failed" b) with (tally b).
    destruct H as [(_ & Hp & Hv & Hw & _)|[(_ & Hp & Hv & Hw & _)|[(_ & Hp & Hv & Hw & _) Hr]]]; auto 6.
  - intros ->. destruct H as [(ph & v & _ & _ & Hv & Hw & _) Hbl]. rewrite Et. cbn [is_nil].
    rewrite !counted_snoc, !tally_snoc, Hv, Hw. simpl. split_and!; [done| |done]. destruct v; simpl; lia.
  - apply stored_last.
  - destruct Hb as (ph & v & _ & _ & _ & _ & Hi). rewrite Et, inflight_snoc. simpl.
    destruct (is_nil o); rewrite ?app_nil_r, ?inflight_snoc, Hi; simpl; lia.
  - intros pre ev post E. destruct (Hok pre ev post E) as [Hd Ha].
    split; [done|]. intros pod err -> clock reg. unfold ShouldDenyPodCreate. by rewrite Ha.
Qed.

(** A successful run with deletion of the source and adoption, and the same run
    with a panic in the creation of the adoption pod. *)
Definition adopt_spec : Spec :=
  MkSpec (fun p => match last p with Some "sourceCleanup" => Some "delete" | _ => Some "x" end)
    (fun _ => Some true) (fun _ => None) (fun _ => None).

Definition adopt_env (panics : string → bool) : DEnv :=
  MkDEnv true true (fun _ _ => inl "node-a") (fun _ _ => inr (ErrNew "")) (fun _ => inl "10.0.0.2")
    (fun _ => inl "00112233445566ff")
    (fun id => inl [update_of id PhaseTransferring "" None; update_of id PhaseSucceeded "" None])
    (fun _ => None) (fun _ => inr ErrNotFound) (fun _ => None) (fun site _ => panics site).

Lemma dispatch_outcome_witness :
  (let t := (dispatch adopt_spec (adopt_env (fun _ => false)) []).2 in
   phase_of (stored t) = PhaseSucceeded ∧ tally t = (1, 0)%nat) ∧
  (let t := (dispatch adopt_spec (adopt_env (String.eqb "CreatePod")) []).2 in
   counted "worker_panics" t = 1%nat ∧ inflight t = 0).
Proof.
  split.
  - destruct (dispatch_outcome (adopt_env (fun _ => false)) adopt_spec) as (H & _ & Hs & _).
    specialize (Hs eq_refl). destruct (H eq_refl) as [_ [[Hp Ht]|[[Hp _]|[Hp _]]]]; [|discriminate Hp..].
    split; [rewrite Hs; exact Hp|exact Ht].
  - destruct (dispatch_outcome (adopt_env (String.eqb "CreatePod")) adopt_spec) as (_ & H & _ & Hi & _).
    destruct (H eq_refl) as [Hw _]. split; [exact Hw|exact Hi].
Defined.

Definition late_line : string := "KATAMARAN_PROGRESS status=active ram_transferred=1 ram_total=2".
Definition late_update (id : MigrationID) : StatusUpdate := transferring id "status=active" 1 2 0 0 false.

Lemma late_tick id : (tail_tick id ∅ result0 (inl [late_line])).1.2 = [late_update id].
Proof. vm_compute. reflexivity. Qed.

(** A successful migration can be recorded as failed.  A progress update that
    [tailProgress] was about to send when [poll] reported success still enters
    the channel, in an interleaving that the orchestrator allows; the controller
    takes the phase of the last update, finds it not terminal, and overwrites
    the success with "failed: watch closed without terminal status". *)
Theorem success_overwritten id req :
  ∃ s, reachable id false s ∧ rs_closed s = true ∧ rs_complete s = true ∧
    Exists (fun u => su_Phase u = PhaseSucceeded) (rs_hist s) ∧
    ∀ env t, no_panics env → de_watch env id = inl (rs_hist s) →
      phase_of (last_patch (dispatch_watch req id env t).2) = PhaseFailed.
Proof.
  pose proof (late_tick id) as Hus.
  destruct (tail_tick id ∅ result0 (inl [late_line])) as [[[seen' run'] us] fin] eqn:Hlate.
  cbn [fst snd] in Hus. subst us.
  set (succ := (succeededUpdate id result0 (inr ErrNotFound) (inr ErrNotFound)).1).
  set (late := late_update id).
  exists (MkRunState [update_of id PhaseSubmitted "" None; succ; late] 0 false true true PDelete TIdle SNone true).
  split; [|split; [done|split; [done|split; [right; left; apply succeededUpdate_phase|]]]].
  - unfold reachable.
    eapply rtc_l; [eapply (step_tail_check id _ ∅ result0 (inl [late_line])) with (u := late);
                   [reflexivity|reflexivity|reflexivity|exact Hlate|by left]|].
    eapply rtc_l; [eapply (step_poll_tick id _ poll0 (MkTick (inl running) (inl complete_status) 0 0)
                           result0 (inr ErrNotFound) (inr ErrNotFound)); reflexivity|].
    eapply rtc_l; [eapply step_poll_last; [reflexivity|unfold room, updatesCap; simpl; lia]|].
    eapply rtc_l; [eapply step_tail_send; [reflexivity|unfold room, updatesCap; simpl; lia|reflexivity]|].
    eapply rtc_l; [apply step_poll_finish; reflexivity|].
    eapply rtc_l; [apply step_poll_close; reflexivity|]. apply rtc_refl.
  - intros env t Hq Hw. by apply dispatch_watch_lost with (us := [update_of id PhaseSubmitted "" None; succ]) (u := late).
Qed.
