(* ===== verification/Controller.v ===== *)
(** * The reconcile loop (internal/controller/reconciler.go)

    [recover], the finalizer handling, the shared tracking map with the worker
    goroutines that [reconcileAll] starts and their panics, and the loop of [Run]
    over its ticks. *)
From S2P Require Import Prelude GoErrors GoStrings QmpTypes Effects OrchTypes OrchValidate OrchArgs OrchApply.
From S2P Require Import OrchRun Admission Reconciler.

(** ** [recover] *)

(** A Job found by its migration label. *)
Record LJob := MkLJob { lj_component : string; lj_Name : string; lj_status : JobStatus }.

(** The loop over the list keeps the last Job of each component. *)
Definition pick_job (component : string) (jobs : list LJob) : option LJob :=
  last (List.filter (fun j => (lj_component j =? component)%string) jobs).

(** What one tick of [recover] sees. *)
Record rtick := MkRTick {
  rt_done : bool;                        (* ctx.Done() *)
  rt_now : Z;
  rt_jobs : list LJob + error;
  rt_resume : bool + error }.            (* the result of Orchestrator.Resume *)

(** [jobFailureDetails]: the error text of the patch. *)
Definition jobFailureDetails (job : JobStatus) : option error :=
  match LatestTerminalJobCondition job with
  | None => None
  | Some c => match cond_details c with [] => None | ds => Some (ErrNew (Join " " ds)) end
  end.

Definition end_recovery (id phase message : string) (e : option error) : CM bool :=
  _ ← patchStatus id phase message e; mret true.

(** The staging of a lost destination Job. *)
Definition try_resume (sp : Spec) (id : MigrationID) (tk : rtick) : CM unit :=
  match specToRequest sp with
  | inr _ => mret tt
  | inl _ =>
      emit (CResume id);;
      match rt_resume tk with
      | inl true => emit (CCount "resumed")
      | _ => mret tt
      end
  end.

(** One tick: whether the worker returns. *)
Definition recover_tick (sp : Spec) (id : MigrationID) (deadline : Z) (tk : rtick) : CM bool :=
  if rt_done tk then mret true
  else if rt_now tk >? deadline then end_recovery id PhaseFailed "recovery timed out waiting for jobs" None
  else
    match rt_jobs tk with
    | inr _ => mret false
    | inl jobs =>
        match pick_job "dest" jobs with
        | Some d =>
            let cond := TerminalJobCondition (lj_status d) in
            if (cond =? JobComplete)%string then
              end_recovery id PhaseSucceeded "recovered: dest job complete" None
            else if (cond =? JobFailed)%string then
              end_recovery id PhaseFailed "recovered: dest job failed" (jobFailureDetails (lj_status d))
            else mret false
        | None =>
            match pick_job "source" jobs with
            | None => end_recovery id PhaseFailed "recovered: source/dest jobs disappeared" None
            | Some s =>
                let cond := TerminalJobCondition (lj_status s) in
                if (cond =? JobFailed)%string then
                  end_recovery id PhaseFailed "recovered: source job failed before dest started"
                    (jobFailureDetails (lj_status s))
                else if is_empty cond then try_resume sp id tk;; mret false
                else mret false
            end
        end
    end.

Fixpoint recover_loop (sp : Spec) (id : MigrationID) (deadline : Z) (tks : list rtick) : CM bool :=
  match tks with
  | [] => mret false
  | tk :: tks =>
      fin ← recover_tick sp id deadline tk;
      if (fin : bool) then mret true else recover_loop sp id deadline tks
  end.

(** [recover], with the ticks of its run. *)
Definition recover (sp : Spec) (id : MigrationID) (deadline : Z) (tks : list rtick) : CM bool :=
  emit (CCount "recovered");;
  emit (CInflight 1);;
  kube ← cask (fun e _ => de_kube e);
  r ← (if negb kube then end_recovery id PhaseFailed "controller restarted; recovery unavailable" None
       else if is_empty id then end_recovery "" PhaseFailed "recovery: no migrationID on status" None
       else recover_loop sp id deadline tks);
  emit (CInflight (-1));;                                 (* deferred *)
  mret r.

(** What a tick says about the Jobs. *)
Definition recovered_ok (tk : rtick) : Prop :=
  ∃ jobs d, rt_jobs tk = inl jobs ∧ pick_job "dest" jobs = Some d ∧ TerminalJobCondition (lj_status d) = JobComplete.

Definition recovered_bad (deadline : Z) (tk : rtick) : Prop :=
  rt_now tk > deadline ∨
  ∃ jobs, rt_jobs tk = inl jobs ∧
    ((∃ d, pick_job "dest" jobs = Some d ∧ TerminalJobCondition (lj_status d) = JobFailed) ∨
     pick_job "dest" jobs = None ∧ pick_job "source" jobs = None ∨
     pick_job "dest" jobs = None ∧ ∃ s, pick_job "source" jobs = Some s ∧ TerminalJobCondition (lj_status s) = JobFailed).

Lemma end_recovery_run id ph msg e env t :
  (end_recovery id ph msg e env t).1 = true ∧ phase_of (last_patch (end_recovery id ph msg e env t).2) = ph.
Proof.
  unfold end_recovery, mbind, CM_bind, mret, CM_ret.
  pose proof (patch_last env (update_of id ph msg e) t) as H.
  unfold patchStatus. by destruct (patchStatusUpdate _ env t).
Qed.

Lemma try_resume_run sp id tk env t : last_patch (try_resume sp id tk env t).2 = last_patch t.
Proof.
  unfold try_resume, mbind, CM_bind, emit, mret, CM_ret. destruct (specToRequest sp); [|done].
  destruct (rt_resume tk) as [[]|]; cbn [snd]; by rewrite ?last_patch_snoc.
Qed.

Lemma recover_tick_run sp id dl tk env t :
  let r := recover_tick sp id dl tk env t in
  (rt_done tk = true ∨ rt_now tk > dl → r.1 = true) ∧
  (r.1 = false → last_patch r.2 = last_patch t) ∧
  (r.1 = true →
     rt_done tk = true ∧ r.2 = t ∨
     phase_of (last_patch r.2) = PhaseSucceeded ∧ recovered_ok tk ∨
     phase_of (last_patch r.2) = PhaseFailed ∧ recovered_bad dl tk).
Proof.
  intros r. subst r. unfold recover_tick. destruct (rt_done tk) eqn:Hd; [by split_and!; [| |left]|].
  assert (Hend : ∀ ph msg e, let r := end_recovery id ph msg e env t in
    (ph = PhaseSucceeded ∧ recovered_ok tk ∨ ph = PhaseFailed ∧ recovered_bad dl tk) →
    (false = true ∨ rt_now tk > dl → r.1 = true) ∧ (r.1 = false → last_patch r.2 = last_patch t) ∧
    (r.1 = true → false = true ∧ r.2 = t ∨ phase_of (last_patch r.2) = PhaseSucceeded ∧ recovered_ok tk ∨
       phase_of (last_patch r.2) = PhaseFailed ∧ recovered_bad dl tk)).
  { intros ph msg e r H. destruct (end_recovery_run id ph msg e env t) as [H1 H2]. fold r in H1, H2.
    split_and!; [done|congruence|]. intros _. right. rewrite H2. naive_solver. }
  destruct (Z.gtb_spec (rt_now tk) dl) as [Ht|Ht]; [apply Hend; right; split; [done|left; lia]|].
  assert (Hgo : ∀ t', last_patch t' = last_patch t →
    (false = true ∨ rt_now tk > dl → false = true) ∧ (false = false → last_patch t' = last_patch t) ∧
    (false = true → false = true ∧ t' = t ∨ phase_of (last_patch t') = PhaseSucceeded ∧ recovered_ok tk ∨
       phase_of (last_patch t') = PhaseFailed ∧ recovered_bad dl tk)).
  { intros t' H. split_and!; [intros [|]; [done|lia]|done|done]. }
  destruct (rt_jobs tk) as [jobs|] eqn:Hj; [|by apply Hgo].
  destruct (pick_job "dest" jobs) as [d|] eqn:Hdest; cbv zeta.
  - destruct (String.eqb_spec (TerminalJobCondition (lj_status d)) JobComplete) as [Hc|_].
    { apply Hend. left. split; [done|]. by exists jobs, d. }
    destruct (String.eqb_spec (TerminalJobCondition (lj_status d)) JobFailed) as [Hc|_]; [|by apply Hgo].
    apply Hend. right. split; [done|]. right. exists jobs. eauto.
  - destruct (pick_job "source" jobs) as [s|] eqn:Hsrc.
    + destruct (String.eqb_spec (TerminalJobCondition (lj_status s)) JobFailed) as [Hc|_].
      { apply Hend. right. split; [done|]. right. exists jobs. eauto 10. }
      destruct (is_empty (TerminalJobCondition (lj_status s))); [|by apply Hgo].
      pose proof (try_resume_run sp id tk env t) as Hr.
      unfold mbind, CM_bind, mret, CM_ret. destruct (try_resume sp id tk env t) as [[] t']. by apply Hgo.
    + apply Hend. right. split; [done|]. right. exists jobs. eauto.
Qed.

(** C37. Recovery after a restart is bounded and truthful.  A recovery worker
    returns at the latest at its first tick after the deadline (or when the
    controller shuts down, leaving the status alone); it patches the status only
    as it returns, to "succeeded" only when the destination Job has completed,
    and to "failed" only when the destination failed, the source failed before
    there was a destination, both Jobs are gone, or the deadline has passed. *)
Theorem recover_bounded sp id dl env tks t r t' :
  recover_loop sp id dl tks env t = (r, t') →
  (Exists (fun k => rt_done k = true ∨ rt_now k > dl) tks → r = true) ∧
  (r = false → last_patch t' = last_patch t) ∧
  (r = true → ∃ pre k post, tks = pre ++ k :: post ∧
     (rt_done k = true ∧ last_patch t' = last_patch t ∨
      phase_of (last_patch t') = PhaseSucceeded ∧ recovered_ok k ∨
      phase_of (last_patch t') = PhaseFailed ∧ recovered_bad dl k)).
Proof.
  revert t. induction tks as [|k tks IH]; intros t.
  { intros [= <- <-]. split_and!; [by rewrite Exists_nil|done|done]. }
  cbn [recover_loop]. unfold mbind, CM_bind, mret, CM_ret.
  pose proof (recover_tick_run sp id dl k env t) as (H1 & H2 & H3).
  destruct (recover_tick sp id dl k env t) as [fin t1]. cbn [fst snd] in *.
  destruct fin.
  - intros [= <- <-]. split_and!; [done|done|]. intros _. exists [], k, tks. split; [done|].
    destruct (H3 eq_refl) as [[? ->]|?]; auto.
  - intros Hr. destruct (IH t1 Hr) as (I1 & I2 & I3). specialize (H2 eq_refl). split_and!.
    + rewrite Exists_cons. intros [Hk|Hk]; [by specialize (H1 Hk)|by apply I1].
    + intros ->. by rewrite I2.
    + intros ->. destruct (I3 eq_refl) as (pre & k' & post & -> & Hk'). exists (k :: pre), k', post.
      split; [done|]. by rewrite H2 in Hk'.
Qed.

Definition demo_spec : Spec := MkSpec (fun _ => Some "x") (fun _ => None) (fun _ => None) (fun _ => None).
Definition demo_denv : DEnv :=
  MkDEnv true true (fun _ _ => inl "node-a") (fun _ _ => inr (ErrNew "")) (fun _ => inl "10.0.0.2")
    (fun _ => inl "00112233445566ff") (fun _ => inl []) (fun _ => None) (fun _ => inr ErrNotFound) (fun _ => None)
    (fun _ _ => false).

Definition demo_rticks : list rtick :=
  [MkRTick false 5 (inl [MkLJob "source" "s" running]) (inl true);
   MkRTick false 10 (inl [MkLJob "dest" "d" complete_status]) (inl false)].

Lemma recover_bounded_witness :
  ∃ pre k post, demo_rticks = pre ++ k :: post ∧ rt_now k ≤ 100.
Proof.
  destruct (recover_bounded demo_spec "7" 100 demo_denv demo_rticks [] true
              (recover_loop demo_spec "7" 100 demo_rticks demo_denv []).2) as (_ & _ & H).
  - vm_compute. reflexivity.
  - destruct (H eq_refl) as (pre & k & post & E & _). exists pre, k, post. split; [exact E|].
    assert (Hk : k ∈ demo_rticks) by (rewrite E; apply elem_of_app; right; left).
    clear E. revert k Hk. apply Forall_forall. repeat constructor; vm_compute; discriminate.
Defined.

(** ** Finalizers *)

Definition finalizerName : string := "katamaran.io/finalizer".

Definition hasFinalizer (fs : list string) : bool := existsb (String.eqb finalizerName) fs.
Definition addFinalizer (fs : list string) : list string := fs ++ [finalizerName].
Definition removeFinalizer (fs : list string) : list string :=
  List.filter (fun f => negb (f =? finalizerName)%string) fs.

Lemma hasFinalizer_add fs : hasFinalizer (addFinalizer fs) = true.
Proof. unfold hasFinalizer, addFinalizer. rewrite existsb_app. simpl. by rewrite orb_true_r. Qed.

Lemma hasFinalizer_remove fs : hasFinalizer (removeFinalizer fs) = false.
Proof.
  unfold hasFinalizer, removeFinalizer. induction fs as [|f fs IH]; [done|]. cbn [List.filter].
  destruct (String.eqb_spec f finalizerName) as [->|Hf]; cbn [negb]; [done|]. cbn [existsb]. rewrite IH.
  destruct (String.eqb_spec finalizerName f); [congruence|done].
Qed.

(** Adding and removing leaves the finalizers of others alone. *)
Lemma removeFinalizer_add fs : hasFinalizer fs = false → removeFinalizer (addFinalizer fs) = fs.
Proof.
  intros H. unfold removeFinalizer, addFinalizer. rewrite List.filter_app. simpl.
  rewrite app_nil_r. induction fs as [|f fs IH]; [done|]. unfold hasFinalizer in *. cbn [existsb] in H.
  apply orb_false_iff in H as [Hf H]. cbn [List.filter].
  destruct (String.eqb_spec f finalizerName) as [->|_]; [done|]. cbn [negb]. by rewrite IH.
Qed.

(** ** [reconcileAll] and the workers *)

Abbreviation key := (string * string)%type (only parsing).

(** The fields of a Migration that decide what happens to it. *)
Record MigrationObj := MkObj {
  mo_deleting : bool; mo_finalizers : list string; mo_phase : string; mo_migrationID : MigrationID }.

(** The Migrations of the API server, the rest of the listing that the current
    pass of [reconcileAll] walks through, the keys of the tracking map, the keys
    of the running workers, and the migrations handed to Orchestrator.Stop. *)
Record Ctl := MkCtl {
  ct_objs : gmap key MigrationObj;
  ct_listing : list (key * MigrationObj);
  ct_tracking : gset key;
  ct_workers : list key;
  ct_stopped : list MigrationID }.

(** The merge patch of metadata.finalizers and whether it went through; the API
    server removes a deleted object with its last finalizer.  [ok]: the server
    accepts the request. *)
Definition patchFinalizers (ok : bool) (k : key) (fs : list string) (objs : gmap key MigrationObj)
    : bool * gmap key MigrationObj :=
  match objs !! k with
  | Some o =>
      if ok then
        (true, match mo_deleting o, fs with
               | true, [] => base.delete k objs
               | _, _ => <[k := MkObj (mo_deleting o) fs (mo_phase o) (mo_migrationID o)]> objs
               end)
      else (false, objs)
  | None => (false, objs)
  end.

(** Deletion: stop the migration if it has an id, forget its worker, drop the
    finalizer; nothing happens without the finalizer. *)
Definition handleDeletion (ok : bool) (k : key) (obj : MigrationObj) (c : Ctl) : Ctl :=
  if negb (hasFinalizer (mo_finalizers obj)) then c
  else MkCtl (patchFinalizers ok k (removeFinalizer (mo_finalizers obj)) (ct_objs c)).2 (ct_listing c)
         (ct_tracking c ∖ {[k]}) (ct_workers c)
         (ct_stopped c ++ if is_empty (mo_migrationID obj) then [] else [mo_migrationID obj]).

Definition isTracked (k : key) (c : Ctl) : bool := bool_decide (k ∈ ct_tracking c).

(** Claims the key and starts a worker, unless the key is claimed. *)
Definition start_worker (k : key) (c : Ctl) : Ctl :=
  if isTracked k c then c
  else MkCtl (ct_objs c) (ct_listing c) ({[k]} ∪ ct_tracking c) (k :: ct_workers c) (ct_stopped c).

(** The worker a phase asks for: [dispatch] without a phase, [recover] in a
    phase that is not terminal. *)
Definition needs_worker (phase : string) : bool := is_empty phase || negb (IsTerminal phase).

(** The body of the loop for one listed object; [ok]: its finalizer patch is
    accepted. *)
Definition reconcile_item (ok : bool) (k : key) (obj : MigrationObj) (c : Ctl) : Ctl :=
  if mo_deleting obj then handleDeletion ok k obj c
  else
    let '(added, objs) :=
      if hasFinalizer (mo_finalizers obj) then (true, ct_objs c)
      else patchFinalizers ok k (addFinalizer (mo_finalizers obj)) (ct_objs c) in
    let c := MkCtl objs (ct_listing c) (ct_tracking c) (ct_workers c) (ct_stopped c) in
    if negb added then c else if needs_worker (mo_phase obj) then start_worker k c else c.

Definition set_listing (l : list (key * MigrationObj)) (c : Ctl) : Ctl :=
  MkCtl (ct_objs c) l (ct_tracking c) (ct_workers c) (ct_stopped c).
Definition set_objs (objs : gmap key MigrationObj) (c : Ctl) : Ctl :=
  MkCtl objs (ct_listing c) (ct_tracking c) (ct_workers c) (ct_stopped c).

Definition remove_one (k : key) (l : list key) : list key :=
  match list_find (eq k) l with
  | Some (i, _) => take i l ++ drop (S i) l
  | None => l
  end.

(** A worker returns: the deferred untrack. *)
Definition worker_return (k : key) (c : Ctl) : Ctl :=
  MkCtl (ct_objs c) (ct_listing c) (ct_tracking c ∖ {[k]}) (remove_one k (ct_workers c)) (ct_stopped c).

Section tracking.
(** Whether users may delete Migrations. *)
Context (deletable : Prop).

Inductive cstep : Ctl → Ctl → Prop :=
(* kubectl create and kubectl delete *)
| cs_create c k fs : ct_objs c !! k = None → cstep c (set_objs (<[k := MkObj false fs "" ""]> (ct_objs c)) c)
| cs_delete c k obj :
    deletable → ct_objs c !! k = Some obj →
    cstep c (set_objs (<[k := MkObj true (mo_finalizers obj) (mo_phase obj) (mo_migrationID obj)]> (ct_objs c)) c)
(* reconcileAll: List, then one object after the other *)
| cs_list c : ct_listing c = [] → cstep c (set_listing (map_to_list (ct_objs c)) c)
| cs_item c k obj l ok : ct_listing c = (k, obj) :: l → cstep c (reconcile_item ok k obj (set_listing l c))
(* a worker patches the status, or returns *)
| cs_patch c k obj ph id :
    k ∈ ct_workers c → ct_objs c !! k = Some obj →
    cstep c (set_objs (<[k := MkObj (mo_deleting obj) (mo_finalizers obj) ph id]> (ct_objs c)) c)
| cs_return c k : k ∈ ct_workers c → cstep c (worker_return k c)
(* a pass panics: tickOnce recovers, the rest of the listing is dropped *)
| cs_panic c : cstep c (set_listing [] c).

End tracking.

Definition ctl0 : Ctl := MkCtl ∅ [] ∅ [] [].

(** Every worker is tracked and no two of them work on the same Migration. *)
Definition exclusive (c : Ctl) : Prop :=
  NoDup (ct_workers c) ∧ ∀ k, k ∈ ct_tracking c ↔ k ∈ ct_workers c.

(** Nothing is being deleted. *)
Definition undeleted (c : Ctl) : Prop :=
  map_Forall (fun _ o => mo_deleting o = false) (ct_objs c) ∧
  Forall (fun x => mo_deleting x.2 = false) (ct_listing c).

Lemma remove_one_spec k l : k ∈ l → ∃ l1 l2, l = l1 ++ k :: l2 ∧ remove_one k l = l1 ++ l2.
Proof.
  intros Hk. unfold remove_one. destruct (list_find (eq k) l) as [[i x]|] eqn:E.
  - apply list_find_Some in E as (Hi & <- & _). exists (take i l), (drop (S i) l).
    split; [|done]. symmetry. by apply take_drop_middle.
  - apply list_find_None in E. rewrite Forall_forall in E. by apply E in Hk.
Qed.

Lemma remove_one_cons k l : remove_one k (k :: l) = l.
Proof. unfold remove_one. cbn [list_find]. by destruct (decide (k = k)). Qed.

Lemma patchFinalizers_undeleted ok k fs objs :
  map_Forall (fun _ o => mo_deleting o = false) objs →
  map_Forall (fun _ o => mo_deleting o = false) (patchFinalizers ok k fs objs).2.
Proof.
  intros H. unfold patchFinalizers. destruct (objs !! k) as [o|] eqn:Eo; [|done].
  destruct ok; [|done]. pose proof (H k o Eo) as Hd. rewrite Hd. by apply map_Forall_insert_2.
Qed.

(** Starting a worker keeps the exclusion. *)
Lemma start_worker_exclusive k c : exclusive c → exclusive (start_worker k c).
Proof.
  intros [Hn Ht]. unfold start_worker, isTracked. case_bool_decide as Hk; [done|].
  split; cbn [ct_workers ct_tracking].
  - constructor; [|done]. by rewrite <- Ht.
  - intros k'. rewrite elem_of_union, elem_of_singleton, elem_of_cons, Ht. naive_solver.
Qed.

Lemma worker_return_exclusive k c : k ∈ ct_workers c → exclusive c → exclusive (worker_return k c).
Proof.
  intros Hw [Hn Ht]. destruct (remove_one_spec k (ct_workers c) Hw) as (l1 & l2 & El & Er).
  unfold exclusive, worker_return. cbn [ct_workers ct_tracking]. rewrite Er. rewrite El in *.
  apply NoDup_app in Hn as (N1 & N2 & N3). apply NoDup_cons in N3 as [N3 N4]. split.
  - apply NoDup_app. split_and!; [done| |done]. intros x Hx Hx'. apply (N2 x Hx). by right.
  - intros k'. rewrite elem_of_difference, elem_of_singleton, Ht, !elem_of_app, elem_of_cons.
    split; [naive_solver|]. intros Hk'. split; [naive_solver|]. intros ->.
    destruct Hk' as [Hk'|Hk']; [by apply (N2 k Hk'); left|done].
Qed.

Lemma reconcile_item_inv ok k obj c :
  mo_deleting obj = false → exclusive c → undeleted c →
  exclusive (reconcile_item ok k obj c) ∧ undeleted (reconcile_item ok k obj c).
Proof.
  intros Hd He [Ho Hl]. unfold reconcile_item. rewrite Hd.
  destruct (if hasFinalizer _ then _ else _) as [added objs] eqn:Ea.
  assert (Ho' : map_Forall (fun _ o => mo_deleting o = false) objs).
  { destruct (hasFinalizer _); [by simplify_eq|].
    replace objs with (added, objs).2 by done. rewrite <- Ea. by apply patchFinalizers_undeleted. }
  destruct added; cbn [negb]; [|by split].
  destruct (needs_worker _); [|by split]. split; [by apply start_worker_exclusive|].
  unfold start_worker. by destruct (isTracked _ _).
Qed.

Lemma ctl_inv_step c c' : cstep False c c' → exclusive c → undeleted c → exclusive c' ∧ undeleted c'.
Proof.
  intros Hst He Hu. pose proof Hu as [Ho Hl]. destruct Hst as [c k fs Hk|c k obj Hf|c Hn|c k obj l ok Hn|c k obj ph id Hw Hk|c k Hw|c].
  - split; [done|]. split; [|done]. by apply map_Forall_insert_2.
  - done.
  - split; [done|]. split; [done|]. cbn [ct_listing set_listing]. apply Forall_forall. intros [k o] Hin.
    apply elem_of_map_to_list in Hin. by apply (Ho k).
  - rewrite Hn in Hl. apply Forall_cons in Hl as [Hd Hl]. by apply reconcile_item_inv.
  - split; [done|]. split; [|done]. apply map_Forall_insert_2; [exact (Ho k obj Hk)|done].
  - split; [by apply worker_return_exclusive|done].
  - split; [done|]. split; [done|constructor].
Qed.

(** C38. As long as no Migration is deleted, every Migration has at most one
    worker, over all interleavings of passes of the reconcile loop over a
    listing that may be out of date, passes that panic, status patches and
    returning or panicking workers; the tracking map lists exactly the running workers, so a pass neither dispatches
    a Migration while it is being dispatched nor recovers one that has a worker. *)
Theorem one_worker_per_migration c :
  rtc (cstep False) ctl0 c →
  NoDup (ct_workers c) ∧ ∀ k, k ∈ ct_tracking c ↔ k ∈ ct_workers c.
Proof.
  intros Hr. assert (Hi : exclusive ctl0 ∧ undeleted ctl0).
  { split_and!; [split; [constructor|set_solver]|split; [apply map_Forall_empty|constructor]]. }
  enough (Hc : exclusive c ∧ undeleted c) by exact (proj1 Hc).
  induction Hr as [|c1 c2 c3 Hs Hr IH]; [done|]. apply IH. destruct Hi. by apply (ctl_inv_step c1).
Qed.

(** One Migration, listed, and the state after its first pass. *)
Definition demo_key : key := ("ns", "m").
Definition demo_obj : MigrationObj := MkObj false [finalizerName] "" "".
Definition demo_pass : Ctl :=
  reconcile_item true demo_key demo_obj (set_objs {[demo_key := demo_obj]} ctl0).

Lemma one_worker_per_migration_witness :
  rtc (cstep False) ctl0 demo_pass ∧ ct_workers demo_pass = [demo_key] ∧ NoDup (ct_workers demo_pass).
Proof.
  assert (Hr : rtc (cstep False) ctl0 demo_pass).
  { eapply rtc_l; [apply (cs_create False ctl0 demo_key [finalizerName]); apply lookup_empty|].
    eapply rtc_l; [by apply cs_list|].
    eapply rtc_l; [eapply (cs_item False _ demo_key demo_obj [] true); reflexivity|]. apply rtc_refl. }
  split; [exact Hr|]. split; [reflexivity|]. exact (proj1 (one_worker_per_migration demo_pass Hr)).
Defined.

(** ** What the tracking map does not exclude *)

(** Runs of the step relation as a list of labels, for concrete interleavings. *)
Inductive label := LCreate | LDelete | LList | LItem | LPatch (ph : string) | LReturn.

(** Interleavings with one Migration, [demo_key]. *)
Definition next (l : label) (c : Ctl) : option Ctl :=
  match l with
  | LCreate => match ct_objs c !! demo_key with
               | None => Some (set_objs (<[demo_key := demo_obj]> (ct_objs c)) c)
               | Some _ => None
               end
  | LDelete => match ct_objs c !! demo_key with
               | Some o => Some (set_objs (<[demo_key := MkObj true (mo_finalizers o) (mo_phase o) (mo_migrationID o)]>
                                             (ct_objs c)) c)
               | None => None
               end
  | LList => match ct_listing c with [] => Some (set_listing (map_to_list (ct_objs c)) c) | _ => None end
  | LItem => match ct_listing c with (k, o) :: r => Some (reconcile_item true k o (set_listing r c)) | [] => None end
  | LPatch ph =>
      match ct_objs c !! demo_key, bool_decide (demo_key ∈ ct_workers c) with
      | Some o, true => Some (set_objs (<[demo_key := MkObj (mo_deleting o) (mo_finalizers o) ph ""]> (ct_objs c)) c)
      | _, _ => None
      end
  | LReturn => if bool_decide (demo_key ∈ ct_workers c) then Some (worker_return demo_key c) else None
  end.

Definition is_delete (l : label) : bool := match l with LDelete => true | _ => false end.

Fixpoint play (ls : list label) (c : Ctl) : option Ctl :=
  match ls with [] => Some c | l :: ls => match next l c with Some c => play ls c | None => None end end.

Lemma next_step (P : Prop) l c c' : (is_delete l = true → P) → next l c = Some c' → cstep P c c'.
Proof.
  intros Hp H. destruct l; cbn [next is_delete] in *; repeat case_match; simplify_eq.
  - by apply cs_create.
  - apply cs_delete; auto.
  - by apply cs_list.
  - by eapply cs_item.
  - apply cs_patch; [by eapply bool_decide_eq_true_1|done].
  - apply cs_return. by eapply bool_decide_eq_true_1.
Qed.

Lemma play_steps (P : Prop) ls c c' : (existsb is_delete ls = true → P) → play ls c = Some c' → rtc (cstep P) c c'.
Proof.
  revert c. induction ls as [|l ls IH]; intros c Hp H; cbn [play existsb] in *; [simplify_eq; apply rtc_refl|].
  destruct (next l c) as [c1|] eqn:E; [|done]. eapply rtc_l; [apply (next_step P l); [|exact E]|apply IH; [|done]].
  - intros Hd. apply Hp. by rewrite Hd.
  - intros Hd. apply Hp. rewrite Hd. by rewrite orb_true_r.
Qed.

(** Deleting and re-creating a Migration breaks the exclusion.  The deletion
    forgets the key while its worker is still running; when that worker returns
    it removes the entry of the new worker for the same key, and the next pass
    starts a recovery next to the dispatch that is still running. *)
Theorem recreated_migration_two_workers :
  ∃ c, rtc (cstep True) ctl0 c ∧ is_Some (ct_objs c !! demo_key) ∧ ct_workers c = [demo_key; demo_key].
Proof.
  set (ls := [LCreate; LList; LItem; LDelete; LList; LItem; LCreate; LList; LItem; LReturn; LPatch PhaseSubmitted; LList; LItem]).
  destruct (play ls ctl0) as [c|] eqn:E; [|by vm_compute in E].
  exists c. split; [by apply (play_steps True ls)|]. vm_compute in E. injection E as <-. by vm_compute; eauto.
Qed.

(** A pass works on the listing it took at its start: a worker that reports the
    end of a Migration and returns after that leaves a listed object without a
    phase behind, for which the pass starts a second dispatch. *)
Lemma stale_listing_restarts_finished_migration :
  ∃ c c', rtc (cstep False) ctl0 c ∧ cstep False c c' ∧
    mo_phase <$> ct_objs c !! demo_key = Some PhaseFailed ∧ ct_workers c = [] ∧ ct_workers c' = [demo_key].
Proof.
  set (ls := [LCreate; LList; LItem; LList; LPatch PhaseFailed; LReturn]).
  destruct (play ls ctl0) as [c|] eqn:E; [|by vm_compute in E].
  destruct (next LItem c) as [c'|] eqn:E'; [|by vm_compute in E; injection E as <-; vm_compute in E'].
  exists c, c'. split; [by apply (play_steps False ls)|]. split; [by apply (next_step False LItem)|].
  vm_compute in E. injection E as <-. vm_compute in E'. injection E' as <-. by vm_compute.
Qed.

(** ** The reconcile loop *)





























