(* ===== verification/Factory.v ===== *)
(** * The VM factory (internal/factory, cmd/katamaran-factory/sandbox_config.go)

    [Server] is the cache service that Kata shims call; its mutex makes every
    call one step.  [scan] is one pass of the directory watcher over the sandbox
    directories; what the file system holds and the JSON decoder are parameters.
    Raw JSON messages are byte strings.  Log output is left out, as is the
    generated package cachepb; the process around it is the subject of file
    FactoryProc. *)
From S2P Require Import Prelude GoErrors GoStrings QmpTypes Effects Filepath OrchValidate.

Record MigrationState := MkMigrationState {
  ms_ID : string;
  ms_QEMUPid : Z;
  ms_QMPSocket : string;
  ms_VsockCID : Z;
  ms_UUID : string;
  ms_VirtiofsdPid : Z;
  ms_HypervisorState : string;
  ms_CPU : Z;
  ms_Memory : Z;
  ms_VMConfig : string;
  ms_AgentConfig : string }.

(** ** The cache service *)

Module Cache.

Record Server := MkServer {
  queue : list MigrationState;
  quit : bool;                                   (* the quit channel is closed *)
  vmConfig : string;
  agentConfig : string;
  vmConfigUnavailableLogged : bool }.

Definition NewServer : Server := MkServer [] false "" "" false.

(** The status codes of failed calls. *)
Inductive code := Unavailable | DeadlineExceeded | Canceled.

Record GrpcVM := MkGrpcVM {
  vm_Id : string; vm_Hypervisor : string; vm_ProxyPid : Z; vm_Cpu : Z; vm_Memory : Z }.

Record GrpcVMStatus := MkGrpcVMStatus { vs_Pid : Z; vs_Cpu : Z; vs_Memory : Z }.

Definition vm_of (st : MigrationState) : GrpcVM :=
  MkGrpcVM (ms_ID st) (ms_HypervisorState st) (ms_VirtiofsdPid st) (ms_CPU st) (ms_Memory st).

Definition status_of (st : MigrationState) : GrpcVMStatus :=
  MkGrpcVMStatus (ms_QEMUPid st) (ms_CPU st) (ms_Memory st).

Definition OfferVM (st : MigrationState) (s : Server) : Server :=
  MkServer (queue s ++ [st]) (quit s) (vmConfig s) (agentConfig s) (vmConfigUnavailableLogged s).

Definition Config (s : Server) : ((string * string) + code) * Server :=
  if slen (vmConfig s) >? 0 then (inl (vmConfig s, agentConfig s), s)
  else (inr Unavailable, MkServer (queue s) (quit s) (vmConfig s) (agentConfig s) true).

Definition SetConfig (vm agent : string) (s : Server) : Server :=
  MkServer (queue s) (quit s) vm agent false.

(** [ctxErr] is the error of the call's context. *)
Definition GetBaseVM (ctxErr : option error) (s : Server) : (GrpcVM + code) * Server :=
  match ctxErr with
  | Some e => (inr (if errors_Is e ErrDeadlineExceeded then DeadlineExceeded else Canceled), s)
  | None =>
      if quit s then (inr Unavailable, s)
      else
        match queue s with
        | [] => (inr Unavailable, s)
        | st :: rest =>
            (inl (vm_of st), MkServer rest (quit s) (vmConfig s) (agentConfig s) (vmConfigUnavailableLogged s))
        end
  end.

(** The pid of the server process is left out. *)
Definition Status (s : Server) : list GrpcVMStatus := status_of <$> queue s.

Definition Quit (s : Server) : Server :=
  MkServer (queue s) true (vmConfig s) (agentConfig s) (vmConfigUnavailableLogged s).

(** ** Sequences of calls *)

Inductive call :=
| COffer (st : MigrationState) | CConfig | CSetConfig (vm agent : string)
| CGet (ctxErr : option error) | CStatus | CQuit.

Inductive reply :=
| RNone
| RConfig (r : (string * string) + code)
| RVM (r : GrpcVM + code)
| RStatus (l : list GrpcVMStatus).

Definition exec (c : call) (s : Server) : reply * Server :=
  match c with
  | COffer st => (RNone, OfferVM st s)
  | CConfig => let (r, s) := Config s in (RConfig r, s)
  | CSetConfig vm agent => (RNone, SetConfig vm agent s)
  | CGet ctxErr => let (r, s) := GetBaseVM ctxErr s in (RVM r, s)
  | CStatus => (RStatus (Status s), s)
  | CQuit => (RNone, Quit s)
  end.

Fixpoint run (cs : list call) (s : Server) : list reply * Server :=
  match cs with
  | [] => ([], s)
  | c :: cs => let (r, s) := exec c s in let (rs, s) := run cs s in (r :: rs, s)
  end.

(** ** The specification: a mailbox

    Everything that was ever offered, how many of it have been served, whether
    it is still open, and the configuration. *)
Record Mailbox := MkMailbox {
  offered : list MigrationState; served : nat; open : bool; config : option (string * string) }.

Definition mailbox0 : Mailbox := MkMailbox [] 0 true None.

Inductive mstep : call → Mailbox → reply → Mailbox → Prop :=
| m_offer st m :
    mstep (COffer st) m RNone (MkMailbox (offered m ++ [st]) (served m) (open m) (config m))
| m_config m cfg : config m = Some cfg → mstep CConfig m (RConfig (inl cfg)) m
| m_no_config m : config m = None → mstep CConfig m (RConfig (inr Unavailable)) m
| m_set_config vm agent m :
    mstep (CSetConfig vm agent) m RNone
      (MkMailbox (offered m) (served m) (open m) (if is_empty vm then None else Some (vm, agent)))
| m_get m st :
    open m = true → offered m !! served m = Some st →
    mstep (CGet None) m (RVM (inl (vm_of st))) (MkMailbox (offered m) (S (served m)) (open m) (config m))
| m_get_none m :
    open m = false ∨ served m = length (offered m) → mstep (CGet None) m (RVM (inr Unavailable)) m
| m_get_ctx m e c :
    c ≠ Unavailable → mstep (CGet (Some e)) m (RVM (inr c)) m
| m_status m : mstep CStatus m (RStatus (status_of <$> drop (served m) (offered m))) m
| m_quit m : mstep CQuit m RNone (MkMailbox (offered m) (served m) false (config m)).

Inductive msteps : list call → Mailbox → list reply → Mailbox → Prop :=
| ms_nil m : msteps [] m [] m
| ms_cons c cs m r m1 rs m2 : mstep c m r m1 → msteps cs m1 rs m2 → msteps (c :: cs) m (r :: rs) m2.

(** The abstraction relation. *)
Definition represents (s : Server) (m : Mailbox) : Prop :=
  (served m ≤ length (offered m))%nat ∧ queue s = drop (served m) (offered m) ∧ quit s = negb (open m) ∧
  config m = if is_empty (vmConfig s) then None else Some (vmConfig s, agentConfig s).

Lemma NewServer_represents : represents NewServer mailbox0.
Proof. split_and!; done. Qed.

Lemma exec_simulates c s m :
  represents s m → ∃ m', mstep c m (exec c s).1 m' ∧ represents (exec c s).2 m'.
Proof.
  intros (Hle & Hq & Ho & Hc). destruct c as [st| |vm agent|[e|]| |]; cbn [exec].
  - eexists. split; [constructor|]. split_and!; cbn; [rewrite length_app; lia| |done|done].
    rewrite drop_app_le by done. by rewrite Hq.
  - unfold Config, is_empty, slen in *. destruct (vmConfig s) as [|c r] eqn:Ev; cbn [String.length] in *.
    + eexists. split; [by apply m_no_config|]. split_and!; cbn; rewrite ?Ev; done.
    + assert ((Z.of_nat (S (String.length r)) >? 0) = true) as -> by (by rewrite Z.gtb_ltb; apply Z.ltb_lt; lia).
      eexists. split; [by apply m_config|]. split_and!; cbn; rewrite ?Ev; done.
  - eexists. split; [constructor|]. by split_and!.
  - unfold GetBaseVM. destruct (errors_Is e ErrDeadlineExceeded); eexists; (split; [by apply m_get_ctx|by split_and!]).
  - unfold GetBaseVM. destruct (quit s) eqn:Eq.
    { eexists. split; [apply m_get_none; left; by destruct (open m)|]. split_and!; cbn; rewrite ?Eq; done. }
    destruct (queue s) as [|st rest] eqn:Eu.
    + eexists. split; [apply m_get_none; right|split_and!; cbn; rewrite ?Eu, ?Eq; done].
      assert (length (drop (served m) (offered m)) = 0%nat) as Hl by (by rewrite <- Hq).
      rewrite length_drop in Hl. lia.
    + assert (Hl : offered m !! served m = Some st) by (rewrite <- (Nat.add_0_r (served m)), <- lookup_drop, <- Hq; done).
      eexists. split; [apply m_get; [by destruct (open m)|done]|]. apply lookup_lt_Some in Hl.
      split_and!; cbn; [lia| |done|done].
      replace (S (served m)) with (served m + 1)%nat by lia. rewrite <- drop_drop, <- Hq. done.
  - eexists. split; [|by split_and!]. unfold Status. rewrite Hq. constructor.
  - eexists. split; [constructor|]. by split_and!.
Qed.

Lemma run_simulates cs s m :
  represents s m → ∃ m', msteps cs m (run cs s).1 m' ∧ represents (run cs s).2 m'.
Proof.
  revert s m. induction cs as [|c cs IH]; intros s m Hr; [by exists m; split; [constructor|]|].
  destruct (exec_simulates c s m Hr) as (m1 & Hs & Hr1). cbn [run]. destruct (exec c s) as [r s1]. cbn in *.
  destruct (IH s1 m1 Hr1) as (m2 & Hss & Hr2). destruct (run cs s1) as [rs s2]. exists m2. split; [|done].
  by econstructor.
Qed.

(** What the calls offered and what the replies served. *)
Definition offers (cs : list call) : list MigrationState := omap (fun c => match c with COffer st => Some st | _ => None end) cs.
Definition served_vms (rs : list reply) : list GrpcVM :=
  omap (fun r => match r with RVM (inl vm) => Some vm | _ => None end) rs.

Lemma msteps_account cs m rs m' :
  msteps cs m rs m' → (served m ≤ length (offered m))%nat →
  (served m' ≤ length (offered m'))%nat ∧ offered m' = offered m ++ offers cs ∧
  served_vms rs = vm_of <$> take (served m' - served m) (drop (served m) (offered m')) ∧ (served m ≤ served m')%nat.
Proof.
  induction 1 as [m|c cs m r m1 rs m2 Hs Hss IH]; intros Hle.
  { rewrite app_nil_r, Nat.sub_diag. by split_and!. }
  assert (Hmid : (served m1 ≤ length (offered m1))%nat ∧ offered m1 = offered m ++ offers [c]).
  { inversion Hs; subst; cbn; rewrite ?app_nil_r, ?length_app; split; try done; try lia.
    eapply lookup_lt_Some in H0. lia. }
  destruct Hmid as [Hle1 Ho1]. destruct (IH Hle1) as (Hle2 & Ho2 & Hv & Hm). clear IH.
  assert (Hoff : offered m2 = offered m ++ offers (c :: cs)).
  { rewrite Ho2, Ho1, <- app_assoc. unfold offers. by rewrite <- omap_app. }
  assert (Hcase : (r = RVM (inl (vm_of (default (MkMigrationState "" 0 "" 0 "" 0 "" 0 0 "" "") (offered m2 !! served m)))) ∧
                   served m1 = S (served m) ∧ (served m < length (offered m2))%nat) ∨
                  (served_vms [r] = [] ∧ served m1 = served m)).
  { inversion Hs; subst; cbn; try (by right).
    left. pose proof (lookup_lt_Some _ _ _ H0) as Hlt. cbn [offered] in Ho2. rewrite Ho2, length_app, lookup_app_l, H0 by done.
    split_and!; [done|done|lia]. }
  split_and!; [done|done| |destruct Hcase as [(_ & ? & _)|(_ & ?)]; lia].
  change (served_vms (r :: rs)) with (served_vms ([r] ++ rs)). unfold served_vms in *. rewrite omap_app, Hv.
  destruct Hcase as [(-> & E1 & Hlt)|(-> & E1)]; rewrite E1 in *.
  - destruct (lookup_lt_is_Some_2 _ _ Hlt) as [st Hst]. rewrite Hst. cbn [default from_option omap list_omap].
    rewrite (drop_S _ _ _ Hst). replace (served m2 - served m)%nat with (S (served m2 - S (served m))) by lia. done.
  - done.
Qed.

(** C24. The factory is a mailbox: every sequence of calls, in the order in which
    the mutex admits them, gets the replies that the specification allows.  The
    VMs served are the first of those offered, in the order of the offers and
    each exactly once; what has not been served is still queued. *)
Theorem server_refines_mailbox cs :
  ∃ m, msteps cs mailbox0 (run cs NewServer).1 m ∧ represents (run cs NewServer).2 m ∧ offered m = offers cs ∧
    served_vms (run cs NewServer).1 = vm_of <$> take (served m) (offers cs) ∧
    queue (run cs NewServer).2 = drop (served m) (offers cs).
Proof.
  destruct (run_simulates cs NewServer mailbox0 NewServer_represents) as (m & Hs & Hr).
  exists m. destruct (msteps_account _ _ _ _ Hs ltac:(done)) as (_ & Ho & Hv & _). cbn in Ho, Hv.
  rewrite Nat.sub_0_r, drop_0, Ho in Hv. pose proof Hr as (_ & Hq & _). rewrite Ho in Hq. by split_and!.
Qed.

End Cache.

(** ** The directory watcher *)

Module Watch.
Import Cache.

Definition migrationMetaFile : string := "migration-meta.json".

(** What one pass finds: the directory and the files of its subdirectories. *)
Record fs := MkFs { fs_dir : list dirent + error; fs_file : string → string + error }.

Section watcher.
(** [json.Unmarshal] into a [MigrationState], and the watched directory. *)
Context (unmarshal : string → MigrationState + error) (dir : string).

Definition meta_path (name : string) : string := path_join [dir; name; migrationMetaFile].

(** The calls a parsed file leads to. *)
Definition offer_calls (st : MigrationState) : list call :=
  (if slen (ms_VMConfig st) >? 0 then [CSetConfig (ms_VMConfig st) (ms_AgentConfig st)] else []) ++ [COffer st].

(** One entry: the paths seen, and the calls of the server. *)
Definition scan_entry (f : fs) (seen : gset string) (e : dirent) : gset string * list call :=
  if negb (de_isdir e) then (seen, [])
  else
    let p := meta_path (de_name e) in
    if bool_decide (p ∈ seen) then (seen, [])
    else
      match fs_file f p with
      | inr _ => (seen, [])
      | inl data =>
          match unmarshal data with
          | inr _ => ({[p]} ∪ seen, [])
          | inl st => ({[p]} ∪ seen, offer_calls st)
          end
      end.

Fixpoint scan_entries (f : fs) (seen : gset string) (es : list dirent) : gset string * list call :=
  match es with
  | [] => (seen, [])
  | e :: es =>
      let '(seen, cs) := scan_entry f seen e in
      let '(seen, cs') := scan_entries f seen es in
      (seen, cs ++ cs')
  end.

(** The paths of the directories of this pass. *)
Definition current (es : list dirent) : gset string :=
  list_to_set ((fun e => meta_path (de_name e)) <$> List.filter de_isdir es).

Definition scan (f : fs) (seen : gset string) : gset string * list call :=
  match fs_dir f with
  | inr _ => (seen, [])
  | inl es =>
      let '(seen, cs) := scan_entries f seen es in
      (filter (fun p => p ∈ current es) seen, cs)
  end.

(** The passes of [Run]. *)
Fixpoint scans (fs : list fs) (seen : gset string) : gset string * list (list call) :=
  match fs with
  | [] => (seen, [])
  | f :: fs => let '(seen, cs) := scan f seen in let '(seen, css) := scans fs seen in (seen, cs :: css)
  end.

(** ** Facts *)

(** A pass reads the file of [p]: its directory is listed and [p] is not seen. *)
Definition takes (f : fs) (seen : gset string) (p : string) (data : string) : Prop :=
  ∃ es, fs_dir f = inl es ∧ p ∈ current es ∧ (p ∉ seen) ∧ fs_file f p = inl data.

Definition listed (f : fs) (p : string) : Prop :=
  match fs_dir f with inl es => p ∈ current es | inr _ => True end.

Lemma current_cons e es :
  current (e :: es) = (if de_isdir e then {[meta_path (de_name e)]} else ∅) ∪ current es.
Proof. unfold current. cbn [List.filter]. destruct (de_isdir e); set_solver. Qed.

Lemma scan_entry_seen f seen e p :
  p ∈ (scan_entry f seen e).1 ↔
  p ∈ seen ∨ de_isdir e = true ∧ p = meta_path (de_name e) ∧ ∃ d, fs_file f p = inl d.
Proof.
  unfold scan_entry. destruct (de_isdir e); cbn [negb]; [|split; [by left|by intros [?|[? _]]]].
  case_bool_decide as Hp; cbn [fst]; [split; [by left|by intros [?|(_ & -> & _)]]|].
  destruct (fs_file f (meta_path (de_name e))) as [d|] eqn:E.
  - assert (Hu : p ∈ ({[meta_path (de_name e)]} ∪ seen : gset string) ↔
      p ∈ seen ∨ true = true ∧ p = meta_path (de_name e) ∧ ∃ d, fs_file f p = inl d).
    { rewrite elem_of_union, elem_of_singleton. split; [intros [->|?]; eauto 6|intros [?|(_ & -> & _)]; auto]. }
    by destruct (unmarshal d).
  - cbn [fst]. split; [by left|]. intros [?|(_ & -> & d & Hd)]; [done|congruence].
Qed.

Lemma scan_entries_seen f seen es p :
  p ∈ (scan_entries f seen es).1 ↔ p ∈ seen ∨ p ∈ current es ∧ ∃ d, fs_file f p = inl d.
Proof.
  revert seen. induction es as [|e es IH]; intros seen; cbn [scan_entries].
  { unfold current. cbn. set_solver. }
  pose proof (scan_entry_seen f seen e p) as He. destruct (scan_entry f seen e) as [seen1 cs]. cbn [fst] in He.
  specialize (IH seen1). destruct (scan_entries f seen1 es) as [seen2 cs']. cbn [fst] in *.
  rewrite IH, He, current_cons, elem_of_union. destruct (de_isdir e); set_solver.
Qed.

(** What is remembered after a pass. *)
Lemma scan_seen f seen p :
  p ∈ (scan f seen).1 ↔
  match fs_dir f with
  | inr _ => p ∈ seen
  | inl es => p ∈ current es ∧ (p ∈ seen ∨ ∃ d, fs_file f p = inl d)
  end.
Proof.
  unfold scan. destruct (fs_dir f) as [es|]; [|done].
  pose proof (scan_entries_seen f seen es p) as H. destruct (scan_entries f seen es) as [seen1 cs]. cbn [fst] in *.
  rewrite elem_of_filter, H. naive_solver.
Qed.

(** The directories whose files a pass offers, with the contents. *)
Definition offered_by (f : fs) (seen : gset string) (st : MigrationState) : Prop :=
  ∃ p d, takes f seen p d ∧ unmarshal d = inl st.

Lemma offers_calls st : offers (offer_calls st) = [st].
Proof. unfold offer_calls, offers. by case_match. Qed.

Lemma scan_entries_offers f seen es st :
  st ∈ offers (scan_entries f seen es).2 ↔
  ∃ p d, p ∈ current es ∧ (p ∉ seen) ∧ fs_file f p = inl d ∧ unmarshal d = inl st.
Proof.
  revert seen. induction es as [|e es IH]; intros seen; cbn [scan_entries].
  { unfold current. cbn. split; [inversion 1|]. set_solver. }
  pose proof (fun p => scan_entry_seen f seen e p) as He.
  assert (Hc : ∀ st', st' ∈ offers (scan_entry f seen e).2 ↔
    de_isdir e = true ∧ (meta_path (de_name e) ∉ seen) ∧ ∃ d, fs_file f (meta_path (de_name e)) = inl d ∧ unmarshal d = inl st').
  { intros st'. assert (Hnil : ∀ P : Prop, ¬ P → st' ∈ ([] : list MigrationState) ↔ P).
    { intros P HP. split; [inversion 1|done]. }
    unfold scan_entry. destruct (de_isdir e); cbn [negb]; [|apply Hnil; by intros [? _]].
    case_bool_decide; [apply Hnil; by intros (_ & ? & _)|].
    destruct (fs_file f (meta_path (de_name e))) as [d|] eqn:E; [|apply Hnil; by intros (_ & _ & d & ? & _)].
    destruct (unmarshal d) as [st1|] eqn:Eu; cbn [snd].
    - rewrite offers_calls, list_elem_of_singleton. split; [intros ->; eauto 6|].
      intros (_ & _ & d' & [= <-] & Hd). congruence.
    - apply Hnil. intros (_ & _ & d' & [= <-] & Hd). congruence. }
  destruct (scan_entry f seen e) as [seen1 cs]. cbn [fst snd] in *.
  specialize (IH seen1). destruct (scan_entries f seen1 es) as [seen2 cs']. cbn [snd] in *.
  unfold offers in *. rewrite omap_app, elem_of_app, IH, Hc, current_cons. clear IH Hc.
  split.
  - intros [(Hd & Hn & d & Hf & Hu)|(p & d & Hp & Hn & Hf & Hu)].
    + exists (meta_path (de_name e)), d. rewrite Hd. set_solver.
    + exists p, d. rewrite He in Hn. set_solver.
  - intros (p & d & [Hp|Hp]%elem_of_union & Hn & Hf & Hu).
    + destruct (de_isdir e); [|set_solver]. apply elem_of_singleton in Hp as ->. left. eauto.
    + destruct (decide (p ∈ seen1)) as [H1|H1].
      * apply He in H1 as [H1|(Hd & -> & _)]; [done|]. left. eauto.
      * right. exists p, d. done.
Qed.

Lemma scan_offers f seen st : st ∈ offers (scan f seen).2 ↔ offered_by f seen st.
Proof.
  unfold scan, offered_by, takes. destruct (fs_dir f) as [es|].
  - pose proof (scan_entries_offers f seen es st) as H. destruct (scan_entries f seen es) as [s1 cs]. cbn [snd] in *.
    rewrite H. split.
    + intros (p & d & Hp & Hn & Hf & Hu). exists p, d. split; [by exists es|done].
    + intros (p & d & (es' & [= <-] & Hp & Hn & Hf) & Hu). by exists p, d.
  - cbn. split; [inversion 1|]. by intros (p & d & (es & ? & _) & _).
Qed.

(** A path that has been seen stays so while its directory is listed. *)
Lemma scans_keep fs seen p :
  p ∈ seen → Forall (fun f => listed f p) fs → p ∈ (scans fs seen).1.
Proof.
  revert seen. induction fs as [|f fs IH]; intros seen Hp Hl; [done|]. apply Forall_cons in Hl as [Hf Hl].
  cbn [scans]. assert (Hs : p ∈ (scan f seen).1).
  { rewrite scan_seen. unfold listed in Hf. destruct (fs_dir f); [naive_solver|done]. }
  destruct (scan f seen) as [s1 cs]. cbn [fst] in Hs. specialize (IH s1 Hs Hl).
  by destruct (scans fs s1) as [s2 css].
Qed.

End watcher.

(** The watcher offers every migration once.  A pass offers exactly the
    metadata files that are readable, parse, and are not remembered; a file it
    has read is remembered as long as its directory is listed, over any number of
    passes and whatever becomes of the file, and forgotten with the directory, so
    that a later migration into a new directory of that name is offered again. *)
Theorem watcher_offers_once unmarshal dir f seen fs p :
  (∀ st, st ∈ offers (scan unmarshal dir f seen).2 ↔
     ∃ q d, takes dir f seen q d ∧ unmarshal d = inl st) ∧
  (∀ d, takes dir f seen p d → Forall (fun g => listed dir g p) fs →
     p ∈ (scans unmarshal dir fs (scan unmarshal dir f seen).1).1 ∧
     ∀ g d', ¬ takes dir g (scans unmarshal dir fs (scan unmarshal dir f seen).1).1 p d') ∧
  (¬ listed dir f p → p ∉ (scan unmarshal dir f seen).1).
Proof.
  split_and!.
  - intros st. apply scan_offers.
  - intros d (es & Hd & Hp & Hn & Hf) Hl.
    assert (Hin : p ∈ (scans unmarshal dir fs (scan unmarshal dir f seen).1).1).
    { apply scans_keep; [|done]. rewrite scan_seen, Hd. eauto. }
    split; [done|]. intros g d' (_ & _ & _ & Hn' & _). done.
  - intros Hl. rewrite scan_seen. unfold listed in Hl. destruct (fs_dir f); [naive_solver|by destruct Hl].
Qed.

End Watch.

(** ** The configuration of an existing sandbox *)

Module Sandbox.
Import Cache.

(** The parts of a persist.json, and the codec. *)
Record persist := MkPersist { ps_HypervisorType : string; ps_HypervisorConfig : string; ps_KataAgentConfig : string }.

Section sandbox.
Context (unmarshal : string → persist + error) (marshal : string → string → string → string).

(** The first readable persist.json of a sandbox, as calls of the server. *)
Fixpoint try_entries (read : string → string + error) (sbsDir : string) (es : list dirent) : option call :=
  match es with
  | [] => None
  | e :: es =>
      if negb (de_isdir e) then try_entries read sbsDir es
      else
        match read (path_join [sbsDir; de_name e; "persist.json"]) with
        | inr _ => try_entries read sbsDir es
        | inl raw =>
            match unmarshal raw with
            | inr _ => try_entries read sbsDir es
            | inl p =>
                Some (CSetConfig (marshal (ps_HypervisorType p) (ps_HypervisorConfig p) (ps_KataAgentConfig p))
                        (ps_KataAgentConfig p))
            end
        end
  end.

Definition tryLoadFromSandbox (f : string → list dirent + error) (read : string → string + error) (sbsDir : string)
    : option call :=
  match f sbsDir with
  | inr _ => None
  | inl es => try_entries read sbsDir es
  end.

(** The directory that is searched. *)
Definition sbs_dir (watchDir : string) : string := path_join [Dir (TrimRight watchDir "/"); "sbs"].

(** [loadVMConfig]: at start-up, then at every tick of the poller until a
    configuration was found. *)
Fixpoint loadVMConfig (sbsDir : string) (ticks : list ((string → list dirent + error) * (string → string + error)))
    : option call :=
  match ticks with
  | [] => None
  | (f, read) :: ticks =>
      match tryLoadFromSandbox f read sbsDir with
      | Some c => Some c
      | None => loadVMConfig sbsDir ticks
      end
  end.

End sandbox.

Example sbs_of_default : sbs_dir "/run/vc/vm/" = "/run/vc/sbs".
Proof. reflexivity. Qed.

End Sandbox.
