(* ===== verification/FactoryProc.v ===== *)
(** * The factory process
    (cmd/katamaran-factory/main.go and sandbox_config.go, internal/factory/watcher.go)

    The goroutines around the cache service of file Factory: the watcher with its
    recovery from panics, the poller that looks for the configuration of a running
    sandbox, the gRPC handlers, and the shutdown by a signal or by the Quit call.
    Every event is what one goroutine does between two points where it can be
    interrupted; the events of a run are an arbitrary sequence.  A pass of the
    watcher determines its calls of the server, which then happen one by one, each
    under the server's lock, between the calls of the others.  Serve and
    GracefulStop are library calls: Serve returns nil only after GracefulStop.  The
    kill by a second signal is not an event. *)
From S2P Require Import Prelude GoErrors GoStrings QmpTypes Effects Filepath OrchValidate Factory.
Import Factory.Cache Factory.Watch.

Section process.
(** The decoders of the metadata and of persist.json, the encoder of a
    configuration, and the flag --watch-dir. *)
Context (unmarshal : string → MigrationState + error).
Context (unmarshal_persist : string → Sandbox.persist + error) (marshal : string → string → string → string).
Context (watchDir : string).

Inductive pphase := Serving | Stopping | Exited (code : Z).

(** The goroutine of [loadVMConfig]: it runs, has found a configuration (or was not
    needed), or has ended by a panic that it recovered. *)
Inductive poller := Polling | PollerDone | PollerPanicked.

Record factory := MkFactory {
  fp_srv : Server;
  fp_seen : gset string;
  fp_pending : list call;          (* the calls that the watcher's pass has still to make *)
  fp_poller : poller;
  fp_watching : bool;              (* Watcher.Run has not returned *)
  fp_signal : bool;                (* the context is done *)
  fp_phase : pphase }.

(** What the directory of the sandboxes holds at one moment. *)
Record sandboxes := MkSandboxes { sb_list : string → list dirent + error; sb_read : string → string + error }.

Definition try_load (s : sandboxes) : option call :=
  Sandbox.tryLoadFromSandbox unmarshal_persist marshal (sb_list s) (sb_read s) (Sandbox.sbs_dir watchDir).

Definition after_calls (cs : list call) (s : Server) : Server := (run cs s).2.

(** [main] up to Serve: [loadVMConfig] starts its poller only if it has found
    nothing. *)
Definition boot (s : sandboxes) : list call * factory :=
  let cs := option_list (try_load s) in
  (cs, MkFactory (after_calls cs NewServer) ∅ [] (if is_nil (try_load s) then Polling else PollerDone)
         true false Serving).

(** A pass that panics while it reads or decodes an entry: the entries before it are
    done, and the paths that are gone are not forgotten. *)
Definition panicked_scan (f : fs) (entry : nat) (seen : gset string) : gset string * list call :=
  match fs_dir f with
  | inr _ => (seen, [])
  | inl es => scan_entries unmarshal watchDir f seen (take entry es)
  end.

(** [safeScan]: the watcher goes on after a pass, whether it panicked or not. *)
Definition safeScan (f : fs) (panic : option nat) (seen : gset string) : gset string * list call :=
  match panic with
  | None => scan unmarshal watchDir f seen
  | Some entry => panicked_scan f entry seen
  end.

Inductive fevent :=
  | EScan (f : fs) (panic : option nat)        (* a pass of the watcher reads the directory *)
  | EScanCall                                  (* its next call of SetConfig or OfferVM *)
  | EPoll (s : sandboxes)                      (* a tick of the poller *)
  | EPollPanic                                 (* a tick of the poller that panics *)
  | ERpc (c : call)                            (* a handler runs *)
  | ESignal
  | EWatcherDone                               (* Watcher.Run sees its context done *)
  | EStop                                      (* GracefulStop is called *)
  | EServe (err : option error).               (* Serve returns *)

Definition is_rpc (c : call) : bool :=
  match c with CConfig | CGet _ | CStatus | CQuit => true | _ => false end.

Definition running (p : factory) : bool := match fp_phase p with Exited _ => false | _ => true end.

(** What an event does: the calls of the server, and the process. *)
Definition fstep (e : fevent) (p : factory) : option (list call * factory) :=
  let '(MkFactory srv seen pending poll watching signal phase) := p in
  if negb (running p) then None
  else
    match e with
    | EScan f panic =>
        match watching, pending with
        | true, [] =>
            let '(seen, cs) := safeScan f panic seen in
            Some ([], MkFactory srv seen cs poll watching signal phase)
        | _, _ => None
        end
    | EScanCall =>
        match pending with
        | [] => None
        | c :: pending => Some ([c], MkFactory (after_calls [c] srv) seen pending poll watching signal phase)
        end
    | EPoll s =>
        match poll with
        | Polling =>
            let cs := option_list (try_load s) in
            Some (cs, MkFactory (after_calls cs srv) seen pending (if is_nil (try_load s) then Polling else PollerDone)
                        watching signal phase)
        | _ => None
        end
    | EPollPanic =>
        match poll with
        | Polling => Some ([], MkFactory srv seen pending PollerPanicked watching signal phase)
        | _ => None
        end
    | ERpc c =>
        if is_rpc c then Some ([c], MkFactory (after_calls [c] srv) seen pending poll watching signal phase) else None
    | ESignal => Some ([], MkFactory srv seen pending poll watching true phase)
    | EWatcherDone =>
        match signal, pending with
        | true, [] => Some ([], MkFactory srv seen pending poll false signal phase)
        | _, _ => None
        end
    | EStop =>
        if signal || quit srv then Some ([], MkFactory srv seen pending poll watching signal Stopping) else None
    | EServe None =>
        match phase with
        | Stopping => Some ([], MkFactory srv seen pending poll watching signal (Exited 0))
        | _ => None
        end
    | EServe (Some _) => Some ([], MkFactory srv seen pending poll watching signal (Exited 1))
    end.

(** A run: all calls of the server so far, and the process. *)
Fixpoint frun (es : list fevent) (h : list call * factory) : option (list call * factory) :=
  match es with
  | [] => Some h
  | e :: es => '(cs, p) ← fstep e h.2; frun es (h.1 ++ cs, p)
  end.

(** ** The files that are offered *)

(** The file of an entry, when the watcher offers it. *)
Definition entry_found (f : fs) (seen : gset string) (e : dirent) : option (string * MigrationState) :=
  let p := meta_path watchDir (de_name e) in
  if negb (de_isdir e) || bool_decide (p ∈ seen) then None
  else match fs_file f p with
       | inl data => match unmarshal data with inl st => Some (p, st) | inr _ => None end
       | inr _ => None
       end.

Fixpoint entries_found (f : fs) (seen : gset string) (es : list dirent) : list (string * MigrationState) :=
  match es with
  | [] => []
  | e :: es => option_list (entry_found f seen e) ++ entries_found f (scan_entry unmarshal watchDir f seen e).1 es
  end.

Definition pass_entries (f : fs) (panic : option nat) : list dirent :=
  match fs_dir f, panic with
  | inr _, _ => []
  | inl es, None => es
  | inl es, Some k => take k es
  end.

Definition found_by (e : fevent) (p : factory) : list (string * MigrationState) :=
  match e with EScan f panic => entries_found f (fp_seen p) (pass_entries f panic) | _ => [] end.

Fixpoint found (es : list fevent) (p : factory) : list (string * MigrationState) :=
  match es with
  | [] => []
  | e :: es => found_by e p ++ match fstep e p with Some (_, p) => found es p | None => [] end
  end.

(** The passes that find the directory of a path gone. *)
Definition forgets (path : string) (e : fevent) : bool :=
  match e with
  | EScan f None => match fs_dir f with inl es => bool_decide (path ∉ current watchDir es) | inr _ => false end
  | _ => false
  end.

Definition occurrences (path : string) (l : list (string * MigrationState)) : nat :=
  length (filter (λ ps, ps.1 = path) l).

(** ** Facts *)

Lemma entry_offers (f : fs) (seen : gset string) (e : dirent) :
  offers (scan_entry unmarshal watchDir f seen e).2 = (option_list (entry_found f seen e)).*2.
Proof.
  unfold scan_entry, entry_found. destruct (de_isdir e); [|done]. cbn [negb orb]. case_bool_decide; [done|].
  destruct (fs_file f _) as [data|]; [|done]. destruct (unmarshal data) as [st|]; [|done]. apply offers_calls.
Qed.

Lemma offers_app (a b : list call) : offers (a ++ b) = offers a ++ offers b.
Proof. apply omap_app. Qed.

Lemma entries_offers (f : fs) (seen : gset string) (es : list dirent) :
  offers (scan_entries unmarshal watchDir f seen es).2 = (entries_found f seen es).*2.
Proof.
  revert seen. induction es as [|e es IH]; intros seen; [done|]. cbn [scan_entries entries_found].
  rewrite fmap_app, <- entry_offers. destruct (scan_entry unmarshal watchDir f seen e) as [seen1 cs]. cbn [fst snd].
  rewrite <- IH. destruct (scan_entries unmarshal watchDir f seen1 es) as [seen2 cs']. apply offers_app.
Qed.

Lemma safeScan_entries (f : fs) (panic : option nat) (seen : gset string) :
  (safeScan f panic seen).2 = (scan_entries unmarshal watchDir f seen (pass_entries f panic)).2.
Proof.
  unfold safeScan, pass_entries, panicked_scan, scan. destruct (fs_dir f) as [es|]; [|by destruct panic].
  destruct panic as [k|]; [done|]. by destruct (scan_entries unmarshal watchDir f seen es).
Qed.

Lemma try_load_offers (s : sandboxes) : offers (option_list (try_load s)) = [].
Proof.
  unfold try_load, Sandbox.tryLoadFromSandbox. destruct (sb_list s _) as [es|]; [|done].
  induction es as [|e es IH]; [done|]. simpl. by repeat case_match.
Qed.

(** An event calls the server; what was offered and what is still to be offered are
    the files that were found. *)
Lemma fstep_spec (e : fevent) (p p' : factory) (cs : list call) :
  fstep e p = Some (cs, p') →
  fp_srv p' = after_calls cs (fp_srv p) ∧
  offers cs ++ offers (fp_pending p') = offers (fp_pending p) ++ (found_by e p).*2.
Proof.
  destruct p as [srv seen pending poll watching signal phase]. unfold fstep. destruct (running _); [|done].
  destruct e as [f panic| |s| |c| | | |[err|]]; cbn [negb found_by fp_seen fp_srv fp_pending fmap list_fmap]; intros H;
    rewrite ?app_nil_r.
  - destruct watching, pending as [|c0 pending]; try done.
    rewrite <- entries_offers, <- safeScan_entries. destruct (safeScan f panic seen) as [seen1 cs1]. by simplify_eq.
  - destruct pending as [|c pending]; [done|]. injection H as <- <-. split; [done|]. cbn [fp_pending].
    by rewrite <- offers_app.
  - destruct poll; try done. simplify_eq/=. split; [done|]. by rewrite try_load_offers.
  - destruct poll; by simplify_eq/=.
  - destruct c; by simplify_eq/=.
  - by simplify_eq.
  - destruct signal, pending; by simplify_eq.
  - destruct (signal || quit srv); by simplify_eq.
  - by simplify_eq.
  - destruct phase; by simplify_eq.
Qed.

Lemma run_app (a b : list call) (s : Server) :
  run (a ++ b) s = let '(r1, s) := run a s in let '(r2, s) := run b s in (r1 ++ r2, s).
Proof.
  revert s. induction a as [|c a IH]; intros s; cbn [app run]; [by destruct (run b s)|].
  destruct (exec c s) as [r s1]. rewrite IH. destruct (run a s1) as [r1 s2]. by destruct (run b s2).
Qed.

Lemma after_calls_app (a b : list call) (s : Server) : after_calls (a ++ b) s = after_calls b (after_calls a s).
Proof. unfold after_calls. rewrite run_app. destruct (run a s) as [r s1]. simpl. by destruct (run b s1). Qed.

Lemma frun_spec (es : list fevent) (cs0 cs : list call) (p p' : factory) :
  frun es (cs0, p) = Some (cs, p') →
  ∃ rest, cs = cs0 ++ rest ∧ fp_srv p' = after_calls rest (fp_srv p) ∧
    offers rest ++ offers (fp_pending p') = offers (fp_pending p) ++ (found es p).*2.
Proof.
  revert cs0 p. induction es as [|e es IH]; intros cs0 p Hr; cbn [frun] in Hr.
  { simplify_eq. exists []. by rewrite !app_nil_r. }
  cbn [fst snd] in Hr. cbn [found]. destruct (fstep e p) as [[cs1 p1]|] eqn:Hs; [|done]. simpl in Hr.
  destruct (fstep_spec e p p1 cs1 Hs) as [Hsrv Hoff]. destruct (IH _ _ Hr) as (rest & -> & Hp & Ho).
  exists (cs1 ++ rest). rewrite offers_app, fmap_app, after_calls_app, <- Hsrv. split_and!; [by rewrite app_assoc|done|].
  by rewrite <- app_assoc, Ho, !app_assoc, Hoff.
Qed.

(** *** How often a file is offered *)

Definition unseen (path : string) (seen : gset string) : nat := if decide (path ∈ seen) then 0 else 1.

Lemma occurrences_app (path : string) (a b : list (string * MigrationState)) :
  occurrences path (a ++ b) = (occurrences path a + occurrences path b)%nat.
Proof. unfold occurrences. by rewrite filter_app, length_app. Qed.

Lemma entry_occurrences (path : string) (f : fs) (seen : gset string) (e : dirent) :
  (occurrences path (option_list (entry_found f seen e)) + unseen path (scan_entry unmarshal watchDir f seen e).1 ≤
   unseen path seen)%nat.
Proof.
  pose proof (scan_entry_seen unmarshal watchDir f seen e path) as Hs. unfold entry_found.
  set (seen1 := (scan_entry unmarshal watchDir f seen e).1) in *.
  assert (Hmono : (unseen path seen1 ≤ unseen path seen)%nat) by (unfold unseen; repeat case_decide; naive_solver lia).
  destruct (de_isdir e) eqn:Hd; [|done]. cbn [negb orb]. case_bool_decide as Hin; [done|].
  destruct (fs_file f (meta_path watchDir (de_name e))) as [data|] eqn:Hf; [|done].
  destruct (unmarshal data) as [st|]; [|done]. unfold occurrences.
  change (option_list _) with [(meta_path watchDir (de_name e), st)]. rewrite filter_cons, filter_nil. cbn [fst].
  destruct (decide (meta_path watchDir (de_name e) = path)) as [<-|]; [|done]. unfold unseen.
  rewrite (decide_False (P := _ ∈ seen)) by done. rewrite decide_True by (apply Hs; eauto). done.
Qed.

Lemma entries_occurrences (path : string) (f : fs) (seen : gset string) (es : list dirent) :
  (occurrences path (entries_found f seen es) + unseen path (scan_entries unmarshal watchDir f seen es).1 ≤
   unseen path seen)%nat.
Proof.
  revert seen. induction es as [|e es IH]; intros seen; [done|]. cbn [scan_entries entries_found].
  rewrite occurrences_app. pose proof (entry_occurrences path f seen e) as He.
  destruct (scan_entry unmarshal watchDir f seen e) as [seen1 cs]. cbn [fst] in *. specialize (IH seen1).
  destruct (scan_entries unmarshal watchDir f seen1 es) as [seen2 cs']. cbn [fst] in *. lia.
Qed.

Lemma safeScan_occurrences (path : string) (f : fs) (panic : option nat) (seen : gset string) :
  (occurrences path (entries_found f seen (pass_entries f panic)) + unseen path (safeScan f panic seen).1 ≤
   unseen path seen + Nat.b2n (forgets path (EScan f panic)))%nat.
Proof.
  unfold safeScan, panicked_scan, scan, pass_entries, forgets.
  destruct (fs_dir f) as [es|]; [|destruct panic; cbn; lia]. destruct panic as [k|].
  - pose proof (entries_occurrences path f seen (take k es)). cbn [Nat.b2n]. lia.
  - pose proof (entries_occurrences path f seen es) as He.
    destruct (scan_entries unmarshal watchDir f seen es) as [seen1 cs]. cbn [fst] in *.
    revert He. unfold unseen. case_bool_decide as Hc; cbn [Nat.b2n].
    + repeat case_decide; lia.
    + destruct (decide (path ∈ seen1)) as [H1|H1].
      * rewrite (decide_True (P := path ∈ filter _ _)); [lia|]. apply elem_of_filter. split; [|done].
        by destruct (decide (path ∈ current watchDir es)).
      * rewrite (decide_False (P := path ∈ filter _ _)); [lia|]. by intros [_ ?]%elem_of_filter.
Qed.

Lemma found_occurrences (path : string) (es : list fevent) (p : factory) :
  (occurrences path (found es p) ≤ unseen path (fp_seen p) + length (filter (forgets path) es))%nat.
Proof.
  revert p. induction es as [|e es IH]; intros p; [unfold occurrences; simpl; lia|]. cbn [found]. rewrite occurrences_app.
  assert (He : (occurrences path (found_by e p) + match fstep e p with Some (_, p') => unseen path (fp_seen p') | None => 0 end ≤
                unseen path (fp_seen p) + Nat.b2n (forgets path e))%nat).
  { destruct e as [f panic| |s| |c| | | |[err|]]; destruct p as [srv seen pending poll watching signal phase];
      cbn [found_by fp_seen fstep Nat.b2n forgets]; try (by repeat case_match; simplify_eq; cbn [fp_seen]; change (occurrences path []) with 0%nat; lia).
    pose proof (safeScan_occurrences path f panic seen) as Hs. cbn [forgets] in Hs.
    destruct (negb _); cbn beta iota; [lia|]. destruct watching, pending as [|c0 pending]; cbn beta iota; try lia.
    destruct (safeScan f panic seen) as [seen1 cs]. cbn [fst fp_seen] in *. exact Hs. }
  rewrite filter_cons. destruct (fstep e p) as [[cs p1]|].
  - specialize (IH p1). destruct (forgets path e); cbn [Nat.b2n] in *; simpl; lia.
  - change (occurrences path []) with 0%nat. destruct (forgets path e); cbn [Nat.b2n] in *; simpl; lia.
Qed.

(** *** Where they come from *)

Lemma entries_found_origin (f : fs) (seen : gset string) (es : list dirent) (path : string) (st : MigrationState) :
  (path, st) ∈ entries_found f seen es → ∃ data, fs_file f path = inl data ∧ unmarshal data = inl st.
Proof.
  revert seen. induction es as [|e es IH]; intros seen; [by intros ?%elem_of_nil|]. cbn [entries_found].
  intros [H|H]%elem_of_app; [|by eapply IH]. unfold entry_found in H. destruct (_ || _); [by apply elem_of_nil in H|].
  destruct (fs_file f (meta_path watchDir (de_name e))) as [data|] eqn:Hf; [|by apply elem_of_nil in H]. destruct (unmarshal data) as [st'|] eqn:Hu; [|by apply elem_of_nil in H].
  change (option_list _) with [(meta_path watchDir (de_name e), st')] in H.
  apply list_elem_of_singleton in H. simplify_eq. eauto.
Qed.

Lemma found_origin (es : list fevent) (p : factory) (path : string) (st : MigrationState) :
  (path, st) ∈ found es p →
  ∃ f panic data, EScan f panic ∈ es ∧ fs_file f path = inl data ∧ unmarshal data = inl st.
Proof.
  revert p. induction es as [|e es IH]; intros p; [by intros ?%elem_of_nil|]. cbn [found]. intros [H|H]%elem_of_app.
  - destruct e as [f panic| | | | | | | |]; try by apply elem_of_nil in H. apply entries_found_origin in H as (data & Hf & Hu).
    exists f, panic, data. split; [by left|done].
  - destruct (fstep e p) as [[cs p1]|]; [|by apply elem_of_nil in H]. destruct (IH _ H) as (f & panic & data & Hin & ?).
    exists f, panic, data. split; [by right|done].
Qed.

(** C25. One process of the factory gives each migrated VM away once: whatever its
    goroutines and callers do, in any order and with any number of panicking passes,
    the VMs handed out are the first of those found in metadata files, in the order
    in which they were found, the others are queued or about to be offered by the
    current pass (all queued when no pass is under way), each was read from its file
    by a pass of the watcher, and a file is offered once more only after a pass that
    found its directory gone. *)
Theorem factory_gives_each_file_once (s : sandboxes) (es : list fevent) (cs : list call) (p : factory)
    (Hrun : frun es (boot s) = Some (cs, p)) :
  let vms := found es (boot s).2 in
  ∃ n, served_vms (run cs NewServer).1 = vm_of <$> take n vms.*2 ∧
    queue (fp_srv p) ++ offers (fp_pending p) = drop n vms.*2 ∧
    (∀ path st, (path, st) ∈ vms →
       ∃ f panic data, EScan f panic ∈ es ∧ fs_file f path = inl data ∧ unmarshal data = inl st) ∧
    (∀ path, (occurrences path vms ≤ 1 + length (filter (forgets path) es))%nat).
Proof.
  intros vms. destruct (boot s) as [cs0 p0] eqn:Hb. destruct (frun_spec es cs0 cs p0 p Hrun) as (rest & -> & Hsrv & Hoff).
  assert (Hp0 : fp_srv p0 = after_calls cs0 NewServer ∧ offers cs0 = [] ∧ fp_seen p0 = ∅ ∧ fp_pending p0 = []).
  { unfold boot in Hb. simplify_eq/=. by rewrite try_load_offers. }
  destruct Hp0 as (Hp0 & Ho0 & Hseen & Hpend). rewrite Hp0, <- after_calls_app in Hsrv. set (cs := cs0 ++ rest) in *.
  destruct (run_simulates cs NewServer mailbox0 NewServer_represents) as (m & Hs & (Hle & Hq & _)).
  destruct (msteps_account _ _ _ _ Hs ltac:(done)) as (_ & Ho & Hv & _). cbn in Ho, Hv.
  assert (Hall : offered m ++ offers (fp_pending p) = vms.*2).
  { rewrite Ho. unfold cs. rewrite offers_app, Ho0. cbn [app]. rewrite Hoff, Hpend. done. }
  exists (served m). rewrite Nat.sub_0_r, drop_0 in Hv. rewrite <- Hall. split_and!.
  - by rewrite take_app_le.
  - rewrite Hsrv, drop_app_le by done. by rewrite <- Hq.
  - intros path st. apply found_origin.
  - intros path. pose proof (found_occurrences path es p0) as H. unfold unseen in H. rewrite Hseen in H. unfold vms. simpl.
    case_decide; lia.
Qed.

(** *** Configuration and shutdown *)

Definition sets_config (c : call) : Prop := match c with CSetConfig vm _ => vm ≠ "" | _ => True end.

Lemma scan_sets_config (f : fs) (seen : gset string) (es : list dirent) :
  Forall sets_config (scan_entries unmarshal watchDir f seen es).2.
Proof.
  revert seen. induction es as [|e es IH]; intros seen; [by apply Forall_nil|]. cbn [scan_entries].
  assert (He : Forall sets_config (scan_entry unmarshal watchDir f seen e).2).
  { unfold scan_entry, offer_calls. repeat (case_match; simplify_eq/=; repeat apply Forall_cons_2; try done).
    match goal with H : (_ >? _) = true |- _ => intros E; rewrite E in H; done end. }
  destruct (scan_entry unmarshal watchDir f seen e) as [seen1 cs]. specialize (IH seen1).
  destruct (scan_entries unmarshal watchDir f seen1 es) as [seen2 cs']. by apply Forall_app_2.
Qed.

Lemma after_calls_config (cs : list call) (s : Server) :
  Forall sets_config cs → vmConfig s ≠ "" → vmConfig (after_calls cs s) ≠ "".
Proof.
  unfold after_calls. intros Hc. revert s. induction Hc as [|c cs Hc _ IH]; intros s Hs; [done|]. cbn [run].
  assert (He : vmConfig (exec c s).2 ≠ "").
  { destruct c as [st| |vm agent|[e|]| |]; cbn [exec] in *; try done.
    - unfold Config. by destruct (_ >? _).
    - unfold GetBaseVM. destruct (quit s); [done|]. by destruct (queue s). }
  destruct (exec c s) as [r s1]. specialize (IH s1 He). by destruct (run cs s1).
Qed.

Lemma after_calls_quit (cs : list call) (s : Server) :
  quit s = true → quit (after_calls cs s) = true ∧ served_vms (run cs s).1 = [].
Proof.
  unfold after_calls. revert s. induction cs as [|c cs IH]; intros s Hq; [done|]. cbn [run].
  assert (He : quit (exec c s).2 = true ∧ served_vms [(exec c s).1] = []).
  { destruct c as [st| |vm agent|[e|]| |]; cbn [exec] in *; try done.
    - unfold Config. by destruct (_ >? _).
    - unfold GetBaseVM. by rewrite Hq. }
  destruct (exec c s) as [r s1]. destruct He as [He Hr]. destruct (IH s1 He) as [H1 H2]. destruct (run cs s1) as [rs s2].
  split; [done|]. cbn [fst] in *. change (served_vms (r :: rs)) with (served_vms ([r] ++ rs)).
  unfold served_vms in *. by rewrite omap_app, Hr, H2.
Qed.

Lemma fstep_served (e : fevent) (p p' : factory) (cs : list call) :
  fstep e p = Some (cs, p') → quit (fp_srv p) = true → quit (fp_srv p') = true.
Proof. intros [-> _]%fstep_spec Hq. by apply after_calls_quit. Qed.

(** The invariant of a process: a graceful stop, and with it exit code 0, has been
    asked for by a signal or by Quit; the watcher ends only after a signal; the poller
    ends only with a known configuration or by a panic of its own; and a pass never
    empties the configuration. *)
Record fwf (p : factory) : Prop := {
  fwf_phase : match fp_phase p with
              | Serving => True
              | Stopping => fp_signal p = true ∨ quit (fp_srv p) = true
              | Exited code => code = 1 ∨ code = 0 ∧ (fp_signal p = true ∨ quit (fp_srv p) = true)
              end;
  fwf_watching : fp_watching p = true ∨ fp_signal p = true;
  fwf_poller : fp_poller p = PollerDone → vmConfig (fp_srv p) ≠ "";
  fwf_pending : Forall sets_config (fp_pending p) }.

Hypothesis Hmarshal : ∀ a b c, marshal a b c ≠ "".

Lemma try_load_sets (s : sandboxes) : ∀ c, try_load s = Some c → ∃ vm agent, c = CSetConfig vm agent ∧ vm ≠ "".
Proof.
  intros c. unfold try_load, Sandbox.tryLoadFromSandbox. destruct (sb_list s _) as [es|]; [|done].
  induction es as [|e es IH]; [done|]. simpl. repeat (case_match; try done). intros [= <-]. eauto.
Qed.

Lemma option_list_sets (s : sandboxes) : Forall sets_config (option_list (try_load s)).
Proof.
  destruct (try_load s) as [c|] eqn:Hl; [|by apply Forall_nil].
  apply try_load_sets in Hl as (vm & agent & -> & Hv). by apply Forall_singleton.
Qed.

Lemma fstep_sets_config (e : fevent) (p p' : factory) (cs : list call) :
  Forall sets_config (fp_pending p) → fstep e p = Some (cs, p') →
  Forall sets_config cs ∧ Forall sets_config (fp_pending p').
Proof.
  destruct p as [srv seen pending poll watching signal phase]. unfold fstep. cbn [fp_pending]. intros Hp.
  destruct (negb _); [done|].
  destruct e as [f panic| |s| |c| | | |[err|]]; intros H.
  - destruct watching, pending as [|c0 pending]; try done.
    pose proof (scan_sets_config f seen (pass_entries f panic)) as Hc.
    rewrite <- safeScan_entries in Hc. destruct (safeScan f panic seen) as [seen1 cs1]. simplify_eq/=.
    split; [by apply Forall_nil|done].
  - destruct pending as [|c pending]; [done|]. simplify_eq/=. apply Forall_cons in Hp as [Hc Hp].
    split; [by apply Forall_singleton|done].
  - destruct poll; try done. simplify_eq. split; [apply option_list_sets|done].
  - destruct poll; try done. simplify_eq. split; [by apply Forall_nil|done].
  - destruct c; simplify_eq/=; (split; [by apply Forall_singleton|done]).
  - simplify_eq. split; [by apply Forall_nil|done].
  - destruct signal, pending; simplify_eq. split; [by apply Forall_nil|done].
  - destruct (_ || _); simplify_eq. split; [by apply Forall_nil|done].
  - simplify_eq. split; [by apply Forall_nil|done].
  - destruct phase; simplify_eq. split; [by apply Forall_nil|done].
Qed.

Lemma fstep_config (e : fevent) (p p' : factory) (cs : list call) :
  Forall sets_config (fp_pending p) → fstep e p = Some (cs, p') →
  vmConfig (fp_srv p) ≠ "" → vmConfig (fp_srv p') ≠ "".
Proof.
  intros Hp Hs. destruct (fstep_sets_config e p p' cs Hp Hs) as [Hc _]. destruct (fstep_spec e p p' cs Hs) as [-> _].
  by apply after_calls_config.
Qed.

(** The poller ends only by loading a configuration or by a panic. *)
Lemma fstep_poller (e : fevent) (p p' : factory) (cs : list call) :
  fstep e p = Some (cs, p') → fp_poller p' = PollerDone →
  fp_poller p = PollerDone ∨ vmConfig (fp_srv p') ≠ "".
Proof.
  destruct p as [srv seen pending poll watching signal phase]. unfold fstep. destruct (negb _); [done|].
  destruct e as [f panic| |s| |c| | | |[err|]]; intros H Hd; cbn [fp_poller].
  3:{ destruct poll; try done. destruct (try_load s) as [c|] eqn:Hl; simplify_eq/=.
      right. apply try_load_sets in Hl as (vm & agent & -> & Hv). exact Hv. }
  all: repeat case_match; simplify_eq/=; by left.
Qed.

Lemma fstep_phase (e : fevent) (p p' : factory) (cs : list call) :
  fstep e p = Some (cs, p') →
  running p = true ∧
  (fp_signal p = true → fp_signal p' = true) ∧
  (fp_watching p' = true ∨ fp_signal p' = true ∨ fp_watching p = false) ∧
  (fp_phase p' = fp_phase p ∨
   fp_phase p' = Stopping ∧ (fp_signal p' = true ∨ quit (fp_srv p') = true) ∨
   fp_phase p' = Exited 0 ∧ fp_phase p = Stopping ∨
   fp_phase p' = Exited 1 ∧ ∃ err, e = EServe (Some err)).
Proof.
  destruct p as [srv seen pending poll watching signal phase]. unfold fstep.
  destruct (running _) eqn:Hr; cbn [negb]; [|done].
  destruct e as [f panic| |s| |c| | | |[err|]]; intros H; cbn [fp_signal fp_watching fp_phase fp_srv].
  8:{ destruct (signal || quit srv) eqn:Ho; [apply orb_true_iff in Ho|done]. simplify_eq/=.
      split_and!; [done|done|destruct watching; auto|]. right. left. done. }
  all: repeat case_match; simplify_eq/=; (split_and!; [done|done|try destruct watching; auto|eauto 8]).
Qed.

Lemma fstep_wf (e : fevent) (p p' : factory) (cs : list call) : fwf p → fstep e p = Some (cs, p') → fwf p'.
Proof.
  intros [Hp Hw Hl Hc] Hs. pose proof (fstep_served e p p' cs Hs) as Hq.
  pose proof (fstep_config e p p' cs Hc Hs) as Hcfg. destruct (fstep_sets_config e p p' cs Hc Hs) as [_ Hc'].
  pose proof (fstep_poller e p p' cs Hs) as Hpl. destruct (fstep_phase e p p' cs Hs) as (Hr & Hsig & Hwat & Hph).
  assert (Hmono : fp_signal p = true ∨ quit (fp_srv p) = true → fp_signal p' = true ∨ quit (fp_srv p') = true) by naive_solver.
  split; [| | |done].
  - unfold running in Hr. destruct Hph as [-> |[[-> H]|[[-> H]|[-> _]]]]; [|done| |by left].
    + destruct (fp_phase p); [done|by apply Hmono|done].
    + rewrite H in Hp. right. split; [done|]. by apply Hmono.
  - destruct Hwat as [H|[H|H]]; [by left|by right|]. destruct Hw as [Hw|Hw]; [congruence|right; by apply Hsig].
  - intros Hd. destruct (Hpl Hd) as [H|H]; [by apply Hcfg, Hl|done].
Qed.

Lemma boot_wf (s : sandboxes) : fwf (boot s).2.
Proof.
  unfold boot. destruct (try_load s) as [c|] eqn:Ht; simpl; split; simpl; try done; [by left| |by left].
  by apply try_load_sets in Ht as (vm & agent & -> & Hv).
Qed.

Lemma frun_wf (es : list fevent) (cs0 cs : list call) (p p' : factory) :
  fwf p → frun es (cs0, p) = Some (cs, p') → fwf p'.
Proof.
  revert cs0 p. induction es as [|e es IH]; intros cs0 p Hp Hr; cbn [frun fst snd] in Hr; [by simplify_eq|].
  destruct (fstep e p) as [[cs1 p1]|] eqn:Hs; [|done]. simpl in Hr. by eapply IH; [eapply fstep_wf|].
Qed.

(** Exit code 1 is that of Serve. *)
Lemma frun_exit1 (es : list fevent) (cs0 cs : list call) (p p' : factory) :
  frun es (cs0, p) = Some (cs, p') → running p = true → fp_phase p' = Exited 1 → ∃ err, EServe (Some err) ∈ es.
Proof.
  revert cs0 p. induction es as [|e es IH]; intros cs0 p Hr Hrun Hx; cbn [frun fst snd] in Hr.
  { simplify_eq. unfold running in Hrun. by rewrite Hx in Hrun. }
  destruct (fstep e p) as [[cs1 p1]|] eqn:Hs; [|done]. simpl in Hr.
  destruct (running p1) eqn:Hrun1; [destruct (IH _ _ Hr Hrun1 Hx) as (err & Hin); exists err; by right|].
  destruct es as [|e' es].
  - simpl in Hr. simplify_eq. destruct (fstep_phase e p p' cs1 Hs) as (_ & _ & _ & [H|[[H _]|[[H _]|[_ (err & ->)]]]]).
    + unfold running in Hrun. rewrite <- H, Hx in Hrun. done.
    + congruence.
    + congruence.
    + exists err. by left.
  - exfalso. cbn [frun snd] in Hr. destruct (fstep e' p1) as [[cs2 p2]|] eqn:Hs'; [|done].
    destruct (fstep_phase e' p1 p2 cs2 Hs') as [H _]. congruence.
Qed.

Lemma frun_config (es : list fevent) (cs0 cs : list call) (p p' : factory) :
  fwf p → frun es (cs0, p) = Some (cs, p') → vmConfig (fp_srv p) ≠ "" → vmConfig (fp_srv p') ≠ "".
Proof.
  revert cs0 p. induction es as [|e es IH]; intros cs0 p Hp Hr Hc; cbn [frun fst snd] in Hr; [by simplify_eq|].
  destruct (fstep e p) as [[cs1 p1]|] eqn:Hs; [|done]. simpl in Hr.
  eapply IH; [by eapply fstep_wf|done|]. eapply fstep_config; [by destruct Hp|done|done].
Qed.

(** C26. Every state of the factory process is well-formed, under every sequence of
    events of its goroutines and callers (panicking passes and a poller that panics
    included; the encoder of a configuration yields something).  It stops gracefully,
    and exits with code 0, only on a signal or after Quit, and it exits with code 1
    only when Serve has failed; the watcher ends only after a signal; the poller gives
    up only when a configuration is known or by its own panic; once Config can answer
    with a configuration it always can, though a later one may replace it; after Quit
    no VM is handed out, whatever is found or asked; and a running process that was
    told to stop can always exit with code 0. *)
Theorem factory_process_well_formed (s : sandboxes) (es : list fevent) (cs : list call) (p : factory)
    (Hrun : frun es (boot s) = Some (cs, p)) :
  fwf p ∧
  (fp_phase p = Exited 1 → ∃ err, EServe (Some err) ∈ es) ∧
  (∀ es' cs' p', frun es' (cs, p) = Some (cs', p') →
     (vmConfig (fp_srv p) ≠ "" → vmConfig (fp_srv p') ≠ "") ∧
     (quit (fp_srv p) = true → served_vms (run cs' NewServer).1 = served_vms (run cs NewServer).1)) ∧
  (running p = true → fp_signal p = true ∨ quit (fp_srv p) = true →
     ∃ p', frun [EStop; EServe None] (cs, p) = Some (cs, p') ∧ fp_phase p' = Exited 0).
Proof.
  assert (Hwf : fwf p).
  { pose proof (boot_wf s) as Hb. destruct (boot s) as [cs0 p0]. by eapply frun_wf. }
  assert (Hsrv : fp_srv p = after_calls cs NewServer).
  { destruct (boot s) as [cs0 p0] eqn:Hb. destruct (frun_spec es cs0 cs p0 p Hrun) as (rest & -> & -> & _).
    unfold boot in Hb. simplify_eq/=. by rewrite after_calls_app. }
  split_and!; [done| | |].
  - by apply (frun_exit1 es (boot s).1 cs (boot s).2 p).
  - intros es' cs' p' Hr. split; [by eapply frun_config|].
    intros Hq. destruct (frun_spec es' cs cs' p p' Hr) as (rest & -> & _ & _). rewrite Hsrv in Hq. unfold after_calls in Hq.
    rewrite run_app. destruct (run cs NewServer) as [r1 s1]. destruct (after_calls_quit rest s1 Hq) as [_ H2].
    destruct (run rest s1) as [r2 s2]. cbn [fst] in *. unfold served_vms in *. by rewrite omap_app, H2, app_nil_r.
  - intros Hrn Ho. destruct p as [srv seen pending poll watching signal phase]. cbn [fp_signal fp_srv] in Ho.
    apply orb_true_iff in Ho. destruct phase as [| |code]; [..|done]; cbn -[orb]; rewrite Ho; simpl; rewrite !app_nil_r; eauto.
Qed.
End process.

(** ** Executions *)

Definition demo_state (id vmConfig : string) : MigrationState := MkMigrationState id 41 "" 3 "" 42 "" 2 2048 vmConfig "agent".

(** A decoder: the contents are the id, and the configuration of the migration. *)
Definition demo_unmarshal (data : string) : MigrationState + error :=
  if is_empty data then inr (ErrNew "unexpected end of JSON input") else inl (demo_state data ("migrated-" +:+ data)).
Definition demo_persist (raw : string) : Sandbox.persist + error := inl (Sandbox.MkPersist "qemu" raw "agent").
Definition demo_marshal (type hypervisor agent : string) : string := "{" +:+ type +:+ hypervisor +:+ agent +:+ "}".

(** One sandbox directory with its metadata. *)
Definition demo_fs : fs := MkFs (inl [Dirent "vm-1" true]) (λ _, inl "m-1").
(** No Kata sandbox on the node, and one. *)
Definition no_sandbox : sandboxes := MkSandboxes (λ _, inr (ErrNew "no such file")) (λ _, inr (ErrNew "no such file")).
Definition one_sandbox : sandboxes := MkSandboxes (λ _, inl [Dirent "other" true]) (λ _, inl "local").

Abbreviation demo_frun := (frun demo_unmarshal demo_persist demo_marshal "/run/vc/vm/").
Abbreviation demo_boot := (boot demo_persist demo_marshal "/run/vc/vm/").

Definition demo_events : list fevent :=
  [EScan demo_fs None; EScanCall; EPollPanic; EScanCall; EScan demo_fs None; ERpc (CGet None); EScan demo_fs (Some 0%nat);
   ERpc CQuit; ERpc (CGet None); EStop; EServe None].

Lemma factory_gives_each_file_once_witness :
  ∃ cs p, demo_frun demo_events (demo_boot no_sandbox) = Some (cs, p) ∧
    served_vms (run cs NewServer).1 = [vm_of (demo_state "m-1" "migrated-m-1")] ∧
    (occurrences "/run/vc/vm/vm-1/migration-meta.json"
       (found demo_unmarshal demo_persist demo_marshal "/run/vc/vm/" demo_events (demo_boot no_sandbox).2) ≤ 1)%nat.
Proof.
  destruct (demo_frun demo_events (demo_boot no_sandbox)) as [[cs p]|] eqn:Hr; [|vm_compute in Hr; discriminate].
  exists cs, p. split; [reflexivity|].
  destruct (factory_gives_each_file_once demo_unmarshal demo_persist demo_marshal "/run/vc/vm/" no_sandbox demo_events cs p Hr)
    as (n & Hs & Hq & _ & Hc).
  split.
  - clear Hs Hq Hc. vm_compute in Hr. injection Hr as <- <-. vm_compute. reflexivity.
  - specialize (Hc "/run/vc/vm/vm-1/migration-meta.json"). vm_compute in Hc |- *. exact Hc.
Defined.

Lemma factory_process_well_formed_witness :
  ∃ cs p, demo_frun (take 9 demo_events) (demo_boot no_sandbox) = Some (cs, p) ∧ fwf p ∧
    ∃ p', demo_frun [EStop; EServe None] (cs, p) = Some (cs, p') ∧ fp_phase p' = Exited 0.
Proof.
  destruct (demo_frun (take 9 demo_events) (demo_boot no_sandbox)) as [[cs p]|] eqn:Hr; [|vm_compute in Hr; discriminate].
  exists cs, p. split; [reflexivity|].
  destruct (factory_process_well_formed demo_unmarshal demo_persist demo_marshal "/run/vc/vm/" (λ _ _ _ H, ltac:(discriminate H))
              no_sandbox (take 9 demo_events) cs p Hr) as (Hw & _ & Hx).
  split; [exact Hw|]. vm_compute in Hr. injection Hr as <- <-. apply Hx; [reflexivity|]. right. vm_compute. reflexivity.
Defined.

(** The memory of the watcher and of the queue dies with the process, the metadata
    files do not: a factory that is restarted hands out a VM that has been adopted
    already. *)
Theorem restart_serves_again :
  ∃ cs p cs' p', demo_frun demo_events (demo_boot no_sandbox) = Some (cs, p) ∧ fp_phase p = Exited 0 ∧
    demo_frun [EScan demo_fs None; EScanCall; EScanCall; ERpc (CGet None)] (demo_boot no_sandbox) = Some (cs', p') ∧
    served_vms (run cs NewServer).1 = served_vms (run cs' NewServer).1 ∧
    served_vms (run cs' NewServer).1 = [vm_of (demo_state "m-1" "migrated-m-1")].
Proof. do 4 eexists. vm_compute. done. Qed.

(** The configuration of a migration does not stay: a poller that was started because
    the node had no sandbox replaces it by the configuration of the next sandbox that
    appears. *)
Theorem poller_replaces_migration_config :
  ∃ cs p, demo_frun [EScan demo_fs None; EScanCall; EScanCall; ERpc CConfig; EPoll one_sandbox; ERpc CConfig] (demo_boot no_sandbox) = Some (cs, p) ∧
    (run cs NewServer).1 =
      [RNone; RNone; RConfig (inl ("migrated-m-1", "agent")); RNone; RConfig (inl ("{qemulocalagent}", "agent"))].
Proof. do 2 eexists. vm_compute. done. Qed.
