(* ===== verification/Shim.v ===== *)
(** * The containerd shim of an adopted VM
    (cmd/containerd-shim-katamaran-adopted-v2/main.go)

    The task service that containerd calls for an adoption pod: which QEMU it
    adopts, and the concurrent calls and watcher goroutines around its exit.  The
    file system, the clock and the kernel are parameters.  The processes
    around it (runStart, runDelete, runServer) are the subject of file ShimProc;
    logging is left out. *)
From S2P Require Import Prelude GoErrors GoStrings QmpTypes Effects Filepath OrchValidate.

Definition adoptedCgroupRoot : string := "/sys/fs/cgroup/katamaran-adopted".
Definition adoptedSandboxAnnotation : string := "katamaran.io/adopted-sandbox-id".
Definition defaultAdoptedSandboxID : string := "katamaran-dest".

(** What the file system holds during a call. *)
Record files := MkFiles {
  fl_read : string → string + error;
  fl_dir : string → list dirent + error;
  fl_exists : string → bool }.

(** ** Finding the QEMU *)

Definition quote : ascii := ascii_of_nat 34.

(** The text searched in config.json: the annotation key, a colon and the
    opening quote of its value. *)
Definition annotation_needle : string :=
  String quote adoptedSandboxAnnotation +:+ String quote (":" +:+ String quote "").

Definition annotation_value (data : string) : string :=
  match Index data annotation_needle with
  | None => ""
  | Some i =>
      let rest := sdrop (i + String.length annotation_needle) data in
      match IndexByte rest quote with
      | None => ""
      | Some n => stake n rest
      end
  end.

Definition readAdoptedSandboxID (f : files) (bundleDir : string) : string :=
  if is_empty bundleDir then ""
  else
    match fl_read f (path_join [bundleDir; "config.json"]) with
    | inr _ => ""
    | inl data => annotation_value data
    end.

Definition lf10 : ascii := ascii_of_nat 10.

(** The first line of cgroup.procs that names a QEMU process. *)
Fixpoint find_qemu (f : files) (lines : list string) : option Z :=
  match lines with
  | [] => None
  | line :: lines =>
      let pidStr := TrimSpace line in
      if is_empty pidStr then find_qemu f lines
      else
        match Atoi pidStr with
        | None => find_qemu f lines
        | Some pid =>
            match fl_read f ("/proc/" +:+ pidStr +:+ "/comm") with
            | inr _ => find_qemu f lines
            | inl comm => if HasPrefix (TrimSpace comm) "qemu-system" then Some pid else find_qemu f lines
            end
        end
  end.

Definition procs_path (sandboxID : string) : string := path_join [adoptedCgroupRoot; sandboxID; "cgroup.procs"].

Definition lookupAdoptedQEMUPid (f : files) (sandboxID : string) : Z + error :=
  match fl_read f (procs_path sandboxID) with
  | inr e => inr (ErrWrap "read" e)
  | inl data =>
      match find_qemu f (Split lf10 (TrimSpace data)) with
      | Some pid => inl pid
      | None => inr (ErrNew "no qemu-system process in")
      end
  end.

Definition pidAlive (f : files) (pid : Z) : bool :=
  if pid <=? 0 then false else fl_exists f ("/proc/" +:+ Itoa pid).

(** The directories that [removeAdoptedCgroup] tries to remove. *)
Fixpoint cgroups_to_remove (f : files) (pid : Z) (es : list dirent) : list string :=
  match es with
  | [] => []
  | e :: es =>
      if negb (de_isdir e) then cgroups_to_remove f pid es
      else
        let dir := path_join [adoptedCgroupRoot; de_name e] in
        match fl_read f (path_join [dir; "cgroup.procs"]) with
        | inr _ => cgroups_to_remove f pid es
        | inl procs =>
            if negb (Contains procs (Itoa pid)) && (slen (TrimSpace procs) >? 0)
            then cgroups_to_remove f pid es
            else dir :: cgroups_to_remove f pid es
        end
  end.

Definition removeAdoptedCgroup (f : files) (pid : Z) : list string + error :=
  match fl_dir f adoptedCgroupRoot with
  | inr e => inr e
  | inl es => inl (cgroups_to_remove f pid es)
  end.

(** ** The task service *)

Record Svc := MkSvc {
  id : string;
  qemuPid : Z;
  startedAt : option Z;
  exitedAt : option Z;                 (* None: the zero time *)
  exitCode : Z;
  exited : bool;
  waiters : list nat }.                (* channels, by number *)

Definition newAdoptedTaskService : Svc := MkSvc "" 0 None None 0 false [].

Definition uint32 (z : Z) : Z := z mod 2 ^ 32.

Definition Create (f : files) (now : Z) (reqID bundle : string) (s : Svc) : (Z + error) * Svc :=
  let s := MkSvc reqID (qemuPid s) (startedAt s) (exitedAt s) (exitCode s) (exited s) (waiters s) in
  let sandboxID := readAdoptedSandboxID f bundle in
  let sandboxID := if is_empty sandboxID then defaultAdoptedSandboxID else sandboxID in
  match lookupAdoptedQEMUPid f sandboxID with
  | inr e => (inr (ErrWrap "no surviving migrated QEMU at" e), s)
  | inl pid =>
      (inl (uint32 pid), MkSvc (id s) pid (Some now) (exitedAt s) (exitCode s) (exited s) (waiters s))
  end.

(** Whether the watcher goroutine is started, with the reply. *)
Definition Start (s : Svc) : Z + error :=
  if qemuPid s =? 0 then inr (ErrNew "Start before Create") else inl (uint32 (qemuPid s)).

Inductive status := RUNNING | STOPPED.

Record StateResponse := MkStateResponse {
  sr_ID : string; sr_Pid : Z; sr_Status : status; sr_ExitStatus : Z; sr_ExitedAt : option Z }.

Definition State (s : Svc) : StateResponse :=
  MkStateResponse (id s) (uint32 (qemuPid s)) (if exited s then STOPPED else RUNNING) (exitCode s) (exitedAt s).

(** The first half of [Wait]: the result, or a registered channel. *)
Definition Wait_enter (ch : nat) (s : Svc) : option (Z * option Z) * Svc :=
  if exited s then (Some (exitCode s, exitedAt s), s)
  else (None, MkSvc (id s) (qemuPid s) (startedAt s) (exitedAt s) (exitCode s) (exited s) (waiters s ++ [ch])).

(** The second half, once the channel is closed. *)
Definition Wait_result (s : Svc) : Z * option Z := (exitCode s, exitedAt s).

(** The signal that [Kill] sends, if any. *)
Definition Kill (signal : Z) (s : Svc) : option (Z * Z) :=
  if qemuPid s =? 0 then None else Some (qemuPid s, signal).

(** The reply of [Delete] and the cgroups it removes. *)
Definition Delete (f : files) (now : Z) (s : Svc) : (Z * Z * option Z) * list string :=
  let removed :=
    if qemuPid s >? 0 then match removeAdoptedCgroup f (qemuPid s) with inl l => l | inr _ => [] end else [] in
  ((uint32 (qemuPid s), exitCode s, if exited s then exitedAt s else Some now), removed).

Definition Connect (shimPid : Z) (s : Svc) : Z * Z := (uint32 shimPid, uint32 (qemuPid s)).

Definition Pids (s : Svc) : list Z := if qemuPid s =? 0 then [] else [uint32 (qemuPid s)].

(** The calls an adopted task does not support. *)
Definition Checkpoint : option error := Some (ErrNew "checkpoint not supported on adopted tasks").
Definition Exec : option error := Some (ErrNew "exec not supported on adopted tasks (use kata-runtime exec via vsock)").

(** The critical section of [watchExit] when the process is gone. *)
Definition watch_gone (now : Z) (s : Svc) : list nat * Svc :=
  (waiters s, MkSvc (id s) (qemuPid s) (startedAt s) (Some now) 0 true []).

(** ** The version 2 API

    Every call is translated, handed to the task service, and its reply
    translated back. *)
Definition v2_call {A B A' B' : Type} (proxy_req : A → A' + error) (proxy_resp : B → B' + error)
    (inner : A' → B + error) (req : A) : B' + error :=
  match proxy_req req with
  | inr e => inr e
  | inl r =>
      match inner r with
      | inr e => inr e
      | inl resp => proxy_resp resp
      end
  end.

(** Kill and Shutdown: the reply is passed on as it is. *)
Definition v2_forward {A A' : Type} (proxy_req : A → A' + error) (inner : A' → option error) (req : A) : option error :=
  match proxy_req req with inr e => Some e | inl r => inner r end.

(** ** Concurrent calls

    The calls of the service run in goroutines, and each Start leaves a watcher
    behind.  A step of the shim starts a call, lets one goroutine run up to its
    next blocking or unlocking point, or cancels the context of a Wait. *)

Inductive goroutine :=
  | GWait (ch : nat)                   (* Wait, blocked on its channel *)
  | GWatch                             (* watchExit, before it reads the pid *)
  | GPoll (pid : Z)                    (* watchExit, in its loop *)
  | GClose (chs : list nat)            (* watchExit, closing the channels *)
  | GShutdown                          (* Shutdown, past its select *)
  | GReplied (r : Z * option Z)        (* Wait, with its reply *)
  | GEnd.

Inductive crash := ClosedWaiter | ClosedShutdown.

Record shim := MkShim {
  sh_svc : Svc;
  sh_next : nat;                       (* the number of the next channel *)
  sh_closed : list nat;                (* the channels closed so far *)
  sh_gos : list goroutine;
  sh_shutdown : bool;                  (* shutdownCh is closed *)
  sh_panic : option crash }.

Definition shim0 : shim := MkShim newAdoptedTaskService 0 [] [] false None.

Inductive action :=
  | DoCreate (reqID bundle : string)
  | DoStart
  | DoWait
  | DoShutdown
  | Cancel (k : nat)
  | Sched (k : nat).

Definition with_svc (s : Svc) (w : shim) : shim :=
  MkShim s (sh_next w) (sh_closed w) (sh_gos w) (sh_shutdown w) (sh_panic w).
Definition set_go (k : nat) (g : goroutine) (w : shim) : shim :=
  MkShim (sh_svc w) (sh_next w) (sh_closed w) (<[k := g]> (sh_gos w)) (sh_shutdown w) (sh_panic w).
Definition spawn (g : goroutine) (w : shim) : shim :=
  MkShim (sh_svc w) (sh_next w) (sh_closed w) (sh_gos w ++ [g]) (sh_shutdown w) (sh_panic w).
Definition crash_with (c : crash) (w : shim) : shim :=
  MkShim (sh_svc w) (sh_next w) (sh_closed w) (sh_gos w) (sh_shutdown w) (Some c).

(** close(ch) in the loop of [watchExit]. *)
Definition close_waiter (ch : nat) (w : shim) : shim :=
  if decide (ch ∈ sh_closed w) then crash_with ClosedWaiter w
  else MkShim (sh_svc w) (sh_next w) (ch :: sh_closed w) (sh_gos w) (sh_shutdown w) (sh_panic w).

(** The two halves of [Shutdown]: the select, and the close of its default
    branch. *)
Definition Shutdown_select (w : shim) : shim := if sh_shutdown w then w else spawn GShutdown w.
Definition Shutdown_close (w : shim) : shim :=
  if sh_shutdown w then crash_with ClosedShutdown w
  else MkShim (sh_svc w) (sh_next w) (sh_closed w) (sh_gos w) true (sh_panic w).

Definition Wait (w : shim) : shim :=
  match Wait_enter (sh_next w) (sh_svc w) with
  | (Some r, _) => spawn (GReplied r) w
  | (None, s) =>
      MkShim s (S (sh_next w)) (sh_closed w) (sh_gos w ++ [GWait (sh_next w)]) (sh_shutdown w) (sh_panic w)
  end.

(** One goroutine runs; [None] when it is blocked or has ended. *)
Definition sched (f : files) (now : Z) (k : nat) (w : shim) : option shim :=
  match sh_gos w !! k with
  | Some (GWait ch) =>
      if decide (ch ∈ sh_closed w) then Some (set_go k (GReplied (Wait_result (sh_svc w))) w) else None
  | Some GWatch => Some (set_go k (GPoll (qemuPid (sh_svc w))) w)
  | Some (GPoll pid) =>
      if pidAlive f pid then Some w
      else let '(chs, s) := watch_gone now (sh_svc w) in Some (set_go k (GClose chs) (with_svc s w))
  | Some (GClose []) => Some (set_go k GEnd w)
  | Some (GClose (ch :: chs)) => Some (set_go k (GClose chs) (close_waiter ch w))
  | Some GShutdown => Some (set_go k GEnd (Shutdown_close w))
  | _ => None
  end.

(** A step of the shim; a process that has panicked takes none. *)
Definition step (f : files) (now : Z) (a : action) (w : shim) : option shim :=
  match sh_panic w with
  | Some _ => None
  | None =>
      match a with
      | DoCreate reqID bundle => Some (with_svc (Create f now reqID bundle (sh_svc w)).2 w)
      | DoStart => match Start (sh_svc w) with inl _ => Some (spawn GWatch w) | inr _ => Some w end
      | DoWait => Some (Wait w)
      | DoShutdown => Some (Shutdown_select w)
      | Cancel k => match sh_gos w !! k with Some (GWait _) => Some (set_go k GEnd w) | _ => None end
      | Sched k => sched f now k w
      end
  end.

(** The file system and the clock may change between any two steps. *)
Inductive reachable : shim → Prop :=
  | reach_init : reachable shim0
  | reach_step f now a w w' : reachable w → step f now a w = Some w' → reachable w'.

(** The states reached by letting goroutines run, no new call arriving. *)
Inductive settles (f : files) (now : Z) : shim → shim → Prop :=
  | settle_refl w : settles f now w w
  | settle_step k w w' w'' : step f now (Sched k) w = Some w' → settles f now w' w'' → settles f now w w''.

(** *** The invariant *)

(** The channels a watcher has taken and not yet closed. *)
Definition taken (g : goroutine) : list nat := match g with GClose chs => chs | _ => [] end.

(** The channels still to be closed. *)
Definition owed (w : shim) : list nat := waiters (sh_svc w) ++ (sh_gos w ≫= taken).

Record shim_inv (w : shim) : Prop := {
  inv_nodup : NoDup (sh_closed w ++ owed w);
  inv_fresh : Forall (λ ch, (ch < sh_next w)%nat) (sh_closed w ++ owed w);
  inv_waits : ∀ k ch, sh_gos w !! k = Some (GWait ch) → ch ∈ sh_closed w ++ owed w;
  inv_exited : exited (sh_svc w) = true → waiters (sh_svc w) = [] ∧ exitedAt (sh_svc w) ≠ None;
  inv_code : exitCode (sh_svc w) = 0;
  inv_panic : sh_panic w ≠ Some ClosedWaiter }.

(** What a step may do to a state that keeps the invariant: the closed and owed
    channels are permuted, and a waiting goroutine was waiting before. *)
Lemma shim_inv_perm (w w' : shim) :
  shim_inv w →
  sh_closed w' ++ owed w' ≡ₚ sh_closed w ++ owed w →
  sh_next w' = sh_next w →
  (∀ k ch, sh_gos w' !! k = Some (GWait ch) → sh_gos w !! k = Some (GWait ch)) →
  (exited (sh_svc w') = true → waiters (sh_svc w') = [] ∧ exitedAt (sh_svc w') ≠ None) →
  exitCode (sh_svc w') = 0 →
  sh_panic w' ≠ Some ClosedWaiter →
  shim_inv w'.
Proof.
  intros [Hn Hf Hw He Hc Hp] HP Hx Hg He' Hc' Hp'.
  split; try done; rewrite ?HP, ?Hx; try done.
  intros k ch Hk. rewrite HP. eauto.
Qed.

Lemma lookup_set_go_wait (k j : nat) (g : goroutine) (gs : list goroutine) (ch : nat) :
  g ≠ GWait ch → <[k := g]> gs !! j = Some (GWait ch) → gs !! j = Some (GWait ch).
Proof.
  intros Hg Hj. destruct (decide (k = j)) as [->|Hne].
  - destruct (decide (j < length gs)%nat) as [Hl|Hl].
    + rewrite list_lookup_insert_eq in Hj by done. congruence.
    + apply lookup_lt_Some in Hj. rewrite length_insert in Hj. lia.
  - by rewrite list_lookup_insert_ne in Hj.
Qed.

Lemma lookup_snoc_wait (j : nat) (g : goroutine) (gs : list goroutine) (ch : nat) :
  g ≠ GWait ch → (gs ++ [g]) !! j = Some (GWait ch) → gs !! j = Some (GWait ch).
Proof.
  intros Hg Hj. apply lookup_app_Some in Hj as [Hj | [_ Hj]]; [done|].
  apply list_lookup_singleton_Some in Hj as [_ ?]. congruence.
Qed.

Lemma set_go_inv (k : nat) (g g' : goroutine) (w : shim) :
  sh_gos w !! k = Some g → taken g = taken g' → (∀ ch, g' ≠ GWait ch) → shim_inv w → shim_inv (set_go k g' w).
Proof.
  intros Hk Ht Hg Hw. destruct (bind_insert taken _ k g g' Hk) as (rest & H1 & H2).
  destruct Hw as [Hn Hf Hwt He Hc Hp].
  apply (shim_inv_perm w); try done.
  - unfold owed. simpl. by rewrite H2, H1, Ht.
  - simpl. intros j ch. apply lookup_set_go_wait. apply Hg.
Qed.

Lemma spawn_inv (g : goroutine) (w : shim) :
  taken g = [] → (∀ ch, g ≠ GWait ch) → shim_inv w → shim_inv (spawn g w).
Proof.
  intros Ht Hg Hw. apply (shim_inv_perm w); try done; try apply Hw.
  - unfold owed. simpl. rewrite bind_app. simpl. by rewrite Ht, !app_nil_r.
  - simpl. intros j ch. by apply lookup_snoc_wait.
Qed.

Lemma Create_waiters (f : files) (now : Z) (reqID bundle : string) (s : Svc) :
  let s' := (Create f now reqID bundle s).2 in
  waiters s' = waiters s ∧ exited s' = exited s ∧ exitedAt s' = exitedAt s ∧ exitCode s' = exitCode s.
Proof. unfold Create. by repeat case_goal. Qed.

Lemma with_svc_inv (s : Svc) (w : shim) :
  waiters s = waiters (sh_svc w) → exited s = exited (sh_svc w) → exitedAt s = exitedAt (sh_svc w) →
  exitCode s = exitCode (sh_svc w) → shim_inv w → shim_inv (with_svc s w).
Proof.
  intros Hw He Ht Hc Hi. apply (shim_inv_perm w); try done; simpl; rewrite ?He, ?Ht, ?Hw, ?Hc; try apply Hi.
  unfold owed. simpl. by rewrite Hw.
Qed.

Lemma Wait_inv (w : shim) : shim_inv w → shim_inv (Wait w).
Proof.
  intros Hi. unfold Wait, Wait_enter. destruct (exited (sh_svc w)) eqn:He; [by apply spawn_inv|].
  destruct Hi as [Hn Hf Hw Hx Hc Hp].
  assert (HP : ∀ gs, gs ≫= taken = sh_gos w ≫= taken →
    sh_closed w ++ (waiters (sh_svc w) ++ [sh_next w]) ++ gs ≫= taken ≡ₚ sh_next w :: sh_closed w ++ owed w).
  { intros gs ->. unfold owed. solve_Permutation. }
  assert (Hg : (sh_gos w ++ [GWait (sh_next w)]) ≫= taken = sh_gos w ≫= taken)
    by (rewrite bind_app; simpl; by rewrite app_nil_r).
  split; unfold owed; simpl; rewrite ?(HP _ Hg); try done.
  - constructor; [|done]. intros Hin. rewrite Forall_forall in Hf. specialize (Hf _ Hin). lia.
  - constructor; [lia|]. eapply Forall_impl; [exact Hf|]. simpl. lia.
  - intros k ch Hk. rewrite (HP _ Hg). apply lookup_app_Some in Hk as [Hk | [_ Hk]].
    + right. by eapply Hw.
    + apply list_lookup_singleton_Some in Hk as [_ [= ->]]. left.
Qed.

(** The head of a watcher's list is open, so closing it does not panic. *)
Lemma GClose_fresh (w : shim) (k ch : nat) (chs : list nat) :
  shim_inv w → sh_gos w !! k = Some (GClose (ch :: chs)) → ch ∉ sh_closed w.
Proof.
  intros Hi Hk Hin. destruct (bind_insert taken _ k _ GEnd Hk) as (rest & H1 & _).
  pose proof (inv_nodup _ Hi) as Hn. unfold owed in Hn. rewrite H1 in Hn.
  apply NoDup_app in Hn as (_ & Hd & _). apply (Hd ch Hin). set_solver.
Qed.

Lemma sched_inv (f : files) (now : Z) (k : nat) (w w' : shim) :
  sh_panic w = None → shim_inv w → sched f now k w = Some w' → shim_inv w'.
Proof.
  intros Hp Hi Hs. unfold sched, watch_gone in Hs. destruct (sh_gos w !! k) as [g|] eqn:Hk; [|done].
  destruct g as [ch| |pid|[|ch chs]| |r|]; try done; repeat case_hyp Hs; simplify_eq.
  - by eapply set_go_inv.
  - by eapply set_go_inv.
  - done.
  - destruct (bind_insert taken _ k _ (GClose (waiters (sh_svc w))) Hk) as (rest & H1 & H2).
    apply (shim_inv_perm w); try done; simpl.
    + unfold owed. simpl. rewrite H2, H1. simpl. done.
    + intros j ch. by apply lookup_set_go_wait.
    + congruence.
  - by eapply set_go_inv.
  - unfold close_waiter. rewrite decide_False by by eapply GClose_fresh.
    destruct (bind_insert taken _ k _ (GClose chs) Hk) as (rest & H1 & H2).
    apply (shim_inv_perm w); try done; simpl; try apply Hi.
    + unfold owed. simpl. rewrite H2, H1. simpl. solve_Permutation.
    + intros j c. by apply lookup_set_go_wait.
  - unfold Shutdown_close. case_goal; apply (set_go_inv k GShutdown); try done;
      apply (shim_inv_perm w); try done; apply Hi.
Qed.

Lemma step_inv (f : files) (now : Z) (a : action) (w w' : shim) :
  shim_inv w → step f now a w = Some w' → shim_inv w'.
Proof.
  intros Hi Hs. unfold step in Hs. destruct (sh_panic w) eqn:Hp; [done|].
  destruct a as [i b| | | |k|k].
  - simplify_eq. destruct (Create_waiters f now i b (sh_svc w)) as (?&?&?&?). by apply with_svc_inv.
  - case_hyp Hs; simplify_eq; [by apply spawn_inv|done].
  - simplify_eq. by apply Wait_inv.
  - simplify_eq. unfold Shutdown_select. case_goal; [done|by apply spawn_inv].
  - destruct (sh_gos w !! k) as [[]|] eqn:Hk; simplify_eq. by eapply set_go_inv.
  - by eapply sched_inv.
Qed.

Lemma shim_reachable_inv (w : shim) : reachable w → shim_inv w.
Proof.
  induction 1 as [|f now a w w' _ IH Hs]; [|by eapply step_inv].
  split; try done; simpl; constructor.
Qed.

(** *** Every Wait returns *)

(** What is left to do before every Wait has its reply: close a channel, or
    deliver a reply. *)
Definition pending (g : goroutine) : list nat :=
  match g with GWait ch => [ch] | GClose chs => chs | _ => [] end.

Definition waiting (g : goroutine) : bool := match g with GWait _ => true | _ => false end.

(** A goroutine that waits is not changed by the others, and gets the reply of an
    exited task. *)
Definition replies (w w' : shim) : Prop :=
  ∀ k ch, sh_gos w !! k = Some (GWait ch) →
    sh_gos w' !! k = Some (GWait ch) ∨ ∃ t, sh_gos w' !! k = Some (GReplied (0, Some t)).

(** Closing the next channel of a watcher. *)
Lemma sched_close (f : files) (now : Z) (w : shim) (k ch : nat) (chs : list nat) :
  shim_inv w → sh_gos w !! k = Some (GClose (ch :: chs)) →
  sched f now k w = Some (MkShim (sh_svc w) (sh_next w) (ch :: sh_closed w) (<[k := GClose chs]> (sh_gos w))
                            (sh_shutdown w) (sh_panic w)).
Proof.
  intros Hi Hk. unfold sched, close_waiter. rewrite Hk, decide_False by by eapply GClose_fresh. done.
Qed.

Lemma replies_set_go (w w' : shim) (k : nat) (g g' : goroutine) :
  sh_gos w !! k = Some g → sh_gos w' = <[k := g']> (sh_gos w) →
  waiting g = false ∨ (∃ t, g' = GReplied (0, Some t)) → replies w w'.
Proof.
  intros Hk Hg Hor j ch Hj. rewrite Hg. destruct (decide (k = j)) as [->|Hne].
  - rewrite list_lookup_insert_eq by by eapply lookup_lt_Some.
    destruct Hor as [Hw | [t ->]]; [|eauto]. rewrite Hk in Hj. by simplify_eq.
  - rewrite list_lookup_insert_ne by done. auto.
Qed.

Lemma replies_trans (w1 w2 w3 : shim) : replies w1 w2 → replies w2 w3 →
  (∀ k r, sh_gos w2 !! k = Some (GReplied r) → sh_gos w3 !! k = Some (GReplied r)) → replies w1 w3.
Proof.
  intros H1 H2 H3 k ch Hk. destruct (H1 k ch Hk) as [H|[t H]]; [by apply H2|]. right. exists t. by apply H3.
Qed.

Lemma taken_in_go (gs : list goroutine) (ch : nat) :
  ch ∈ gs ≫= taken → ∃ k chs, gs !! k = Some (GClose chs) ∧ ch ∈ chs.
Proof.
  rewrite list_elem_of_bind. intros (g & Hin & Hg). apply list_elem_of_lookup in Hg as [k Hk].
  destruct g; try by apply elem_of_nil in Hin. eauto.
Qed.

Lemma existsb_waiting (gs : list goroutine) :
  existsb waiting gs = true → ∃ k ch, gs !! k = Some (GWait ch).
Proof.
  intros (g & Hg & Hw)%existsb_exists. apply list_elem_of_In, list_elem_of_lookup in Hg as [k Hk].
  destruct g; try done. eauto.
Qed.

(** One more goroutine can run, as long as a Wait has no reply. *)
Lemma settle_one (f : files) (now : Z) (w : shim) :
  shim_inv w → exited (sh_svc w) = true → sh_panic w = None → existsb waiting (sh_gos w) = true →
  ∃ k g w', sh_gos w !! k = Some g ∧ sched f now k w = Some w' ∧ sh_svc w' = sh_svc w ∧ sh_panic w' = None ∧
    (∃ g', sh_gos w' = <[k := g']> (sh_gos w) ∧ (length (pending g') < length (pending g))%nat ∧
      (waiting g = false ∨ ∃ t, g' = GReplied (0, Some t)) ∧ (∀ r, g ≠ GReplied r)).
Proof.
  intros Hi He Hp (k & ch & Hk)%existsb_waiting.
  destruct (inv_exited _ Hi He) as [Hws Hat].
  pose proof (inv_waits _ Hi _ _ Hk) as Hin. unfold owed in Hin. rewrite Hws in Hin. simpl in Hin.
  apply elem_of_app in Hin as [Hin | (j & chs & Hj & Hin)%taken_in_go].
  - destruct (exitedAt (sh_svc w)) as [t|] eqn:Ht; [|done].
    exists k, (GWait ch), (set_go k (GReplied (0, Some t)) w). split_and!; try done.
    + unfold sched, Wait_result. rewrite Hk, decide_True by done. by rewrite (inv_code _ Hi), Ht.
    + eexists. split_and!; [done|simpl; lia|eauto|done].
  - destruct chs as [|c chs]; [by apply elem_of_nil in Hin|].
    exists j, (GClose (c :: chs)). eexists. split_and!; [done|by apply sched_close|done|done|].
    eexists. split_and!; [done|simpl; lia|by left|done].
Qed.

Lemma pending_decreases (gs : list goroutine) (k : nat) (g g' : goroutine) :
  gs !! k = Some g → (length (pending g') < length (pending g))%nat →
  (length (<[k := g']> gs ≫= pending) < length (gs ≫= pending))%nat.
Proof.
  intros Hk Hl. destruct (bind_insert pending gs k g g' Hk) as (rest & H1 & H2).
  rewrite H1, H2, !length_app. lia.
Qed.

(** The goroutines of an exited task bring every Wait to its reply. *)
Lemma settle_exited (f : files) (now : Z) (n : nat) (w : shim) :
  (length (sh_gos w ≫= pending) < n)%nat → shim_inv w → exited (sh_svc w) = true → sh_panic w = None →
  ∃ w', settles f now w w' ∧ existsb waiting (sh_gos w') = false ∧ exited (sh_svc w') = true ∧ replies w w' ∧
    (∀ k r, sh_gos w !! k = Some (GReplied r) → sh_gos w' !! k = Some (GReplied r)).
Proof.
  revert w. induction n as [|n IH]; intros w Hn Hi He Hp; [lia|].
  destruct (existsb waiting (sh_gos w)) eqn:Hw.
  2:{ exists w. split_and!; [apply settle_refl|done|done| |done]. intros k ch Hk. auto. }
  destruct (settle_one f now w) as (k & g & w1 & Hk & Hs & Hv & Hp1 & g' & Hg' & Hl & Hor & Hr); try done.
  destruct (IH w1) as (w2 & H2 & Hw2 & He2 & Hr2 & Hk2).
  - rewrite Hg'. pose proof (pending_decreases _ _ _ _ Hk Hl). lia.
  - by apply (sched_inv f now k w).
  - by rewrite Hv.
  - done.
  - exists w2. split_and!; [|done|done| |].
    + eapply settle_step; [|done]. unfold step. by rewrite Hp.
    + eapply replies_trans; [by eapply replies_set_go|done|done].
    + intros j r Hj. apply Hk2. rewrite Hg', list_lookup_insert_ne; [done|]. intros ->. congruence.
Qed.

(** C27. No double close and no lost wake-up, in any interleaving of the calls of
    the task service, the watcher goroutines, file-system changes and context
    cancellations: the channel of a Wait is never closed twice (which would kill
    the shim), no two of the watchers that successive Starts leave behind hold the
    same channel, and the channel of every blocked Wait is closed already, held by a
    watcher that is about to close it, or registered with a task that has not
    exited. *)
Theorem waits_are_never_lost (w : shim) (Hw : reachable w) :
  sh_panic w ≠ Some ClosedWaiter ∧
  NoDup (sh_closed w ++ waiters (sh_svc w) ++ (sh_gos w ≫= taken)) ∧
  ∀ k ch, sh_gos w !! k = Some (GWait ch) →
    ch ∈ sh_closed w ∨
    (∃ j chs, sh_gos w !! j = Some (GClose chs) ∧ ch ∈ chs) ∨
    (ch ∈ waiters (sh_svc w) ∧ exited (sh_svc w) = false).
Proof.
  apply shim_reachable_inv in Hw as Hi. split_and!; [apply Hi|apply (inv_nodup _ Hi)|].
  intros k ch Hk. pose proof (inv_waits _ Hi _ _ Hk) as Hin. unfold owed in Hin.
  rewrite !elem_of_app in Hin. destruct Hin as [Hin|[Hin|Hin]]; [auto| |by right; left; apply taken_in_go].
  right. right. split; [done|]. destruct (exited (sh_svc w)) eqn:He; [|done].
  destruct (inv_exited _ Hi He) as [Hws _]. rewrite Hws in Hin. by apply elem_of_nil in Hin.
Qed.

(** C28. Every Wait returns: in any reachable state of a live shim in which a
    watcher polls a process that is gone, letting the goroutines run reaches a
    state in which no Wait is blocked, and each Wait that was blocked has returned
    exit status 0 with an exit time. *)
Theorem waits_return_after_exit (f : files) (now : Z) (w : shim) (k : nat) (pid : Z)
    (Hw : reachable w) (Hp : sh_panic w = None)
    (Hk : sh_gos w !! k = Some (GPoll pid)) (Hgone : pidAlive f pid = false) :
  ∃ w', settles f now w w' ∧ existsb waiting (sh_gos w') = false ∧ exited (sh_svc w') = true ∧
    ∀ j ch, sh_gos w !! j = Some (GWait ch) → ∃ t, sh_gos w' !! j = Some (GReplied (0, Some t)).
Proof.
  apply shim_reachable_inv in Hw as Hi.
  set (w1 := set_go k (GClose (waiters (sh_svc w))) (with_svc (watch_gone now (sh_svc w)).2 w)).
  assert (Hs : sched f now k w = Some w1) by (unfold sched; by rewrite Hk, Hgone).
  destruct (settle_exited f now (S (length (sh_gos w1 ≫= pending))) w1) as (w2 & H2 & Hw2 & He2 & Hr2 & Hk2);
    [lia|by apply (sched_inv f now k w)|done|done|].
  exists w2. split_and!; [|done|done|].
  - eapply settle_step; [|done]. unfold step. by rewrite Hp.
  - intros j ch Hj. destruct (Hr2 j ch) as [Hj2|?]; [| |done].
    + simpl. rewrite list_lookup_insert_ne; [done|]. intros ->. congruence.
    + apply not_true_iff_false in Hw2. exfalso. apply Hw2, existsb_exists. exists (GWait ch).
      split; [|done]. by eapply list_elem_of_In, list_elem_of_lookup_2.
Qed.

(** *** Executions *)

Fixpoint exec_from (w : shim) (l : list (files * Z * action)) : option shim :=
  match l with
  | [] => Some w
  | (f, now, a) :: l => step f now a w ≫= λ w', exec_from w' l
  end.

Lemma exec_reachable (l : list (files * Z * action)) (w w' : shim) :
  reachable w → exec_from w l = Some w' → reachable w'.
Proof.
  revert w. induction l as [|[[f now] a] l IH]; intros w Hw Hl; simpl in Hl; [by simplify_eq|].
  destruct (step f now a w) as [w1|] eqn:Hs; [|done]. simpl in Hl.
  eapply IH; [by eapply reach_step|done].
Qed.

(** A node whose default sandbox holds a helper thread and QEMU 4242. *)
Definition demo_files (alive : bool) : files :=
  MkFiles
    (λ p, if String.eqb p (procs_path defaultAdoptedSandboxID) then
            inl ("17" +:+ String lf10 ("4242" +:+ String lf10 ""))
          else if String.eqb p "/proc/17/comm" then inl "kvm-nx-lpage-re"
          else if String.eqb p "/proc/4242/comm" then inl ("qemu-system-x86" +:+ String lf10 "")
          else inr (ErrNew "not found"))
    (λ _, inr (ErrNew "not found"))
    (λ p, alive && String.eqb p "/proc/4242").

(** Two Starts and two Waits; one watcher has seen the process. *)
Definition demo_run : list (files * Z * action) :=
  let f := demo_files true in
  [(f, 1, DoCreate "task" "/bundle"); (f, 2, DoStart); (f, 3, DoWait); (f, 4, Sched 0);
   (f, 5, DoStart); (f, 6, DoWait); (f, 7, Sched 0)].

Definition demo_shim : shim := default shim0 (exec_from shim0 demo_run).

Lemma waits_are_never_lost_witness :
  sh_gos demo_shim = [GPoll 4242; GWait 0; GWatch; GWait 1] ∧ sh_panic demo_shim ≠ Some ClosedWaiter.
Proof.
  split; [vm_compute; reflexivity|].
  apply (waits_are_never_lost demo_shim).
  apply (exec_reachable demo_run shim0); [constructor|vm_compute; reflexivity].
Defined.

Lemma waits_return_after_exit_witness :
  ∃ w', settles (demo_files false) 9 demo_shim w' ∧ existsb waiting (sh_gos w') = false.
Proof.
  destruct (waits_return_after_exit (demo_files false) 9 demo_shim 0 4242) as (w' & Hs & Hw & _).
  - apply (exec_reachable demo_run shim0); [constructor|vm_compute; reflexivity].
  - vm_compute. reflexivity.
  - vm_compute. reflexivity.
  - vm_compute. reflexivity.
  - exists w'. split; [exact Hs|exact Hw].
Defined.

(** Two overlapping calls of Shutdown close the channel twice, which kills the
    shim; calls that do not overlap never do. *)
Theorem overlapping_shutdowns_panic :
  (∀ f now, ∃ w, exec_from shim0 [(f, now, DoShutdown); (f, now, DoShutdown); (f, now, Sched 0); (f, now, Sched 1)] = Some w ∧
     sh_panic w = Some ClosedShutdown) ∧
  (∀ f now, ∃ w, exec_from shim0 [(f, now, DoShutdown); (f, now, Sched 0); (f, now, DoShutdown)] = Some w ∧
     sh_panic w = None ∧ sh_shutdown w = true).
Proof. split; intros f now; eexists; (split; [reflexivity|by auto]). Qed.

(** *** What Create adopts *)

(** A line of cgroup.procs that names a QEMU process. *)
Definition qemu_line (f : files) (line : string) (pid : Z) : Prop :=
  Atoi (TrimSpace line) = Some pid ∧
  ∃ comm, fl_read f ("/proc/" +:+ TrimSpace line +:+ "/comm") = inl comm ∧ HasPrefix (TrimSpace comm) "qemu-system" = true.

Lemma find_qemu_spec (f : files) (lines : list string) :
  match find_qemu f lines with
  | Some pid => ∃ l1 line l2, lines = l1 ++ line :: l2 ∧ qemu_line f line pid ∧ ∀ l p, l ∈ l1 → ¬ qemu_line f l p
  | None => ∀ l p, l ∈ lines → ¬ qemu_line f l p
  end.
Proof.
  induction lines as [|line lines IH]; cbn [find_qemu]; [by intros l p ?%elem_of_nil|].
  assert (Hskip : (∀ p, ¬ qemu_line f line p) →
    match find_qemu f lines with
    | Some pid => ∃ l1 l l2, line :: lines = l1 ++ l :: l2 ∧ qemu_line f l pid ∧ ∀ l p, l ∈ l1 → ¬ qemu_line f l p
    | None => ∀ l p, l ∈ line :: lines → ¬ qemu_line f l p
    end).
  { intros Hn. destruct (find_qemu f lines) as [pid|].
    - destruct IH as (l1 & l & l2 & -> & Hq & Hl). exists (line :: l1), l, l2. split_and!; [done|done|].
      intros x p [->|Hx]%elem_of_cons; [apply Hn|by apply Hl].
    - intros x p [->|Hx]%elem_of_cons; [apply Hn|by apply IH]. }
  destruct (is_empty (TrimSpace line)) eqn:Hem.
  { apply Hskip. intros p [Ha _]. destruct (TrimSpace line); [by vm_compute in Ha|done]. }
  destruct (Atoi (TrimSpace line)) as [pid|] eqn:Ha.
  2:{ apply Hskip. intros p [Hp _]. congruence. }
  destruct (fl_read f ("/proc/" +:+ TrimSpace line +:+ "/comm")) as [comm|e] eqn:Hr.
  2:{ apply Hskip. intros p (_ & c & Hc & _). congruence. }
  destruct (HasPrefix (TrimSpace comm) "qemu-system") eqn:Hq.
  - exists [], line, lines. split_and!; [done| |by intros l p ?%elem_of_nil]. split; [done|]. eauto.
  - apply Hskip. intros p (_ & c & Hc & Hq'). congruence.
Qed.

(** The sandbox that Create looks in. *)
Definition adopted_sandbox (f : files) (bundle : string) : string :=
  let sandboxID := readAdoptedSandboxID f bundle in
  if is_empty sandboxID then defaultAdoptedSandboxID else sandboxID.

(** Create adopts a process only when its pid is on a line of the cgroup.procs
    of the sandbox named by the bundle's annotation (or of the default one) and its
    command name starts with qemu-system, and then it is the first such line; when
    the file cannot be read or no line names a QEMU, Create fails and the service
    keeps the pid and the start time it had, so that on a new service Start still
    fails with Start before Create, Kill signals nothing and Pids is empty. *)
Theorem Create_adopts_first_qemu (f : files) (now : Z) (reqID bundle : string) (s : Svc) :
  match Create f now reqID bundle s with
  | (inl r, s') =>
      ∃ data l1 line l2, fl_read f (procs_path (adopted_sandbox f bundle)) = inl data ∧
        Split lf10 (TrimSpace data) = l1 ++ line :: l2 ∧ qemu_line f line (qemuPid s') ∧
        (∀ l p, l ∈ l1 → ¬ qemu_line f l p) ∧
        r = uint32 (qemuPid s') ∧ startedAt s' = Some now ∧ id s' = reqID
  | (inr _, s') =>
      (∀ data l p, fl_read f (procs_path (adopted_sandbox f bundle)) = inl data →
         l ∈ Split lf10 (TrimSpace data) → ¬ qemu_line f l p) ∧
      qemuPid s' = qemuPid s ∧ startedAt s' = startedAt s ∧
      (qemuPid s = 0 → (∃ e, Start s' = inr e) ∧ Kill 9 s' = None ∧ Pids s' = [])
  end.
Proof.
  unfold Create. fold (adopted_sandbox f bundle). unfold lookupAdoptedQEMUPid.
  destruct (fl_read f (procs_path (adopted_sandbox f bundle))) as [data|e] eqn:Hr.
  2:{ split_and!; try done. intros ->. unfold Start, Kill, Pids. simpl. eauto. }
  pose proof (find_qemu_spec f (Split lf10 (TrimSpace data))) as Hq.
  destruct (find_qemu f (Split lf10 (TrimSpace data))) as [pid|].
  - destruct Hq as (l1 & line & l2 & Hl & Hq & Hn). exists data, l1, line, l2. by split_and!.
  - split_and!; try done.
    + intros d l p [= <-]. apply Hq.
    + intros ->. unfold Start, Kill, Pids. simpl. eauto.
Qed.

Example Create_demo :
  (Create (demo_files true) 1 "task" "/bundle" newAdoptedTaskService).1 = inl 4242.
Proof. vm_compute. reflexivity. Qed.

(** The annotation is not confined to the adopted cgroups: the path is cleaned
    with its parent components. *)
Theorem sandbox_annotation_escapes :
  procs_path "../kubepods.slice/other-pod" = "/sys/fs/cgroup/kubepods.slice/other-pod/cgroup.procs" ∧
  procs_path "../../../../tmp/x" = "/tmp/x/cgroup.procs".
Proof. vm_compute. split; reflexivity. Qed.

(** A pid that merely occurs in another one, or an empty cgroup, is enough for
    Delete to try to remove a directory. *)
Theorem Delete_matches_substring :
  let f := MkFiles
    (λ p, if String.eqb p "/sys/fs/cgroup/katamaran-adopted/other/cgroup.procs" then inl "14242"
          else if String.eqb p "/sys/fs/cgroup/katamaran-adopted/idle/cgroup.procs" then inl "" else inr (ErrNew "not found"))
    (λ _, inl [Dirent "other" true; Dirent "idle" true]) (λ _, false) in
  removeAdoptedCgroup f 4242 =
    inl ["/sys/fs/cgroup/katamaran-adopted/other"; "/sys/fs/cgroup/katamaran-adopted/idle"].
Proof. vm_compute. reflexivity. Qed.
