(* ===== verification/ShimProc.v ===== *)
(** * The processes of the containerd shim
    (cmd/containerd-shim-katamaran-adopted-v2/main.go: main, runStart, runDelete,
    runServer)

    containerd runs the binary with a start or a delete command; start re-executes
    the binary with the listening socket as file descriptor 3, and that child serves
    the task service of file Shim.  A node is the socket files of the shim directory
    and the processes; what the operating system answers is the environment of a
    run.  Logging and the encoding of messages are left out. *)
From S2P Require Import Prelude GoErrors GoStrings OrchTypes OrchValidate Filepath Shim.

Definition shimSocketDir : string := "/run/containerd/s".

(** ** The command of an invocation *)

Definition is_command (arg : string) : bool := one_of arg ["start"; "delete"].

(** The loop of [main]: the first command word is taken out of os.Args. *)
Fixpoint pick_command (args : list string) : string * list string :=
  match args with
  | [] => ("", [])
  | arg :: args =>
      if is_command arg then (arg, args)
      else let '(cmd, rest) := pick_command args in (cmd, arg :: rest)
  end.

(** ** Processes *)

(** Standard output: nothing, the address line of start, or the response of delete
    with its exit time. *)
Inductive output := ONone | OAddress (path : string) | ODelete (exitedAt : Z).

Inductive pstate :=
  | Ready                                              (* about to run main *)
  | Exited (code : Z)
  | Serving (path : string) (accepting : bool) (s : shim).

Record proc := MkProc {
  p_pid : Z;
  p_args : list string;
  p_fdenv : bool;                  (* KATAMARAN_SHIM_LISTENER_FD is set *)
  p_fd3 : option string;           (* the socket whose listener is file descriptor 3 *)
  p_null : bool;                   (* stdout is the null device *)
  p_out : output;
  p_state : pstate }.

Record node := MkNode {
  n_sockets : gset string;         (* the socket files *)
  n_procs : list proc }.

Definition node0 : node := MkNode ∅ [].

(** What the system answers to one run of [main]. *)
Record penv := MkPenv {
  pe_mkdir : option error;
  pe_now : Z;
  pe_resolve : option error;
  pe_listen : option error;        (* errors of bind other than a taken address *)
  pe_file : option error;
  pe_exe : string + error;
  pe_child : Z + error;            (* the pid of the child *)
  pe_stdout : option error;
  pe_marshal : option error;
  pe_filelistener : option error;
  pe_newserver : option error }.

Definition exit_with (code : Z) (p : proc) : proc :=
  MkProc (p_pid p) (p_args p) (p_fdenv p) (p_fd3 p) (p_null p) (p_out p) (Exited code).
Definition print (o : output) (p : proc) : proc :=
  MkProc (p_pid p) (p_args p) (p_fdenv p) (p_fd3 p) (p_null p) (if p_null p then p_out p else o) (p_state p).
Definition become (s : pstate) (p : proc) : proc :=
  MkProc (p_pid p) (p_args p) (p_fdenv p) (p_fd3 p) (p_null p) (p_out p) s.

Definition socket_path (pid now : Z) : string :=
  path_join [shimSocketDir; "katamaran-" +:+ Itoa pid +:+ "-" +:+ Itoa now +:+ ".sock"].

(** How [runStart] ends: it returns an error or nil, or panics. *)
Inductive start_end := Returns (err : option error) | Panics.

(** The exit status of main and of the Go runtime. *)
Definition start_code (r : start_end) : Z :=
  match r with Returns None => 0 | Returns (Some _) => 1 | Panics => 2 end.

(** [runStart]: its end, the socket file it created and the child it started.  The
    listener does not unlink its file when it is closed; [os.Args[1:]] panics if no
    argument is left, not even the program's name. *)
Definition runStart (sockets : gset string) (e : penv) (args : list string) (p : proc)
    : start_end * gset string * option proc * proc :=
  let err t x := Returns (Some (ErrWrap t x)) in
  match pe_mkdir e with
  | Some x => (err "mkdir socket dir" x, sockets, None, p)
  | None =>
      let path := socket_path (p_pid p) (pe_now e) in
      match pe_resolve e with
      | Some x => (err "resolve unix addr" x, sockets, None, p)
      | None =>
          match (if decide (path ∈ sockets) then Some (ErrNew "address already in use") else pe_listen e) with
          | Some x => (err "listen" x, sockets, None, p)
          | None =>
              let sockets := {[path]} ∪ sockets in
              match pe_file e with
              | Some x => (err "listener file" x, sockets, None, p)
              | None =>
                  match pe_exe e, args with
                  | inr x, _ => (err "executable" x, sockets, None, p)
                  | inl _, [] => (Panics, sockets, None, p)
                  | inl exe, _ :: childArgs =>
                      match pe_child e with
                      | inr x => (err "fork child" x, sockets, None, p)
                      | inl pid =>
                          let child := MkProc pid (exe :: childArgs) true (Some path) true ONone Ready in
                          match pe_stdout e with
                          | Some x => (err "write address to stdout" x, sockets, Some child, p)
                          | None => (Returns None, sockets, Some child, print (OAddress path) p)
                          end
                      end
                  end
              end
          end
      end
  end.

Definition runDelete (e : penv) (p : proc) : option error * proc :=
  match pe_marshal e with
  | Some x => (Some (ErrWrap "marshal DeleteResponse" x), p)
  | None =>
      match pe_stdout e with
      | Some x => (Some (ErrWrap "write DeleteResponse" x), p)
      | None => (None, print (ODelete (pe_now e)) p)
      end
  end.

(** [runServer] up to its wait for shutdownCh: the socket it serves. *)
Definition runServer (e : penv) (p : proc) : string + error :=
  if negb (p_fdenv p) then inr (ErrNew "invoked without start/delete and no listener fd; refusing to run")
  else
    match p_fd3 p with
    | None => inr (ErrNew "listener fd 3 not present")
    | Some path =>
        match pe_filelistener e with
        | Some x => inr (ErrWrap "FileListener" x)
        | None => match pe_newserver e with Some x => inr (ErrWrap "ttrpc.NewServer" x) | None => inl path end
        end
    end.

(** [main]: the process afterwards, the socket files and the child. *)
Definition main (sockets : gset string) (e : penv) (p : proc) : gset string * option proc * proc :=
  let '(cmd, args) := pick_command (p_args p) in
  if (cmd =? "start")%string then
    let '(r, sockets, child, p) := runStart sockets e args p in
    (sockets, child, exit_with (start_code r) p)
  else if (cmd =? "delete")%string then
    let '(err, p) := runDelete e p in
    (sockets, None, exit_with (if is_nil err then 0 else 1) p)
  else
    match runServer e p with
    | inr _ => (sockets, None, exit_with 1 p)
    | inl path => (sockets, None, become (Serving path true shim0) p)
    end.

(** ** The node *)

(** The calls that come in over the socket. *)
Definition is_call (a : action) : bool :=
  match a with DoCreate _ _ | DoStart | DoWait | DoShutdown => true | _ => false end.

Inductive nstep (n : node) : node → Prop :=
  | n_invoke pid args :
      (* containerd runs the binary *)
      nstep n (MkNode (n_sockets n) (n_procs n ++ [MkProc pid args false None false ONone Ready]))
  | n_main k p e sockets child p' :
      n_procs n !! k = Some p → p_state p = Ready → main (n_sockets n) e p = (sockets, child, p') →
      nstep n (MkNode sockets (<[k := p']> (n_procs n) ++ option_list child))
  | n_serve k p path acc s f now a s' :
      (* a call arrives, or a goroutine of the server runs *)
      n_procs n !! k = Some p → p_state p = Serving path acc s → (is_call a = true → acc = true) →
      step f now a s = Some s' →
      nstep n (MkNode (n_sockets n) (<[k := become (Serving path acc s') p]> (n_procs n)))
  | n_serve_error k p path acc s :
      (* srv.Serve fails, which is only logged *)
      n_procs n !! k = Some p → p_state p = Serving path acc s →
      nstep n (MkNode (n_sockets n) (<[k := become (Serving path false s) p]> (n_procs n)))
  | n_shutdown k p path acc s :
      (* shutdownCh is closed: the server is shut down and main returns *)
      n_procs n !! k = Some p → p_state p = Serving path acc s → sh_shutdown s = true → sh_panic s = None →
      nstep n (MkNode (n_sockets n) (<[k := exit_with 0 p]> (n_procs n)))
  | n_panic k p path acc s :
      n_procs n !! k = Some p → p_state p = Serving path acc s → sh_panic s ≠ None →
      nstep n (MkNode (n_sockets n) (<[k := exit_with 2 p]> (n_procs n))).

Inductive nreachable : node → Prop :=
  | nreach_init : nreachable node0
  | nreach_step n n' : nreachable n → nstep n n' → nreachable n'.

(** ** The command words *)

Definition commands (args : list string) : nat := length (filter is_command args).

Lemma pick_command_spec (args : list string) :
  match pick_command args with
  | (cmd, rest) =>
      (cmd = "" ∧ rest = args ∧ commands args = 0%nat) ∨
      (∃ l1 l2, args = l1 ++ cmd :: l2 ∧ rest = l1 ++ l2 ∧ is_command cmd = true ∧ commands l1 = 0%nat ∧
         commands args = S (commands rest))
  end.
Proof.
  unfold commands. induction args as [|a args IH]; [by left|]. cbn [pick_command]. rewrite filter_cons.
  destruct (is_command a) eqn:Ha; simpl.
  - right. by exists [], args.
  - destruct (pick_command args) as [cmd rest]. destruct IH as [(-> & -> & Hn) | (l1 & l2 & -> & -> & Hc & H1 & Hn)].
    + by left.
    + right. exists (a :: l1), l2. rewrite !filter_cons, Ha. by split_and!.
Qed.

Lemma no_command (args : list string) : commands args = 0%nat → pick_command args = ("", args).
Proof.
  intros Hn. pose proof (pick_command_spec args) as Hs. destruct (pick_command args) as [cmd rest].
  destruct Hs as [(-> & -> & _) | (l1 & l2 & _ & _ & _ & _ & Hc)]; [done|lia].
Qed.

(** ** What a run of [main] does *)

(** The child that start leaves behind. *)
Definition child_of (e : penv) (p c : proc) : Prop :=
  p_fdenv c = true ∧ p_fd3 c = Some (socket_path (p_pid p) (pe_now e)) ∧ p_null c = true ∧ p_out c = ONone ∧ p_state c = Ready ∧
  (∃ exe, p_args c = exe :: tail (pick_command (p_args p)).2).

Definition same_process (p p' : proc) : Prop :=
  p_pid p' = p_pid p ∧ p_args p' = p_args p ∧ p_fdenv p' = p_fdenv p ∧ p_fd3 p' = p_fd3 p ∧ p_null p' = p_null p.

Lemma runStart_spec (sockets sockets' : gset string) (e : penv) (args : list string) (p p' : proc)
    (r : start_end) (child : option proc) :
  runStart sockets e args p = (r, sockets', child, p') →
  sockets ⊆ sockets' ∧
  match child with
  | None => start_code r ≠ 0 ∧ p' = p
  | Some c =>
      let path := socket_path (p_pid p) (pe_now e) in
      (path ∉ sockets) ∧ path ∈ sockets' ∧ (∃ pid exe, c = MkProc pid (exe :: tail args) true (Some path) true ONone Ready) ∧
      ((start_code r = 0 ∧ p' = print (OAddress path) p) ∨ (start_code r = 1 ∧ p' = p))
  end.
Proof.
  unfold runStart. intros Hr. repeat case_match; simplify_eq; (split; [set_solver|]); try (by split);
    (split_and!; [done|set_solver|eauto|naive_solver]).
Qed.

Lemma main_spec (sockets sockets' : gset string) (e : penv) (p p' : proc) (child : option proc) :
  main sockets e p = (sockets', child, p') →
  same_process p p' ∧ sockets ⊆ sockets' ∧
  match child with
  | Some c =>
      let path := socket_path (p_pid p) (pe_now e) in
      (pick_command (p_args p)).1 = "start" ∧ child_of e p c ∧ (path ∉ sockets) ∧ path ∈ sockets' ∧
      ((p_state p' = Exited 0 ∧ p_out p' = (if p_null p then p_out p else OAddress path)) ∨
       (p_state p' = Exited 1 ∧ p_out p' = p_out p))
  | None =>
      (∃ path, p_state p' = Serving path true shim0 ∧ p_out p' = p_out p ∧ p_fdenv p = true ∧ p_fd3 p = Some path ∧
         (pick_command (p_args p)).1 = "") ∨
      (∃ code, p_state p' = Exited code ∧ (p_out p' = p_out p ∨ (∃ t, p_out p' = ODelete t)))
  end.
Proof.
  unfold main, child_of. pose proof (pick_command_spec (p_args p)) as Hcmd.
  destruct (pick_command (p_args p)) as [cmd rest] eqn:Hp. cbn [fst snd] in *.
  destruct (String.eqb_spec cmd "start") as [->|Hs].
  { destruct (runStart sockets e rest p) as [[[err so] ch] q] eqn:Hr. intros Hm. simplify_eq.
    apply runStart_spec in Hr as [Hsub Hr]. destruct child as [c|].
    - destruct Hr as (H1 & H2 & (pid & exe & ->) & [(-> & ->) | (-> & ->)]); unfold same_process; naive_solver.
    - destruct Hr as [_ ->]. unfold same_process. simpl. split_and!; try done. right. eauto. }
  destruct (String.eqb_spec cmd "delete") as [->|Hd].
  { unfold runDelete. intros Hm. repeat case_match; simplify_eq; unfold same_process; simpl; split_and!; try done;
      right; eexists; split; eauto. destruct (p_null p); eauto. }
  destruct Hcmd as [(-> & -> & _) | (l1 & l2 & _ & _ & Hc & _)].
  2:{ unfold is_command, one_of in Hc. simpl in Hc. rewrite !orb_true_iff, !String.eqb_eq in Hc. naive_solver. }
  unfold runServer. intros Hm. destruct (p_fdenv p) eqn:Hf, (p_fd3 p) as [path|] eqn:H3; simpl in Hm;
    repeat case_match; simplify_eq; unfold same_process; simpl; rewrite ?Hf, ?H3; split_and!; try done; naive_solver.
Qed.

(** ** The invariant of a node *)

(** A serving process was started with the listener and without a command, and its
    service is one of file Shim. *)
Definition serving_ok (p : proc) : Prop :=
  ∀ path acc s, p_state p = Serving path acc s →
    p_fd3 p = Some path ∧ commands (p_args p) = 0%nat ∧ Shim.reachable s.

(** A process that printed an address has exited, and a child has the listener. *)
Definition printed_ok (n : node) (p : proc) : Prop :=
  ∀ path, p_out p = OAddress path →
    p_state p = Exited 0 ∧ (pick_command (p_args p)).1 = "start" ∧
    ∃ c exe, c ∈ n_procs n ∧ p_fd3 c = Some path ∧ p_args c = exe :: tail (pick_command (p_args p)).2.

Record node_inv (n : node) : Prop := {
  ni_paths : NoDup (omap p_fd3 (n_procs n));
  ni_files : ∀ path, path ∈ omap p_fd3 (n_procs n) → path ∈ n_sockets n;
  ni_serving : Forall serving_ok (n_procs n);
  ni_printed : Forall (printed_ok n) (n_procs n);
  ni_ready : Forall (λ p, p_state p = Ready → p_out p = ONone) (n_procs n) }.

Lemma omap_insert_same {A B : Type} (f : A → option B) (l : list A) (k : nat) (x y : A) :
  l !! k = Some x → f y = f x → omap f (<[k := y]> l) = omap f l.
Proof.
  intros Hk Hf. rewrite insert_take_drop by by eapply lookup_lt_Some. rewrite <- (take_drop_middle l k x Hk) at 3.
  rewrite !omap_app. simpl. by rewrite Hf.
Qed.

(** What a step changes: one process keeps its identity, and a child may appear with
    a new socket. *)
Record replaces (n : node) (p p' : proc) (sockets' : gset string) (child : option proc) : Prop := {
  rp_same : same_process p p';
  rp_sockets : n_sockets n ⊆ sockets';
  rp_child : match child with
             | Some c => (∃ path, p_fd3 c = Some path ∧ (path ∉ n_sockets n) ∧ path ∈ sockets') ∧ p_state c = Ready ∧ p_out c = ONone
             | None => True
             end;
  rp_serving : serving_ok p';
  rp_printed : ∀ path, p_out p' = OAddress path →
    p_state p' = Exited 0 ∧ (pick_command (p_args p)).1 = "start" ∧
    ∃ c exe, child = Some c ∧ p_fd3 c = Some path ∧ p_args c = exe :: tail (pick_command (p_args p)).2;
  rp_ready : p_state p' = Ready → p_out p' = ONone }.

(** The processes with a listener are still there. *)
Lemma replaces_keeps (n : node) (k : nat) (p p' c : proc) (child : option proc) :
  n_procs n !! k = Some p → same_process p p' → c ∈ n_procs n →
  ∃ c', c' ∈ <[k := p']> (n_procs n) ++ option_list child ∧ p_fd3 c' = p_fd3 c ∧ p_args c' = p_args c.
Proof.
  intros Hk (_ & Ha & _ & Hf & _) [j Hj]%list_elem_of_lookup. destruct (decide (j = k)) as [->|Hne].
  - exists p'. assert (c = p) as -> by congruence. split_and!; [|done..]. apply elem_of_app. left.
    apply list_elem_of_lookup. exists k. by eapply list_lookup_insert_eq, lookup_lt_Some.
  - exists c. split_and!; [|done..]. apply elem_of_app. left. apply list_elem_of_lookup. exists j.
    by rewrite list_lookup_insert_ne.
Qed.

Lemma replaces_inv (n : node) (k : nat) (p p' : proc) (sockets' : gset string) (child : option proc) :
  node_inv n → n_procs n !! k = Some p → replaces n p p' sockets' child →
  node_inv (MkNode sockets' (<[k := p']> (n_procs n) ++ option_list child)).
Proof.
  intros [Hd Hfl Hs Hp Hr] Hk [Hsame Hsub Hc Hs' Hp' Hr'].
  assert (Hom : omap p_fd3 (<[k := p']> (n_procs n)) = omap p_fd3 (n_procs n)).
  { apply (omap_insert_same _ _ k p); [done|]. by destruct Hsame as (_ & _ & _ & -> & _). }
  split; simpl.
  - rewrite omap_app, Hom. destruct child as [c|]; simpl; [|by rewrite app_nil_r].
    destruct Hc as ((path & Hc & Hnew & _) & _). rewrite Hc. apply NoDup_app. split_and!; [done| |apply NoDup_singleton].
    intros x Hx ->%list_elem_of_singleton. by apply Hnew, Hfl.
  - intros path. rewrite omap_app, Hom, elem_of_app. intros [Hin|Hin]; [by apply Hsub, Hfl|].
    destruct child as [c|]; simpl in Hin; [|by apply elem_of_nil in Hin].
    destruct Hc as ((q & Hc & _ & Hq) & _). rewrite Hc in Hin. by apply list_elem_of_singleton in Hin as ->.
  - apply Forall_app_2; [by apply Forall_insert|]. destruct child as [c|]; [|done]. constructor; [|done].
    destruct Hc as (_ & Hc & _). intros path acc s Hst. congruence.
  - assert (Hold : Forall (printed_ok (MkNode sockets' (<[k := p']> (n_procs n) ++ option_list child))) (n_procs n)).
    { eapply Forall_impl; [exact Hp|]. intros q Hq path Ho. destruct (Hq path Ho) as (H1 & H2 & c & exe & Hin & H3 & H4).
      split_and!; [done..|]. destruct (replaces_keeps n k p p' c child) as (c' & Hc' & Hc3 & Hc4); [done..|].
      exists c', exe. simpl. by rewrite Hc3, Hc4. }
    apply Forall_app_2; [apply Forall_insert; [done|]|].
    + intros path Ho. destruct (Hp' path Ho) as (H1 & H2 & c & exe & -> & H3 & H4).
      destruct Hsame as (_ & -> & _). split_and!; [done..|]. exists c, exe. split_and!; [|done..].
      simpl. apply elem_of_app. right. by left.
    + destruct child as [c|]; [|done]. constructor; [|done]. destruct Hc as (_ & _ & Hc). intros path Ho. congruence.
  - apply Forall_app_2; [by apply Forall_insert|]. destruct child as [c|]; [|done]. constructor; [|done]. by destruct Hc as (_ & _ & Hc).
Qed.

Lemma node_inv_step (n n' : node) : node_inv n → nstep n n' → node_inv n'.
Proof.
  intros Hi Hst.
  assert (Hserv : ∀ k p, n_procs n !! k = Some p → ∀ path acc s, p_state p = Serving path acc s →
    serving_ok p ∧ ∀ q, p_out p ≠ OAddress q).
  { intros k p Hk path acc s Hs. split.
    - by eapply (Forall_lookup_1 _ _ _ _ (ni_serving _ Hi)).
    - intros q Hq. destruct (Forall_lookup_1 _ _ _ _ (ni_printed _ Hi) Hk q Hq) as [He _]. congruence. }
  destruct Hst as [pid args|k p e sockets child p' Hk Hr Hm|k p path acc s f now a s' Hk Hs Ha Hst|k p path acc s Hk Hs
    |k p path acc s Hk Hs Hsd Hpn|k p path acc s Hk Hs Hpn].
  - destruct Hi as [Hd Hfl Hsv Hp Hr]. split; simpl; rewrite ?omap_app; simpl; rewrite ?app_nil_r; try done;
      apply Forall_app_2; try done; try (by repeat constructor).
    eapply Forall_impl; [exact Hp|]. intros q Hq path Ho. destruct (Hq path Ho) as (H1 & H2 & c & exe & Hin & H3).
    split_and!; [done..|]. exists c, exe. split; [|done]. simpl. apply elem_of_app. by left.
  - pose proof (Forall_lookup_1 _ _ _ _ (ni_ready _ Hi) Hk Hr) as Ho.
    destruct (main_spec _ _ _ _ _ _ Hm) as (Hsame & Hsub & Hc). apply (replaces_inv n k p); [done..|]. split; try done.
    + destruct child as [c|]; [|done]. destruct Hc as (_ & (_ & H3 & _ & Hco & Hcs & _) & Hn & Hin & _). eauto 10.
    + intros path acc s Hs. destruct child as [c|]; [destruct Hc as (_ & _ & _ & _ & [[] | []]); congruence|].
      destruct Hc as [(q & Hq & _ & _ & H3 & Hcmd) | (code & Hq & _)]; [|congruence].
      destruct Hsame as (_ & -> & _ & -> & _). assert (path = q ∧ s = shim0) as [-> ->] by (split; congruence).
      split_and!; [done| |constructor]. pose proof (pick_command_spec (p_args p)) as Hsp.
      destruct (pick_command (p_args p)) as [cmd rest]. simpl in Hcmd. subst cmd.
      destruct Hsp as [(_ & _ & ?) | (l1 & l2 & _ & _ & Hcm & _)]; [done|by vm_compute in Hcm].
    + intros path Hpr. destruct child as [c|].
      * destruct Hc as (Hcmd & (_ & H3 & _ & _ & _ & exe & Hargs) & _ & _ & [(Hst & Hout) | (_ & Hout)]); [|congruence].
        rewrite Hout, Ho in Hpr. destruct (p_null p); simplify_eq. split_and!; [done..|]. by exists c, exe.
      * destruct Hc as [(q & _ & Hq & _) | (code & _ & [Hq | [t Hq]])]; congruence.
    + intros Hst. destruct child as [c|]; [destruct Hc as (_ & _ & _ & _ & [[] | []]); congruence|].
      destruct Hc as [(q & Hq & _) | (code & Hq & _)]; congruence.
  - destruct (Hserv k p Hk _ _ _ Hs) as [Hok Hno]. rewrite <- (app_nil_r (<[k := _]> _)).
    apply (replaces_inv n k p _ _ None); [done..|]. split; try done; [|naive_solver].
    intros q acc' s0 [= <- <- <-]. destruct (Hok _ _ _ Hs) as (H1 & H2 & H3). split_and!; [done..|]. by eapply reach_step.
  - destruct (Hserv k p Hk _ _ _ Hs) as [Hok Hno]. rewrite <- (app_nil_r (<[k := _]> _)).
    apply (replaces_inv n k p _ _ None); [done..|]. split; try done; [|naive_solver].
    intros q acc' s0 [= <- <- <-]. by apply (Hok _ _ _ Hs).
  - destruct (Hserv k p Hk _ _ _ Hs) as [Hok Hno]. rewrite <- (app_nil_r (<[k := _]> _)).
    apply (replaces_inv n k p _ _ None); [done..|]. split; try done. naive_solver.
  - destruct (Hserv k p Hk _ _ _ Hs) as [Hok Hno]. rewrite <- (app_nil_r (<[k := _]> _)).
    apply (replaces_inv n k p _ _ None); [done..|]. split; try done. naive_solver.
Qed.

Lemma node_reachable_inv (n : node) : nreachable n → node_inv n.
Proof.
  induction 1 as [|n n' _ IH Hs]; [|by eapply node_inv_step].
  split; simpl; try done; [apply NoDup_nil_2|]. by intros path ?%elem_of_nil.
Qed.

Lemma omap_lookup_inj {A B : Type} (f : A → option B) (l : list A) (i j : nat) (x y : A) (b : B) :
  NoDup (omap f l) → l !! i = Some x → l !! j = Some y → f x = Some b → f y = Some b → i = j.
Proof.
  revert i j. induction l as [|z l IH]; intros i j Hd Hi Hj Hx Hy; [done|].
  assert (Hin : ∀ k w, l !! k = Some w → f w = Some b → b ∈ omap f l).
  { intros k w Hk Hw. apply list_elem_of_omap. exists w. split; [by eapply list_elem_of_lookup_2|done]. }
  destruct i as [|i], j as [|j]; simpl in *; simplify_eq; try done.
  - rewrite Hx in Hd. apply NoDup_cons in Hd as [Hn _]. by destruct Hn; eapply Hin.
  - rewrite Hy in Hd. apply NoDup_cons in Hd as [Hn _]. by destruct Hn; eapply Hin.
  - f_equal. eapply IH; [|done..]. destruct (f z); [by apply NoDup_cons in Hd as [_ Hd]|done].
Qed.

(** C29. Every address that start prints belongs to a listener that exactly one process
    has inherited: start has exited with 0, the socket file is there, the child's
    arguments are those of start without the first command word, no other process
    has or serves the socket, and a process serves a socket only if none of its
    arguments is a command.  So an address whose child has a command word left is
    never served. *)
Theorem printed_address_has_one_listener (n : node) (p : proc) (path : string)
    (Hn : nreachable n) (Hp : p ∈ n_procs n) (Ho : p_out p = OAddress path) :
  p_state p = Exited 0 ∧ path ∈ n_sockets n ∧
  ∃ j c exe, n_procs n !! j = Some c ∧ p_fd3 c = Some path ∧ p_args c = exe :: tail (pick_command (p_args p)).2 ∧
    (∀ i q, n_procs n !! i = Some q → p_fd3 q = Some path → i = j) ∧
    (∀ i q acc s, n_procs n !! i = Some q → p_state q = Serving path acc s → i = j ∧ commands (p_args c) = 0%nat).
Proof.
  apply node_reachable_inv in Hn as [Hd Hfl Hs Hpr _]. rewrite Forall_forall in Hpr.
  destruct (Hpr p Hp path Ho) as (H1 & _ & c & exe & [j Hj]%list_elem_of_lookup & H3 & H4).
  assert (Hone : ∀ i q, n_procs n !! i = Some q → p_fd3 q = Some path → i = j).
  { intros i q Hi Hq. by eapply (omap_lookup_inj p_fd3). }
  split_and!; [done| |].
  - apply Hfl, list_elem_of_omap. exists c. split; [by eapply list_elem_of_lookup_2|done].
  - exists j, c, exe. split_and!; [done..|]. intros i q acc s Hi Hq.
    destruct (Forall_lookup_1 _ _ _ _ Hs Hi _ _ _ Hq) as (Hq3 & Hqc & _).
    assert (i = j) as -> by by eapply Hone. split; [done|]. congruence.
Qed.

(** ** Starting *)

(** Every call of start and of the server succeeds. *)
Record calls_succeed (e : penv) : Prop := {
  cs_mkdir : pe_mkdir e = None; cs_resolve : pe_resolve e = None; cs_listen : pe_listen e = None;
  cs_file : pe_file e = None; cs_exe : ∃ exe, pe_exe e = inl exe ∧ is_command exe = false;
  cs_child : ∃ pid, pe_child e = inl pid; cs_stdout : pe_stdout e = None;
  cs_fl : pe_filelistener e = None; cs_srv : pe_newserver e = None }.

Lemma commands_tail (args : list string) : commands args = 0%nat → commands (tail args) = 0%nat.
Proof. unfold commands. destruct args as [|a args]; [done|]. rewrite filter_cons. simpl. by destruct (is_command a). Qed.

(** C30. A start invocation leads to a server when nothing fails: for a process with
    at least two arguments, whose only command word is start and whose standard output
    is not the null device, if every call of the parent and of the child succeeds
    (creating the directory, listening, forking, writing the address, FileListener,
    NewServer), the executable's path is not itself a command word, and the address is
    free, the parent prints the address and exits with 0, and the child, run in its
    turn, serves that very socket with a new task service. *)
Theorem start_leads_to_server (n : node) (k : nat) (p : proc) (e e' : penv)
    (Hk : n_procs n !! k = Some p) (Hr : p_state p = Ready) (Hnull : p_null p = false)
    (Hcmd : (pick_command (p_args p)).1 = "start") (Hone : commands (p_args p) = 1%nat)
    (Hargs : (2 ≤ length (p_args p))%nat)
    (He : calls_succeed e) (He' : calls_succeed e')
    (Hfree : socket_path (p_pid p) (pe_now e) ∉ n_sockets n) :
  let path := socket_path (p_pid p) (pe_now e) in
  ∃ n1 n2 p1 c, nstep n n1 ∧ nstep n1 n2 ∧
    n_procs n1 !! k = Some p1 ∧ p_out p1 = OAddress path ∧ p_state p1 = Exited 0 ∧
    n_procs n2 !! length (n_procs n) = Some c ∧ p_state c = Serving path true shim0 ∧ n_procs n2 !! k = Some p1.
Proof.
  intros path. destruct He as [E1 E2 E3 E4 (exe & E5 & Hexe) (pid & E6) E7 _ _]. destruct He' as [_ _ _ _ _ _ _ F1 F2].
  destruct (pick_command (p_args p)) as [cmd rest] eqn:Hpc. simpl in Hcmd. subst cmd.
  assert (Hrest : commands rest = 0%nat ∧ rest ≠ []).
  { pose proof (pick_command_spec (p_args p)) as Hsp. rewrite Hpc in Hsp.
    destruct Hsp as [(? & _) | (l1 & l2 & Ha & Hl & _ & _ & Hc)]; [done|]. split; [lia|].
    rewrite Ha, length_app in Hargs. simpl in Hargs. rewrite Hl. intros [-> ->]%app_eq_nil. simpl in Hargs. lia. }
  destruct Hrest as [Hrest Hne]. destruct rest as [|arg0 rest]; [done|].
  set (p1 := exit_with 0 (print (OAddress path) p)).
  set (c := MkProc pid (exe :: rest) true (Some path) true ONone Ready).
  set (n1 := MkNode ({[path]} ∪ n_sockets n) (<[k := p1]> (n_procs n) ++ [c])).
  assert (Hlen : length (<[k := p1]> (n_procs n)) = length (n_procs n)) by apply length_insert.
  assert (Hc : n_procs n1 !! length (n_procs n) = Some c).
  { simpl. rewrite <- Hlen. by apply list_lookup_middle. }
  exists n1, (MkNode (n_sockets n1) (<[length (n_procs n) := become (Serving path true shim0) c]> (n_procs n1) ++ [])), p1, (become (Serving path true shim0) c).
  pose proof (lookup_lt_Some _ _ _ Hk) as Hlt.
  assert (Hk1 : n_procs n1 !! k = Some p1).
  { simpl. rewrite lookup_app_l by (by rewrite Hlen). by apply list_lookup_insert_eq. }
  split_and!.
  - eapply (n_main n k p e _ (Some c)); [done..|].
    unfold main. rewrite Hpc. simpl. unfold runStart. fold path.
    by rewrite E1, E2, decide_False, E3, E4, E5, E6, E7 by done.
  - eapply (n_main n1 _ c e' _ None); [done..|].
    unfold main. rewrite no_command; [unfold runServer; simpl; by rewrite F1, F2|].
    cbn [p_args c]. unfold commands. rewrite filter_cons, Hexe. simpl. by apply (commands_tail (arg0 :: rest)).
  - done.
  - unfold p1. simpl. by rewrite Hnull.
  - done.
  - cbn [n_procs]. rewrite app_nil_r, list_lookup_insert_eq; [done|]. by eapply lookup_lt_Some.
  - done.
  - cbn [n_procs]. rewrite app_nil_r, list_lookup_insert_ne by lia. done.
Qed.

(** A re-execution has one command word less, so a chain of starts ends. *)
Lemma start_consumes_a_command (sockets sockets' : gset string) (e : penv) (p p' c : proc) :
  (∀ exe, pe_exe e = inl exe → is_command exe = false) →
  main sockets e p = (sockets', Some c, p') → (commands (p_args c) < commands (p_args p))%nat.
Proof.
  intros He Hm. unfold main in Hm. pose proof (pick_command_spec (p_args p)) as Hsp.
  destruct (pick_command (p_args p)) as [cmd rest]. destruct (String.eqb_spec cmd "start") as [->|].
  2:{ by repeat case_match; simplify_eq. }
  destruct Hsp as [(? & _) | (l1 & l2 & _ & _ & _ & _ & Hc)]; [done|]. rewrite Hc.
  unfold runStart in Hm. destruct (pe_exe e) as [exe|]; [|by repeat case_match; simplify_eq].
  assert (Ha : p_args c = exe :: tail rest) by (by repeat case_match; simplify_eq). rewrite Ha.
  unfold commands. rewrite filter_cons, (He exe eq_refl). simpl.
  destruct rest as [|a rest]; [simpl; lia|]. rewrite filter_cons. destruct (is_command a); simpl; lia.
Qed.

(** ** Stopping *)

(** No Shutdown call has been accepted. *)
Definition quiet (s : shim) : Prop := sh_shutdown s = false ∧ GShutdown ∉ sh_gos s.

Lemma quiet_set_go (k : nat) (g : goroutine) (s s' : shim) :
  quiet s → g ≠ GShutdown → sh_shutdown s' = sh_shutdown s → sh_gos s' = <[k := g]> (sh_gos s) → quiet s'.
Proof.
  intros [H1 H2] Hg Hs Hgos. split; [congruence|]. rewrite Hgos. intros [j Hj]%list_elem_of_lookup.
  apply list_lookup_insert_Some in Hj as [(_ & -> & _) | (_ & Hj)]; [done|]. apply H2. by eapply list_elem_of_lookup_2.
Qed.

Lemma quiet_spawn (g : goroutine) (s s' : shim) :
  quiet s → g ≠ GShutdown → sh_shutdown s' = sh_shutdown s → sh_gos s' = sh_gos s ++ [g] → quiet s'.
Proof. intros [H1 H2] Hg Hs Hgos. split; [congruence|]. rewrite Hgos. set_solver. Qed.

(** One goroutine moves on, not to the close of shutdownCh. *)
Ltac keep_quiet k Hq := eapply (quiet_set_go k); [exact Hq| |reflexivity|reflexivity]; discriminate.

Lemma quiet_step (f : files) (now : Z) (a : action) (s s' : shim) :
  a ≠ DoShutdown → quiet s → step f now a s = Some s' → quiet s'.
Proof.
  intros Ha Hq. unfold step. destruct (sh_panic s); [done|].
  destruct a as [r b| | | |k|k]; [| | |done| |].
  - by intros [= <-].
  - destruct (Start (sh_svc s)); intros [= <-]; [by eapply (quiet_spawn GWatch s)|done].
  - intros [= <-]. unfold Wait. destruct (Wait_enter (sh_next s) (sh_svc s)) as [[r|] v];
      [by eapply (quiet_spawn (GReplied r) s)|by eapply (quiet_spawn (GWait (sh_next s)) s)].
  - destruct (sh_gos s !! k) as [[]|]; try done. intros [= <-]. keep_quiet k Hq.
  - unfold sched. destruct (sh_gos s !! k) as [g|] eqn:Hk; [|done].
    assert (Hg : g ≠ GShutdown) by (intros ->; apply (proj2 Hq); by eapply list_elem_of_lookup_2).
    destruct g as [ch| |pid|[|ch chs]| |r|]; try done; intros Hs.
    + case_decide; simplify_eq. keep_quiet k Hq.
    + simplify_eq. keep_quiet k Hq.
    + destruct (pidAlive f pid); [by simplify_eq|]. destruct (watch_gone now (sh_svc s)) as [chs v]. simplify_eq.
      keep_quiet k Hq.
    + simplify_eq. keep_quiet k Hq.
    + simplify_eq. unfold close_waiter. case_decide; keep_quiet k Hq.
Qed.

Inductive nsteps : node → node → Prop :=
  | nsteps_refl n : nsteps n n
  | nsteps_step n n' n'' : nstep n n' → nsteps n' n'' → nsteps n n''.

(** A quiet service has not panicked over a closed channel. *)
Lemma reachable_no_panic (s : shim) : Shim.reachable s → sh_shutdown s = false → sh_panic s = None.
Proof.
  intros Hr. assert (Hp : ∀ s, Shim.reachable s → sh_panic s = Some ClosedShutdown → sh_shutdown s = true).
  { clear s Hr. induction 1 as [|f now a s s' Hs IH Hst]; [done|]. unfold step in Hst. destruct (sh_panic s) eqn:Hpn; [done|].
    assert (Hsame : ∀ t : shim, sh_panic t = None → sh_panic t = Some ClosedShutdown → sh_shutdown t = true) by congruence.
    destruct a as [r b| | | |k|k].
    - simplify_eq. by apply Hsame.
    - destruct (Start (sh_svc s)); simplify_eq; by apply Hsame.
    - simplify_eq. unfold Wait. destruct (Wait_enter (sh_next s) (sh_svc s)) as [[]]; by apply Hsame.
    - simplify_eq. unfold Shutdown_select. destruct (sh_shutdown s); by apply Hsame.
    - destruct (sh_gos s !! k) as [[]|]; simplify_eq. by apply Hsame.
    - unfold sched in Hst. destruct (sh_gos s !! k) as [[ch| |pid|[|ch chs]| |r|]|]; simplify_eq; try (by apply Hsame).
      + case_decide; simplify_eq. by apply Hsame.
      + destruct (pidAlive f pid); [simplify_eq; by apply Hsame|]. destruct (watch_gone now (sh_svc s)). simplify_eq. by apply Hsame.
      + unfold close_waiter. case_decide; simpl; [done|by apply Hsame].
      + unfold Shutdown_close. destruct (sh_shutdown s) eqn:Hsd; simpl; congruence. }
  intros Hsd. destruct (sh_panic s) as [[]|] eqn:Hpn; [|by specialize (Hp s Hr Hpn); congruence|done].
  by destruct (inv_panic _ (shim_reachable_inv s Hr)).
Qed.

Lemma deaf_step (n n' : node) (k : nat) (p : proc) (path : string) (s : shim) :
  node_inv n → n_procs n !! k = Some p → p_state p = Serving path false s → quiet s → nstep n n' →
  ∃ p' s', n_procs n' !! k = Some p' ∧ p_state p' = Serving path false s' ∧ quiet s'.
Proof.
  intros Hi Hk Hs Hq Hst.
  assert (Hreach : Shim.reachable s) by apply (Forall_lookup_1 _ _ _ _ (ni_serving _ Hi) Hk _ _ _ Hs).
  assert (Hother : ∀ k' q l, k' ≠ k → ∃ p' s', (<[k' := q]> (n_procs n) ++ l) !! k = Some p' ∧ p_state p' = Serving path false s' ∧ quiet s').
  { intros k' q l Hne. exists p, s. split_and!; [|done..]. rewrite lookup_app_l; [by rewrite list_lookup_insert_ne|].
    rewrite length_insert. by eapply lookup_lt_Some. }
  assert (Hother' : ∀ k' q, k' ≠ k → ∃ p' s', <[k' := q]> (n_procs n) !! k = Some p' ∧ p_state p' = Serving path false s' ∧ quiet s').
  { intros k' q Hne. destruct (Hother k' q [] Hne) as (p' & s' & H1 & H2). rewrite app_nil_r in H1. eauto. }
  destruct Hst as [pid args|k' q e sockets child q' Hk' Hr Hm|k' q path' acc t f now a t' Hk' Ht Ha Hst|k' q path' acc t Hk' Ht
    |k' q path' acc t Hk' Ht Hsd Hpn|k' q path' acc t Hk' Ht Hpn]; simpl.
  - exists p, s. split_and!; [|done..]. by apply lookup_app_l_Some.
  - apply Hother. intros ->. congruence.
  - destruct (decide (k' = k)) as [->|Hne]; [|by apply Hother']. simplify_eq. rewrite Hs in Ht. simplify_eq.
    eexists _, t'. split_and!; [by eapply list_lookup_insert_eq, lookup_lt_Some|done|].
    eapply quiet_step; [|done..]. intros ->. by specialize (Ha eq_refl).
  - destruct (decide (k' = k)) as [->|Hne]; [|by apply Hother']. simplify_eq. rewrite Hs in Ht. simplify_eq.
    eexists _, t. split_and!; [by eapply list_lookup_insert_eq, lookup_lt_Some|done|done].
  - apply Hother'. intros ->. simplify_eq. rewrite Hs in Ht. simplify_eq. destruct Hq. congruence.
  - apply Hother'. intros ->. simplify_eq. rewrite Hs in Ht. simplify_eq. destruct Hq. by apply Hpn, reachable_no_panic.
Qed.

(** Only a Shutdown call stops the server.  Neither the exit of QEMU nor Delete nor any
    other call closes shutdownCh; and once srv.Serve has failed, which is only
    logged, no call can arrive any more, so a server without a pending Shutdown
    stays for ever. *)
Theorem only_shutdown_stops_the_server :
  (∀ f now a s s', a ≠ DoShutdown → quiet s → step f now a s = Some s' → quiet s') ∧
  (∀ n n' k p path s, nreachable n → nsteps n n' →
     n_procs n !! k = Some p → p_state p = Serving path false s → quiet s →
     ∃ p' s', n_procs n' !! k = Some p' ∧ p_state p' = Serving path false s').
Proof.
  split; [apply quiet_step|]. intros n n' k p path s Hn Hsteps. revert p s.
  induction Hsteps as [n|n n1 n' Hst Hsteps IH]; intros p s Hk Hs Hq; [eauto|].
  destruct (deaf_step n n1 k p path s (node_reachable_inv n Hn) Hk Hs Hq Hst) as (p1 & s1 & Hk1 & Hs1 & Hq1).
  by eapply IH; [eapply nreach_step| | |].
Qed.

(** No socket file is ever removed, not even by a server that was shut down. *)
Theorem socket_files_stay (n n' : node) : nsteps n n' → n_sockets n ⊆ n_sockets n'.
Proof.
  induction 1 as [n|n n1 n' Hst _ IH]; [done|]. etrans; [|exact IH].
  destruct Hst as [| ? ? ? ? ? ? ? ? Hm| | | |]; try done. by destruct (main_spec _ _ _ _ _ _ Hm) as (_ & Hsub & _).
Qed.

(** ** Executions *)

Definition ok_env (pid now : Z) : penv :=
  MkPenv None now None None None (inl "/opt/shim") (inl pid) None None None None.

Lemma ok_env_succeeds (pid now : Z) : calls_succeed (ok_env pid now).
Proof. split; try reflexivity; eauto. Qed.

Definition start_args : list string := ["/opt/shim"; "-namespace"; "k8s.io"; "-id"; "c1"; "start"].
Definition demo_start : proc := MkProc 7 start_args false None false ONone Ready.
Definition demo_node : node := MkNode ∅ [demo_start].

Lemma demo_node_reachable : nreachable demo_node.
Proof. apply (nreach_step node0); [constructor|]. apply (n_invoke node0 7 start_args). Qed.

Lemma start_leads_to_server_witness :
  ∃ n2 c, nsteps demo_node n2 ∧ n_procs n2 !! 1%nat = Some c ∧
    p_state c = Serving "/run/containerd/s/katamaran-7-42.sock" true shim0.
Proof.
  destruct (start_leads_to_server demo_node 0 demo_start (ok_env 8 42) (ok_env 0 0)) as (n1 & n2 & p1 & c & H1 & H2 & _ & _ & _ & Hc & Hs & _).
  - reflexivity.
  - reflexivity.
  - reflexivity.
  - reflexivity.
  - reflexivity.
  - simpl. lia.
  - apply ok_env_succeeds.
  - apply ok_env_succeeds.
  - apply not_elem_of_empty.
  - exists n2, c. split; [by eapply nsteps_step; [exact H1|]; eapply nsteps_step; [exact H2|]; constructor|].
    split; [exact Hc|exact Hs].
Defined.

(** With another command word among the arguments, start prints an address that
    nobody ever serves: here a namespace called start. *)
Definition nested_start : proc :=
  MkProc 7 ["/opt/shim"; "-namespace"; "start"; "-id"; "c1"; "start"] false None false ONone Ready.
Definition nested_run : gset string * option proc * proc := main ∅ (ok_env 8 42) nested_start.
Definition nested_node : node :=
  MkNode nested_run.1.1 (<[0%nat := nested_run.2]> [nested_start] ++ option_list nested_run.1.2).

Lemma nested_reachable : nreachable nested_node.
Proof.
  apply (nreach_step (MkNode ∅ [nested_start])).
  - apply (nreach_step node0); [constructor|]. apply (n_invoke node0 7 (p_args nested_start)).
  - apply (n_main (MkNode ∅ [nested_start]) 0 nested_start (ok_env 8 42)); [done|done|].
    change (nested_run = (nested_run.1.1, nested_run.1.2, nested_run.2)). by destruct nested_run as [[]].
Qed.

Definition demo_address : string := "/run/containerd/s/katamaran-7-42.sock".

Lemma printed_address_has_one_listener_witness :
  p_out nested_run.2 = OAddress demo_address ∧
  ∃ c, c ∈ n_procs nested_node ∧ p_fd3 c = Some demo_address ∧ commands (p_args c) = 1%nat.
Proof.
  split; [vm_compute; reflexivity|].
  destruct (printed_address_has_one_listener nested_node nested_run.2 demo_address) as (_ & _ & j & c & exe & Hj & H3 & Ha & _).
  - apply nested_reachable.
  - by left.
  - vm_compute. reflexivity.
  - exists c. split; [by eapply list_elem_of_lookup_2|]. split; [exact H3|]. rewrite Ha.
    destruct j as [|[|j]]; [vm_compute in Hj|vm_compute in Hj|discriminate Hj].
    + injection Hj as <-. discriminate H3.
    + injection Hj as <-. injection Ha as <-. vm_compute. reflexivity.
Defined.
