(* ===== verification/Dashboard.v ===== *)
(** * The dashboard's state (internal/dashboard: types.go, server.go, migrate.go, loadgen.go)

    The fields of App, split by the mutex that guards them: the migration
    (migrationMutex) and the load generator (loadgenMutex); the operations that
    take a mutex, each one atomic step; and the cursors by which a client polls
    the log and the samples.  Times are instants in nanoseconds; how a time is
    printed is not represented. *)
From S2P Require Import Prelude GoErrors GoStrings.

(** ** Bounded buffers with a sequence number

    The log lines and the ping samples are kept the same way: a slice that drops
    its oldest entries, and a counter that grows with every entry and with every
    reset. *)

Record ring (A : Type) := Ring { rg_seq : Z; rg_items : list A }.
Arguments Ring {A} _ _.
Arguments rg_seq {A} _.
Arguments rg_items {A} _.

Definition ring0 {A : Type} : ring A := Ring 0 [].

(** slices.Delete of what exceeds the capacity. *)
Definition trim {A : Type} (cap : nat) (l : list A) : list A :=
  if (cap <? length l)%nat then drop (length l - cap) l else l.

Definition push {A : Type} (cap : nat) (x : A) (r : ring A) : ring A :=
  Ring (rg_seq r + 1) (trim cap (rg_items r ++ [x])).

(** The slice is emptied and the counter moves on. *)
Definition clear {A : Type} (r : ring A) : ring A := Ring (rg_seq r + 1) [].

(** What handleStatus returns of a buffer for a cursor: the entries, the next
    cursor and whether the client must drop what it has. *)
Definition since {A : Type} (after : option Z) (r : ring A) : list A * Z * bool :=
  let start := rg_seq r - Z.of_nat (length (rg_items r)) in
  match after with
  | None => (rg_items r, rg_seq r, false)
  | Some n =>
      if (n <? start) || (rg_seq r <? n) then (rg_items r, rg_seq r, true)
      else if start <? n then (drop (Z.to_nat (n - start)) (rg_items r), rg_seq r, false)
      else (rg_items r, rg_seq r, false)
  end.

(** [parseStatusCursor]. *)
Definition parseStatusCursor (raw : string) : option Z :=
  if (raw =? "")%string then None
  else let '(n, bad) := ParseInt raw in if bad || (n <? 0) then None else Some n.

(** ** The data of types.go *)

(** A latency as its float64 bits. *)
Record PingData := MkPing { pd_Time : Z; pd_Latency : Z; pd_Error : string }.

Record MigrationProgress := MkProgress {
  mp_Phase : string; mp_RAMTransferred : Z; mp_RAMTotal : Z; mp_DowntimeMS : Z }.

Record MigrationHistoryEntry := MkEntry {
  he_MigrationID : string;
  he_Result : string;
  he_Error : string;
  he_StartedAt : Z;
  he_CompletedAt : Z;
  he_DurationMS : Z;
  he_RAMTransferred : Z;
  he_RAMTotal : Z;
  he_DowntimeMS : Z }.

Definition maxHistoryEntries : nat := 100.
Definition maxLogLines : nat := 1000.
Definition maxPingLines : nat := 500.
Definition maxLogLineSize : Z := 8 * 1024.

(** A context created by WithCancel, by number. *)
Abbreviation ctx_id := nat (only parsing).

(** The fields guarded by migrationMutex: the log, the run in flight, and what
    the finished runs left. *)
Record Log := MkLog { lg_ring : ring string; logBufferWrapped : bool }.

Record Flight := MkFlight {
  isMigrating : bool;
  migrationID : string;
  migrationStart : option Z;           (* None: the zero time *)
  migrationCancel : option ctx_id }.

Record Outcomes := MkOutcomes {
  lastMigrationResult : string;
  lastMigrationError : string;
  latestProgress : option MigrationProgress;
  migrationsStarted : Z;
  migrationsSucceeded : Z;
  migrationsFailed : Z;
  migrationHistory : list MigrationHistoryEntry }.

Record Mig := MkMig { m_log : Log; m_flight : Flight; m_out : Outcomes }.

(** The fields guarded by loadgenMutex. *)
Record Loadgen := MkLoadgen {
  lg_pings : ring PingData;
  loadgenRunning : bool;
  loadgenType : string;
  loadgenCancel : option ctx_id }.

Definition mig0 : Mig :=
  MkMig (MkLog ring0 false) (MkFlight false "" None None) (MkOutcomes "" "" None 0 0 0 []).
Definition loadgen0 : Loadgen := MkLoadgen ring0 false "" None.

Definition with_log (l : Log) (m : Mig) : Mig := MkMig l (m_flight m) (m_out m).
Definition with_flight (f : Flight) (m : Mig) : Mig := MkMig (m_log m) f (m_out m).
Definition with_out (o : Outcomes) (m : Mig) : Mig := MkMig (m_log m) (m_flight m) o.

(** ** Operations under migrationMutex *)

Definition clip_line (msg : string) : string :=
  if maxLogLineSize <? slen msg then stake (Z.to_nat maxLogLineSize) msg +:+ " ... [truncated]" else msg.

Definition appendLog (msg : string) (m : Mig) : Mig :=
  let r := lg_ring (m_log m) in
  with_log (MkLog (push maxLogLines (clip_line msg) r)
                  (logBufferWrapped (m_log m) || (maxLogLines <? length (rg_items r ++ [clip_line msg]))%nat)) m.

(** The write of latestProgress in the loop of [runOrchestrator]. *)
Definition set_progress (p : MigrationProgress) (m : Mig) : Mig :=
  let o := m_out m in
  with_out (MkOutcomes (lastMigrationResult o) (lastMigrationError o) (Some p) (migrationsStarted o)
              (migrationsSucceeded o) (migrationsFailed o) (migrationHistory o)) m.

(** Duration.Milliseconds of a difference of instants; the zero time is before
    every instant, so the difference saturates. *)
Definition max_duration : Z := max_int64.
Definition duration_since (now : Z) (start : option Z) : Z :=
  match start with
  | None => max_duration
  | Some t => Z.max min_int64 (Z.min max_int64 (now - t))
  end.
Definition Milliseconds (d : Z) : Z := Z.quot d 1000000.

(** The history entry of [setMigrationResult]. *)
Definition result_entry (now : Z) (result errMsg : string) (m : Mig) : MigrationHistoryEntry :=
  let fl := m_flight m in
  let p := default (MkProgress "" 0 0 0) (latestProgress (m_out m)) in
  MkEntry (migrationID fl) result errMsg (default 0 (migrationStart fl)) now
    (Milliseconds (duration_since now (migrationStart fl)))
    (mp_RAMTransferred p) (mp_RAMTotal p) (mp_DowntimeMS p).

Definition setMigrationResult (now : Z) (result errMsg : string) (m : Mig) : Mig :=
  let o := m_out m in
  with_out (MkOutcomes result errMsg (latestProgress o) (migrationsStarted o)
    (if (result =? "success")%string then migrationsSucceeded o + 1 else migrationsSucceeded o)
    (if (result =? "error")%string then migrationsFailed o + 1 else migrationsFailed o)
    (trim maxHistoryEntries (migrationHistory o ++ [result_entry now result errMsg m]))) m.

(** The critical section of [handleMigrate]: [inl] the running migration's id
    when there is one, else the new state.  [id] is the generated id, [ctx] the
    new context. *)
Definition begin_migration (now : Z) (id : string) (ctx : ctx_id) (m : Mig) : string + Mig :=
  let fl := m_flight m in
  let o := m_out m in
  if isMigrating fl then inl (migrationID fl)
  else inr (MkMig (MkLog (clear (lg_ring (m_log m))) false)
              (MkFlight true id (Some now) (Some ctx))
              (MkOutcomes (lastMigrationResult o) (lastMigrationError o) None (migrationsStarted o + 1)
                 (migrationsSucceeded o) (migrationsFailed o) (migrationHistory o))).

(** The deferred function of [runOrchestrator], with the outcome it records. *)
Definition end_migration (m : Mig) : string * Mig :=
  let fl := m_flight m in
  (lastMigrationResult (m_out m), with_flight (MkFlight false (migrationID fl) (migrationStart fl) None) m).

(** [handleMigrateStop]: the context it cancels, and the reply. *)
Definition handleMigrateStop (m : Mig) : option ctx_id * (bool * string) :=
  let fl := m_flight m in
  (migrationCancel fl, (match migrationCancel fl with Some _ => true | None => false end, migrationID fl)).

Definition counterSnapshot (m : Mig) : Z * Z * Z :=
  let o := m_out m in (migrationsStarted o, migrationsSucceeded o, migrationsFailed o).

(** The loop of [reverseCopyHistory]: out[i] = src[n-1-i]. *)
Definition reverseCopyHistory (src : list MigrationHistoryEntry) : list MigrationHistoryEntry :=
  let n := length src in omap (λ i, src !! (n - 1 - i)%nat) (seq 0 n).

Definition handleHistory (m : Mig) : list MigrationHistoryEntry := reverseCopyHistory (migrationHistory (m_out m)).

(** ** Operations under loadgenMutex *)

Definition tryStartLoadgen (typ : string) (ctx : ctx_id) (l : Loadgen) : string + Loadgen :=
  if loadgenRunning l then inl (loadgenType l)
  else inr (MkLoadgen (clear (lg_pings l)) true typ (Some ctx)).

Definition resetLoadgen (l : Loadgen) : Loadgen := MkLoadgen (lg_pings l) false "" None.

Definition stopLoadgen (l : Loadgen) : option ctx_id := loadgenCancel l.

(** [handleLoadgenStop] reads the state, unlocks, and then stops whatever runs. *)
Definition handleLoadgenStop_reply (l : Loadgen) : bool * string := (loadgenRunning l, loadgenType l).

Definition addPing (now lat : Z) (errStr : string) (l : Loadgen) : Loadgen :=
  MkLoadgen (push maxPingLines (MkPing now lat errStr) (lg_pings l)) (loadgenRunning l) (loadgenType l) (loadgenCancel l).

(** ** [handleStatus] *)

Record StatusResponse := MkStatus {
  st_Version : string;
  st_UptimeSeconds : Z;
  st_Migrating : bool;
  st_MigrationID : string;
  st_MigrationElapsedSeconds : Z;
  st_MigrationProgress : option MigrationProgress;
  st_LastMigrationResult : string;
  st_LastMigrationError : string;
  st_MigrationsStarted : Z;
  st_MigrationsSucceeded : Z;
  st_MigrationsFailed : Z;
  st_History : list MigrationHistoryEntry;
  st_LoadgenRunning : bool;
  st_LoadgenType : string;
  st_Logs : list string;
  st_LogsNext : Z;
  st_LogsReset : bool;
  st_Pings : list PingData;
  st_PingsNext : Z;
  st_PingsReset : bool }.

(** int64(d.Seconds()), in whole seconds. *)
Definition Seconds (d : Z) : Z := Z.quot d second.

(** [m] is read under the first lock and [l] under the second. *)
Definition handleStatus (version : string) (now startTime : Z) (rawLogs rawPings : string)
    (m : Mig) (l : Loadgen) : StatusResponse :=
  let '(logs, logsNext, logsReset) := since (parseStatusCursor rawLogs) (lg_ring (m_log m)) in
  let '(pings, pingsNext, pingsReset) := since (parseStatusCursor rawPings) (lg_pings l) in
  let fl := m_flight m in
  let o := m_out m in
  let elapsed := match migrationStart fl with
                 | Some t => if isMigrating fl then Seconds (now - t) else 0
                 | None => 0
                 end in
  MkStatus version (Seconds (now - startTime)) (isMigrating fl) (migrationID fl) elapsed (latestProgress o)
    (lastMigrationResult o) (lastMigrationError o) (migrationsStarted o) (migrationsSucceeded o) (migrationsFailed o)
    (reverseCopyHistory (migrationHistory o)) (loadgenRunning l) (loadgenType l)
    logs logsNext logsReset pings pingsNext pingsReset.

(** ** The cursor protocol

    What a client sees that polls with the cursor of its last reply, whatever the
    server does in between. *)

Inductive ring_op (A : Type) := RPush (x : A) | RClear.
Arguments RPush {A} _.
Arguments RClear {A}.

Definition ring_step {A : Type} (cap : nat) (r : ring A) (o : ring_op A) : ring A :=
  match o with RPush x => push cap x r | RClear => clear r end.

Definition ring_run {A : Type} (cap : nat) (os : list (ring_op A)) (r : ring A) : ring A :=
  fold_left (ring_step cap) os r.

Definition pushed {A : Type} (os : list (ring_op A)) : list A :=
  omap (λ o, match o with RPush x => Some x | RClear => None end) os.

Definition cleared {A : Type} (os : list (ring_op A)) : bool :=
  existsb (λ o, match o with RClear => true | _ => false end) os.

(** Everything appended since the last reset. *)
Definition era {A : Type} (os : list (ring_op A)) (l : list A) : list A :=
  fold_left (λ l o, match o with RPush x => l ++ [x] | RClear => [] end) os l.

Lemma trim_last_n {A : Type} (cap : nat) (l : list A) : trim cap l = last_n cap l.
Proof. unfold trim. destruct (Nat.ltb_spec cap (length l)); [done|]. by rewrite last_n_all. Qed.

Section rings.
Context {A : Type} (cap : nat).
Implicit Types (r : ring A) (os : list (ring_op A)) (l : list A).

Lemma push_last_n (x : A) (r : ring A) : rg_items (push cap x r) = last_n cap (rg_items r ++ [x]).
Proof.
  apply trim_last_n.
Qed.

(** The buffer is the end of the era. *)
Lemma ring_run_items os r l :
  rg_items r = last_n cap l → rg_items (ring_run cap os r) = last_n cap (era os l).
Proof.
  revert r l. induction os as [|[x|] os IH]; intros r l Hr; simpl; [done| |].
  - apply IH. by rewrite push_last_n, Hr, last_n_app.
  - by apply IH.
Qed.

Lemma ring_run_seq os r :
  rg_seq r + Z.of_nat (length (pushed os)) ≤ rg_seq (ring_run cap os r).
Proof.
  revert r. induction os as [|[x|] os IH]; intros r; simpl; [lia| |].
  - specialize (IH (push cap x r)). simpl in IH. lia.
  - specialize (IH (clear r)). simpl in IH. lia.
Qed.

(** No reset: the counter counts the entries. *)
Lemma ring_run_uncleared os r :
  cleared os = false →
  rg_seq (ring_run cap os r) = rg_seq r + Z.of_nat (length (pushed os)) ∧ (∀ l, era os l = l ++ pushed os).
Proof.
  revert r. induction os as [|[x|] os IH]; intros r Hc; simpl; [|simpl in Hc|done].
  - split; [lia|]. intros l. by rewrite app_nil_r.
  - destruct (IH (push cap x r) Hc) as [Hs He]. simpl in Hs. split; [lia|].
    intros l. by rewrite He, <- app_assoc.
Qed.

Lemma ring_run_length os r :
  (length (rg_items r) ≤ cap)%nat → (length (rg_items (ring_run cap os r)) ≤ cap)%nat.
Proof.
  intros Hr. rewrite (ring_run_items os r (rg_items r)); [apply last_n_length|by rewrite last_n_all].
Qed.

(** A reset: every entry of the buffer is newer than the cursor. *)
Lemma ring_run_cleared os r :
  cleared os = true → rg_seq r < rg_seq (ring_run cap os r) - Z.of_nat (length (rg_items (ring_run cap os r))).
Proof.
  assert (Hlt : ∀ os r n, n < rg_seq r - Z.of_nat (length (rg_items r)) →
    n < rg_seq (ring_run cap os r) - Z.of_nat (length (rg_items (ring_run cap os r)))).
  { clear. intros os. induction os as [|[x|] os IH]; intros r n Hn; simpl; [done| |].
    - apply IH. pose proof (last_n_length cap (rg_items r ++ [x])) as Hle.
      rewrite push_last_n. cbn [push rg_seq]. unfold last_n. rewrite length_drop, length_app. simpl. lia.
    - apply IH. simpl. lia. }
  revert r. induction os as [|[x|] os IH]; intros r Hc; simpl; [done| |].
  - specialize (IH (push cap x r) Hc). simpl in IH. lia.
  - apply Hlt. simpl. lia.
Qed.

(** What a poll answers, in terms of what happened since the last one. *)
Lemma since_delivers os r :
  (length (rg_items r) ≤ cap)%nat →
  let r' := ring_run cap os r in
  since (Some (rg_seq r)) r' =
    if cleared os || (cap <? length (pushed os))%nat then (rg_items r', rg_seq r', true)
    else (pushed os, rg_seq r', false).
Proof.
  intros Hr r'. unfold since. pose proof (ring_run_seq os r) as Hle. fold r' in Hle.
  destruct (cleared os) eqn:Hc; simpl.
  { pose proof (ring_run_cleared os r Hc) as Hlt. fold r' in Hlt.
    by destruct (Z.ltb_spec (rg_seq r) (rg_seq r' - Z.of_nat (length (rg_items r')))); [|lia]. }
  destruct (ring_run_uncleared os r Hc) as [Hs He]. fold r' in Hs.
  assert (Hi : rg_items r' = last_n cap (rg_items r ++ pushed os)).
  { rewrite <- He. apply ring_run_items. by rewrite last_n_all. }
  assert (Hl : length (rg_items r') = Nat.min cap (length (rg_items r) + length (pushed os))).
  { rewrite Hi. unfold last_n. rewrite length_drop, length_app. lia. }
  destruct (Nat.ltb_spec cap (length (pushed os))) as [Hov|Hov].
  - by destruct (Z.ltb_spec (rg_seq r) (rg_seq r' - Z.of_nat (length (rg_items r')))); [|lia].
  - destruct (Z.ltb_spec (rg_seq r) (rg_seq r' - Z.of_nat (length (rg_items r')))); [lia|].
    destruct (Z.ltb_spec (rg_seq r') (rg_seq r)); [lia|]. simpl.
    assert (Hd : drop (length (rg_items r') - length (pushed os)) (rg_items r') = pushed os).
    { rewrite Hi at 2. unfold last_n. rewrite drop_drop.
      replace (length (rg_items r ++ pushed os) - cap + (length (rg_items r') - length (pushed os)))%nat
        with (length (rg_items r)) by (rewrite length_app; lia).
      apply drop_app_length. }
    destruct (Z.ltb_spec (rg_seq r' - Z.of_nat (length (rg_items r'))) (rg_seq r)).
    + replace (Z.to_nat (rg_seq r - (rg_seq r' - Z.of_nat (length (rg_items r')))))
        with (length (rg_items r') - length (pushed os))%nat by lia.
      by rewrite Hd.
    + replace (length (rg_items r') - length (pushed os))%nat with 0%nat in Hd by lia. by rewrite <- Hd at 1.
Qed.
End rings.

(** A client as the page implements it: no cursor until it has one, and its copy
    dropped on a reset. *)
Record client (A : Type) := Client { cl_view : list A; cl_next : Z }.
Arguments Client {A} _ _.
Arguments cl_view {A} _.
Arguments cl_next {A} _.

Definition client_poll {A : Type} (r : ring A) (c : client A) : client A :=
  let '(items, next, reset) := since (if 0 <? cl_next c then Some (cl_next c) else None) r in
  Client ((if reset || (cl_next c =? 0) then [] else cl_view c) ++ items) next.

(** Rounds of server activity, each followed by a poll. *)
Definition session {A : Type} (cap : nat) (rounds : list (list (ring_op A))) (rc : ring A * client A)
    : ring A * client A :=
  fold_left (λ rc os, let r := ring_run cap os rc.1 in (r, client_poll r rc.2)) rounds rc.

(** The client's copy lies between the server's buffer and the whole era. *)
Record client_inv {A : Type} (cap : nat) (l : list A) (rc : ring A * client A) : Prop := {
  ci_items : rg_items rc.1 = last_n cap l;
  ci_next : cl_next rc.2 = rg_seq rc.1;
  ci_zero : 0 ≤ rg_seq rc.1 ∧ (rg_seq rc.1 = 0 → l = []);
  ci_low : rg_items rc.1 `suffix_of` cl_view rc.2;
  ci_high : cl_view rc.2 `suffix_of` l }.

Lemma last_n_suffix_of {A : Type} (n : nat) (l : list A) : last_n n l `suffix_of` l.
Proof. apply last_n_suffix. Qed.

Lemma era_suffix {A : Type} (os : list (ring_op A)) (l : list A) :
  cleared os = true → ∀ l', era os l = era os l'.
Proof.
  revert l. induction os as [|[x|] os IH]; intros l Hc l'; simpl; [done| |done]. by apply IH.
Qed.

Lemma era_length {A : Type} (os : list (ring_op A)) (l : list A) :
  (length (era os l) ≤ length l + length (pushed os))%nat.
Proof.
  revert l. induction os as [|[x|] os IH]; intros l; simpl; [lia| |].
  - specialize (IH (l ++ [x])). rewrite length_app in IH. simpl in IH. lia.
  - specialize (IH []). simpl in IH. lia.
Qed.

(** A counter still at zero: nothing has happened. *)
Lemma ring_run_zero {A : Type} (cap : nat) (os : list (ring_op A)) (r : ring A) (l : list A) :
  0 ≤ rg_seq r → rg_seq (ring_run cap os r) = 0 → (rg_seq r = 0 → l = []) → era os l = [].
Proof.
  intros Hr H0 Hl. destruct os as [|o os]; [by apply Hl|]. exfalso.
  pose proof (ring_run_seq cap os (ring_step cap r o)) as Hle.
  change (ring_run cap (o :: os) r) with (ring_run cap os (ring_step cap r o)) in H0.
  assert (rg_seq (ring_step cap r o) = rg_seq r + 1) by by destruct o. lia.
Qed.

(** A round and its poll; when the round fits the buffer, a complete copy stays
    complete. *)
Lemma client_round {A : Type} (cap : nat) (os : list (ring_op A)) (l : list A) (rc : ring A * client A) :
  client_inv cap l rc →
  let r := ring_run cap os rc.1 in
  let c := client_poll r rc.2 in
  client_inv cap (era os l) (r, c) ∧
  ((length (pushed os) ≤ cap)%nat → cl_view rc.2 = l → cl_view c = era os l).
Proof.
  intros [Hi Hn [Hz0 Hz] Hlo Hhi] r c.
  assert (Hri : rg_items r = last_n cap (era os l)) by by apply ring_run_items.
  assert (Hlen : (length (rg_items rc.1) ≤ cap)%nat) by (rewrite Hi; apply last_n_length).
  pose proof (ring_run_seq cap os rc.1) as Hseq. fold r in Hseq.
  assert (Hempty : rg_seq r = 0 → era os l = []) by (intros H0; eapply ring_run_zero; [|exact H0|]; auto with lia).
  assert (Hnew : ∀ v, c = Client v (rg_seq r) → rg_items r `suffix_of` v → v `suffix_of` era os l →
    client_inv cap (era os l) (r, c)).
  { intros v -> H1 H2. split; simpl; auto with lia. }
  assert (Hfull : c = Client (rg_items r) (rg_seq r) →
    (length (pushed os) ≤ cap)%nat → (cleared os = true ∨ l = []) → cl_view c = era os l).
  { intros -> Hle Hor. simpl. rewrite Hri. apply last_n_all.
    assert (He : era os l = era os []) by (destruct Hor as [Hc| ->]; [by apply era_suffix|done]).
    rewrite He. pose proof (era_length os []). simpl in *. lia. }
  assert (Hcq : c = client_poll r rc.2) by done. clearbody c. unfold client_poll in Hcq.
  destruct (Z.ltb_spec 0 (cl_next rc.2)) as [Hpos|Hpos].
  2:{ assert (Hc : c = Client (rg_items r) (rg_seq r)).
      { subst c. simpl. replace (cl_next rc.2 =? 0) with true by (symmetry; apply Z.eqb_eq; lia). done. }
      split.
      - apply (Hnew (rg_items r)); [done|done|]. rewrite Hri. apply last_n_suffix_of.
      - intros Hle _. apply Hfull; [done|done|]. right. apply Hz. lia. }
  pose proof (since_delivers cap os rc.1 Hlen) as Hs. cbv zeta in Hs. fold r in Hs. rewrite Hn, Hs in Hcq.
  destruct (cleared os) eqn:Hc; simpl in Hcq.
  { split; [|intros Hle _; apply Hfull; auto].
    apply (Hnew (rg_items r)); [done|done|]. rewrite Hri. apply last_n_suffix_of. }
  replace (rg_seq rc.1 =? 0) with false in Hcq by (symmetry; apply Z.eqb_neq; lia).
  destruct (ring_run_uncleared cap os rc.1 Hc) as [_ He].
  destruct (Nat.ltb_spec cap (length (pushed os))) as [Hov|Hov]; simpl in Hcq.
  - split; [|lia]. apply (Hnew (rg_items r)); [done|done|]. rewrite Hri. apply last_n_suffix_of.
  - split; [|intros _ Hv; subst c; simpl; by rewrite Hv, He].
    apply (Hnew (cl_view rc.2 ++ pushed os)); [done| |].
    + destruct Hlo as [k Hk]. rewrite Hk. rewrite Hri, He, <- last_n_app, <- Hi, <- app_assoc.
      etrans; [apply last_n_suffix_of|]. by exists k.
    + rewrite He. destruct Hhi as [k ->]. exists k. by rewrite app_assoc.
Qed.

Lemma session_inv {A : Type} (cap : nat) (rounds : list (list (ring_op A))) (l : list A) (rc : ring A * client A) :
  client_inv cap l rc →
  client_inv cap (era (concat rounds) l) (session cap rounds rc) ∧
  (Forall (λ os, (length (pushed os) ≤ cap)%nat) rounds → cl_view rc.2 = l →
   cl_view (session cap rounds rc).2 = era (concat rounds) l).
Proof.
  revert l rc. induction rounds as [|os rounds IH]; intros l rc Hi; simpl; [done|].
  destruct (client_round cap os l rc Hi) as [H1 H2].
  destruct (IH _ _ H1) as [H3 H4]. unfold era in *. rewrite fold_left_app. split; [done|].
  intros [Hos Hf]%Forall_cons Hv. apply H4; [done|]. by apply H2.
Qed.

(** C16. The status cursors deliver the log: for any rounds of appended entries and
    resets, with a poll after each round, the client's copy is always a contiguous
    end of everything appended since the last reset and contains the server's whole
    buffer, so entries are never duplicated, reordered or mixed with those of an
    earlier run, and only old ones can be missing; and when no round appends more
    than the buffer holds, the copy is complete. *)
Theorem status_cursor_delivers {A : Type} (cap : nat) (rounds : list (list (ring_op A))) :
  let '(r, c) := session cap rounds (ring0, Client [] 0) in
  let logged := era (concat rounds) [] in
  cl_next c = rg_seq r ∧ rg_items r = last_n cap logged ∧
  rg_items r `suffix_of` cl_view c ∧ cl_view c `suffix_of` logged ∧
  (Forall (λ os, (length (pushed os) ≤ cap)%nat) rounds → cl_view c = logged).
Proof.
  destruct (session_inv cap rounds [] (ring0, Client [] 0)) as [Hi Hc].
  { by split. }
  destruct (session cap rounds (ring0, Client [] 0)) as [r c]. simpl in *.
  destruct Hi as [Hit Hn _ Hlo Hhi]. split_and!; auto.
Qed.

(** ** The history *)

Lemma reverseCopyHistory_reverse (src : list MigrationHistoryEntry) : reverseCopyHistory src = reverse src.
Proof.
  unfold reverseCopyHistory. induction src as [|x src IH] using rev_ind; [done|].
  rewrite reverse_app, length_app, Nat.add_1_r. cbn [seq].
  change (reverse [x] ++ reverse src) with (x :: reverse src). rewrite <- IH. clear IH.
  cbn [omap list_omap]. replace (S (length src) - 1 - 0)%nat with (length src) by lia.
  rewrite list_lookup_middle by done. f_equal. rewrite <- seq_shift. symmetry. apply omap_Forall_ext, Forall_seq.
  intros i Hi. rewrite lookup_app_l by lia. f_equal. lia.
Qed.
