(* ===== verification/DashMigrate.v ===== *)
(** * The dashboard's migration endpoint (internal/dashboard: migrate.go, response.go)

    The form of POST /api/migrate, its validation, the request handed to the
    orchestrator, and the worker that follows the orchestrator's updates.  The
    parsing of media types and of form bodies is net/http's: the parsed form is an
    input.  Log records are not represented. *)
From S2P Require Import Prelude GoErrors GoStrings Tunnel OrchTypes OrchValidate Dashboard.

(** ** Forms and replies (response.go) *)

(** url.Values, in the order the runtime iterates. *)
Abbreviation values := (list (string * list string)) (only parsing).

Fixpoint values_get (f : values) (key : string) : list string :=
  match f with
  | [] => []
  | (k, vs) :: f => if (k =? key)%string then vs else values_get f key
  end.

Definition first_value (vs : list string) : string := match vs with v :: _ => v | [] => "" end.

Record Post := MkPost {
  po_ContentLength : Z;
  po_ContentType : string;             (* "" when the header is missing *)
  po_parsed : (values * values) + bool (* PostForm and the query, or an error: too large? *) }.

(** Status code and JSON fields. *)
Record Resp := MkResp { rs_code : Z; rs_body : list (string * string) }.

Definition jsonError (msg : string) (code : Z) : Resp := MkResp code [("error", msg)].

(** Handlers that reply early. *)
Abbreviation handler A := (Resp + A)%type (only parsing).
Definition hbind {A B : Type} (m : handler A) (k : A → handler B) : handler B :=
  match m with inl r => inl r | inr a => k a end.
Notation "x ←! m ; k" := (hbind m (λ x, k)) (at level 90, m at level 85, k at level 200, right associativity).
Definition reject_if (b : bool) (r : Resp) : handler unit := if b then inl r else inr tt.

(** mime.ParseMediaType, the media type only. *)
Class MediaTypes := ParseMediaType : string → option string.
(** The Error method of an error. *)
Class ErrorText := error_text : error → string.

Section response.
Context `{MediaTypes}.

Definition form_type : string := "application/x-www-form-urlencoded".

Definition parseFormPOST (p : Post) : handler (values * values) :=
  let unsupported := jsonError "Content-Type must be application/x-www-form-urlencoded" 415 in
  _ ←! (if po_ContentLength p =? 0 then inr tt
        else if is_empty (po_ContentType p) then inl unsupported
        else match ParseMediaType (po_ContentType p) with
             | Some mt => reject_if (negb (mt =? form_type)%string) unsupported
             | None => inl unsupported
             end) ;
  match po_parsed p with
  | inl f => inr f
  | inr true => inl (jsonError "Request body too large" 413)
  | inr false => inl (jsonError "Invalid request body" 400)
  end.
End response.

Fixpoint rejectUnknownPostFormFields (f : values) (allowed : list string) : handler unit :=
  match f with
  | [] => inr tt
  | (key, _) :: f =>
      if one_of key allowed then rejectUnknownPostFormFields f allowed
      else inl (jsonError ("Unknown form field: " +:+ key) 400)
  end.

(** The first key that fails a check is reported. *)
Fixpoint reject_first (bad : string → bool) (reply : string → Resp) (keys : list string) : handler unit :=
  match keys with
  | [] => inr tt
  | key :: keys => if bad key then inl (reply key) else reject_first bad reply keys
  end.

(** ** The request of a form (migrate.go) *)

Definition migrateFormKeys : list string :=
  ["source_node"; "dest_node"; "qmp_source"; "qmp_dest"; "tap"; "tap_netns";
   "dest_ip"; "vm_ip"; "image"; "shared_storage"; "downtime";
   "source_pod_name"; "source_pod_namespace"; "dest_pod_name"; "dest_pod_namespace";
   "replay_cmdline"; "tunnel_mode"; "auto_downtime"].

Definition migrateBoolFormKeys : list string := ["shared_storage"; "replay_cmdline"; "auto_downtime"].

Definition validFormValue (v : string) : bool := is_nil (ValidateSafeArgValue "form field" v).

Definition PostFormValue (f : values) (key : string) : string := first_value (values_get f key).

Definition is_true (v : string) : bool := (v =? "true")%string.

Definition formToOrchestratorRequest (f : values) (podMode : bool) (resolvedSrcNode resolvedDestIP : string)
    (downtimeMS : Z) : Request :=
  let v := PostFormValue f in
  MkRequest (if podMode then resolvedSrcNode else v "source_node") (v "dest_node") ∅ []
    (if podMode then Some (MkPodRef (v "source_pod_namespace") (v "source_pod_name")) else None)
    (v "qmp_source") (v "vm_ip")
    (if podMode && negb (is_empty (v "dest_pod_namespace"))
     then Some (MkPodRef (v "dest_pod_namespace") (v "dest_pod_name")) else None)
    (v "qmp_dest") (if podMode then resolvedDestIP else v "dest_ip") (v "image")
    (is_true (v "shared_storage")) (is_true (v "replay_cmdline")) (v "tunnel_mode") downtimeMS
    (is_true (v "auto_downtime")) 0 0 0 0 "" false (v "tap") (v "tap_netns") "" "" "".

(** ** [handleMigrate] *)

(** The part of the orchestrator.Discoverer interface the handler uses. *)
Record Discoverer := MkDiscoverer {
  LookupPodNode : string → string → string + error;
  LookupNodeInternalIP : string → string + error }.

(** The fields of App that do not change. *)
Record AppEnv := MkAppEnv {
  allowedImage : string;
  orch : bool;                         (* an orchestrator is wired *)
  discoverer : option Discoverer }.

(** Pod mode: either pod field is given. *)
Definition pod_mode (f : values) : bool :=
  negb (is_empty (PostFormValue f "source_pod_name")) || negb (is_empty (PostFormValue f "source_pod_namespace")).

Definition required (podMode : bool) : list string :=
  "image" :: (if podMode then ["source_pod_namespace"; "source_pod_name"; "dest_node"]
              else ["source_node"; "dest_node"; "qmp_source"; "qmp_dest"; "dest_ip"; "vm_ip"; "tap"]).

Definition downtime_of (f : values) : handler Z :=
  let dt := PostFormValue f "downtime" in
  if is_empty dt then inr 0
  else
    let bad := jsonError "Invalid downtime value (must be between 1 and 60000 milliseconds)" 400 in
    match Atoi dt with
    | Some d => if (d <? 1) || (60000 <? d) then inl bad else inr d
    | None => inl bad
    end.

(** The source node and destination address of pod mode. *)
Definition resolve_form_pod (env : AppEnv) (f : values) : handler (string * string) :=
  match discoverer env with
  | None => inl (jsonError "Discoverer not configured (no in-cluster config or KUBECONFIG)" 503)
  | Some disc =>
      let v := PostFormValue f in
      match LookupPodNode disc (v "source_pod_namespace") (v "source_pod_name") with
      | inr _ => inl (jsonError "Source pod lookup failed" 400)
      | inl srcNode =>
          match LookupNodeInternalIP disc (v "dest_node") with
          | inr _ => inl (jsonError "Destination node lookup failed" 400)
          | inl destIP =>
              if (srcNode =? v "dest_node")%string then inl (jsonError "Source and dest node must differ" 400)
              else inr (srcNode, destIP)
          end
      end
  end.

Section handler.
Context `{MediaTypes} `{ErrorText}.

(** The checks of the form's fields; the downtime limit. *)
Definition form_checks (env : AppEnv) (f : values) : handler Z :=
  let v := PostFormValue f in
  _ ←! rejectUnknownPostFormFields f migrateFormKeys ;
  _ ←! reject_first (λ k, negb (is_empty (v k)) && negb (validFormValue (v k)))
         (λ k, jsonError ("Invalid value for " +:+ k) 400) migrateFormKeys ;
  _ ←! reject_first (λ k, negb (is_empty (v k)) && negb (v k =? "true")%string && negb (v k =? "false")%string)
         (λ k, jsonError ("Invalid value for " +:+ k +:+ " (must be 'true' or 'false')") 400) migrateBoolFormKeys ;
  _ ←! reject_if (negb (is_empty (allowedImage env)) && negb (v "image" =? allowedImage env)%string)
         (jsonError "Image is not allowed" 400) ;
  _ ←! reject_first (λ k, is_empty (v k)) (λ k, jsonError ("Missing required field: " +:+ k) 400)
         (required (pod_mode f)) ;
  _ ←! reject_if (is_empty (v "dest_pod_namespace") && negb (is_empty (v "dest_pod_name")))
         (jsonError "dest_pod_namespace is required when dest_pod_name is set" 400) ;
  _ ←! reject_if (negb (is_empty (v "dest_pod_namespace")) && is_empty (v "dest_pod_name"))
         (jsonError "dest_pod_name is required when dest_pod_namespace is set" 400) ;
  downtime_of f.

(** Everything before the migration lock. *)
Definition migrate_request (env : AppEnv) (p : Post) : handler Request :=
  fq ←! parseFormPOST p ;
  let f := fst fq in
  downtimeMS ←! form_checks env f ;
  let podMode := pod_mode f in
  sd ←! (if podMode then resolve_form_pod env f else inr ("", "")) ;
  let req := formToOrchestratorRequest f podMode (fst sd) (snd sd) downtimeMS in
  match Validate req with
  | Some err => inl (jsonError ("Invalid migration request: " +:+ error_text err) 400)
  | None =>
      if orch env then inr req
      else inl (jsonError "Orchestrator not configured (no in-cluster config or KUBECONFIG)" 503)
  end.

(** [generateID] from the eight random bytes. *)
Definition generateID (b : list Z) : string := hex_encode b.

(** The reply, the new state, and the run handed to the worker goroutine. *)
Definition handleMigrate (env : AppEnv) (p : Post) (now : Z) (rand : list Z) (ctx : nat) (m : Mig)
    : Resp * Mig * option (Request * string) :=
  match migrate_request env p with
  | inl r => (r, m, None)
  | inr req =>
      let id := generateID rand in
      match begin_migration now id ctx m with
      | inl running => (MkResp 409 [("error", "Migration already running"); ("migration_id", running)], m, None)
      | inr m' => (MkResp 202 [("message", "Migration started"); ("migration_id", id)], m', Some (req, id))
      end
  end.
End handler.

(** ** Formatting of log lines *)

(** Division rounded to nearest, ties to even. *)
Definition round_even (a b : Z) : Z :=
  let q := a / b in
  let r := a mod b in
  if 2 * r <? b then q
  else if b <? 2 * r then q + 1
  else if Z.even q then q else q + 1.

(** float64(n) of a non-negative int64: 53 significant bits. *)
Definition float64_of (n : Z) : Z :=
  if n <? 2 ^ 53 then n else let ulp := 2 ^ (Z.log2 n - 52) in round_even n ulp * ulp.

(** Leading zeros up to a width. *)
Definition zero_padded (width : nat) (n : Z) : string :=
  let s := Itoa n in
  String.concat "" (replicate (width - String.length s) "0") +:+ s.

(** The %.<prec>f of float64(n)/unit, [unit] a power of two: the quotient is exact,
    and its decimal expansion is rounded to nearest, ties to even. *)
Definition fixed (prec : nat) (n unit : Z) : string :=
  let p := 10 ^ Z.of_nat prec in
  let k := round_even (float64_of n * p) unit in
  Itoa (k / p) +:+ "." +:+ zero_padded prec (k mod p).

Definition humanBytes (n : Z) : string :=
  if 2 ^ 30 <=? n then fixed 2 n (2 ^ 30) +:+ " GB"
  else if 2 ^ 20 <=? n then fixed 1 n (2 ^ 20) +:+ " MB"
  else if 2 ^ 10 <=? n then fixed 1 n (2 ^ 10) +:+ " KB"
  else Itoa n +:+ " B".

(** Time.Sub saturates. *)
Definition time_sub (t u : Z) : Z := Z.max min_int64 (Z.min max_int64 (t - u)).

(** Duration.Round to a second: halves away from zero, saturating. *)
Definition round_second (d : Z) : Z :=
  if d <? 0 then
    let r := Z.rem (- d) second in
    if 2 * r <? second then d + r else Z.max min_int64 (d - second + r)
  else
    let r := Z.rem d second in
    if 2 * r <? second then d - r else Z.min max_int64 (d + second - r).

Fixpoint drop_zeros (s : string) : string :=
  match s with
  | EmptyString => ""
  | String c s => match drop_zeros s with
                  | EmptyString => if Ascii.eqb c "0" then "" else String c ""
                  | s => String c s
                  end
  end.

(** Duration.String of zero or of at least a second. *)
Definition duration_string (d : Z) : string :=
  if d =? 0 then "0s"
  else
    let u := Z.abs d in
    let frac := drop_zeros (zero_padded 9 (u mod second)) in
    let secs := u / second in
    let s := Itoa (secs mod 60) +:+ (if is_empty frac then "" else "." +:+ frac) +:+ "s" in
    let s := if secs <? 60 then s else Itoa (secs / 60 mod 60) +:+ "m" +:+ s in
    let s := if secs <? 3600 then s else Itoa (secs / 3600) +:+ "h" +:+ s in
    if d <? 0 then "-" +:+ s else s.

Definition phaseBreakdown (start : Z) (phaseAt : gmap string Z) (fin : Z) : string :=
  let wall := round_second (time_sub fin start) in
  if wall <=? 0 then ""
  else
    match phaseAt !! PhaseTransferring with
    | None => duration_string wall +:+ " wall"
    | Some xferStart =>
        let setup := round_second (time_sub xferStart start) in
        let xfer := round_second (time_sub fin xferStart) in
        duration_string wall +:+ " wall (" +:+ duration_string setup +:+ " setup + " +:+ duration_string xfer +:+ " xfer)"
    end.

Example formats :
  humanBytes 1610612736 = "1.50 GB" ∧ humanBytes 1048576 = "1.0 MB" ∧ humanBytes 1023 = "1023 B" ∧
  duration_string (95 * second) = "1m35s" ∧ duration_string (2 * hour + 5 * second) = "2h0m5s" ∧
  phaseBreakdown 0 {[PhaseTransferring := 4 * second]} (35 * second + 400000000) = "35s wall (4s setup + 31s xfer)".
Proof. vm_compute. done. Qed.

(** ** The worker, [runOrchestrator] *)

(** An update with its time of observation. *)
Abbreviation timed := (StatusUpdate * Z)%type (only parsing).

(** What the orchestrator does with a run: a call panics, fails, or the watch
    channel delivers updates until it is closed, or until the handling of an
    update panics (its error has a method Error that does).  A call that never
    returns is a worker that makes no further step. *)
Inductive orch_run :=
  | ApplyPanics (what : string)
  | ApplyFails (e : error)
  | WatchPanics (id what : string)
  | WatchFails (id : string) (e : error)
  | Updates (id : string) (us : list timed)
  | UpdatePanics (id : string) (us : list timed) (u : StatusUpdate) (what : string).

(** The atomic steps of the worker on the App. *)
Inductive wop :=
  | WLog (msg : string)
  | WProgress (p : MigrationProgress)
  | WResult (result errMsg : string)
  | WEnd.

Section worker.
Context `{ErrorText}.

Definition line_suffix (start : Z) (phaseAt : gmap string Z) (u : StatusUpdate) (when : Z) : string :=
  if (0 <? su_AppliedDowntimeMS u) && (su_RAMTotal u =? 0) then
    ": downtime limit " +:+ Itoa (su_AppliedDowntimeMS u) +:+ "ms" +:+
    (if su_AutoDowntime u then " (auto from " +:+ Itoa (su_RTTMS u) +:+ "ms RTT)" else " (manual)")
  else if (su_Phase u =? PhaseSucceeded)%string && (0 <? su_RAMTotal u) then
    ": " +:+ humanBytes (su_RAMTotal u) +:+ " transferred" +:+
    (if 0 <? su_DowntimeMS u then ", " +:+ Itoa (su_DowntimeMS u) +:+ "ms downtime" else "") +:+
    (if 0 <? su_AppliedDowntimeMS u then
       if su_AutoDowntime u then " (limit " +:+ Itoa (su_AppliedDowntimeMS u) +:+ "ms, auto)"
       else " (limit " +:+ Itoa (su_AppliedDowntimeMS u) +:+ "ms)"
     else "") +:+
    (let breakdown := phaseBreakdown start phaseAt when in
     if is_empty breakdown then "" else ", " +:+ breakdown)
  else if 0 <? su_RAMTotal u then
    let pct := Z.quot (wrap64 (su_RAMTransferred u * 100)) (su_RAMTotal u) in
    ": " +:+ Itoa pct +:+ "% (" +:+ humanBytes (su_RAMTransferred u) +:+ " / " +:+ humanBytes (su_RAMTotal u) +:+ ")"
  else if negb (is_empty (su_Message u)) then ": " +:+ su_Message u
  else "".

Definition update_line (start : Z) (phaseAt : gmap string Z) (u : StatusUpdate) (when : Z) : string :=
  ">>> " +:+ su_Phase u +:+ line_suffix start phaseAt u when +:+
  (match su_Error u with Some e => ": " +:+ error_text e | None => "" end).

Definition update_progress (u : StatusUpdate) : list wop :=
  if (0 <? su_RAMTotal u) || (su_Phase u =? PhaseSucceeded)%string
  then [WProgress (MkProgress (su_Phase u) (su_RAMTransferred u) (su_RAMTotal u) (su_DowntimeMS u))] else [].

(** The loop over the channel: the steps, and the last terminal phase with its
    error. *)
Fixpoint follow (start : Z) (phaseAt : gmap string Z) (terminal : option (string * option error)) (us : list timed)
    : list wop * option (string * option error) :=
  match us with
  | [] => ([], terminal)
  | (u, when) :: us =>
      let phaseAt := match phaseAt !! su_Phase u with Some _ => phaseAt | None => <[su_Phase u := when]> phaseAt end in
      let terminal := if IsTerminal (su_Phase u) then Some (su_Phase u, su_Error u) else terminal in
      let '(ops, t) := follow start phaseAt terminal us in
      (update_progress u ++ [WLog (update_line start phaseAt u when)] ++ ops, t)
  end.

Definition final_result (terminal : option (string * option error)) : wop :=
  match terminal with
  | Some (ph, e) =>
      if (ph =? PhaseSucceeded)%string then WResult "success" ""
      else WResult "error" (match e with Some e => error_text e | None => "migration failed" end)
  | None => WResult "error" "watch closed without terminal status"
  end.

Definition submitting : wop := WLog ">>> Submitting migration via Native orchestrator…".
Definition panicked (what : string) : list wop :=
  [WLog "Error: internal migration worker panic"; WResult "error" ("migration worker panic: " +:+ what)].
Definition failed_with (e : error) : list wop := [WLog ("Error: " +:+ error_text e); WResult "error" (error_text e)].

(** The steps of a run, the deferred functions included. *)
Definition runOrchestrator (start : Z) (b : orch_run) : list wop :=
  submitting ::
  match b with
  | ApplyPanics what => panicked what
  | ApplyFails e => failed_with e
  | WatchPanics id what => WLog (">>> Migration submitted, id=" +:+ id) :: panicked what
  | WatchFails id e => WLog (">>> Migration submitted, id=" +:+ id) :: failed_with e
  | Updates id us =>
      let '(ops, terminal) := follow start ∅ None us in
      WLog (">>> Migration submitted, id=" +:+ id) :: ops ++ [final_result terminal]
  | UpdatePanics id us u what =>
      WLog (">>> Migration submitted, id=" +:+ id) :: (follow start ∅ None us).1 ++ update_progress u ++ panicked what
  end ++ [WEnd].
End worker.

(** A step of the worker. *)
Definition wop_step (now : Z) (o : wop) (m : Mig) : Mig :=
  match o with
  | WLog msg => appendLog msg m
  | WProgress p => set_progress p m
  | WResult r e => setMigrationResult now r e m
  | WEnd => (end_migration m).2
  end.

(** ** What [handleMigrate] accepts *)

Lemma hbind_inr {A B : Type} (m : handler A) (k : A → handler B) (b : B) :
  hbind m k = inr b ↔ ∃ a, m = inr a ∧ k a = inr b.
Proof. destruct m as [r|a]; simpl; naive_solver. Qed.

Lemma is_empty_true (s : string) : is_empty s = true ↔ s = "".
Proof. apply String.eqb_eq. Qed.

Lemma is_empty_false (s : string) : is_empty s = false ↔ s ≠ "".
Proof. apply String.eqb_neq. Qed.

(** A check passes exactly with the values of [P], and otherwise replies 400. *)
Definition checks {A : Type} (m : handler A) (P : A → Prop) : Prop :=
  match m with
  | inr a => P a ∧ ∀ a', P a' → a' = a
  | inl r => rs_code r = 400 ∧ ∀ a, ¬ P a
  end.

Lemma checks_bind {B : Type} (m : handler unit) (k : handler B) (P : Prop) (Q : B → Prop) :
  checks m (λ _, P) → checks k Q → checks (hbind m (λ _, k)) (λ b, P ∧ Q b).
Proof.
  unfold checks. destruct m as [r|[]]; simpl; [naive_solver|]. intros [Hp _]. destruct k as [r|b]; naive_solver.
Qed.

Lemma checks_if (b : bool) (r : Resp) (P : Prop) : (b = false ↔ P) → rs_code r = 400 → checks (reject_if b r) (λ _, P).
Proof. intros Hb Hr. destruct b; simpl; [naive_solver|]. split; [naive_solver|]. by intros []. Qed.

Lemma checks_first (bad : string → bool) (reply : string → Resp) (keys : list string) (P : string → Prop) :
  (∀ k, bad k = false ↔ P k) → (∀ k, rs_code (reply k) = 400) →
  checks (reject_first bad reply keys) (λ _, Forall P keys).
Proof.
  intros Hb Hr. induction keys as [|k keys IH]; simpl; [split; [constructor|by intros []]|].
  destruct (bad k) eqn:Hk; simpl.
  - split; [done|]. intros _ Hp. apply Forall_cons in Hp as [Hp _]. apply Hb in Hp. congruence.
  - apply Hb in Hk. unfold checks in *. destruct (reject_first bad reply keys) as [r|[]].
    + split; [by destruct IH|]. intros a Hp. apply Forall_cons in Hp as [_ Hp]. by apply (proj2 IH tt).
    + split; [constructor; [done|by destruct IH]|by intros []].
Qed.

Lemma checks_unknown (f : values) (allowed : list string) :
  checks (rejectUnknownPostFormFields f allowed) (λ _, Forall (λ kv, one_of kv.1 allowed = true) f).
Proof.
  induction f as [|[k vs] f IH]; simpl; [split; [constructor|by intros []]|].
  destruct (one_of k allowed) eqn:Hk; simpl.
  - unfold checks in *. destruct (rejectUnknownPostFormFields f allowed) as [r|[]].
    + split; [by destruct IH|]. intros a Hp. apply Forall_cons in Hp as [_ Hp]. by apply (proj2 IH tt).
    + split; [constructor; [done|by destruct IH]|by intros []].
  - split; [done|]. intros _ Hp. apply Forall_cons in Hp as [Hp _]. simpl in Hp. congruence.
Qed.

(** The downtime limit that a form asks for: none, or milliseconds in range. *)
Definition downtime_ok (f : values) (d : Z) : Prop :=
  let dt := PostFormValue f "downtime" in
  dt = "" ∧ d = 0 ∨ dt ≠ "" ∧ Atoi dt = Some d ∧ 1 ≤ d ≤ 60000.

Lemma checks_downtime (f : values) : checks (downtime_of f) (downtime_ok f).
Proof.
  unfold downtime_of, downtime_ok. destruct (is_empty (PostFormValue f "downtime")) eqn:He.
  - apply is_empty_true in He. simpl. split; [by left|]. intros a' [[_ ->]|[Hn _]]; done.
  - apply is_empty_false in He. destruct (Atoi (PostFormValue f "downtime")) as [z|]; [|split; naive_solver].
    destruct (Z.ltb_spec z 1), (Z.ltb_spec 60000 z); simpl; (split; [first [done|right; split_and!; [done|done|lia..]]|]);
      intros a [[? _]|(_ & [= <-] & ?)]; first [done|lia|done].
Qed.

(** What a form must look like, with its downtime limit. *)
Record form_ok (env : AppEnv) (f : values) (d : Z) : Prop := {
  fo_known : Forall (λ kv, one_of kv.1 migrateFormKeys = true) f;
  fo_safe : Forall (λ k, PostFormValue f k = "" ∨ validFormValue (PostFormValue f k) = true) migrateFormKeys;
  fo_bools : Forall (λ k, PostFormValue f k = "" ∨ PostFormValue f k = "true" ∨ PostFormValue f k = "false")
               migrateBoolFormKeys;
  fo_image : allowedImage env = "" ∨ PostFormValue f "image" = allowedImage env;
  fo_required : Forall (λ k, PostFormValue f k ≠ "") (required (pod_mode f));
  fo_destpod : PostFormValue f "dest_pod_namespace" = "" ↔ PostFormValue f "dest_pod_name" = "";
  fo_downtime : downtime_ok f d }.

Lemma checks_form (env : AppEnv) (f : values) : checks (form_checks env f) (form_ok env f).
Proof.
  set (v := PostFormValue f).
  assert (Hc : checks (form_checks env f) (λ d,
    Forall (λ kv, one_of kv.1 migrateFormKeys = true) f ∧
    Forall (λ k, v k = "" ∨ validFormValue (v k) = true) migrateFormKeys ∧
    Forall (λ k, v k = "" ∨ v k = "true" ∨ v k = "false") migrateBoolFormKeys ∧
    (allowedImage env = "" ∨ v "image" = allowedImage env) ∧
    Forall (λ k, v k ≠ "") (required (pod_mode f)) ∧
    (v "dest_pod_namespace" ≠ "" ∨ v "dest_pod_name" = "") ∧
    (v "dest_pod_namespace" = "" ∨ v "dest_pod_name" ≠ "") ∧ downtime_ok f d)).
  { unfold form_checks. fold v. apply checks_bind; [apply checks_unknown|].
    apply checks_bind; [apply checks_first; [|done]|].
    { intros k. rewrite andb_false_iff, !negb_false_iff, is_empty_true. done. }
    apply checks_bind; [apply checks_first; [|done]|].
    { intros k. rewrite !andb_false_iff, !negb_false_iff, is_empty_true, !String.eqb_eq. naive_solver. }
    apply checks_bind; [apply checks_if; [|done]|].
    { rewrite andb_false_iff, !negb_false_iff, is_empty_true, String.eqb_eq. done. }
    apply checks_bind; [apply checks_first; [intros k; apply is_empty_false|done]|].
    apply checks_bind; [apply checks_if; [|done]|].
    { rewrite andb_false_iff, negb_false_iff, is_empty_true, is_empty_false. done. }
    apply checks_bind; [apply checks_if; [|done]|apply checks_downtime].
    rewrite andb_false_iff, negb_false_iff, is_empty_true, is_empty_false. done. }
  assert (Hiff : (v "dest_pod_namespace" ≠ "" ∨ v "dest_pod_name" = "") ∧ (v "dest_pod_namespace" = "" ∨ v "dest_pod_name" ≠ "")
    ↔ (v "dest_pod_namespace" = "" ↔ v "dest_pod_name" = "")).
  { destruct (decide (v "dest_pod_namespace" = "")), (decide (v "dest_pod_name" = "")); naive_solver. }
  unfold checks in *. destruct (form_checks env f) as [r|d].
  - split; [by destruct Hc|]. intros d [H1 H2 H3 H4 H5 H6 H7]. apply Hiff in H6 as [H6 H6'].
    by apply (proj2 Hc d).
  - destruct Hc as [(H1 & H2 & H3 & H4 & H5 & H6 & H6' & H7) Hu]. split; [by split; auto; apply Hiff|].
    intros d' [? ? ? ? ? Hp ?]. apply Hiff in Hp as [? ?]. by apply Hu.
Qed.

Section accepted.
Context `{MediaTypes} `{ErrorText}.

(** A body that is not a form. *)
Definition wrong_type (p : Post) : Prop :=
  po_ContentLength p ≠ 0 ∧ (po_ContentType p = "" ∨ ParseMediaType (po_ContentType p) ≠ Some form_type).

Lemma parseFormPOST_cases (p : Post) :
  match parseFormPOST p with
  | inr fq => ¬ wrong_type p ∧ po_parsed p = inl fq
  | inl r =>
      wrong_type p ∧ rs_code r = 415 ∨
      ¬ wrong_type p ∧ (po_parsed p = inr true ∧ rs_code r = 413 ∨ po_parsed p = inr false ∧ rs_code r = 400)
  end.
Proof.
  unfold parseFormPOST, wrong_type. set (post := match po_parsed p with inl _ => _ | inr _ => _ end).
  assert (Hpost : ¬ wrong_type p → match post with
    | inr fq => ¬ wrong_type p ∧ po_parsed p = inl fq
    | inl r => wrong_type p ∧ rs_code r = 415 ∨
        ¬ wrong_type p ∧ (po_parsed p = inr true ∧ rs_code r = 413 ∨ po_parsed p = inr false ∧ rs_code r = 400)
    end) by (intros Hw; unfold post; destruct (po_parsed p) as [f|[]]; simpl; auto).
  fold (wrong_type p). destruct (Z.eqb_spec (po_ContentLength p) 0) as [Hz|Hz]; simpl.
  { apply Hpost. by intros [? _]. }
  destruct (is_empty (po_ContentType p)) eqn:He; simpl.
  { left. split; [|done]. split; [done|]. left. by apply is_empty_true. }
  apply is_empty_false in He.
  destruct (ParseMediaType (po_ContentType p)) as [mt|] eqn:Hm; simpl.
  - unfold reject_if. destruct (String.eqb_spec mt form_type) as [->|Hne]; simpl.
    + apply Hpost. intros (_ & [?|Hn]); [done|]. by rewrite Hm in Hn.
    + left. split; [|done]. split; [done|]. right. rewrite Hm. congruence.
  - left. split; [|done]. split; [done|]. right. by rewrite Hm.
Qed.

(** Pod mode resolved the source pod to a node and the destination to an address. *)
Definition resolved (disc : Discoverer) (f : values) (srcNode destIP : string) : Prop :=
  LookupPodNode disc (PostFormValue f "source_pod_namespace") (PostFormValue f "source_pod_name") = inl srcNode ∧
  LookupNodeInternalIP disc (PostFormValue f "dest_node") = inl destIP ∧ srcNode ≠ PostFormValue f "dest_node".

(** The node and the address of the request, empty without pod mode. *)
Definition placed (env : AppEnv) (f : values) (srcNode destIP : string) : Prop :=
  if pod_mode f then ∃ disc, discoverer env = Some disc ∧ resolved disc f srcNode destIP
  else srcNode = "" ∧ destIP = "".

(** What an accepted form guarantees. *)
Record accepted (env : AppEnv) (p : Post) (req : Request) (f : values) (srcNode destIP : string) (d : Z) : Prop := {
  ac_type : ¬ wrong_type p;
  ac_parsed : ∃ q, po_parsed p = inl (f, q);
  ac_form : form_ok env f d;
  ac_placed : placed env f srcNode destIP;
  ac_req : req = formToOrchestratorRequest f (pod_mode f) srcNode destIP d;
  ac_valid : Validate req = None;
  ac_orch : orch env = true }.

(** The causes of a refusal, each with its status code. *)
Inductive refused (env : AppEnv) (p : Post) : Z → Prop :=
  | rf_type : wrong_type p → refused env p 415
  | rf_large : ¬ wrong_type p → po_parsed p = inr true → refused env p 413
  | rf_body : ¬ wrong_type p → po_parsed p = inr false → refused env p 400
  | rf_form f q : ¬ wrong_type p → po_parsed p = inl (f, q) → (∀ d, ¬ form_ok env f d) → refused env p 400
  | rf_discoverer f q d :
      ¬ wrong_type p → po_parsed p = inl (f, q) → form_ok env f d →
      pod_mode f = true → discoverer env = None → refused env p 503
  | rf_lookup f q d disc :
      ¬ wrong_type p → po_parsed p = inl (f, q) → form_ok env f d →
      pod_mode f = true → discoverer env = Some disc → (∀ s t, ¬ resolved disc f s t) → refused env p 400
  | rf_invalid f q d s t :
      ¬ wrong_type p → po_parsed p = inl (f, q) → form_ok env f d → placed env f s t →
      Validate (formToOrchestratorRequest f (pod_mode f) s t d) ≠ None → refused env p 400
  | rf_orch f q d s t :
      ¬ wrong_type p → po_parsed p = inl (f, q) → form_ok env f d → placed env f s t →
      Validate (formToOrchestratorRequest f (pod_mode f) s t d) = None → orch env = false → refused env p 503.

Lemma resolve_form_pod_cases (env : AppEnv) (f : values) :
  match resolve_form_pod env f with
  | inr (s, t) => ∃ disc, discoverer env = Some disc ∧ resolved disc f s t
  | inl r => discoverer env = None ∧ rs_code r = 503 ∨
             ∃ disc, discoverer env = Some disc ∧ rs_code r = 400 ∧ ∀ s t, ¬ resolved disc f s t
  end.
Proof.
  unfold resolve_form_pod, resolved. destruct (discoverer env) as [disc|]; [|by left]. cbv zeta.
  destruct (LookupPodNode _ _ _) as [s|e] eqn:H1;
    [|right; exists disc; split_and!; [done|done|]; intros s t (Hs & _); congruence].
  destruct (LookupNodeInternalIP _ _) as [t|e] eqn:H2;
    [|right; exists disc; split_and!; [done|done|]; intros s' t (_ & Ht & _); congruence].
  destruct (String.eqb_spec s (PostFormValue f "dest_node")) as [Hs|Hs]; [|eauto].
  right. exists disc. split_and!; [done|done|]. intros s' t' (Hs' & _ & Hne). congruence.
Qed.

Lemma migrate_request_cases (env : AppEnv) (p : Post) :
  match migrate_request env p with
  | inr req => ∃ f s t d, accepted env p req f s t d
  | inl r => refused env p (rs_code r)
  end.
Proof.
  unfold migrate_request. pose proof (parseFormPOST_cases p) as Hp.
  destruct (parseFormPOST p) as [r|[f q]]; simpl.
  { destruct Hp as [[Hw ->]|[Hw [[Hp ->]|[Hp ->]]]]; by constructor. }
  destruct Hp as [Hw Hp]. pose proof (checks_form env f) as Hf. unfold checks in Hf.
  destruct (form_checks env f) as [r|d]; simpl.
  { destruct Hf as [-> Hf]. by eapply rf_form. }
  destruct Hf as [Hf _].
  assert (Hend : ∀ s t, placed env f s t →
    match (match Validate (formToOrchestratorRequest f (pod_mode f) s t d) with
           | Some err => inl (jsonError ("Invalid migration request: " +:+ error_text err) 400)
           | None => if orch env then inr (formToOrchestratorRequest f (pod_mode f) s t d)
                     else inl (jsonError "Orchestrator not configured (no in-cluster config or KUBECONFIG)" 503)
           end) with
    | inr req => ∃ f s t d, accepted env p req f s t d
    | inl r => refused env p (rs_code r)
    end).
  { intros s t Hpl. destruct (Validate _) as [err|] eqn:Hv.
    - eapply rf_invalid; eauto. by rewrite Hv.
    - destruct (orch env) eqn:Ho; [|by eapply rf_orch]. exists f, s, t, d. split; eauto. }
  unfold placed in Hend. destruct (pod_mode f) eqn:Hpm; [|by apply Hend].
  pose proof (resolve_form_pod_cases env f) as Hr. destruct (resolve_form_pod env f) as [r|[s t]]; simpl.
  - destruct Hr as [[Hd ->]|(disc & Hd & -> & Hn)]; [by eapply rf_discoverer|by eapply rf_lookup].
  - by apply Hend.
Qed.

(** Each cause, and an accepted form, decides the branch. *)
Lemma parseFormPOST_inr (p : Post) (fq : values * values) :
  ¬ wrong_type p → po_parsed p = inl fq → parseFormPOST p = inr fq.
Proof.
  intros Hw Hp. pose proof (parseFormPOST_cases p) as Hc. destruct (parseFormPOST p) as [r|fq'].
  - destruct Hc as [[? _]|[_ [[? _]|[? _]]]]; [done|congruence..].
  - destruct Hc as [_ Hc]. congruence.
Qed.

Lemma form_checks_inr (env : AppEnv) (f : values) (d : Z) : form_ok env f d → form_checks env f = inr d.
Proof.
  intros Hd. pose proof (checks_form env f) as Hc. unfold checks in Hc. destruct (form_checks env f) as [r|d0].
  - by destruct (proj2 Hc d Hd).
  - by rewrite (proj2 Hc d Hd).
Qed.

Lemma placed_inr (env : AppEnv) (f : values) (s t : string) :
  placed env f s t → (if pod_mode f then resolve_form_pod env f else inr ("", "")) = inr (s, t).
Proof.
  unfold placed. destruct (pod_mode f); [|by intros [-> ->]]. intros (disc & Hd & H1 & H2 & H3).
  unfold resolve_form_pod. rewrite Hd. cbv zeta. rewrite H1, H2. by destruct (String.eqb_spec s (PostFormValue f "dest_node")).
Qed.

Lemma accepted_inr (env : AppEnv) (p : Post) req f s t d :
  accepted env p req f s t d → migrate_request env p = inr req.
Proof.
  intros [Hw [q Hp] Hf Hpl -> Hv Ho]. unfold migrate_request. rewrite (parseFormPOST_inr p (f, q) Hw Hp). cbn [hbind fst].
  rewrite (form_checks_inr env f d Hf). cbn [hbind]. rewrite (placed_inr env f s t Hpl). cbn [hbind fst snd].
  by rewrite Hv, Ho.
Qed.

Lemma refused_inl (env : AppEnv) (p : Post) (c : Z) :
  refused env p c → ∃ r, migrate_request env p = inl r ∧ rs_code r = c.
Proof.
  intros [Hw|Hw Hp|Hw Hp|f q Hw Hp Hf|f q d Hw Hp Hf Hpm Hd|f q d disc Hw Hp Hf Hpm Hd Hr
         |f q d s t Hw Hp Hf Hpl Hv|f q d s t Hw Hp Hf Hpl Hv Ho]; unfold migrate_request.
  1-3: pose proof (parseFormPOST_cases p) as Hc; destruct (parseFormPOST p) as [r|fq]; cbn [hbind];
    [exists r; split; [done|]; destruct Hc as [[? ?]|[? [[? ?]|[? ?]]]]; first [done|congruence]
    |destruct Hc as [? ?]; first [done|congruence]].
  all: rewrite (parseFormPOST_inr p (f, q) Hw Hp); cbn [hbind fst].
  { pose proof (checks_form env f) as Hc. unfold checks in Hc. destruct (form_checks env f) as [r|d]; cbn [hbind].
    - exists r. by destruct Hc.
    - destruct Hc as [Hc _]. by destruct (Hf d Hc). }
  all: rewrite (form_checks_inr env f d Hf); cbn [hbind].
  1-2: rewrite Hpm; pose proof (resolve_form_pod_cases env f) as Hc;
    destruct (resolve_form_pod env f) as [r|[s t]]; cbn [hbind].
  - exists r. split; [done|]. destruct Hc as [[_ ?]|(disc & ? & _)]; [done|congruence].
  - destruct Hc as (disc & ? & _). congruence.
  - exists r. split; [done|]. destruct Hc as [[? _]|(disc' & _ & ? & _)]; [congruence|done].
  - destruct Hc as (disc' & Hd' & Hs). rewrite Hd in Hd'. injection Hd' as <-. by destruct (Hr s t Hs).
  - rewrite (placed_inr env f s t Hpl). cbn [hbind fst snd]. destruct (Validate _) as [err|]; [|done]. by eexists.
  - rewrite (placed_inr env f s t Hpl). cbn [hbind fst snd]. rewrite Hv, Ho. by eexists.
Qed.

(** C13. POST /api/migrate, on every branch.  Every request is either refused for
    one of the listed causes or accepted, never both.  A refused request leaves the
    dashboard's state exactly as it was (no counter, log or last result moves), starts
    no run and gets the code of its cause: 415 for a body that is not a form, 413 for
    one that is too large, 503 without the discoverer that pod mode needs or without an
    orchestrator, and 400 otherwise (an unparsable body, an unknown, unsafe, missing or
    ill-formed field, another image than the allowed one, a failed lookup or a source
    pod already on the destination node, a request that Validate rejects).  An accepted
    request gets 409 with the running id while a migration runs, and leaves the state
    alone; otherwise it gets 202 with the new id, hands exactly its request to the
    worker, and the state is that of a started run: an empty log whose cursor has moved
    on, and one more started migration. *)
Theorem handleMigrate_spec (env : AppEnv) (p : Post) (now : Z) (rand : list Z) (ctx : nat) (m : Mig) :
  let '(r, m', run) := handleMigrate env p now rand ctx m in
  let id := generateID rand in
  ((∃ c, refused env p c) ∨ ∃ req f s t d, accepted env p req f s t d) ∧
  (∀ c, refused env p c → rs_code r = c ∧ m' = m ∧ run = None) ∧
  (∀ req f s t d, accepted env p req f s t d →
     if isMigrating (m_flight m) then
       r = MkResp 409 [("error", "Migration already running"); ("migration_id", migrationID (m_flight m))] ∧
       m' = m ∧ run = None
     else
       r = MkResp 202 [("message", "Migration started"); ("migration_id", id)] ∧ run = Some (req, id) ∧
       m_flight m' = MkFlight true id (Some now) (Some ctx) ∧
       lg_ring (m_log m') = Ring (rg_seq (lg_ring (m_log m)) + 1) [] ∧
       counterSnapshot m' =
         (migrationsStarted (m_out m) + 1, migrationsSucceeded (m_out m), migrationsFailed (m_out m)) ∧
       migrationHistory (m_out m') = migrationHistory (m_out m) ∧ latestProgress (m_out m') = None).
Proof.
  unfold handleMigrate. pose proof (migrate_request_cases env p) as Hc.
  destruct (migrate_request env p) as [r|req] eqn:Hq.
  - split_and!; [eauto| |].
    + intros c Hr. apply refused_inl in Hr as (r' & Hr' & <-). rewrite Hq in Hr'. by injection Hr' as <-.
    + intros req f s t d Ha. apply accepted_inr in Ha. congruence.
  - assert (Hno : ∀ c, ¬ refused env p c).
    { intros c Hr. apply refused_inl in Hr as (r' & Hr' & _). congruence. }
    assert (Hun : ∀ req' f s t d, accepted env p req' f s t d → req' = req).
    { intros req' f s t d Ha. apply accepted_inr in Ha. congruence. }
    destruct Hc as (f & s & t & d & Ha). unfold begin_migration. destruct (isMigrating (m_flight m)) eqn:Hm.
    + split_and!; [right; eauto 10| |done]. intros c Hr. by destruct (Hno c).
    + split_and!; [right; eauto 10| |]; [intros c Hr; by destruct (Hno c)|].
      intros req' f' s' t' d' Ha'. by rewrite (Hun _ _ _ _ _ Ha').
Qed.
End accepted.

(** ** The dashboard under concurrent requests

    Any number of requests arrive while workers run; each worker takes the mutex
    once per step. *)

Record dash := MkDash { d_mig : Mig; d_workers : list (list wop) }.

Definition dash0 : dash := MkDash mig0 [].

Definition is_result (o : wop) : bool := match o with WResult _ _ => true | _ => false end.
Definition is_end (o : wop) : bool := match o with WEnd => true | _ => false end.

(** The results and the ends still to come. *)
Definition results_due (d : dash) : nat := length (d_workers d ≫= filter is_result).
Definition ends_due (d : dash) : nat := length (d_workers d ≫= filter is_end).

Section system.
Context `{MediaTypes} `{ErrorText}.

Inductive dash_step (d : dash) : dash → Prop :=
  | step_migrate env p now rand ctx start b r m' run :
      (* a request, and what the orchestrator will do with it if it is accepted *)
      handleMigrate env p now rand ctx (d_mig d) = (r, m', run) →
      dash_step d (MkDash m' (d_workers d ++ match run with Some _ => [runOrchestrator start b] | None => [] end))
  | step_worker now k o ops :
      d_workers d !! k = Some (o :: ops) →
      dash_step d (MkDash (wop_step now o (d_mig d)) (<[k := ops]> (d_workers d))).

Inductive dash_reachable : dash → Prop :=
  | dreach_init : dash_reachable dash0
  | dreach_step d d' : dash_reachable d → dash_step d d' → dash_reachable d'.

(** *** The shape of a worker's steps *)

(** Log and progress steps, one result, the end. *)
Definition prologue (o : wop) : bool := negb (is_result o) && negb (is_end o).

Inductive worker_ok : list wop → Prop :=
  | ok_done : worker_ok []
  | ok_end : worker_ok [WEnd]
  | ok_result r e : r = "success" ∨ r = "error" → worker_ok [WResult r e; WEnd]
  | ok_step o ops : prologue o = true → worker_ok ops → (∃ r e l, ops = l ++ [WResult r e; WEnd]) → worker_ok (o :: ops).

Lemma prologue_worker_ok (pre : list wop) (r e : string) :
  Forall (λ o, prologue o = true) pre → r = "success" ∨ r = "error" → worker_ok (pre ++ [WResult r e; WEnd]).
Proof.
  intros Hp Hr. induction Hp as [|o pre Ho Hp IH]; simpl; [by constructor|].
  constructor; [done|done|]. by exists r, e, pre.
Qed.

Lemma follow_prologue (start : Z) (pa : gmap string Z) (t : option (string * option error)) (us : list timed) :
  Forall (λ o, prologue o = true) (follow start pa t us).1.
Proof.
  revert pa t. induction us as [|[u w] us IH]; intros pa t; simpl; [done|].
  set (pa' := match pa !! su_Phase u with Some _ => pa | None => <[su_Phase u := w]> pa end).
  set (t' := if IsTerminal (su_Phase u) then _ else t). specialize (IH pa' t').
  destruct (follow start pa' t' us) as [ops t'']. simpl in *. apply Forall_app. split; [|by constructor].
  unfold update_progress. case_goal; by repeat constructor.
Qed.

(** The result of a terminal update. *)
Definition verdict (u : StatusUpdate) : string * string :=
  if (su_Phase u =? PhaseSucceeded)%string then ("success", "")
  else ("error", match su_Error u with Some e => error_text e | None => "migration failed" end).

(** The result a run reports. *)
Definition outcome (b : orch_run) : string * string :=
  match b with
  | ApplyPanics w | WatchPanics _ w | UpdatePanics _ _ _ w => ("error", "migration worker panic: " +:+ w)
  | ApplyFails e | WatchFails _ e => ("error", error_text e)
  | Updates _ us =>
      match last (filter (λ u, IsTerminal (su_Phase u.1) = true) us) with
      | None => ("error", "watch closed without terminal status")
      | Some (u, _) => verdict u
      end
  end.

Lemma follow_terminal (start : Z) (pa : gmap string Z) (t : option (string * option error)) (us : list timed) :
  (follow start pa t us).2 =
  match last (filter (λ u, IsTerminal (su_Phase u.1) = true) us) with
  | Some (u, _) => Some (su_Phase u, su_Error u)
  | None => t
  end.
Proof.
  revert pa t. induction us as [|[u w] us IH]; intros pa t; [done|]. cbn [follow].
  set (pa' := match pa !! su_Phase u with Some _ => pa | None => <[su_Phase u := w]> pa end).
  rewrite (surjective_pairing (follow start pa' _ us)). cbn [snd]. rewrite IH, filter_cons. cbn [fst].
  destruct (IsTerminal (su_Phase u)).
  - rewrite decide_True by done. destruct (filter _ us) as [|x l] eqn:Hf; [done|].
    change (last ((u, w) :: x :: l)) with (last (x :: l)).
    destruct (last (x :: l)) as [[v w']|] eqn:Hl; [done|by apply last_None in Hl].
  - by rewrite decide_False by done.
Qed.

(** A run is a prologue, the result it reports, and the end. *)
Lemma runOrchestrator_shape (start : Z) (b : orch_run) :
  ∃ pre, runOrchestrator start b = pre ++ [WResult (outcome b).1 (outcome b).2; WEnd] ∧
    Forall (λ o, prologue o = true) pre.
Proof.
  unfold runOrchestrator. destruct b as [w|e|id w|id e|id us|id us u w]; simpl.
  - by exists [submitting; WLog "Error: internal migration worker panic"]; repeat constructor.
  - by exists [submitting; WLog ("Error: " +:+ error_text e)]; repeat constructor.
  - by exists [submitting; WLog (">>> Migration submitted, id=" +:+ id); WLog "Error: internal migration worker panic"]; repeat constructor.
  - by exists [submitting; WLog (">>> Migration submitted, id=" +:+ id); WLog ("Error: " +:+ error_text e)]; repeat constructor.
  - pose proof (follow_prologue start ∅ None us) as Hp. pose proof (follow_terminal start ∅ None us) as Ht.
    destruct (follow start ∅ None us) as [ops t]. simpl in *. subst t.
    exists (submitting :: WLog (">>> Migration submitted, id=" +:+ id) :: ops). split; [|by repeat constructor].
    rewrite <- app_assoc. simpl. do 3 f_equal.
    destruct (last _) as [[u w]|]; simpl; [|done]. unfold verdict. by destruct (String.eqb _ _).
  - exists (submitting :: WLog (">>> Migration submitted, id=" +:+ id) :: (follow start ∅ None us).1 ++
              update_progress u ++ [WLog "Error: internal migration worker panic"]).
    split; [by rewrite <- !app_comm_cons, <- !app_assoc|].
    constructor; [done|]. constructor; [done|]. apply Forall_app. split; [apply follow_prologue|].
    apply Forall_app. split; [|by repeat constructor]. unfold update_progress. case_goal; by repeat constructor.
Qed.

Lemma outcome_result (b : orch_run) : (outcome b).1 = "success" ∨ (outcome b).1 = "error".
Proof. unfold outcome, verdict. repeat case_goal; auto. Qed.

Lemma runOrchestrator_ok (start : Z) (b : orch_run) : worker_ok (runOrchestrator start b).
Proof.
  destruct (runOrchestrator_shape start b) as (pre & -> & Hp). apply prologue_worker_ok; [done|apply outcome_result].
Qed.

(** *** The invariant *)

Record dash_inv (d : dash) : Prop := {
  di_workers : Forall worker_ok (d_workers d);
  di_ends : ends_due d = if isMigrating (m_flight (d_mig d)) then 1%nat else 0%nat;
  di_cancel : is_Some (migrationCancel (m_flight (d_mig d))) ↔ isMigrating (m_flight (d_mig d)) = true;
  di_count : migrationsStarted (m_out (d_mig d)) =
    migrationsSucceeded (m_out (d_mig d)) + migrationsFailed (m_out (d_mig d)) + Z.of_nat (results_due d);
  di_pos : 0 ≤ migrationsSucceeded (m_out (d_mig d)) ∧ 0 ≤ migrationsFailed (m_out (d_mig d));
  di_hist : Z.of_nat (length (migrationHistory (m_out (d_mig d)))) =
    Z.min 100 (migrationsSucceeded (m_out (d_mig d)) + migrationsFailed (m_out (d_mig d)));
  di_log : (length (rg_items (lg_ring (m_log (d_mig d)))) ≤ maxLogLines)%nat ∧
    Forall (λ s, slen s ≤ maxLogLineSize + 16) (rg_items (lg_ring (m_log (d_mig d)))) }.

Lemma due_worker (p : wop → bool) (ws : list (list wop)) (k : nat) (o : wop) (ops : list wop) :
  ws !! k = Some (o :: ops) →
  length (ws ≫= filter p) = ((if p o then 1 else 0) + length (<[k := ops]> ws ≫= filter p))%nat.
Proof.
  intros Hk. destruct (bind_insert (filter p) ws k _ ops Hk) as (rest & H1 & H2).
  rewrite H1, H2, !length_app, filter_cons. destruct (p o); simpl; lia.
Qed.

Lemma due_spawn (p : wop → bool) (ws : list (list wop)) (ops : list wop) :
  length ((ws ++ [ops]) ≫= filter p) = (length (ws ≫= filter p) + length (filter p ops))%nat.
Proof. rewrite bind_app, length_app. simpl. by rewrite app_nil_r. Qed.

Lemma worker_ok_tail (o : wop) (ops : list wop) :
  worker_ok (o :: ops) → worker_ok ops ∧ (∀ r e, o = WResult r e → r = "success" ∨ r = "error").
Proof. inversion 1; subst; (split; [first [done | constructor]|]); intros ? ? Heq; by simplify_eq. Qed.

Lemma prologue_due (pre : list wop) :
  Forall (λ o, prologue o = true) pre → filter is_result pre = [] ∧ filter is_end pre = [].
Proof.
  induction 1 as [|o pre Ho _ [IH1 IH2]]; [done|]. by destruct o; simpl.
Qed.

Lemma runOrchestrator_due (start : Z) (b : orch_run) :
  length (filter is_result (runOrchestrator start b)) = 1%nat ∧ length (filter is_end (runOrchestrator start b)) = 1%nat.
Proof.
  destruct (runOrchestrator_shape start b) as (pre & -> & Hp). apply prologue_due in Hp as [H1 H2].
  by rewrite !filter_app, H1, H2.
Qed.

Lemma slen_clip (msg : string) : slen (clip_line msg) ≤ maxLogLineSize + 16.
Proof.
  unfold clip_line. destruct (Z.ltb_spec maxLogLineSize (slen msg)); [|lia].
  unfold slen. rewrite string_app_length. pose proof (stake_length (Z.to_nat maxLogLineSize) msg).
  change (String.length " ... [truncated]") with 16%nat. unfold maxLogLineSize in *. lia.
Qed.

Lemma appendLog_bounded (msg : string) (m : Mig) :
  let items := rg_items (lg_ring (m_log m)) in
  let items' := rg_items (lg_ring (m_log (appendLog msg m))) in
  Forall (λ s, slen s ≤ maxLogLineSize + 16) items →
  (length items' ≤ maxLogLines)%nat ∧ Forall (λ s, slen s ≤ maxLogLineSize + 16) items'.
Proof.
  intros items items' Hf. subst items'. cbn [appendLog with_log m_log lg_ring].
  rewrite push_last_n. split; [apply last_n_length|].
  unfold last_n. apply Forall_drop, Forall_app. split; [done|]. constructor; [apply slen_clip|done].
Qed.

(** The log lines are bounded, and no step but a log line touches them. *)
Lemma wop_step_log (now : Z) (o : wop) (m : Mig) :
  let items := rg_items (lg_ring (m_log m)) in
  let items' := rg_items (lg_ring (m_log (wop_step now o m))) in
  (length items ≤ maxLogLines)%nat ∧ Forall (λ s, slen s ≤ maxLogLineSize + 16) items →
  (length items' ≤ maxLogLines)%nat ∧ Forall (λ s, slen s ≤ maxLogLineSize + 16) items'.
Proof. intros items items' [Hl Hf]. destruct o; [by apply appendLog_bounded|done..]. Qed.

Lemma setMigrationResult_counts (now : Z) (r e : string) (m : Mig) :
  r = "success" ∨ r = "error" →
  let o := m_out m in
  let o' := m_out (setMigrationResult now r e m) in
  migrationsStarted o' = migrationsStarted o ∧
  migrationsSucceeded o' + migrationsFailed o' = migrationsSucceeded o + migrationsFailed o + 1 ∧
  migrationsSucceeded o ≤ migrationsSucceeded o' ∧ migrationsFailed o ≤ migrationsFailed o' ∧
  length (migrationHistory o') = Nat.min maxHistoryEntries (length (migrationHistory o) + 1).
Proof.
  intros Hr o o'. subst o'. cbn [setMigrationResult with_out m_out migrationHistory migrationsStarted migrationsSucceeded migrationsFailed].
  fold o. rewrite trim_last_n. unfold last_n. rewrite length_drop, length_app. cbn [length].
  generalize maxHistoryEntries. intros n. destruct Hr as [-> | ->]; cbn [String.eqb Ascii.eqb Bool.eqb]; repeat split; lia.
Qed.

Lemma worker_step_inv (now : Z) (d : dash) (k : nat) (o : wop) (ops : list wop) :
  dash_inv d → d_workers d !! k = Some (o :: ops) →
  dash_inv (MkDash (wop_step now o (d_mig d)) (<[k := ops]> (d_workers d))).
Proof.
  intros [Hw He Hx Hc [Hp1 Hp2] Hh Hl] Hk.
  assert (Hok : worker_ok (o :: ops)) by (rewrite Forall_lookup in Hw; eauto).
  apply worker_ok_tail in Hok as [Hok Hres].
  assert (Hw' : Forall worker_ok (<[k := ops]> (d_workers d))) by by apply Forall_insert.
  apply (wop_step_log now o) in Hl.
  pose proof (due_worker is_result _ _ _ _ Hk) as Hdr. pose proof (due_worker is_end _ _ _ _ Hk) as Hde.
  unfold ends_due in He. unfold results_due in Hc. rewrite Hde in He. rewrite Hdr in Hc.
  destruct o as [msg|p|r e|]; cbn [is_result is_end] in *.
  - split; try done.
  - split; try done.
  - destruct (setMigrationResult_counts now r e (d_mig d) (Hres r e eq_refl)) as (H1 & H2 & H3 & H4 & H5).
    unfold maxHistoryEntries in H5.
    split; cbn [wop_step d_mig d_workers]; unfold results_due, ends_due; cbn [d_workers]; try done; lia.
  - destruct (isMigrating (m_flight (d_mig d))) eqn:Hm; [|done].
    split; cbn [wop_step d_mig d_workers end_migration snd with_flight m_flight m_out m_log isMigrating migrationCancel]; try done.
    unfold ends_due. cbn [d_workers]. lia.
Qed.

Lemma migrate_step_inv env p now rand ctx start b r m' run d :
  dash_inv d → handleMigrate env p now rand ctx (d_mig d) = (r, m', run) →
  dash_inv (MkDash m' (d_workers d ++ match run with Some _ => [runOrchestrator start b] | None => [] end)).
Proof.
  intros Hi Hh. unfold handleMigrate in Hh. destruct (migrate_request env p) as [r0|req].
  { simplify_eq. rewrite app_nil_r. by destruct d. }
  unfold begin_migration in Hh. destruct (isMigrating (m_flight (d_mig d))) eqn:Hm.
  { simplify_eq. rewrite app_nil_r. by destruct d. }
  simplify_eq. destruct Hi as [Hw He Hx Hc Hp Hhi Hl]. rewrite Hm in He.
  destruct (runOrchestrator_due start b) as [Hd1 Hd2].
  split; cbn [d_mig d_workers m_log m_out m_flight isMigrating migrationCancel lg_ring clear rg_items
              migrationsStarted migrationsSucceeded migrationsFailed migrationHistory]; try done.
  - apply Forall_app. split; [done|]. constructor; [apply runOrchestrator_ok|done].
  - unfold ends_due in *. cbn [d_workers]. rewrite due_spawn, Hd2. lia.
  - unfold results_due in *. cbn [d_workers]. rewrite due_spawn, Hd1. lia.
  - split; [simpl; lia|done].
Qed.

Lemma dash_reachable_inv (d : dash) : dash_reachable d → dash_inv d.
Proof.
  induction 1 as [|d d' _ IH Hs].
  - split; try done; simpl; [|split; [lia|done]]. split; [by intros [? ?]|done].
  - destruct Hs; [by eapply migrate_step_inv|by apply worker_step_inv].
Qed.

Lemma worker_ok_due (ops : list wop) :
  worker_ok ops →
  length (filter is_end ops) = (if decide (ops = []) then 0 else 1)%nat ∧
  (length (filter is_result ops) ≤ length (filter is_end ops))%nat.
Proof.
  induction 1 as [| |r e Hr|o ops Ho Hops [IH1 IH2] (r & e & l & ->)]; try done; [by split; [|simpl; lia]..|].
  rewrite decide_False in IH1 by (by destruct l).
  destruct o; try done; rewrite decide_False by done; by split.
Qed.

Lemma unfinished_workers (ws : list (list wop)) :
  Forall worker_ok ws →
  length (filter (λ ops, ops ≠ []) ws) = length (ws ≫= filter is_end) ∧
  (length (ws ≫= filter is_result) ≤ length (ws ≫= filter is_end))%nat.
Proof.
  induction 1 as [|ops ws Hops _ [IH1 IH2]]; [done|]. apply worker_ok_due in Hops as [H1 H2].
  rewrite filter_cons. cbn [mbind list_bind]. rewrite !length_app. destruct (decide (ops = [])) as [->|Hne].
  - rewrite decide_False by auto. simpl. lia.
  - rewrite decide_True by done. simpl. lia.
Qed.

(** C12. Every migration is accounted for once, under any interleaving of requests
    and workers: at most one worker is unfinished, exactly when isMigrating is set
    (and then a stop can cancel it); the started migrations are those that succeeded,
    those that failed and at most one whose result is still to come, none when no
    migration runs; the history holds the results, the last 100 of them; and the log
    never exceeds 1000 lines of 8 KiB and the truncation mark. *)
Theorem migrations_accounted (d : dash) (Hd : dash_reachable d) :
  let fl := m_flight (d_mig d) in
  let o := m_out (d_mig d) in
  let reported := migrationsSucceeded o + migrationsFailed o in
  length (filter (λ ops, ops ≠ []) (d_workers d)) = (if isMigrating fl then 1 else 0)%nat ∧
  (is_Some (migrationCancel fl) ↔ isMigrating fl = true) ∧
  reported ≤ migrationsStarted o ≤ reported + 1 ∧
  (isMigrating fl = false → migrationsStarted o = reported) ∧
  Z.of_nat (length (migrationHistory o)) = Z.min 100 reported ∧
  (length (rg_items (lg_ring (m_log (d_mig d)))) ≤ maxLogLines)%nat ∧
  Forall (λ s, slen s ≤ maxLogLineSize + 16) (rg_items (lg_ring (m_log (d_mig d)))).
Proof.
  apply dash_reachable_inv in Hd as [Hw He Hx Hc Hp Hh [Hl1 Hl2]].
  apply unfinished_workers in Hw as [Hw1 Hw2]. unfold ends_due in He. unfold results_due in Hc. rewrite He in Hw1, Hw2.
  cbv zeta. destruct (isMigrating (m_flight (d_mig d))); split_and!; first [done | lia | intros; lia].
Qed.

(** *** A run by itself *)

Fixpoint run_worker (clock : nat → Z) (n : nat) (ops : list wop) (m : Mig) : Mig :=
  match ops with
  | [] => m
  | o :: ops => run_worker clock (S n) ops (wop_step (clock n) o m)
  end.

Lemma run_worker_app (clock : nat → Z) (n : nat) (l1 l2 : list wop) (m : Mig) :
  run_worker clock n (l1 ++ l2) m = run_worker clock (n + length l1) l2 (run_worker clock n l1 m).
Proof.
  revert n m. induction l1 as [|o l1 IH]; intros n m; simpl; [by rewrite Nat.add_0_r|].
  rewrite IH. f_equal. lia.
Qed.

Definition log_line (o : wop) : option string := match o with WLog msg => Some (clip_line msg) | _ => None end.

(** The prologue only writes the log and the progress. *)
Lemma run_prologue (clock : nat → Z) (n : nat) (pre : list wop) (m : Mig) :
  Forall (λ o, prologue o = true) pre →
  let m' := run_worker clock n pre m in
  m_flight m' = m_flight m ∧ counterSnapshot m' = counterSnapshot m ∧
  migrationHistory (m_out m') = migrationHistory (m_out m) ∧
  (∀ l, rg_items (lg_ring (m_log m)) = last_n maxLogLines l →
    rg_items (lg_ring (m_log m')) = last_n maxLogLines (l ++ omap log_line pre)).
Proof.
  intros Hp. revert n m. induction Hp as [|o pre Ho _ IH]; intros n m m'; subst m'; cbn [run_worker omap list_omap].
  { split_and!; try done. intros l Hl. by rewrite app_nil_r. }
  destruct (IH (S n) (wop_step (clock n) o m)) as (H1 & H2 & H3 & H4).
  destruct o as [msg|p| |]; try done; split_and!; try (by rewrite ?H1, ?H2, ?H3).
  - intros l Hl. cbn [log_line]. rewrite (H4 (l ++ [clip_line msg])); [by rewrite <- app_assoc|].
    cbn [wop_step appendLog with_log m_log lg_ring]. by rewrite push_last_n, Hl, last_n_app.
Qed.

(** A run that is followed to its end: the flags are reset, the result is the
    run's outcome, counted and recorded once, and the log gains its lines. *)
Lemma run_worker_ends (clock : nat → Z) (start : Z) (b : orch_run) (m : Mig) :
  let m' := run_worker clock 0 (runOrchestrator start b) m in
  let '(result, errMsg) := outcome b in
  isMigrating (m_flight m') = false ∧ migrationCancel (m_flight m') = None ∧
  lastMigrationResult (m_out m') = result ∧ lastMigrationError (m_out m') = errMsg ∧
  counterSnapshot m' =
    (migrationsStarted (m_out m),
     migrationsSucceeded (m_out m) + (if (result =? "success")%string then 1 else 0),
     migrationsFailed (m_out m) + (if (result =? "success")%string then 0 else 1)) ∧
  (∃ e, migrationHistory (m_out m') = last_n maxHistoryEntries (migrationHistory (m_out m) ++ [e]) ∧
     he_MigrationID e = migrationID (m_flight m) ∧ he_Result e = result ∧ he_Error e = errMsg) ∧
  (rg_items (lg_ring (m_log m)) = [] →
     rg_items (lg_ring (m_log m')) = last_n maxLogLines (omap log_line (runOrchestrator start b))).
Proof.
  destruct (runOrchestrator_shape start b) as (pre & Hshape & Hp).
  pose proof (outcome_result b) as Hres. destruct (outcome b) as [result errMsg]. cbn [fst snd] in *.
  rewrite Hshape, run_worker_app. cbn [run_worker Nat.add].
  destruct (run_prologue clock 0 pre m Hp) as (H1 & H2 & H3 & H4).
  set (m1 := run_worker clock 0 pre m) in *. unfold counterSnapshot in H2. injection H2 as Hs Hu Hf.
  cbn [wop_step end_migration snd setMigrationResult with_out with_flight m_flight m_out m_log
       isMigrating migrationCancel lastMigrationResult lastMigrationError migrationHistory lg_ring].
  split_and!; try done.
  - unfold counterSnapshot. cbn [with_flight setMigrationResult with_out m_out migrationsStarted migrationsSucceeded migrationsFailed].
    rewrite Hs, Hu, Hf.
    destruct Hres as [-> | ->]; cbn [String.eqb Ascii.eqb Bool.eqb]; by rewrite Z.add_0_r.
  - rewrite trim_last_n, H3. eexists. split; [done|]. unfold result_entry. cbn. by rewrite H1.
  - intros Hempty. rewrite (H4 []) by by rewrite Hempty. by rewrite omap_app, app_nil_r.
Qed.

(** The lines that the log of a run must show after the first: what was
    submitted, one line per update with its phase and error, and how the run
    broke off. *)
Definition shows (uw : timed) (line : string) : Prop :=
  ∃ detail, line = ">>> " +:+ su_Phase uw.1 +:+ detail +:+
    match su_Error uw.1 with Some e => ": " +:+ error_text e | None => "" end.

Definition transcript (b : orch_run) (ls : list string) : Prop :=
  let submitted id := ">>> Migration submitted, id=" +:+ id in
  let panic_line := "Error: internal migration worker panic" in
  match b with
  | ApplyPanics _ => ls = [panic_line]
  | ApplyFails e => ls = ["Error: " +:+ error_text e]
  | WatchPanics id _ => ls = [submitted id; panic_line]
  | WatchFails id e => ls = [submitted id; "Error: " +:+ error_text e]
  | Updates id us => ∃ l, ls = submitted id :: l ∧ Forall2 shows us l
  | UpdatePanics id us _ _ => ∃ l, ls = submitted id :: l ++ [panic_line] ∧ Forall2 shows us l
  end.

Lemma progress_lines (u : StatusUpdate) : omap log_line (update_progress u) = [].
Proof. unfold update_progress. by case_goal. Qed.

Lemma follow_lines (start : Z) (pa : gmap string Z) (t : option (string * option error)) (us : list timed) :
  ∃ l, Forall2 shows us l ∧ omap log_line (follow start pa t us).1 = clip_line <$> l.
Proof.
  revert pa t. induction us as [|[u w] us IH]; intros pa t; cbn [follow]; [by exists []|].
  set (pa' := match pa !! su_Phase u with Some _ => pa | None => <[su_Phase u := w]> pa end).
  set (t' := if IsTerminal (su_Phase u) then _ else t). destruct (IH pa' t') as (l & Hl & Hf).
  destruct (follow start pa' t' us) as [ops t'']. cbn [fst] in *.
  exists (update_line start pa' u w :: l). split.
  - constructor; [|done]. by exists (line_suffix start pa' u w).
  - rewrite !omap_app, progress_lines. cbn [app omap list_omap log_line fmap list_fmap]. by rewrite Hf.
Qed.

Lemma run_lines (start : Z) (b : orch_run) :
  ∃ ls, transcript b ls ∧
    omap log_line (runOrchestrator start b) = clip_line <$> (">>> Submitting migration via Native orchestrator…" :: ls).
Proof.
  unfold runOrchestrator, transcript. destruct b as [w|e|id w|id e|id us|id us u w]; cbn [app omap list_omap log_line submitting];
    [by eexists..| |].
  - destruct (follow_lines start ∅ None us) as (l & Hl & Hf). destruct (follow start ∅ None us) as [ops t].
    cbn [fst] in Hf. eexists. split; [by exists l|]. rewrite <- app_comm_cons, <- app_assoc.
    cbn [omap list_omap log_line]. rewrite !omap_app, Hf.
    replace (omap log_line [final_result t]) with (@nil string) by (by destruct t as [[ph e]|]; simpl; repeat case_goal).
    cbn [omap list_omap log_line app]. by rewrite app_nil_r.
  - destruct (follow_lines start ∅ None us) as (l & Hl & Hf). eexists. split; [by exists l|].
    rewrite !omap_app, progress_lines, Hf.
    cbn [panicked omap list_omap log_line app]. by rewrite app_nil_r, !fmap_cons, fmap_app.
Qed.

(** The line of an update is in the transcript. *)
Lemma shown_update (us : list timed) (l : list string) (uw : timed) :
  Forall2 shows us l → uw ∈ us → ∃ line, line ∈ l ∧ shows uw line.
Proof.
  induction 1 as [|x line us l Hx _ IH]; intros Hin; [by apply elem_of_nil in Hin|].
  apply elem_of_cons in Hin as [->|Hin]; [exists line; split; [left|done]|].
  destruct (IH Hin) as (line' & Hl & Hs). exists line'. split; [by right|done].
Qed.

Lemma success_shown (b : orch_run) (ls : list string) :
  transcript b ls → (outcome b).1 = "success" → ∃ rest, (">>> succeeded" +:+ rest) ∈ ls.
Proof.
  destruct b as [w|e|id w|id e|id us|id us u w]; cbn [transcript outcome fst]; try done.
  intros (l & -> & Hl). destruct (last _) as [[u w]|] eqn:Hu; [|done].
  apply last_Some_elem_of, list_elem_of_filter in Hu as [_ Hu]. unfold verdict.
  destruct (String.eqb_spec (su_Phase u) PhaseSucceeded) as [Hp|]; [|done]. intros _.
  destruct (shown_update us l (u, w) Hl Hu) as (line & Hin & detail & Hline). cbn [fst] in Hline.
  rewrite Hp in Hline. rewrite Hline in Hin. eexists. right. exact Hin.
Qed.

(** C14. A worker that is followed to its end reports what the orchestrator did.
    In every run in which Apply and Watch return or panic and the channel of updates
    is closed or the handling of an update panics, the worker finishes with
    isMigrating and the cancel function reset; the last result is success exactly
    when the last terminal update is succeeded (otherwise error, with its text or the
    panic's); the matching counter grows by one; the history gains one entry for this
    migration's id; and the log, empty at the start, is the end of the transcript,
    each line clipped: the submission, one line per update with its phase and error,
    the error or the panic that broke the run off, and for a success a line that says
    "succeeded". *)
Theorem worker_reports_outcome (clock : nat → Z) (start : Z) (b : orch_run) (m : Mig) :
  let m' := run_worker clock 0 (runOrchestrator start b) m in
  let '(result, errMsg) := outcome b in
  isMigrating (m_flight m') = false ∧ migrationCancel (m_flight m') = None ∧
  lastMigrationResult (m_out m') = result ∧ lastMigrationError (m_out m') = errMsg ∧
  counterSnapshot m' =
    (migrationsStarted (m_out m),
     migrationsSucceeded (m_out m) + (if (result =? "success")%string then 1 else 0),
     migrationsFailed (m_out m) + (if (result =? "success")%string then 0 else 1)) ∧
  (∃ e, migrationHistory (m_out m') = last_n maxHistoryEntries (migrationHistory (m_out m) ++ [e]) ∧
     he_MigrationID e = migrationID (m_flight m) ∧ he_Result e = result ∧ he_Error e = errMsg) ∧
  (rg_items (lg_ring (m_log m)) = [] →
     ∃ ls, transcript b ls ∧
       rg_items (lg_ring (m_log m')) =
         last_n maxLogLines (clip_line <$> (">>> Submitting migration via Native orchestrator…" :: ls)) ∧
       (result = "success" → ∃ rest, (">>> succeeded" +:+ rest) ∈ ls)).
Proof.
  pose proof (run_worker_ends clock start b m) as He. cbv zeta in *.
  destruct (run_lines start b) as (ls & Hls & Hlog). pose proof (success_shown b ls Hls) as Hs.
  destruct (outcome b) as [result errMsg]. destruct He as (H1 & H2 & H3 & H4 & H5 & H6 & H7).
  split_and!; try done. intros Hempty. exists ls. split_and!; [done| |done]. by rewrite H7, Hlog.
Qed.
End system.

(** *** A concrete run *)

Definition demo_media (s : string) : option string := Some s.
Definition demo_text (e : error) : string := match e with ErrNew m => m | _ => "error" end.
Definition demo_env : AppEnv := MkAppEnv "registry/katamaran:1" true None.
Definition demo_form : values :=
  [("image", ["registry/katamaran:1"]); ("source_node", ["node-a"]); ("dest_node", ["node-b"]);
   ("qmp_source", ["/run/a.sock"]); ("qmp_dest", ["/run/b.sock"]); ("dest_ip", ["10.0.0.2"]);
   ("vm_ip", ["10.244.0.7"]); ("tap", ["tap0"]); ("downtime", ["25"])].
Definition demo_post : Post := MkPost 200 form_type (inl (demo_form, [])).

Lemma migrations_accounted_witness :
  ∃ d : dash, isMigrating (m_flight (d_mig d)) = true ∧
    length (filter (λ ops, ops ≠ []) (d_workers d)) = 1%nat.
Proof.
  set (r := @handleMigrate demo_media demo_text demo_env demo_post 5 [1; 2] 0 mig0).
  set (d := MkDash r.1.2 (d_workers dash0 ++
              match r.2 with Some _ => [@runOrchestrator demo_text 6 (ApplyFails (ErrNew "no"))] | None => [] end)).
  exists d. split; [vm_compute; reflexivity|].
  destruct (@migrations_accounted demo_media demo_text d) as [Hn _].
  - eapply (@dreach_step demo_media demo_text dash0); [constructor|].
    apply (@step_migrate demo_media demo_text dash0 demo_env demo_post 5 [1; 2] 0 6 (ApplyFails (ErrNew "no")) r.1.1 r.1.2 r.2).
    vm_compute. reflexivity.
  - rewrite Hn. vm_compute. reflexivity.
Defined.
