(* ===== verification/DashNet.v ===== *)
(** * The dashboard's probes (internal/dashboard: validation.go, loadgen.go)

    The checks of a probe target and what the load generators connect to.  DNS is
    a parameter of each lookup, since its answers may change between two calls. *)
From S2P Require Import Prelude GoErrors GoStrings Netip OrchValidate Dashboard DashMigrate.

(** ** net.IP and net.SplitHostPort *)

(** The bytes of an address: 4 or 16 of them. *)
Abbreviation IP := (list Z) (only parsing).

Definition v4_in_v6 : list Z := [0; 0; 0; 0; 0; 0; 0; 0; 0; 0; 255; 255].

Definition To4 (ip : IP) : option IP :=
  if (length ip =? 4)%nat then Some ip
  else if (length ip =? 16)%nat && bool_decide (take 12 ip = v4_in_v6) then Some (drop 12 ip)
  else None.

Definition byte (ip : IP) (i : nat) : Z := nth i ip 0.

Definition IP_Equal (a b : IP) : bool :=
  if (length a =? length b)%nat then bool_decide (a = b)
  else if (length a =? 4)%nat && (length b =? 16)%nat then bool_decide (take 12 b = v4_in_v6 ∧ drop 12 b = a)
  else if (length a =? 16)%nat && (length b =? 4)%nat then bool_decide (take 12 a = v4_in_v6 ∧ drop 12 a = b)
  else false.

Definition IPv6loopback : IP := [0; 0; 0; 0; 0; 0; 0; 0; 0; 0; 0; 0; 0; 0; 0; 1].
Definition IPv6unspecified : IP := replicate 16 0.

Definition IsLoopback (ip : IP) : bool :=
  match To4 ip with Some ip4 => byte ip4 0 =? 127 | None => IP_Equal ip IPv6loopback end.
Definition IsUnspecified (ip : IP) : bool := IP_Equal ip (v4_in_v6 ++ [0; 0; 0; 0]) || IP_Equal ip IPv6unspecified.
Definition IsLinkLocalUnicast (ip : IP) : bool :=
  match To4 ip with
  | Some ip4 => (byte ip4 0 =? 169) && (byte ip4 1 =? 254)
  | None => (length ip =? 16)%nat && (byte ip 0 =? 0xfe) && (Z.land (byte ip 1) 0xc0 =? 0x80)
  end.
Definition IsInterfaceLocalMulticast (ip : IP) : bool :=
  (length ip =? 16)%nat && (byte ip 0 =? 0xff) && (Z.land (byte ip 1) 0x0f =? 0x01).
Definition IsLinkLocalMulticast (ip : IP) : bool :=
  match To4 ip with
  | Some ip4 => (byte ip4 0 =? 224) && (byte ip4 1 =? 0) && (byte ip4 2 =? 0)
  | None => (length ip =? 16)%nat && (byte ip 0 =? 0xff) && (Z.land (byte ip 1) 0x0f =? 0x02)
  end.
Definition IsMulticast (ip : IP) : bool :=
  match To4 ip with
  | Some ip4 => Z.land (byte ip4 0) 0xf0 =? 0xe0
  | None => (length ip =? 16)%nat && (byte ip 0 =? 0xff)
  end.

Fixpoint groups_of (bs : list Z) : list Z :=
  match bs with
  | a :: b :: bs => a * 256 + b :: groups_of bs
  | _ => []
  end.

(** IP.String of an address of 4 or 16 bytes. *)
Definition IP_String (ip : IP) : string :=
  match To4 ip with
  | Some ip4 => string4 (byte ip4 0) (byte ip4 1) (byte ip4 2) (byte ip4 3)
  | None => string6 (groups_of ip)
  end.

(** The last index of a byte. *)
Fixpoint LastIndexByte (s : string) (c : ascii) : option nat :=
  match s with
  | EmptyString => None
  | String d s =>
      match LastIndexByte s c with
      | Some n => Some (S n)
      | None => if Ascii.eqb c d then Some O else None
      end
  end.

Definition char_at (s : string) (i : nat) : option ascii := String.get i s.

Definition SplitHostPort (hostport : string) : option (string * string) :=
  match LastIndexByte hostport ":" with
  | None => None
  | Some i =>
      let finish (host : string) (j k : nat) :=
        if negb (is_nil (IndexByte (sdrop j hostport) "[")) then None
        else if negb (is_nil (IndexByte (sdrop k hostport) "]")) then None
        else Some (host, sdrop (S i) hostport) in
      if HasPrefix hostport "[" then
        match IndexByte hostport "]" with
        | None => None
        | Some e => if (S e =? i)%nat then finish (stake (e - 1) (sdrop 1 hostport)) 1%nat (S e) else None
        end
      else
        let host := stake i hostport in
        if negb (is_nil (IndexByte host ":")) then None else finish host 0%nat 0%nat
  end.

(** ** validation.go *)

Definition maxTargetLen : Z := 253.

Record target_parts := MkTarget { tg_host : string; tg_port : string; tg_hasPort : bool; tg_ok : bool }.

Definition splitTarget (target : string) : target_parts :=
  match SplitHostPort target with
  | Some (h, p) => MkTarget h p true true
  | None =>
      if HasPrefix target "[" && HasSuffix target "]" then
        let host := stake (String.length target - 2) (sdrop 1 target) in
        MkTarget host "" false (negb (is_empty host))
      else MkTarget target "" false true
  end.

Definition targetHost (target : string) : string :=
  let t := splitTarget target in if tg_ok t then tg_host t else "".

Definition validTargetPort (port : string) : bool :=
  if is_empty port then false
  else if negb (forallb_str is_digit port) then false
  else match Atoi port with Some p => (1 <=? p) && (p <=? 65535) | None => false end.

Definition blockedMetadataIPs : list IP :=
  [v4_in_v6 ++ [169; 254; 169; 254];
   [0xfd; 0; 0x0e; 0xc2; 0; 0; 0; 0; 0; 0; 0; 0; 0; 0; 0x02; 0x54];
   v4_in_v6 ++ [100; 100; 100; 200]].

Definition blockedTargetIP (ip : IP) : bool :=
  IsLoopback ip || IsUnspecified ip || IsLinkLocalUnicast ip || IsInterfaceLocalMulticast ip
  || IsLinkLocalMulticast ip || IsMulticast ip || existsb (IP_Equal ip) blockedMetadataIPs.

(** A resolver's answer to one lookup. *)
Abbreviation resolver := (string → list IP + error) (only parsing).

Definition errUnsafeTargetIP : error := ErrNew "target resolves to a blocked IP address".

Definition lookupSafeTargetIPs (dns : resolver) (host : string) : list IP + error :=
  match dns host with
  | inr e => inr e
  | inl [] => inr errUnsafeTargetIP
  | inl addrs => if existsb blockedTargetIP addrs then inr errUnsafeTargetIP else inl addrs
  end.

Definition resolvedTargetIP (dns : resolver) (target : string) : option string :=
  match lookupSafeTargetIPs dns (targetHost target) with
  | inl (ip :: _) => Some (IP_String ip)
  | _ => None
  end.

(** The bytes a host may not contain. *)
Definition target_meta : string :=
  String (ascii_of_nat 0) (";|&$`\" +:+ String (ascii_of_nat 34) "'<>(){}!" +:+
    String (ascii_of_nat 10) (String (ascii_of_nat 13) (String (ascii_of_nat 9) " @#%"))).

Definition validTarget (dns : resolver) (target : string) : bool :=
  let t := splitTarget target in
  if slen target >? maxTargetLen + 6 then false
  else if HasPrefix target "-" then false
  else if Contains target "/" then false
  else if negb (tg_ok t) || is_empty (tg_host t) || (slen (tg_host t) >? maxTargetLen) then false
  else if tg_hasPort t && negb (validTargetPort (tg_port t)) then false
  else if negb (is_nil (IndexAny (tg_host t) target_meta)) then false
  else if Contains (tg_host t) ".." then false
  else match lookupSafeTargetIPs dns (tg_host t) with inl _ => true | inr _ => false end.

Example splits :
  SplitHostPort "svc:8080" = Some ("svc", "8080") ∧ SplitHostPort "[2001:db8::1]:80" = Some ("2001:db8::1", "80") ∧
  SplitHostPort "2001:db8::1" = None ∧ targetHost "[2001:db8::1]" = "2001:db8::1" ∧ targetHost "svc" = "svc".
Proof. vm_compute. done. Qed.

(** ** loadgen.go *)

Definition JoinHostPort (host port : string) : string :=
  if Contains host ":" then "[" +:+ host +:+ "]:" +:+ port else host +:+ ":" +:+ port.

(** The loop of [safeDialContext]: the addresses dialled, and whether the last
    one answered. *)
Fixpoint dial_each (dial : string → bool) (port : string) (ips : list IP) : list string * bool :=
  match ips with
  | [] => ([], false)
  | ip :: ips =>
      let a := JoinHostPort (IP_String ip) port in
      if dial a then ([a], true) else let '(l, ok) := dial_each dial port ips in (a :: l, ok)
  end.

Definition safeDialContext (dns : resolver) (dial : string → bool) (addr : string) : list string * bool :=
  match SplitHostPort addr with
  | None => ([], false)
  | Some (host, port) =>
      match lookupSafeTargetIPs dns host with
      | inr _ => ([], false)
      | inl ips => dial_each dial port ips
      end
  end.

Definition loadgenFormKeys : list string := ["target"].

(** r.FormValue: the body's values come before the query's. *)
Definition FormValue (fq : list (string * list string) * list (string * list string)) (key : string) : string :=
  first_value (values_get fq.1 key ++ values_get fq.2 key).

(** strconv.ParseFloat of a run of digits and dots, as bits. *)
Class Floats := ParseFloat : string → option Z.

(** The atomic steps of a generator. *)
Inductive lop := LPing (lat : Z) (err : string) | LReset.

Section loadgen.
Context `{MediaTypes} `{Floats}.

(** The checks the two handlers share. *)
Definition probe_target (dns : resolver) (p : Post) : handler string :=
  fq ←! parseFormPOST p ;
  _ ←! rejectUnknownPostFormFields fq.1 loadgenFormKeys ;
  let target := FormValue fq "target" in
  _ ←! reject_if (is_empty target) (jsonError "Missing required field: target" 400) ;
  _ ←! reject_if (negb (validTarget dns target)) (jsonError "Invalid value for target" 400) ;
  inr target.

(** The 409 of [tryStartLoadgen], or the new state with what is started. *)
Definition start_loadgen (typ : string) (ctx : nat) (l : Loadgen) (what accepted : string)
    : Resp * Loadgen * option string :=
  match tryStartLoadgen typ ctx l with
  | inl running => (MkResp 409 [("error", "Load generator already running"); ("loadgen_type", running)], l, None)
  | inr l' => (MkResp 202 [("message", accepted); ("target", what)], l', Some what)
  end.

(** The argument given to ping, when it is started.  [dns1] answers the check of
    the target, [dns2] the later resolution. *)
Definition handlePingStart (dns1 dns2 : resolver) (p : Post) (ctx : nat) (l : Loadgen)
    : Resp * Loadgen * option string :=
  match probe_target dns1 p with
  | inl r => (r, l, None)
  | inr target =>
      match resolvedTargetIP dns2 target with
      | None => (jsonError "Invalid value for target" 400, l, None)
      | Some pingTarget => start_loadgen "ping" ctx l pingTarget "Ping load generator started"
      end
  end.

(** The URL of the HTTP generator: a bare IPv6 literal gets brackets. *)
Definition target_url (target : string) : string :=
  match ParseAddr target with
  | Some (Addr6 gs zone) =>
      if is_empty zone && negb (Is4In6 (Addr6 gs zone)) then "http://[" +:+ target +:+ "]" else "http://" +:+ target
  | _ => "http://" +:+ target
  end.

Definition handleHTTPStart (dns : resolver) (p : Post) (ctx : nat) (l : Loadgen) : Resp * Loadgen * option string :=
  match probe_target dns p with
  | inl r => (r, l, None)
  | inr target => start_loadgen "http" ctx l target "HTTP load generator started"
  end.

Definition is_latency_char (c : ascii) : bool := is_digit c || Ascii.eqb c ".".

(** The leftmost match of "time=([0-9.]+) ms": the class has no space, so the
    group is the whole run. *)
Fixpoint find_time (s : string) : option string :=
  match s with
  | EmptyString => None
  | String _ r =>
      if HasPrefix s "time=" then
        let rest := sdrop 5 s in
        let n := match IndexFunc (λ c, negb (is_latency_char c)) rest with Some n => n | None => String.length rest end in
        if (0 <? n)%nat && HasPrefix (sdrop n rest) " ms" then Some (stake n rest) else find_time r
      else find_time r
  end.

Definition ping_line (line : string) : list lop :=
  match find_time line with
  | Some raw => match ParseFloat raw with Some lat => [LPing lat ""] | None => [LPing 0 "Parse error"] end
  | None => if Contains line "Unreachable" || Contains line "timeout" then [LPing 0 "Timeout/Unreachable"] else []
  end.

(** The ping goroutine: [None] when the process cannot be started. *)
Definition ping_run (output : option (list string)) : list lop :=
  match output with None => [] | Some lines => lines ≫= ping_line end ++ [LReset].

(** A round of the HTTP goroutine. *)
Inductive http_round :=
  | BadRequest (err : string)
  | Failed (err : string) (cancelled : bool)
  | Answered (lat : Z).

(** The rounds up to the cancellation of the context. *)
Fixpoint http_run (rounds : list http_round) : list lop :=
  match rounds with
  | [] => [LReset]
  | BadRequest e :: _ => [LPing 0 ("Request error: " +:+ e); LReset]
  | Failed _ true :: _ => [LReset]
  | Failed e false :: rounds => LPing 0 e :: http_run rounds
  | Answered lat :: rounds => LPing lat "" :: http_run rounds
  end.
End loadgen.

Definition lop_step (now : Z) (o : lop) (l : Loadgen) : Loadgen :=
  match o with LPing lat err => addPing now lat err l | LReset => resetLoadgen l end.

(** ** What is probed *)

Lemma lookupSafe_inl (dns : resolver) (host : string) (ips : list IP) :
  lookupSafeTargetIPs dns host = inl ips →
  dns host = inl ips ∧ ips ≠ [] ∧ Forall (λ ip, blockedTargetIP ip = false) ips.
Proof.
  unfold lookupSafeTargetIPs. destruct (dns host) as [[|a l]|e]; try done.
  destruct (existsb blockedTargetIP (a :: l)) eqn:He; [done|]. intros [= <-]. split_and!; try done.
  apply Forall_forall. intros x Hx. destruct (blockedTargetIP x) eqn:Hb; [|done].
  rewrite <- He. symmetry. apply existsb_exists. exists x. split; [by apply list_elem_of_In|done].
Qed.

Lemma dial_each_elem (dial : string → bool) (port : string) (ips : list IP) (a : string) :
  a ∈ (dial_each dial port ips).1 → ∃ ip, ip ∈ ips ∧ a = JoinHostPort (IP_String ip) port.
Proof.
  induction ips as [|ip ips IH]; simpl; [by intros ?%elem_of_nil|].
  destruct (dial _).
  - intros ->%list_elem_of_singleton. exists ip. by split; [left|].
  - destruct (dial_each dial port ips) as [l ok]. simpl in *. intros [->|Hin]%elem_of_cons.
    + exists ip. by split; [left|].
    + destruct (IH Hin) as (ip' & Hip & ->). exists ip'. by split; [right|].
Qed.

(** *** The text of an address *)

Definition addr_char (c : ascii) : bool := is_digit c || in_range "a" "f" c || Ascii.eqb c "." || Ascii.eqb c ":".

Definition wf_ip (ip : IP) : Prop := (length ip = 4%nat ∨ length ip = 16%nat) ∧ Forall octet ip.

Lemma hex_digit_addr (d : Z) : 0 ≤ d < 16 → addr_char (hex_digit d) = true.
Proof.
  intros Hd.
  assert (H : Forall (λ n, addr_char (hex_digit (Z.of_nat n)) = true) (seq 0 16)) by (by repeat constructor).
  rewrite Forall_forall in H. rewrite <- (Z2Nat.id d) by lia. apply H, elem_of_seq. lia.
Qed.

Lemma hex16_addr (g : Z) : 0 ≤ g < 65536 → forallb_str addr_char (hex16 g) = true.
Proof.
  intros Hg. unfold hex16.
  assert (H0 : addr_char (hex_digit (g mod 16)) = true) by (apply hex_digit_addr, Z.mod_pos_bound; lia).
  assert (H1 : addr_char (hex_digit ((g / 16) mod 16)) = true) by (apply hex_digit_addr, Z.mod_pos_bound; lia).
  assert (H2 : addr_char (hex_digit ((g / 256) mod 16)) = true) by (apply hex_digit_addr, Z.mod_pos_bound; lia).
  assert (H3 : addr_char (hex_digit (g / 4096)) = true)
    by (apply hex_digit_addr; split; [apply Z.div_pos; lia|apply Z.div_lt_upper_bound; lia]).
  repeat case_goal; simpl; by rewrite ?H0, ?H1, ?H2, ?H3.
Qed.

Lemma Itoa_addr (z : Z) : 0 ≤ z → forallb_str addr_char (Itoa z) = true.
Proof.
  intros Hz. apply (forallb_str_mono is_digit); [|by apply Itoa_digits].
  intros c Hc. unfold addr_char. by rewrite Hc.
Qed.

Lemma groups_of_range (bs : list Z) : Forall octet bs → Forall (λ g, 0 ≤ g < 65536) (groups_of bs).
Proof.
  intros Hb. assert (Hn : (length bs < S (length bs))%nat) by lia. revert Hb Hn. generalize (S (length bs)). intros n.
  revert bs. induction n as [|n IH]; intros bs Hb Hn; [lia|].
  destruct bs as [|a [|b bs]]; simpl; try constructor.
  - apply Forall_cons in Hb as [Ha [Hb _]%Forall_cons]. unfold octet in *. lia.
  - apply IH; [by do 2 apply Forall_inv_tail in Hb|simpl in Hn; lia].
Qed.

Lemma join_addr (gs : list Z) :
  Forall (λ g, 0 ≤ g < 65536) gs → forallb_str addr_char (Join ":" (hex16 <$> gs)) = true.
Proof.
  intros Hg. induction Hg as [|g gs Hg Hgs IH]; [done|]. destruct gs as [|g' gs]; [by apply hex16_addr|].
  change (forallb_str addr_char (hex16 g +:+ ":" +:+ Join ":" (hex16 <$> (g' :: gs))) = true).
  by rewrite !forallb_str_app, hex16_addr, IH.
Qed.

Lemma IP_String_addr (ip : IP) : wf_ip ip → forallb_str addr_char (IP_String ip) = true.
Proof.
  intros [Hl Ho]. unfold IP_String.
  assert (Hb : ∀ l i, Forall octet l → 0 ≤ byte l i).
  { intros l i Hf. unfold byte. destruct (nth_in_or_default i l 0) as [Hin| ->]; [|lia].
    rewrite List.Forall_forall in Hf. apply Hf in Hin. unfold octet in Hin. lia. }
  assert (Hs4 : ∀ l, Forall octet l →
    forallb_str addr_char (string4 (byte l 0) (byte l 1) (byte l 2) (byte l 3)) = true).
  { intros l Hf. unfold string4. by rewrite !forallb_str_app, !Itoa_addr by auto. }
  unfold To4. destruct (length ip =? 4)%nat; [by apply Hs4|]. destruct (_ && _); [by apply Hs4, Forall_drop|].
  unfold string6. pose proof (groups_of_range ip Ho) as Hg.
  destruct (best_run 0 (groups_of ip) (8, 8)%nat) as [s e]. destruct (s <? 8)%nat; [|by apply join_addr].
  by rewrite !forallb_str_app, !join_addr by auto using Forall_take, Forall_drop.
Qed.

(** *** Blocked addresses *)

(** Blocked IPv4 addresses, by range: 127/8, 0.0.0.0, 169.254/16, 224/4 and the
    metadata address outside them. *)
Definition blocked4 (a b c d : Z) : bool :=
  (a =? 127) || ((a =? 0) && (b =? 0) && (c =? 0) && (d =? 0)) || ((a =? 169) && (b =? 254))
  || ((224 <=? a) && (a <=? 239)) || ((a =? 100) && (b =? 100) && (c =? 100) && (d =? 200)).

Lemma land_multicast (a : Z) : octet a → (Z.land a 0xf0 =? 0xe0) = (224 <=? a) && (a <=? 239).
Proof.
  intros Ha. unfold octet in Ha.
  assert (H : forallb (λ n, let a := Z.of_nat n in eqb (Z.land a 0xf0 =? 0xe0) ((224 <=? a) && (a <=? 239))) (seq 0 256) = true)
    by (vm_compute; reflexivity).
  rewrite forallb_forall in H. specialize (H (Z.to_nat a)). cbv zeta in H. rewrite Z2Nat.id in H by lia.
  apply eqb_prop, H, in_seq. lia.
Qed.

(** A 4-byte address and its mapped form are compared alike. *)
Lemma IP_Equal_v4 (a b c d w x y z : Z) :
  let r := (a =? w) && (b =? x) && (c =? y) && (d =? z) in
  IP_Equal [a; b; c; d] (v4_in_v6 ++ [w; x; y; z]) = r ∧
  IP_Equal (v4_in_v6 ++ [a; b; c; d]) (v4_in_v6 ++ [w; x; y; z]) = r.
Proof.
  cbv zeta. unfold IP_Equal, v4_in_v6. simpl. split; apply eq_true_iff_eq;
    rewrite bool_decide_eq_true, !andb_true_iff, !Z.eqb_eq.
  - split; [intros [_ ?]; by simplify_eq|]. intros [[[-> ->] ->] ->]. done.
  - split; [intros ?; by simplify_eq|]. intros [[[-> ->] ->] ->]. done.
Qed.

(** An IPv6 literal of the list that is not a mapped address. *)
Lemma IP_Equal_v4_v6 (a b c d : Z) (ip : IP) :
  length ip = 16%nat → take 12 ip ≠ v4_in_v6 →
  IP_Equal [a; b; c; d] ip = false ∧ IP_Equal (v4_in_v6 ++ [a; b; c; d]) ip = false.
Proof.
  intros Hl Hne. unfold IP_Equal. rewrite Hl. simpl. split; apply bool_decide_eq_false.
  - by intros [? _].
  - intros Heq. apply Hne. by rewrite <- Heq.
Qed.

Lemma blocked_v4 (a b c d : Z) :
  octet a → blockedTargetIP [a; b; c; d] = blocked4 a b c d ∧ blockedTargetIP (v4_in_v6 ++ [a; b; c; d]) = blocked4 a b c d.
Proof.
  intros Ha.
  assert (Hbl : ∀ ip, To4 ip = Some [a; b; c; d] → IsInterfaceLocalMulticast ip = false →
    (∀ w x y z, IP_Equal ip (v4_in_v6 ++ [w; x; y; z]) = (a =? w) && (b =? x) && (c =? y) && (d =? z)) →
    (∀ ip', length ip' = 16%nat → take 12 ip' ≠ v4_in_v6 → IP_Equal ip ip' = false) →
    blockedTargetIP ip = blocked4 a b c d).
  { intros ip H4 Him He Hn. unfold blockedTargetIP, IsLoopback, IsUnspecified, IsLinkLocalUnicast, IsLinkLocalMulticast, IsMulticast.
    rewrite H4, Him. unfold blockedMetadataIPs. cbn [existsb byte nth].
    rewrite (Hn IPv6unspecified), (Hn [0xfd; 0; 0x0e; 0xc2; 0; 0; 0; 0; 0; 0; 0; 0; 0; 0; 0x02; 0x54]), !He
      by (first [reflexivity | let H := fresh in intros H; vm_compute in H; discriminate H]).
    rewrite land_multicast by done. unfold blocked4.
    assert (H1 : (a =? 224) && (b =? 0) && (c =? 0) = true → (224 <=? a) && (a <=? 239) = true).
    { rewrite !andb_true_iff, Z.eqb_eq. intros [[-> _] _]. done. }
    assert (H2 : (a =? 169) && (b =? 254) && (c =? 169) && (d =? 254) = true → (a =? 169) && (b =? 254) = true).
    { rewrite !andb_true_iff. tauto. }
    destruct ((a =? 224) && (b =? 0) && (c =? 0)), ((a =? 169) && (b =? 254) && (c =? 169) && (d =? 254)),
      ((224 <=? a) && (a <=? 239)), ((a =? 169) && (b =? 254)), (a =? 127), ((a =? 0) && (b =? 0) && (c =? 0) && (d =? 0)),
      ((a =? 100) && (b =? 100) && (c =? 100) && (d =? 200));
      first [reflexivity | discriminate (H1 eq_refl) | discriminate (H2 eq_refl)]. }
  split; apply Hbl; try done.
  - intros. apply IP_Equal_v4.
  - intros. by apply IP_Equal_v4_v6.
  - intros. apply IP_Equal_v4.
  - intros. by apply IP_Equal_v4_v6.
Qed.

(** The addresses a probe may not reach, as ranges: an IPv4 address is blocked
    exactly in 127/8, 169.254/16, 224/4, as 0.0.0.0 and as 100.100.100.200, and the
    same in its IPv4-mapped IPv6 form, so that writing it as IPv6 does not help; an
    other IPv6 address is blocked exactly in fe80::/10, ff00::/8 and as ::, ::1 and
    fd00:ec2::254. *)
Theorem blockedTargetIP_ranges :
  (∀ a b c d, octet a →
    blockedTargetIP [a; b; c; d] = blocked4 a b c d ∧ blockedTargetIP (v4_in_v6 ++ [a; b; c; d]) = blocked4 a b c d) ∧
  (∀ ip, length ip = 16%nat → take 12 ip ≠ v4_in_v6 →
    blockedTargetIP ip =
      (byte ip 0 =? 0xff) || ((byte ip 0 =? 0xfe) && (Z.land (byte ip 1) 0xc0 =? 0x80))
      || bool_decide (ip ∈ [IPv6unspecified; IPv6loopback; [0xfd; 0; 0x0e; 0xc2; 0; 0; 0; 0; 0; 0; 0; 0; 0; 0; 0x02; 0x54]])).
Proof.
  split; [intros; by apply blocked_v4|]. intros ip Hl Hne.
  assert (H4 : To4 ip = None) by (unfold To4; rewrite Hl; simpl; by rewrite bool_decide_false).
  assert (Hm : ∀ l, IP_Equal ip (v4_in_v6 ++ l) = false ∨ length l ≠ 4%nat).
  { intros l. destruct (decide (length l = 4%nat)) as [Hll|]; [left|by right]. unfold IP_Equal.
    rewrite Hl, length_app, Hll. simpl. apply bool_decide_eq_false. intros ->. apply Hne. reflexivity. }
  assert (He : ∀ ip', length ip' = 16%nat → IP_Equal ip ip' = bool_decide (ip = ip')).
  { intros ip' Hl'. unfold IP_Equal. by rewrite Hl, Hl'. }
  unfold blockedTargetIP, IsLoopback, IsUnspecified, IsLinkLocalUnicast, IsInterfaceLocalMulticast, IsLinkLocalMulticast, IsMulticast.
  rewrite H4, Hl. unfold blockedMetadataIPs. cbn [existsb Nat.eqb andb].
  destruct (Hm [0; 0; 0; 0]) as [-> |[]]; [|done]. destruct (Hm [169; 254; 169; 254]) as [-> |[]]; [|done].
  destruct (Hm [100; 100; 100; 200]) as [-> |[]]; [|done]. rewrite !He by done.
  apply eq_true_iff_eq. rewrite !orb_true_iff, !andb_true_iff, !bool_decide_eq_true, !elem_of_cons, elem_of_nil. naive_solver.
Qed.

Section safety.
Context `{MediaTypes}.

Lemma start_loadgen_some (typ : string) (ctx : nat) (l : Loadgen) (what accepted t : string) (r : Resp) (l' : Loadgen) :
  start_loadgen typ ctx l what accepted = (r, l', Some t) → t = what ∧ loadgenRunning l = false.
Proof.
  unfold start_loadgen, tryStartLoadgen. destruct (loadgenRunning l); intros Hs; by simplify_eq.
Qed.

(** C31. The probes only reach allowed addresses, even when DNS answers change after
    the target was checked: the argument given to ping is the text of the first
    address of the answer just used, no address of that answer is blocked, and the
    text is an address literal (so it is neither an option nor a name that could
    resolve to something else); and every address the HTTP client dials comes from an
    answer without a blocked address, obtained for that connection. *)
Theorem probes_reach_allowed_addresses (dns1 dns2 : resolver) (p : Post) (ctx : nat) (l : Loadgen) :
  (∀ r l' t, handlePingStart dns1 dns2 p ctx l = (r, l', Some t) →
     ∃ host ip ips, dns2 host = inl (ip :: ips) ∧ t = IP_String ip ∧
       Forall (λ ip, blockedTargetIP ip = false) (ip :: ips) ∧
       (wf_ip ip → forallb_str addr_char t = true)) ∧
  (∀ dns dial addr a, a ∈ (safeDialContext dns dial addr).1 →
     ∃ host port ip ips, SplitHostPort addr = Some (host, port) ∧ dns host = inl ips ∧ ip ∈ ips ∧
       Forall (λ ip, blockedTargetIP ip = false) ips ∧ a = JoinHostPort (IP_String ip) port).
Proof.
  split.
  - intros r l' t. unfold handlePingStart. destruct (probe_target dns1 p) as [r0|target]; [done|].
    unfold resolvedTargetIP. destruct (lookupSafeTargetIPs dns2 (targetHost target)) as [[|ip ips]|e] eqn:Hk; try done.
    intros [-> _]%start_loadgen_some. apply lookupSafe_inl in Hk as (Hd & _ & Hf).
    exists (targetHost target), ip, ips. split_and!; try done. apply IP_String_addr.
  - intros dns dial addr a. unfold safeDialContext. destruct (SplitHostPort addr) as [[host port]|]; [|by intros ?%elem_of_nil].
    destruct (lookupSafeTargetIPs dns host) as [ips|e] eqn:Hk; [|by intros ?%elem_of_nil].
    intros (ip & Hip & ->)%dial_each_elem. apply lookupSafe_inl in Hk as (Hd & _ & Hf). exists host, port, ip, ips. done.
Qed.
End safety.
