(* ===== verification/DashHttp.v ===== *)
(** * The dashboard's HTTP server (internal/dashboard: server.go, middleware.go, metrics.go)

    The route table, the middleware around it, and the counters.  A handler is what
    it does to the response: the writes, in order, and a panic.  url.Parse is a
    parameter that gives the host of a URL; paths are taken as the server cleans
    them.  The texts of the log records and the static page are not represented; the
    metrics page is the subject of file Metrics. *)
From S2P Require Import Prelude GoErrors GoStrings Netip Tunnel Flags OrchValidate Cli Dashboard DashMigrate DashNet.

(** ** Routes *)

Inductive route_handler :=
  | Healthz | Readyz | Metrics | Home | APIFallback | Migrate | MigrateStop | ListPods | ListNodes
  | Status | History | PingStart | LoadgenStop | HTTPStart | Pprof | Expvar.

#[global] Instance route_handler_eq_dec : EqDecision route_handler.
Proof. solve_decision. Defined.

(** A pattern of ServeMux: an optional method, a path, and whether the path stands
    for the whole subtree. *)
Record pattern := Pattern { pt_method : option string; pt_path : string; pt_subtree : bool; pt_handler : route_handler }.

Definition get (path : string) : route_handler → pattern := Pattern (Some "GET") path false.
Definition post (path : string) : route_handler → pattern := Pattern (Some "POST") path false.

Definition newMux (enableDebug : bool) : list pattern :=
  [get "/healthz" Healthz; get "/readyz" Readyz; get "/metrics" Metrics; get "/" Home;
   Pattern None "/api" false APIFallback; Pattern None "/api/" true APIFallback;
   post "/api/migrate" Migrate; post "/api/migrate/stop" MigrateStop;
   get "/api/pods" ListPods; get "/api/nodes" ListNodes; get "/api/status" Status; get "/api/history" History;
   post "/api/ping" PingStart; post "/api/ping/stop" LoadgenStop;
   post "/api/httpgen" HTTPStart; post "/api/httpgen/stop" LoadgenStop] ++
  (if enableDebug then [Pattern None "/debug/pprof/" true Pprof; get "/debug/vars" Expvar] else []).

(** A GET pattern also takes HEAD. *)
Definition method_matches (p : pattern) (method : string) : bool :=
  match pt_method p with
  | None => true
  | Some m => (m =? method)%string || ((m =? "GET")%string && (method =? "HEAD")%string)
  end.
Definition path_matches (p : pattern) (path : string) : bool :=
  if pt_subtree p then HasPrefix path (pt_path p) else (path =? pt_path p)%string.

Inductive routed := To (h : route_handler) | MethodNotAllowed | NotFound.

(** The most specific pattern: an exact path before a subtree.  No two patterns of
    the table are equally specific for a request. *)
Definition mux_route (ps : list pattern) (method path : string) : routed :=
  let ok p := path_matches p path && method_matches p method in
  match List.find (λ p, negb (pt_subtree p) && ok p) ps with
  | Some p => To (pt_handler p)
  | None =>
      match List.find (λ p, pt_subtree p && ok p) ps with
      | Some p => To (pt_handler p)
      | None => if existsb (λ p, path_matches p path) ps then MethodNotAllowed else NotFound
      end
  end.

Definition get_head : string := "GET, HEAD".

Definition apiAllowedMethods : list (string * string) :=
  [("/api/migrate", "POST"); ("/api/migrate/stop", "POST"); ("/api/status", get_head); ("/api/pods", get_head);
   ("/api/nodes", get_head); ("/api/history", get_head); ("/api/ping", "POST"); ("/api/ping/stop", "POST");
   ("/api/httpgen", "POST"); ("/api/httpgen/stop", "POST")].

Definition allowed_methods (path : string) : option string := snd <$> List.find (λ kv, (kv.1 =? path)%string) apiAllowedMethods.

Definition handleAPIFallback (method path : string) : Resp :=
  match allowed_methods path with
  | Some allow => MkResp 405 [("error", "Method " +:+ method +:+ " not allowed"); ("allow", allow)]
  | None => jsonError "Not found" 404
  end.

(** Handlers that may change the migration or the load generator. *)
Definition changes_state (h : route_handler) : bool :=
  bool_decide (h ∈ [Migrate; MigrateStop; PingStart; LoadgenStop; HTTPStart]).

(** ** Probes and lists *)

(** Status and body; whether the readiness failure counter grows. *)
Definition handleHealthz : Z * string := (200, "ok").
Definition handleReadyz (env : AppEnv) : Z * string * bool :=
  if orch env then (200, "ok", false) else (503, "orchestrator not wired", true).

(** [handleListPods] and [handleListNodes]: [list] is the call of the discoverer. *)
Definition handle_list {A : Type} (disc : option (list A + error)) (failed : string) : Resp + list A :=
  match disc with
  | None => inl (jsonError "Discoverer not configured (no in-cluster config or KUBECONFIG)" 503)
  | Some (inr _) => inl (jsonError failed 502)
  | Some (inl l) => inr l
  end.
Definition handleListPods {A : Type} (disc : option (list A + error)) : Resp + list A := handle_list disc "Failed to list pods".
Definition handleListNodes {A : Type} (disc : option (list A + error)) : Resp + list A := handle_list disc "Failed to list nodes".

(** ** Middleware *)

Definition isAPIPath (path : string) : bool := (path =? "/api")%string || HasPrefix path "/api/".

Record HttpRequest := MkHttp {
  hq_method : string;
  hq_path : string;
  hq_host : string;
  hq_request_id : string;              (* X-Request-Id *)
  hq_sec_fetch_site : string;
  hq_origin : string;
  hq_referer : string }.

Definition safe_method (m : string) : bool := one_of m ["GET"; "HEAD"; "OPTIONS"].

(** url.Parse: the host, or [None] on an error. *)
Class Urls := url_host : string → option string.

Section csrf.
Context `{Urls}.

Definition same_host (r : HttpRequest) (u : string) : bool :=
  match url_host u with Some h => (h =? hq_host r)%string | None => false end.

(** Whether [csrfCheck] passes a request on. *)
Definition csrfCheck (r : HttpRequest) : bool :=
  if safe_method (hq_method r) then true
  else if negb (is_empty (hq_sec_fetch_site r)) && negb (hq_sec_fetch_site r =? "same-origin")%string
          && negb (hq_sec_fetch_site r =? "none")%string then false
  else if negb (is_empty (hq_origin r)) then same_host r (hq_origin r)
  else if negb (is_empty (hq_referer r)) then same_host r (hq_referer r)
  else true.
End csrf.

(** The headers set on every response. *)
Definition contentSecurityPolicy : string :=
  "default-src 'self'; " +:+
  "script-src 'self' 'unsafe-inline' https://cdn.tailwindcss.com/3.4.17 https://cdn.jsdelivr.net/npm/chart.js@4.5.1/dist/chart.umd.min.js; " +:+
  "style-src 'self' 'unsafe-inline' https://cdn.tailwindcss.com; " +:+
  "img-src 'self' data:; " +:+ "connect-src 'self'; " +:+ "base-uri 'self'; " +:+ "form-action 'self'; " +:+
  "frame-ancestors 'none'; " +:+ "object-src 'none'".

Definition securityHeaders (h : gmap string string) : gmap string string :=
  <["Content-Security-Policy" := contentSecurityPolicy]> (
  <["Cross-Origin-Opener-Policy" := "same-origin"]> (
  <["Cross-Origin-Resource-Policy" := "same-origin"]> (
  <["X-XSS-Protection" := "0"]> (
  <["Permissions-Policy" := "camera=(), microphone=(), geolocation=()"]> (
  <["Referrer-Policy" := "strict-origin-when-cross-origin"]> (
  <["X-Content-Type-Options" := "nosniff"]> (
  <["X-Frame-Options" := "DENY"]> (
  <["Strict-Transport-Security" := "max-age=63072000; includeSubDomains"]> h)))))))).

Definition maxRequestIDLen : Z := 128.

Definition request_id_char (c : ascii) : bool := is_alnum c || char_in c "._-".
Definition validRequestID (id : string) : bool :=
  negb (is_empty id) && (slen id <=? maxRequestIDLen) && forallb_str request_id_char id.

(** The effects of a handler on its response. *)
Inductive wevent := EHeader (code : Z) | EWrite (n : Z) | EPanic.

(** [responseWriter], with what it passed on to the connection. *)
Record responseWriter := MkRW { rw_status : Z; rw_wroteHeader : bool; rw_bytesOut : Z; rw_sent : list Z }.

Definition rw0 : responseWriter := MkRW 200 false 0 [].

Definition WriteHeader (code : Z) (w : responseWriter) : responseWriter :=
  if rw_wroteHeader w then w else MkRW code true (rw_bytesOut w) (rw_sent w ++ [code]).

Definition Write (n : Z) (w : responseWriter) : responseWriter :=
  let w := if rw_wroteHeader w then w else WriteHeader 200 w in
  MkRW (rw_status w) (rw_wroteHeader w) (rw_bytesOut w + n) (rw_sent w).

(** A handler runs up to its panic, if any; [true] when it panicked. *)
Fixpoint run_handler (es : list wevent) (w : responseWriter) : responseWriter * bool :=
  match es with
  | [] => (w, false)
  | EHeader c :: es => run_handler es (WriteHeader c w)
  | EWrite n :: es => run_handler es (Write n w)
  | EPanic :: _ => (w, true)
  end.

(** [recoverMiddleware]: a panic becomes an error reply of [n] bytes. *)
Definition recoverMiddleware (es : list wevent) (n : Z) (w : responseWriter) : responseWriter :=
  let '(w, p) := run_handler es w in
  if p then Write n (WriteHeader 500 w) else w.

(** ** Metrics *)

Definition millisecond : Z := 1000000.
Definition slowRequestThreshold : Z := 5 * second.

Definition isObservabilityPath (path : string) : bool :=
  one_of path ["/healthz"; "/readyz"; "/metrics"; "/debug/vars"] || HasPrefix path "/debug/pprof/".

Definition statusClass (status : Z) : string :=
  if (200 <=? status) && (status <? 300) then "2xx"
  else if (300 <=? status) && (status <? 400) then "3xx"
  else if (400 <=? status) && (status <? 500) then "4xx"
  else if (500 <=? status) && (status <? 600) then "5xx"
  else "other".

Definition durationBucket (d : Z) : string :=
  if d <? 100 * millisecond then "lt_100ms"
  else if d <? 500 * millisecond then "lt_500ms"
  else if d <? second then "lt_1s"
  else if d <? slowRequestThreshold then "lt_5s"
  else "gte_5s".

Definition migrationDurationBucket (d : Z) : string :=
  if d <? 30 * second then "lt_30s"
  else if d <? 2 * minute then "lt_2m"
  else if d <? 10 * minute then "lt_10m"
  else if d <? 30 * minute then "lt_30m"
  else "gte_30m".

(** An expvar.Map of Ints. *)
Abbreviation counters := (gmap string Z) (only parsing).
Definition bump (m : counters) (k : string) : counters := <[k := default 0 (m !! k) + 1]> m.

Record HttpMetrics := MkMetrics {
  hm_requests : Z;
  hm_server_errors : Z;
  hm_slow : Z;
  hm_duration_ms : Z;
  hm_by_class : counters;
  hm_buckets : counters }.

Definition metrics0 : HttpMetrics := MkMetrics 0 0 0 0 ∅ ∅.

Definition recordHTTPRequest (status duration : Z) (m : HttpMetrics) : HttpMetrics :=
  MkMetrics (hm_requests m + 1)
    (if 500 <=? status then hm_server_errors m + 1 else hm_server_errors m)
    (if slowRequestThreshold <=? duration then hm_slow m + 1 else hm_slow m)
    (hm_duration_ms m + Milliseconds duration)
    (bump (hm_by_class m) (statusClass status))
    (bump (hm_buckets m) (durationBucket duration)).

Record MigMetrics := MkMigMetrics { mm_duration_ms : Z; mm_buckets : counters; mm_outcomes : counters }.

Definition recordMigrationDuration (duration : Z) (outcome : string) (m : MigMetrics) : MigMetrics :=
  MkMigMetrics (mm_duration_ms m + Milliseconds duration)
    (bump (mm_buckets m) (migrationDurationBucket duration))
    (if is_empty outcome then mm_outcomes m else bump (mm_outcomes m) outcome).

(** ** The server *)

Section server.
Context `{Urls}.

(** Where a request ends: refused by [csrfCheck], or at the mux. *)
Definition serve_route (enableDebug : bool) (r : HttpRequest) : option routed :=
  if csrfCheck r then Some (mux_route (newMux enableDebug) (hq_method r) (hq_path r)) else None.

(** [requestLogger] around the rest: the handler's writes [es] (the reply of
    [csrfForbidden] when it is refused), the size of a recovered panic's reply, and
    the random bytes of a new request id. *)
Definition requestLogger (r : HttpRequest) (rand : list Z) (es : list wevent) (n duration : Z) (m : HttpMetrics)
    : string * responseWriter * HttpMetrics :=
  let reqID := if validRequestID (hq_request_id r) then hq_request_id r else generateID rand in
  let w := recoverMiddleware es n rw0 in
  (reqID, w, if isObservabilityPath (hq_path r) then m else recordHTTPRequest (rw_status w) duration m).
End server.

(** ** The command line, [Run] *)

(** net.LookupPort knows a port. *)
Class Ports := lookup_port : string → bool.

Definition dash_flags : formals :=
  [("addr", FStr ":8080"); ("enable-debug", FBool false); ("log-level", FStr "info"); ("log-format", FStr "text");
   ("version", FBool false); ("v", FBool false); ("help", FBool false); ("h", FBool false)].

Definition flag_value (fs : formals) (a : gmap string fval) (name : string) : fval :=
  default (FStr "") (match a !! name with Some x => Some x | None => formal_lookup fs name end).
Definition flag_str (fs : formals) (a : gmap string fval) (name : string) : string :=
  match flag_value fs a name with FStr s => s | _ => "" end.
Definition flag_bool (fs : formals) (a : gmap string fval) (name : string) : bool :=
  match flag_value fs a name with FBool b => b | _ => false end.

(** What a constructor of the orchestrator package gives: nothing, an orchestrator
    alone, or one with a discoverer. *)
Definition kube_client : Type := option (option Discoverer).

Inductive dash_action := DashExit (code : Z) | DashServe (addr : string) (debug : bool) (env : AppEnv).

Section run.
Context `{Ports} `{FloatFraction}.

Definition validListenAddr (addr : string) : bool :=
  match SplitHostPort addr with
  | None => false
  | Some (_, port) => if is_empty port then false else lookup_port port
  end.

(** In-cluster credentials first, then the kubeconfig, else no orchestrator. *)
Definition wire (image : string) (inCluster kubeconfig : kube_client) : AppEnv :=
  match inCluster, kubeconfig with
  | Some disc, _ => MkAppEnv image true disc
  | None, Some disc => MkAppEnv image true disc
  | None, None => MkAppEnv image false None
  end.

Definition dash_run (args : list string) (image : string) (inCluster kubeconfig : kube_client) : dash_action :=
  match Parse dash_flags args ∅ with
  | None => DashExit 2
  | Some (a, rest) =>
      let b := flag_bool dash_flags a in
      let s := flag_str dash_flags a in
      if b "help" || b "h" then DashExit 0
      else if b "version" || b "v" then DashExit 0
      else if negb (is_nil (head rest)) then DashExit 2
      else if negb (validListenAddr (s "addr")) then DashExit 2
      else if negb (is_nil (SetupLogger (ToLower (s "log-format")) (ToLower (s "log-level")))) then DashExit 2
      else if negb (is_empty image) && negb (validFormValue image) then DashExit 2
      else DashServe (s "addr") (b "enable-debug") (wire image inCluster kubeconfig)
  end.

(** The exit code, [served] being the result of ListenAndServe: [true] when the
    server was closed. *)
Definition Run (args : list string) (image : string) (inCluster kubeconfig : kube_client) (served : bool) : Z :=
  match dash_run args image inCluster kubeconfig with
  | DashExit code => code
  | DashServe _ _ _ => if served then 0 else 1
  end.
End run.

(** ** Cross-origin requests *)

(** A table in which every pattern of a state-changing handler asks for POST. *)
Lemma newMux_post (dbg : bool) (p : pattern) :
  p ∈ newMux dbg → changes_state (pt_handler p) = true → pt_method p = Some "POST" ∧ pt_subtree p = false.
Proof.
  assert (Hall : forallb (λ p, implb (changes_state (pt_handler p)) (bool_decide (pt_method p = Some "POST" ∧ pt_subtree p = false)))
    (newMux dbg) = true) by (by destruct dbg; vm_compute).
  intros Hp Hc. rewrite forallb_forall in Hall. specialize (Hall p (proj1 (list_elem_of_In _ _) Hp)).
  rewrite Hc in Hall. simpl in Hall. by apply bool_decide_eq_true in Hall.
Qed.

Lemma find_some_elem {A : Type} (f : A → bool) (l : list A) (x : A) : List.find f l = Some x → x ∈ l ∧ f x = true.
Proof. intros [H1 H2]%List.find_some. split; [by apply list_elem_of_In|done]. Qed.

Lemma mux_route_method (ps : list pattern) (method path : string) (h : route_handler) :
  mux_route ps method path = To h → ∃ p, p ∈ ps ∧ pt_handler p = h ∧ method_matches p method = true ∧ path_matches p path = true.
Proof.
  unfold mux_route. destruct (List.find _ ps) as [p|] eqn:H1.
  { intros [= <-]. apply find_some_elem in H1 as [Hp Hf]. exists p. rewrite !andb_true_iff in Hf. tauto. }
  destruct (List.find (λ p, pt_subtree p && _) ps) as [p|] eqn:H2; [|by destruct (existsb _ ps)].
  intros [= <-]. apply find_some_elem in H2 as [Hp Hf]. exists p. rewrite !andb_true_iff in Hf. tauto.
Qed.

Section theorems.
Context `{Urls}.

(** C32. No cross-origin request changes the dashboard's state: a request that
    reaches a handler that starts or stops a migration or a load generator is a POST,
    a browser that reports Sec-Fetch-Site reported same-origin or none, its Origin (or
    its Referer, when there is no Origin) has the dashboard's own host, and the other
    methods never reach such a handler. *)
Theorem state_changes_are_same_origin (dbg : bool) (r : HttpRequest) (h : route_handler)
    (Hd : serve_route dbg r = Some (To h)) (Hc : changes_state h = true) :
  hq_method r = "POST" ∧
  hq_sec_fetch_site r ∈ [""; "same-origin"; "none"] ∧
  (hq_origin r ≠ "" → url_host (hq_origin r) = Some (hq_host r)) ∧
  (hq_origin r = "" → hq_referer r ≠ "" → url_host (hq_referer r) = Some (hq_host r)).
Proof.
  unfold serve_route in Hd. destruct (csrfCheck r) eqn:Hcs; [|done]. injection Hd as Hd.
  apply mux_route_method in Hd as (p & Hp & <- & Hm & _).
  destruct (newMux_post dbg p Hp Hc) as [Hpm _].
  assert (Hpost : hq_method r = "POST").
  { unfold method_matches in Hm. rewrite Hpm in Hm. apply orb_true_iff in Hm as [Hm|Hm]; [|done]. by apply String.eqb_eq in Hm. }
  unfold csrfCheck, same_host in Hcs. rewrite Hpost in Hcs. change (safe_method "POST") with false in Hcs. cbv iota in Hcs.
  split; [done|]. split_and!.
  - destruct (String.eqb_spec (hq_sec_fetch_site r) "") as [->|]; [set_solver|].
    destruct (String.eqb_spec (hq_sec_fetch_site r) "same-origin") as [->|]; [set_solver|].
    destruct (String.eqb_spec (hq_sec_fetch_site r) "none") as [->|]; [set_solver|].
    exfalso. unfold is_empty in Hcs. rewrite (proj2 (String.eqb_neq _ _)) in Hcs by done. done.
  - intros Ho. case_hyp Hcs; [done|]. unfold is_empty in Hcs. rewrite (proj2 (String.eqb_neq (hq_origin r) _)) in Hcs by done.
    simpl in Hcs. destruct (url_host (hq_origin r)); [|done]. by apply String.eqb_eq in Hcs as ->.
  - intros Ho Hr. case_hyp Hcs; [done|]. unfold is_empty in Hcs. rewrite Ho in Hcs. simpl in Hcs.
    rewrite (proj2 (String.eqb_neq (hq_referer r) _)) in Hcs by done. simpl in Hcs.
    destruct (url_host (hq_referer r)); [|done]. by apply String.eqb_eq in Hcs as ->.
Qed.
End theorems.

Definition demo_request : HttpRequest :=
  MkHttp "POST" "/api/migrate" "dash:8080" "" "same-origin" "http://dash:8080" "".
Definition demo_url (u : string) : option string := if (u =? "http://dash:8080")%string then Some "dash:8080" else None.

Lemma state_changes_are_same_origin_witness :
  @serve_route demo_url false demo_request = Some (To Migrate) ∧ demo_url (hq_origin demo_request) = Some "dash:8080".
Proof.
  split; [vm_compute; reflexivity|].
  apply (@state_changes_are_same_origin demo_url false demo_request Migrate); vm_compute; congruence.
Defined.

(** ** The API's methods *)

Definition methods_of (allow : string) : list string := TrimSpace <$> Split "," allow.

Lemma allowed_methods_elem (path allow : string) :
  allowed_methods path = Some allow → (path, allow) ∈ apiAllowedMethods.
Proof.
  unfold allowed_methods. destruct (List.find _ apiAllowedMethods) as [[k v]|] eqn:Hf; [|done].
  apply find_some_elem in Hf as [Hin Hk]. simpl in *. apply String.eqb_eq in Hk as ->. by intros [= <-].
Qed.

(** A route depends on the method only through the patterns. *)
Lemma mux_route_ext (ps : list pattern) (m1 m2 path : string) :
  Forall (λ p, method_matches p m1 = method_matches p m2) ps → mux_route ps m1 path = mux_route ps m2 path.
Proof.
  intros Hf.
  assert (He : ∀ g, List.find (λ p, g p && (path_matches p path && method_matches p m1)) ps =
                    List.find (λ p, g p && (path_matches p path && method_matches p m2)) ps).
  { intros g. induction Hf as [|p ps Hp _ IH]; simpl; [done|]. by rewrite Hp, IH. }
  unfold mux_route. by rewrite !He.
Qed.

(** All methods but three are alike. *)
Lemma other_method (dbg : bool) (method path : string) :
  method ∉ ["POST"; "GET"; "HEAD"] → mux_route (newMux dbg) method path = mux_route (newMux dbg) "OTHER" path.
Proof.
  intros Hm. apply mux_route_ext.
  assert (H1 : ("POST" =? method)%string = false) by (apply String.eqb_neq; set_solver).
  assert (H2 : ("GET" =? method)%string = false) by (apply String.eqb_neq; set_solver).
  assert (H3 : (method =? "HEAD")%string = false) by (apply String.eqb_neq; set_solver).
  destruct dbg; repeat constructor; unfold method_matches; cbn [pt_method get post]; by rewrite ?H1, ?H2, ?H3.
Qed.

Definition listed_route_ok (dbg : bool) (method path allow : string) : Prop :=
  if bool_decide (method ∈ methods_of allow)
  then ∃ h, mux_route (newMux dbg) method path = To h ∧ h ≠ APIFallback
  else mux_route (newMux dbg) method path = To APIFallback.

(** The table of the mux agrees with the table of allowed methods. *)
Lemma listed_route (dbg : bool) (method path allow : string) :
  (path, allow) ∈ apiAllowedMethods → listed_route_ok dbg method path allow.
Proof.
  intros Hin. unfold listed_route_ok.
  assert (Hc : Forall (λ m, Forall (λ pa, if bool_decide (m ∈ methods_of pa.2)
    then ∃ h, mux_route (newMux dbg) m pa.1 = To h ∧ h ≠ APIFallback
    else mux_route (newMux dbg) m pa.1 = To APIFallback) apiAllowedMethods) ["POST"; "GET"; "HEAD"; "OTHER"]).
  { destruct dbg; repeat constructor; vm_compute; first [reflexivity | eexists; split; [reflexivity | discriminate]]. }
  rewrite Forall_forall in Hc.
  destruct (decide (method ∈ ["POST"; "GET"; "HEAD"])) as [Hm|Hm].
  - assert (Hm' : method ∈ ["POST"; "GET"; "HEAD"; "OTHER"]) by set_solver.
    specialize (Hc _ Hm'). rewrite Forall_forall in Hc. by apply (Hc (path, allow)).
  - rewrite !(other_method _ _ _ Hm). assert (Ho : "OTHER" ∈ ["POST"; "GET"; "HEAD"; "OTHER"]) by set_solver.
    specialize (Hc _ Ho). rewrite Forall_forall in Hc. specialize (Hc (path, allow) Hin). cbn [fst snd] in Hc.
    assert (Hall : (method ∉ methods_of allow) ∧ ("OTHER" ∉ methods_of allow)).
    { assert (Ha : allow ∈ ["POST"; get_head]) by (unfold apiAllowedMethods in Hin; set_solver).
      apply elem_of_cons in Ha as [->|Ha]; [change (methods_of "POST") with ["POST"]; set_solver|].
      apply list_elem_of_singleton in Ha as ->. change (methods_of get_head) with ["GET"; "HEAD"]. set_solver. }
    destruct Hall as [H1 H2]. rewrite bool_decide_false in Hc by done. by rewrite bool_decide_false.
Qed.

(** Other paths of the API only match the fallback patterns. *)
Lemma unlisted_route (dbg : bool) (method path : string) :
  isAPIPath path = true → allowed_methods path = None → mux_route (newMux dbg) method path = To APIFallback.
Proof.
  intros Hp Ha. unfold mux_route.
  destruct (List.find _ (newMux dbg)) as [p|] eqn:Hf.
  - apply find_some_elem in Hf as [Hin Hf]. rewrite !andb_true_iff, negb_true_iff in Hf. destruct Hf as [Hs [Hpm _]].
    unfold path_matches in Hpm. rewrite Hs in Hpm. apply String.eqb_eq in Hpm. subst path.
    assert (Hall : forallb (λ p, pt_subtree p || negb (isAPIPath (pt_path p)) || negb (is_nil (allowed_methods (pt_path p)))
      || bool_decide (pt_handler p = APIFallback)) (newMux dbg) = true) by (by destruct dbg; vm_compute).
    rewrite forallb_forall in Hall. specialize (Hall p (proj1 (list_elem_of_In _ _) Hin)).
    rewrite Hs, Hp, Ha in Hall. simpl in Hall. by apply bool_decide_eq_true in Hall as ->.
  - unfold isAPIPath in Hp. apply orb_true_iff in Hp as [Hp|Hp].
    + apply String.eqb_eq in Hp as ->. exfalso. revert Hf. destruct dbg; by vm_compute.
    + assert (Hok : path_matches (Pattern None "/api/" true APIFallback) path = true) by done.
      unfold path_matches in Hok. cbn in Hok. destruct dbg; cbn [List.find newMux app get post pt_subtree andb]; unfold path_matches, method_matches;
        cbn [pt_subtree pt_path pt_method pt_handler]; by rewrite Hok.
Qed.

(** The API answers every method on every path in one of two ways: on a path of
    the API with a method it lists as allowed, the request reaches that path's
    handler; otherwise it reaches the fallback, which answers 405 with that list on a
    known path and 404 on any other, so the Allow header never misstates what is
    routed. *)
Theorem api_routing_matches_allow (dbg : bool) (method path : string) (Hp : isAPIPath path = true) :
  match allowed_methods path with
  | Some allow =>
      (method ∈ methods_of allow ∧ (∃ h, mux_route (newMux dbg) method path = To h ∧ h ≠ APIFallback)) ∨
      ((method ∉ methods_of allow) ∧ mux_route (newMux dbg) method path = To APIFallback ∧
       rs_code (handleAPIFallback method path) = 405 ∧ ("allow", allow) ∈ rs_body (handleAPIFallback method path))
  | None => mux_route (newMux dbg) method path = To APIFallback ∧ rs_code (handleAPIFallback method path) = 404
  end.
Proof.
  destruct (allowed_methods path) as [allow|] eqn:Ha.
  - pose proof (listed_route dbg method path allow (allowed_methods_elem _ _ Ha)) as Hl. unfold listed_route_ok in Hl.
    case_bool_decide; [by left|]. right. unfold handleAPIFallback. rewrite Ha. split_and!; try done. set_solver.
  - split; [by apply unlisted_route|]. unfold handleAPIFallback. by rewrite Ha.
Qed.

Lemma api_routing_matches_allow_witness :
  mux_route (newMux false) "DELETE" "/api/migrate" = To APIFallback ∧ rs_code (handleAPIFallback "DELETE" "/api/migrate") = 405.
Proof.
  destruct (api_routing_matches_allow false "DELETE" "/api/migrate" eq_refl) as [[Hin _]|(_ & H1 & H2 & _)].
  - exfalso. assert (H : bool_decide ("DELETE" ∈ methods_of "POST") = false) by (vm_compute; reflexivity).
    apply bool_decide_eq_false in H. exact (H Hin).
  - split; assumption.
Defined.

(** ** Metering *)

Definition total (m : counters) : Z := map_fold (λ _ v acc, v + acc) 0 m.

Lemma total_bump (m : counters) (k : string) : total (bump m k) = total m + 1.
Proof.
  unfold total, bump.
  assert (Hi : ∀ (m : gmap string Z) j v, m !! j = None →
    map_fold (λ _ v acc, v + acc) 0 (<[j := v]> m) = v + map_fold (λ _ v acc, v + acc) 0 m).
  { intros m' j v Hj. apply map_fold_insert_L; [|done]. intros; lia. }
  destruct (m !! k) as [v|] eqn:Hk.
  - rewrite <- (insert_delete_id m k v Hk) at 2. rewrite <- insert_delete_eq, !Hi by apply lookup_delete_eq. simpl. lia.
  - rewrite Hi by done. simpl. lia.
Qed.

(** What the writer passed on is what it recorded. *)
Definition rw_ok (w : responseWriter) : Prop :=
  if rw_wroteHeader w then rw_sent w = [rw_status w] else rw_sent w = [] ∧ rw_status w = 200.

Lemma WriteHeader_ok (c : Z) (w : responseWriter) : rw_ok w → rw_ok (WriteHeader c w) ∧ rw_wroteHeader (WriteHeader c w) = true.
Proof.
  unfold rw_ok, WriteHeader. destruct (rw_wroteHeader w) eqn:Hw; [by rewrite Hw|]. intros [Hs _]. simpl. by rewrite Hs.
Qed.

Lemma Write_ok (n : Z) (w : responseWriter) : rw_ok w → rw_ok (Write n w) ∧ rw_wroteHeader (Write n w) = true.
Proof.
  intros Hw. unfold Write. destruct (rw_wroteHeader w) eqn:He; [by unfold rw_ok in *; simpl; rewrite He in *|].
  destruct (WriteHeader_ok 200 w Hw) as [H1 H2]. unfold rw_ok in *. simpl. by rewrite H2 in *.
Qed.

Lemma run_handler_ok (es : list wevent) (w : responseWriter) : rw_ok w → rw_ok (run_handler es w).1.
Proof.
  revert w. induction es as [|[c|n|] es IH]; intros w Hw; simpl; [done| | |done].
  - by apply IH, WriteHeader_ok.
  - by apply IH, Write_ok.
Qed.

(** A panic before anything was written. *)
Definition panics_first (es : list wevent) : bool := match es with EPanic :: _ => true | _ => false end.

(** A request with what its handler does and how long it takes. *)
Record served := Served { sv_request : HttpRequest; sv_rand : list Z; sv_events : list wevent; sv_reply : Z; sv_duration : Z }.

Fixpoint serve_all (rs : list served) (m : HttpMetrics) : HttpMetrics :=
  match rs with
  | [] => m
  | s :: rs => serve_all rs (requestLogger (sv_request s) (sv_rand s) (sv_events s) (sv_reply s) (sv_duration s) m).2
  end.

Definition metered (rs : list served) : list served :=
  List.filter (λ s, negb (isObservabilityPath (hq_path (sv_request s)))) rs.

Lemma serve_all_counts (rs : list served) (m : HttpMetrics) :
  let m' := serve_all rs m in
  let n := Z.of_nat (length (metered rs)) in
  hm_requests m' = hm_requests m + n ∧ total (hm_by_class m') = total (hm_by_class m) + n ∧
  total (hm_buckets m') = total (hm_buckets m) + n.
Proof.
  revert m. induction rs as [|s rs IH]; intros m; cbn [serve_all metered List.filter length]; [lia|].
  fold (metered rs). unfold requestLogger. cbn [snd].
  destruct (isObservabilityPath (hq_path (sv_request s))); cbn [negb]; [apply IH|]. cbn [length].
  destruct (IH (recordHTTPRequest (rw_status (recoverMiddleware (sv_events s) (sv_reply s) rw0)) (sv_duration s) m)) as (H1 & H2 & H3).
  cbn [recordHTTPRequest hm_requests hm_by_class hm_buckets] in *. rewrite !total_bump in *. lia.
Qed.

Lemma generateID_chars (b : list Z) : Forall octet b → forallb_str request_id_char (generateID b) = true.
Proof.
  unfold generateID. induction 1 as [|x b Hx _ IH]; [done|].
  assert (Hd : ∀ z, 0 ≤ z < 16 → request_id_char (hex_digit z) = true).
  { intros z Hz. assert (Hf : forallb (λ k, request_id_char (hex_digit (Z.of_nat k))) (seq 0 16) = true) by (by vm_compute).
    rewrite forallb_forall in Hf. rewrite <- (Z2Nat.id z) by lia. apply Hf, in_seq. lia. }
  unfold octet in Hx. cbn [hex_encode forallb_str]. rewrite !Hd, IH; [done| |].
  - apply Z.mod_pos_bound. lia.
  - split; [apply Z.div_pos; lia|apply Z.div_lt_upper_bound; lia].
Qed.

(** Requests are metered once and with the status the client got: whatever a
    handler writes and wherever it panics, at most one status line is sent and it is
    the one recorded, a panic before the first write is answered with 500, the
    propagated request id is safe for headers and logs; and over any sequence of
    requests the request counter, the counts by status class and the duration buckets
    all total the requests that are not probes or scrapes. *)
Theorem requests_metered_once :
  (∀ r rand es n d m,
    let '(reqID, w, _) := requestLogger r rand es n d m in
    (rw_sent w = [rw_status w] ∨ (rw_sent w = [] ∧ rw_status w = 200 ∧ (run_handler es rw0).2 = false)) ∧
    (panics_first es = true → rw_status w = 500) ∧
    (Forall octet rand → forallb_str request_id_char reqID = true)) ∧
  (∀ rs, let m := serve_all rs metrics0 in
    hm_requests m = Z.of_nat (length (metered rs)) ∧
    total (hm_by_class m) = hm_requests m ∧ total (hm_buckets m) = hm_requests m).
Proof.
  split.
  - intros r rand es n d m. unfold requestLogger, recoverMiddleware. split_and!.
    + pose proof (run_handler_ok es rw0) as Hok. specialize (Hok (conj eq_refl eq_refl)).
      destruct (run_handler es rw0) as [w p]. simpl in *. destruct p.
      * left. destruct (WriteHeader_ok 500 w Hok) as [H1 _]. destruct (Write_ok n _ H1) as [H2 H3].
        unfold rw_ok in H2. by rewrite H3 in H2.
      * unfold rw_ok in Hok. destruct (rw_wroteHeader w); [by left|]. right. tauto.
    + destruct es as [|[]]; by intros.
    + intros Hr. destruct (validRequestID (hq_request_id r)) eqn:Hv.
      * unfold validRequestID in Hv. rewrite !andb_true_iff in Hv. tauto.
      * apply generateID_chars. done.
  - intros rs m. destruct (serve_all_counts rs metrics0) as (H1 & H2 & H3). unfold m. simpl in *.
    unfold total at 2 in H2. unfold total at 2 in H3. rewrite map_fold_empty in H2, H3. lia.
Qed.
