(* ===== verification/Daemons.v ===== *)
(** * The daemons around the components
    (internal/orchestrator: discovery.go, discovery_native.go; cmd/katamaran-mgr;
    cmd/katamaran-orchestrator; cmd/katamaran-factory)

    The cluster discovery calls, the admission webhook, the leader's bookkeeping and
    the command lines.  The API server's answers are inputs; JSON, cryptography, the
    HTTP servers and leader election itself are libraries.  The callbacks of the
    leader are the subject of file Leader. *)
From S2P Require Import Prelude GoErrors GoStrings QmpTypes Effects Flags OrchTypes OrchValidate OrchApply Clients Cli OrchRun Admission Reconciler.
From S2P Require Import Dashboard DashMigrate DashNet DashHttp.

(** ** Discovery *)

Definition KataRuntimeClassName : string := "kata-qemu".
Definition KataNodeLabel : string := "katacontainers.io/kata-runtime=true".

(** The parts of a pod and of a node the code reads. *)
Record PodObj := MkPodObj {
  po_Namespace : string;
  po_Name : string;
  po_RuntimeClassName : option string;
  po_NodeName : string;
  po_PodIP : string;
  po_NodeSelector : gmap string string;
  po_Tolerations : list Toleration }.

Record NodeObj := MkNodeObj { no_Name : string; no_Addresses : list (string * string) }.

Record PodInfo := MkPodInfo { pi_Namespace : string; pi_Name : string; pi_Node : string; pi_PodIP : string }.
Record NodeInfo := MkNodeInfo { ni_Name : string; ni_InternalIP : string }.

(** The answers of the API server. *)
Record KubeClient := MkKube {
  kc_pods : list PodObj + error;
  kc_nodes : string → list NodeObj + error;          (* by label selector *)
  kc_pod : string → string → PodObj + error;
  kc_node : string → NodeObj + error;
  kc_patch_pod : string → string → option error;
  kc_delete_pod : string → string → option error }.

Definition is_kata (p : PodObj) : bool :=
  match po_RuntimeClassName p with Some c => (c =? KataRuntimeClassName)%string | None => false end.

Fixpoint kata_pods (ps : list PodObj) : list PodInfo :=
  match ps with
  | [] => []
  | p :: ps =>
      if is_kata p then MkPodInfo (po_Namespace p) (po_Name p) (po_NodeName p) (po_PodIP p) :: kata_pods ps else kata_pods ps
  end.

Definition ListKataPods (c : KubeClient) : list PodInfo + error :=
  match kc_pods c with
  | inr e => inr (ErrWrap "list pods" e)
  | inl ps => inl (kata_pods ps)
  end.

Definition ListKataNodes (c : KubeClient) : list NodeInfo + error :=
  match kc_nodes c KataNodeLabel with
  | inr e => inr (ErrWrap "list nodes" e)
  | inl ns => inl (map (λ n, MkNodeInfo (no_Name n) (pickInternalIP (no_Addresses n))) ns)
  end.

Definition lookup_pod_node (c : KubeClient) (namespace name : string) : string + error :=
  match kc_pod c namespace name with
  | inr e => inr (ErrWrap "get pod" e)
  | inl p => if is_empty (po_NodeName p) then inr (ErrNew "pod has no nodeName") else inl (po_NodeName p)
  end.

Definition lookup_node_internal_ip (c : KubeClient) (name : string) : string + error :=
  match kc_node c name with
  | inr e => inr (ErrWrap "get node" e)
  | inl n =>
      let ip := pickInternalIP (no_Addresses n) in
      if is_empty ip then inr (ErrNew "node has no InternalIP") else inl ip
  end.

Definition LookupPodScheduling (c : KubeClient) (namespace name : string) : PodScheduling + error :=
  match kc_pod c namespace name with
  | inr e => inr (ErrWrap "get pod" e)
  | inl p => inl (MkSched (po_NodeSelector p) (po_Tolerations p))
  end.

(** The writes that are sent, in order, with the result. *)
Inductive pod_call := PatchOwners (namespace name : string) | RemovePod (namespace name : string).

Definition DeletePod (c : KubeClient) (namespace name : string) : list pod_call * option error :=
  ([RemovePod namespace name], kc_delete_pod c namespace name).

Definition OrphanAndDeletePod (c : KubeClient) (namespace name : string) : list pod_call * option error :=
  match kc_patch_pod c namespace name with
  | Some e => ([PatchOwners namespace name], Some (ErrWrap "orphan pod" e))
  | None => ([PatchOwners namespace name; RemovePod namespace name], kc_delete_pod c namespace name)
  end.

(** The discoverer the dashboard uses. *)
Definition native_discoverer (c : KubeClient) : Discoverer :=
  MkDiscoverer (lookup_pod_node c) (lookup_node_internal_ip c).

(** ** The admission webhook (webhook.go) *)

(** A decoded AdmissionReview: the request's UID, and the Pod or the decoding
    error. *)
Record Review := MkReview { rv_UID : string; rv_Object : PodMeta + error }.

Record AdmissionResponse := MkAdmission { ar_UID : string; ar_Allowed : bool; ar_Code : Z; ar_Message : option string }.

Section webhook.
Context `{ErrorText}.

(** The body was not read, or held no review with a request; else the review. *)
Inductive admit_body := ReadFailed (e : error) | BadReview (what : string) | GoodReview (r : Review).

Definition writeAdmissionAllow (uid msg : string) : AdmissionResponse :=
  MkAdmission uid true 0 (if is_empty msg then None else Some msg).

Definition handleAdmit (clock : nat → Z) (b : admit_body) (reg : gmap string pendingAdoption)
    : AdmissionResponse * gmap string pendingAdoption :=
  match b with
  | ReadFailed e => (writeAdmissionAllow "" ("read body: " +:+ error_text e), reg)
  | BadReview what => (writeAdmissionAllow "" ("decode AdmissionReview: " +:+ what), reg)
  | GoodReview r =>
      match rv_Object r with
      | inr e => (MkAdmission (rv_UID r) true 0 (Some ("decode Pod: " +:+ error_text e)), reg)
      | inl pod =>
          let '(msg, reg) := ShouldDenyPodCreate clock pod reg in
          if is_empty msg then (MkAdmission (rv_UID r) true 0 None, reg)
          else (MkAdmission (rv_UID r) false 403 (Some msg), reg)
      end
  end.
End webhook.

(** The loop of [bytesEqual] after the length check. *)
Fixpoint bytes_loop (a b : list Z) : bool :=
  match a, b with
  | x :: a, y :: b => if x =? y then bytes_loop a b else false
  | _, _ => true
  end.
Definition bytesEqual (a b : list Z) : bool := if (length a =? length b)%nat then bytes_loop a b else false.

(** The CA bundles of the webhooks after the loop, and whether one changed. *)
Fixpoint patch_bundles (caBundle : list Z) (webhooks : list (list Z)) : list (list Z) * bool :=
  match webhooks with
  | [] => ([], false)
  | w :: ws =>
      let '(ws', changed) := patch_bundles caBundle ws in
      if bytesEqual w caBundle then (w :: ws', changed) else (caBundle :: ws', true)
  end.

(** The configuration sent to the API server, if any, and the result. *)
Definition patchWebhookConfigCABundle (get : list (list Z) + error) (update : list (list Z) → option error) (caBundle : list Z)
    : option (list (list Z)) * option error :=
  match get with
  | inr e => if errors_Is e ErrNotFound then (None, None) else (None, Some (ErrWrap "get" e))
  | inl ws =>
      let '(ws', changed) := patch_bundles caBundle ws in
      if changed then (Some ws', ErrWrap "update" <$> update ws') else (None, None)
  end.

(** The serving certificate, which is its own CA: the names and, in seconds, the
    validity.  [ce_key], [ce_serial], [ce_create], [ce_marshal] and [ce_pair] are the
    errors of the cryptographic calls. *)
Record Cert := MkCert { ct_CommonName : string; ct_DNSNames : list string; ct_NotBefore : Z; ct_NotAfter : Z; ct_IsCA : bool }.
Record cert_env := MkCertEnv {
  ce_key : option error; ce_serial : option error; ce_create : option error; ce_marshal : option error; ce_pair : option error }.

Definition generateWebhookCert (serviceName namespace : string) (now : Z) (e : cert_env) : Cert + error :=
  match ce_key e with
  | Some x => inr (ErrWrap "generate key" x)
  | None =>
      match ce_serial e with
      | Some x => inr (ErrWrap "serial" x)
      | None =>
          let svc := serviceName +:+ "." +:+ namespace +:+ ".svc" in
          let template := MkCert svc [svc; svc +:+ ".cluster.local"; serviceName] (now - 5 * 60) (now + 365 * 24 * 3600) true in
          match ce_create e with
          | Some x => inr (ErrWrap "create cert" x)
          | None =>
              match ce_marshal e with
              | Some x => inr (ErrWrap "marshal key" x)
              | None => match ce_pair e with Some x => inr (ErrWrap "X509KeyPair" x) | None => inl template end
              end
          end
      end
  end.

(** What the API server checks of a certificate that it trusts: the name it dials
    and the time. *)
Definition verifies (c : Cert) (name : string) (now : Z) : bool :=
  bool_decide (name ∈ ct_DNSNames c) && (ct_NotBefore c <=? now) && (now <=? ct_NotAfter c).

(** The API server dials the webhook as service.namespace.svc.  The certificate is
    generated once per process and not renewed: it is good from five minutes before
    the start of the process to 365 days after it, and never again. *)
Lemma webhook_cert_window (service namespace : string) (start now : Z) (e : cert_env) (c : Cert) :
  generateWebhookCert service namespace start e = inl c →
  verifies c (service +:+ "." +:+ namespace +:+ ".svc") now = true ↔ start - 300 ≤ now ≤ start + 31536000.
Proof.
  unfold generateWebhookCert. repeat (case_match; try done). intros [= <-]. unfold verifies. cbn [ct_DNSNames ct_NotBefore ct_NotAfter].
  rewrite bool_decide_true by (by left). rewrite andb_true_iff. cbn [andb]. rewrite !Z.leb_le. lia.
Qed.

(** [setLeaderLabel] on the labels of the pod; [patched] says whether the API
    server accepts the patch. *)
Definition leaderLabel : string := "katamaran.io/leader".
Definition setLeaderLabel (namespace podName : string) (leader patched : bool) (labels : gmap string string) : gmap string string :=
  if is_empty podName || is_empty namespace then labels
  else if patched then (if leader then <[leaderLabel := "true"]> labels else base.delete leaderLabel labels)
  else labels.

(** ** The manager's command line (main.go, debug.go) *)

Definition mgr_flags : formals :=
  [("kubeconfig", FStr ""); ("addr", FStr ":8081"); ("leader-namespace", FStr "kube-system"); ("leader-name", FStr "katamaran-mgr");
   ("disable-leader-election", FBool false); ("version", FBool false); ("v", FBool false);
   ("pod-wait-timeout", FDur (60 * second)); ("webhook-addr", FStr ":9443"); ("webhook-service", FStr "katamaran-mgr-webhook");
   ("webhook-namespace", FStr "kube-system"); ("disable-webhook", FBool false);
   ("log-format", FStr "json"); ("log-level", FStr "info"); ("help", FBool false); ("h", FBool false)].

Definition flag_num (fs : formals) (a : gmap string fval) (name : string) : Z :=
  match flag_value fs a name with FInt z | FDur z => z | _ => 0 end.

(** What the manager runs with: its own client, the orchestrator, and the discoverer
    if there is one. *)
Record mgr_config (client : Type) := MkMgr {
  mg_client : client;
  mg_orch : native client;
  mg_disc : option client;
  mg_leaderElection : bool;
  mg_leaderNamespace : string;
  mg_leaderName : string;
  mg_webhook : option Cert }.                 (* the serving certificate *)
Arguments MkMgr {client}.
Arguments mg_client {client}.
Arguments mg_orch {client}.
Arguments mg_disc {client}.

Inductive mgr_action (client : Type) := MgrExit (code : Z) | MgrRun (cfg : mgr_config client).
Arguments MgrExit {client}.
Arguments MgrRun {client}.

(** What start-up finds: client-go, the dynamic client of a configuration, the
    cryptographic calls and the time. *)
Record mgr_world (cfg client : Type) := MkMgrWorld {
  mw_kube : kube_world cfg client;
  mw_dynamic : cfg → option error;
  mw_crypto : cert_env;
  mw_now : Z }.
Arguments MkMgrWorld {cfg client}.
Arguments mw_kube {cfg client}.
Arguments mw_dynamic {cfg client}.
Arguments mw_crypto {cfg client}.
Arguments mw_now {cfg client}.

Section mains.
Context `{Ports} `{FloatFraction} `{ErrorText}.

(** KATAMARAN_POD_WAIT_TIMEOUT wins over the flag when it is a positive duration. *)
Definition pod_wait_timeout (env : string) (flag : Z) : Z :=
  if is_empty env then flag
  else match ParseDuration env with Some d => if 0 <? d then d else flag | None => flag end.

Definition mgr_start {cfg client : Type} (w : mgr_world cfg client) (env : string) (a : gmap string fval) : mgr_action client :=
  let kubeconfig := flag_str mgr_flags a "kubeconfig" in
  match loadConfig (mw_kube w) kubeconfig with
  | inr _ => MgrExit 1
  | inl c =>
      if negb (is_nil (mw_dynamic w c)) then MgrExit 1
      else
        match kw_clientset (mw_kube w) c with
        | inr _ => MgrExit 1
        | inl kube =>
            match wire_orch (mw_kube w) kubeconfig with
            | inr _ => MgrExit 1
            | inl orch =>
                let orch := SetPodWaitTimeout orch (pod_wait_timeout env (flag_num mgr_flags a "pod-wait-timeout")) in
                let disc := match wire_disc (mw_kube w) kubeconfig with inl d => Some d | inr _ => None end in
                let run cert := MgrRun (MkMgr kube orch disc (negb (flag_bool mgr_flags a "disable-leader-election"))
                                  (flag_str mgr_flags a "leader-namespace") (flag_str mgr_flags a "leader-name") cert) in
                if flag_bool mgr_flags a "disable-webhook" then run None
                else
                  match generateWebhookCert (flag_str mgr_flags a "webhook-service") (flag_str mgr_flags a "webhook-namespace")
                          (mw_now w) (mw_crypto w) with
                  | inr _ => MgrExit 1
                  | inl cert => run (Some cert)
                  end
            end
        end
  end.

Definition mgr_main {cfg client : Type} (w : mgr_world cfg client) (env : string) (args : list string) : mgr_action client :=
  match Parse mgr_flags args ∅ with
  | None => MgrExit 2
  | Some (a, rest) =>
      let b := flag_bool mgr_flags a in
      let s := flag_str mgr_flags a in
      if b "help" || b "h" then MgrExit 0
      else if b "version" || b "v" then MgrExit 0
      else if negb (is_nil (head rest)) then MgrExit 2
      else if negb (validListenAddr (s "addr")) then MgrExit 2
      else if flag_num mgr_flags a "pod-wait-timeout" <=? 0 then MgrExit 2
      else if negb (b "disable-leader-election") && is_empty (TrimSpace (s "leader-namespace")) then MgrExit 2
      else if negb (b "disable-leader-election") && is_empty (TrimSpace (s "leader-name")) then MgrExit 2
      else if negb (is_nil (SetupLogger (ToLower (s "log-format")) (ToLower (s "log-level")))) then MgrExit 2
      else mgr_start w env a
  end.

(** [runReconciler]: the exit code when the reconciler returns. *)
Definition runReconciler (err : option error) : Z :=
  match err with Some e => if errors_Is e ErrCanceled then 0 else 1 | None => 0 end.

(** ** katamaran-orchestrator *)

Definition maxRequestJSONBytes : Z := 2 ^ 20.

(** A json.Decoder that rejects unknown fields, on a request and what follows it:
    [true] when nothing does. *)
Definition decoder : Type := string → option (Request * bool).

(** [body] is what the limited reader gives: at most one byte over the limit. *)
Definition readRequest (decode : decoder) (body : string + error) : Request + error :=
  match body with
  | inr e => inr (ErrWrap "read stdin" e)
  | inl body =>
      if slen body >? maxRequestJSONBytes then inr (ErrNew "request JSON must be at most 1048576 bytes")
      else
        let body := TrimSpace body in
        if is_empty body then inr (ErrNew "request JSON is required on stdin")
        else
          match decode body with
          | None => inr (ErrNew "decode request JSON")
          | Some (_, false) => inr (ErrNew "request JSON must contain a single object")
          | Some (req, true) => inl req
          end
  end.

Record statusOutput := MkStatusOutput {
  so_ID : string; so_Phase : string; so_Time : Z; so_Msg : string; so_Err : string;
  so_RAMTransferred : Z; so_RAMTotal : Z; so_DowntimeMS : Z; so_AppliedDowntimeMS : Z; so_RTTMS : Z; so_AutoDowntime : bool }.

Definition newStatusOutput (u : StatusUpdate) (when : Z) : statusOutput :=
  MkStatusOutput (su_ID u) (su_Phase u) when (su_Message u)
    (match su_Error u with Some e => error_text e | None => "" end)
    (su_RAMTransferred u) (su_RAMTotal u) (su_DowntimeMS u) (su_AppliedDowntimeMS u) (su_RTTMS u) (su_AutoDowntime u).

Definition orch_flags : formals :=
  [("kubeconfig", FStr ""); ("log-format", FStr "text"); ("log-level", FStr "info");
   ("version", FBool false); ("v", FBool false); ("help", FBool false); ("h", FBool false)].

(** The loop over the updates: the lines written and the exit code; [written i]
    says whether the i-th line can be written. *)
Fixpoint stream_updates (written : nat → bool) (i : nat) (exit : Z) (us : list timed) : list statusOutput * option Z :=
  match us with
  | [] => ([], Some exit)
  | (u, when) :: us =>
      if negb (written i) then ([], None)
      else
        let exit := if (su_Phase u =? PhaseFailed)%string then 1 else exit in
        let '(out, e) := stream_updates written (S i) exit us in
        (newStatusOutput u when :: out, e)
  end.

(** [interrupted]: the context was cancelled by a signal before the end. *)
Definition stream_exit (written : nat → bool) (interrupted : bool) (us : list timed) : list statusOutput * Z :=
  let '(out, e) := stream_updates written 0 0 us in
  (out, match e with None => 1 | Some exit => if interrupted then 130 else exit end).

Inductive orch_action := OrchExit (code : Z) | OrchSubmit (req : Request).

Definition orch_main (args : list string) (tty : bool) (decode : decoder) (body : string + error) : orch_action :=
  match Parse orch_flags args ∅ with
  | None => OrchExit 2
  | Some (a, rest) =>
      let b := flag_bool orch_flags a in
      let s := flag_str orch_flags a in
      if b "help" || b "h" then OrchExit 0
      else if b "version" || b "v" then OrchExit 0
      else if negb (is_nil (head rest)) then OrchExit 2
      else if negb (is_nil (SetupLogger (ToLower (s "log-format")) (ToLower (s "log-level")))) then OrchExit 2
      else if tty then OrchExit 2
      else
        match readRequest decode body with
        | inr _ => OrchExit 2
        | inl req => if is_nil (Validate req) then OrchSubmit req else OrchExit 2
        end
  end.

(** After [orch_main]: no orchestrator, a refused run or watch exit with 1. *)
Definition orch_finish (wired : bool) (b : orch_run) (written : nat → bool) (interrupted : bool) : list statusOutput * Z :=
  if negb wired then ([], 1)
  else
    match b with
    | Updates _ us => stream_exit written interrupted us
    | ApplyFails _ | WatchFails _ _ => ([], 1)
    | ApplyPanics _ | WatchPanics _ _ => ([], 2)      (* the Go runtime's exit status *)
    | UpdatePanics _ us _ _ =>
        let '(out, e) := stream_updates written 0 0 us in (out, match e with None => 1 | Some _ => 2 end)
    end.

(** ** katamaran-factory *)

Definition factory_flags : formals :=
  [("listen", FStr "/var/run/katamaran/factory.sock"); ("watch-dir", FStr "/run/vc/vm/"); ("log-format", FStr "json");
   ("log-level", FStr "info"); ("version", FBool false); ("v", FBool false); ("help", FBool false); ("h", FBool false)].

Inductive factory_action := FactoryExit (code : Z) | FactoryServe (listen watchDir : string).

(** [socket] says which step of preparing the socket fails: none, the directory,
    the removal of a stale socket, listening or the mode. *)
Definition factory_main (args : list string) (socket : option error) : factory_action :=
  match Parse factory_flags args ∅ with
  | None => FactoryExit 2
  | Some (a, rest) =>
      let b := flag_bool factory_flags a in
      let s := flag_str factory_flags a in
      if b "help" || b "h" then FactoryExit 0
      else if b "version" || b "v" then FactoryExit 0
      else if negb (is_nil (head rest)) then FactoryExit 2
      else if is_empty (s "listen") then FactoryExit 2
      else if is_empty (s "watch-dir") then FactoryExit 2
      else if negb (is_nil (SetupLogger (ToLower (s "log-format")) (ToLower (s "log-level")))) then FactoryExit 2
      else match socket with Some _ => FactoryExit 1 | None => FactoryServe (s "listen") (s "watch-dir") end
  end.

(** [recoverUnaryInterceptor]: a panic of a handler becomes an Internal status. *)
Definition recoverUnaryInterceptor {A : Type} (handler : option (A + error)) : A + error :=
  match handler with Some r => r | None => inr (ErrNew "internal server error") end.
End mains.

(** ** The manager's clients and its wait for pods *)

Section set_up.
Context `{Ports} `{FloatFraction} {cfg client : Type}.

Lemma pod_wait_timeout_pos (env : string) (flag : Z) : 0 < flag → 0 < pod_wait_timeout env flag.
Proof.
  intros Hf. unfold pod_wait_timeout. destruct (is_empty env); [done|]. destruct (ParseDuration env) as [d|]; [|done].
  by destruct (Z.ltb_spec 0 d).
Qed.

Lemma mgr_main_start (w : mgr_world cfg client) (env : string) (args : list string) (m : mgr_config client) :
  mgr_main w env args = MgrRun m →
  ∃ a rest, Parse mgr_flags args ∅ = Some (a, rest) ∧ 0 < flag_num mgr_flags a "pod-wait-timeout" ∧ mgr_start w env a = MgrRun m.
Proof.
  unfold mgr_main. destruct (Parse mgr_flags args ∅) as [[a rest]|]; [|done].
  repeat (case_match; try done). intros Hs. exists a, rest. split_and!; [done| |done].
  match goal with H : (_ <=? 0) = false |- _ => by apply Z.leb_gt in H end.
Qed.

(** A manager that starts talks to one cluster: its own client, the orchestrator's
    and the discoverer's are those of one configuration, and the discoverer is always
    there.  Its orchestrator waits for the pods of a Job as long as the request
    says, for zero as long as KATAMARAN_POD_WAIT_TIMEOUT says if that is a positive
    duration, and otherwise as long as the flag says; this time is positive for
    every request of at most 9223372036 seconds. *)
Theorem manager_set_up (w : mgr_world cfg client) (env : string) (args : list string) (m : mgr_config client)
    (Hrun : mgr_main w env args = MgrRun m) :
  na_client (mg_orch m) = mg_client m ∧ mg_disc m = Some (mg_client m) ∧
  ∃ a rest, Parse mgr_flags args ∅ = Some (a, rest) ∧
    let default := pod_wait_timeout env (flag_num mgr_flags a "pod-wait-timeout") in
    0 < default ∧
    ∀ req, rq_PodWaitTimeoutSeconds req ≤ 9223372036 →
      let t := pod_wait (na_podWaitTimeout (mg_orch m)) (rq_PodWaitTimeoutSeconds req) in
      0 < t ∧ t = if 0 <? rq_PodWaitTimeoutSeconds req then rq_PodWaitTimeoutSeconds req * 1000000000 else default.
Proof.
  apply mgr_main_start in Hrun as (a & rest & Hp & Hpos & Hs). apply (pod_wait_timeout_pos env) in Hpos as Hd. unfold mgr_start in Hs.
  destruct (loadConfig (mw_kube w) _) as [c|] eqn:Hl; [|done]. destruct (negb (is_nil (mw_dynamic w c))); [done|].
  destruct (kw_clientset (mw_kube w) c) as [cs|] eqn:Hc; [|done].
  destruct (manager_one_client _ _ _ _ Hl Hc) as [Ho Hdi]. rewrite Ho, Hdi in Hs.
  assert (Hm : ∃ le ln n cert, m = MkMgr cs (SetPodWaitTimeout (newFromClient cs) (pod_wait_timeout env (flag_num mgr_flags a "pod-wait-timeout"))) (Some cs) le ln n cert)
    by (repeat case_match; simplify_eq; eauto).
  destruct Hm as (le & ln & n & cert & ->).
  cbn [mg_orch mg_client mg_disc]. unfold SetPodWaitTimeout. rewrite Z.gtb_ltb, (proj2 (Z.ltb_lt 0 _) Hd). simpl na_client.
  split_and!; [done..|]. exists a, rest. split_and!; [done..|]. intros req Hb. cbn [na_podWaitTimeout].
  unfold pod_wait. rewrite Z.gtb_ltb. destruct (Z.ltb_spec 0 (rq_PodWaitTimeoutSeconds req)); [|done].
  rewrite wrap64_id by lia. lia.
Qed.
End set_up.

(** The seconds of a request have no upper bound: from 9223372037 on the duration
    wraps around, and the wait is over before it starts. *)
Lemma long_pod_wait_wraps (n : Z) : 9223372037 ≤ n < 2 * 9223372037 → pod_wait defaultPodWaitTimeout n < 0.
Proof.
  intros Hn. unfold pod_wait. rewrite Z.gtb_ltb, (proj2 (Z.ltb_lt 0 n)) by lia. rewrite wrap64_over by lia. lia.
Qed.

Definition demo_kube : kube_world string string := MkKubeWorld (inr (ErrNew "not in a cluster")) (λ _ _, inl "dev") (λ c, inl c).

Definition demo_mgr_world : mgr_world string string := MkMgrWorld demo_kube (λ _, None) (MkCertEnv None None None None None) 0.

Lemma manager_set_up_witness :
  ∃ m, @mgr_main (λ _, true) (λ _ _ _, 0) string string demo_mgr_world "2m" ["--pod-wait-timeout=30s"] = MgrRun m ∧
    mg_disc m = Some (mg_client m) ∧ pod_wait (na_podWaitTimeout (mg_orch m)) 0 = 120 * 1000000000.
Proof.
  destruct (@mgr_main (λ _, true) (λ _ _ _, 0) string string demo_mgr_world "2m" ["--pod-wait-timeout=30s"]) as [c|m] eqn:Hm;
    [vm_compute in Hm; discriminate|].
  exists m. split; [reflexivity|].
  destruct (@manager_set_up (λ _, true) (λ _ _ _, 0) string string demo_mgr_world "2m" ["--pod-wait-timeout=30s"] m Hm)
    as (_ & Hd & _).
  split; [exact Hd|]. vm_compute in Hm. injection Hm as <-. vm_compute. reflexivity.
Defined.

(** ** What the consumers of a run report *)

Section consumers.
Context `{ErrorText}.




End consumers.


(** ** The webhook *)

(** The admission webhook fails open and denies only for the registry's sake:
    whatever it is sent, it answers with the request's UID when there is one, it
    denies (with 403) exactly when the body is a review of a Pod that
    ShouldDenyPodCreate refuses, and a body that cannot be read or decoded leaves the
    registry untouched. *)
Theorem webhook_fails_open `{ErrorText} (clock : nat → Z) (b : admit_body) (reg : gmap string pendingAdoption) :
  let '(resp, reg') := handleAdmit clock b reg in
  (ar_Allowed resp = false ↔
     ∃ uid pod, b = GoodReview (MkReview uid (inl pod)) ∧ (ShouldDenyPodCreate clock pod reg).1 ≠ "") ∧
  (ar_Code resp = 403 ↔ ar_Allowed resp = false) ∧
  (∀ r, b = GoodReview r → ar_UID resp = rv_UID r) ∧
  ((∀ uid pod, b ≠ GoodReview (MkReview uid (inl pod))) → reg' = reg ∧ ar_Allowed resp = true).
Proof.
  destruct b as [e|what|[uid [pod|e]]]; cbn [handleAdmit rv_Object rv_UID];
    try (split_and!; cbn; [naive_solver|done|naive_solver|done]).
  destruct (ShouldDenyPodCreate clock pod reg) as [msg reg'] eqn:Hd.
  destruct (is_empty msg) eqn:He; cbn; split_and!; try naive_solver.
  - split; [done|]. intros (u & p & [= <- <-] & Hn). rewrite Hd in Hn. apply String.eqb_eq in He. done.
  - split; [|done]. intros _. exists uid, pod. split; [done|]. rewrite Hd. simpl. intros ->. done.
Qed.

(** ** The leader's CA bundle *)

Lemma bytesEqual_eq (a b : list Z) : bytesEqual a b = true ↔ a = b.
Proof.
  unfold bytesEqual. revert b. induction a as [|x a IH]; intros [|y b]; simpl; try done.
  specialize (IH b). destruct (length a =? length b)%nat; simpl in *.
  - destruct (Z.eqb_spec x y) as [->|]; [|naive_solver]. rewrite IH. naive_solver.
  - split; [done|]. intros [= -> ->]. by apply IH.
Qed.

Lemma patch_bundles_spec (ca : list Z) (ws : list (list Z)) :
  (patch_bundles ca ws).1 = replicate (length ws) ca ∧
  ((patch_bundles ca ws).2 = false ↔ ws = replicate (length ws) ca).
Proof.
  induction ws as [|w ws [IH1 IH2]]; [done|]. simpl. destruct (patch_bundles ca ws) as [ws' c]. simpl in *.
  destruct (bytesEqual w ca) eqn:Hb; simpl.
  - apply bytesEqual_eq in Hb as ->. split; [by rewrite IH1|]. rewrite IH2. split; [by intros <-|by intros [= <-]].
  - split; [by rewrite IH1|]. split; [done|]. intros [= -> _].
    assert (bytesEqual ca ca = true) by by apply bytesEqual_eq. congruence.
Qed.

(** The leader's patch of the webhook configuration is idempotent: it sends an
    update exactly when some webhook of the configuration lacks the leader's CA
    bundle, the configuration it sends has that bundle on every webhook and the same
    number of webhooks, and run again on what it sent it sends nothing; a missing
    configuration is no error. *)
Theorem caBundle_patch_idempotent (ca : list Z) (update : list (list Z) → option error) (ws : list (list Z)) :
  match patchWebhookConfigCABundle (inl ws) update ca with
  | (Some sent, err) =>
      Exists (λ w, w ≠ ca) ws ∧ sent = replicate (length ws) ca ∧ err = (ErrWrap "update" <$> update sent) ∧
      patchWebhookConfigCABundle (inl sent) update ca = (None, None)
  | (None, err) => Forall (λ w, w = ca) ws ∧ err = None
  end ∧
  patchWebhookConfigCABundle (inr ErrNotFound) update ca = (None, None).
Proof.
  split; [|done]. unfold patchWebhookConfigCABundle. destruct (patch_bundles_spec ca ws) as [H1 H2].
  destruct (patch_bundles ca ws) as [ws' []]; simpl in *.
  - split_and!; [|done|done|].
    + destruct (decide (Exists (λ w, w ≠ ca) ws)) as [He|He]; [done|]. exfalso.
      assert (Hf : Forall (λ w, w = ca) ws).
      { apply Forall_forall. intros w Hw. destruct (decide (w = ca)); [done|]. exfalso. apply He, Exists_exists. eauto. }
      assert (Hr : true = false) by (apply H2; clear - Hf; induction Hf as [|w ws -> _ IH]; [done|]; simpl; by f_equal).
      done.
    + rewrite H1. destruct (patch_bundles_spec ca (replicate (length ws) ca)) as [_ H3].
      destruct (patch_bundles ca (replicate (length ws) ca)) as [ws2 c]. simpl in *.
      assert (c = false) as -> by (apply H3; by rewrite length_replicate). done.
  - split; [|done]. destruct H2 as [H2 _]. rewrite (H2 eq_refl). apply Forall_replicate. done.
Qed.
