(* ===== verification/Leader.v ===== *)
(** * The replicas of the manager (cmd/katamaran-mgr/main.go, webhook.go)

    Each replica elects with a Lease, labels its pod while it leads, publishes its CA
    bundle and answers admission requests from its own registry; the webhook Service
    routes to the labelled pods.  A replica is the main goroutine, which runs the
    election, and the goroutine of OnStartedLeading.  The election itself is a
    library: it starts OnStartedLeading in a goroutine when it has the Lease, cancels
    that goroutine's context when it has lost or released the Lease, and runs
    OnStoppedLeading whenever it ends, also if it never led.  What the API server answers is an input of a step. *)
From S2P Require Import Prelude GoErrors GoStrings OrchTypes OrchValidate Admission Dashboard DashMigrate Daemons.

(** The Lease identity: the host name, which is the pod name. *)
Definition identity (hostname : string) : string := if is_empty hostname then "katamaran-mgr" else hostname.

(** ** Replicas *)

Inductive mstate :=
  | MDown                          (* no process *)
  | MFollow                        (* RunOrDie, without the Lease *)
  | MLead                          (* RunOrDie, renewing the Lease *)
  | MStop                          (* in OnStoppedLeading *)
  | MExit.                         (* RunOrDie has returned *)

Inductive gstate :=
  | GNone
  | GLabel                         (* OnStartedLeading, before its label patch *)
  | GBundle                        (* before its caBundle patch *)
  | GRun                           (* in runReconciler *)
  | GUnlabel.                      (* its deferred label patch *)

Record replica := MkReplica {
  rp_main : mstate;
  rp_go : gstate;
  rp_labels : gmap string string;              (* of the pod, which outlives the process *)
  rp_cert : list Z;                            (* generated per process *)
  rp_reg : gmap string pendingAdoption }.

Record cluster := MkCluster {
  cl_replicas : list replica;
  cl_holder : option nat;                      (* of the Lease *)
  cl_bundles : list (list Z) }.                (* of the ValidatingWebhookConfiguration *)

(** The API server's answers to a label patch, and to the Get and the Update of the
    webhook configuration. *)
Record api := MkApi { ap_label : bool; ap_get : option error; ap_update : option error }.
Definition api_ok : api := MkApi true None None.

Section replicas.
Variables (namespace : string) (host : nat → string).

Definition label_pod (i : nat) (leader : bool) (a : api) (r : replica) : gmap string string :=
  setLeaderLabel namespace (identity (host i)) leader (ap_label a) (rp_labels r).

Definition with_main (m : mstate) (r : replica) : replica :=
  MkReplica m (rp_go r) (rp_labels r) (rp_cert r) (rp_reg r).
Definition with_go (g : gstate) (r : replica) : replica :=
  MkReplica (rp_main r) g (rp_labels r) (rp_cert r) (rp_reg r).
Definition with_labels (l : gmap string string) (r : replica) : replica :=
  MkReplica (rp_main r) (rp_go r) l (rp_cert r) (rp_reg r).

(** The stored bundles after the leader's patch. *)
Definition patch_stored (a : api) (cert : list Z) (bundles : list (list Z)) : list (list Z) :=
  let get := match ap_get a with Some e => inr e | None => inl bundles end in
  match patchWebhookConfigCABundle get (λ _, ap_update a) cert with
  | (Some sent, None) => sent
  | _ => bundles
  end.

(** A step of the goroutine of [OnStartedLeading]; runReconciler returns when the
    context is cancelled. *)
Definition OnStartedLeading (i : nat) (a : api) (r : replica) (bundles : list (list Z)) : option (replica * list (list Z)) :=
  match rp_go r with
  | GNone => None
  | GLabel => Some (with_go GBundle (with_labels (label_pod i true a r) r), bundles)
  | GBundle => Some (with_go GRun r, patch_stored a (rp_cert r) bundles)
  | GRun => match rp_main r with MLead => None | _ => Some (with_go GUnlabel r, bundles) end
  | GUnlabel => Some (with_go GNone (with_labels (label_pod i false a r) r), bundles)
  end.

Definition OnStoppedLeading (i : nat) (a : api) (r : replica) : replica :=
  with_main MExit (with_labels (label_pod i false a r) r).

(** The end of the process, by return of main or by a crash. *)
Definition process_ends (r : replica) : replica := MkReplica MDown GNone (rp_labels r) (rp_cert r) ∅.

Inductive event :=
  | Boot (i : nat) (cert : list Z)
  | Acquire (i : nat)
  | Go (i : nat) (a : api)
  | Lose (i : nat)
  | Cancel (i : nat)               (* the context of a follower ends *)
  | Stopped (i : nat) (a : api)
  | Exit (i : nat)
  | Crash (i : nat)
  | Expire
  | Registry (i : nat) (o : op).

Definition set_replica (i : nat) (r : replica) (c : cluster) : cluster :=
  MkCluster (<[i := r]> (cl_replicas c)) (cl_holder c) (cl_bundles c).

Definition lnext (e : event) (c : cluster) : option cluster :=
  match e with
  | Boot i cert =>
      r ← cl_replicas c !! i;
      match rp_main r with
      | MDown => Some (set_replica i (MkReplica MFollow GNone (rp_labels r) cert ∅) c)
      | _ => None
      end
  | Acquire i =>
      r ← cl_replicas c !! i;
      match rp_main r, cl_holder c with
      | MFollow, None => Some (MkCluster (<[i := with_go GLabel (with_main MLead r)]> (cl_replicas c)) (Some i) (cl_bundles c))
      | _, _ => None
      end
  | Go i a =>
      r ← cl_replicas c !! i;
      '(r', b) ← OnStartedLeading i a r (cl_bundles c);
      Some (MkCluster (<[i := r']> (cl_replicas c)) (cl_holder c) b)
  | Lose i =>
      r ← cl_replicas c !! i;
      match rp_main r with
      | MLead => Some (MkCluster (<[i := with_main MStop r]> (cl_replicas c)) None (cl_bundles c))
      | _ => None
      end
  | Cancel i =>
      r ← cl_replicas c !! i;
      match rp_main r with MFollow => Some (set_replica i (with_main MStop r) c) | _ => None end
  | Stopped i a =>
      r ← cl_replicas c !! i;
      match rp_main r with MStop => Some (set_replica i (OnStoppedLeading i a r) c) | _ => None end
  | Exit i =>
      r ← cl_replicas c !! i;
      match rp_main r with MExit => Some (set_replica i (process_ends r) c) | _ => None end
  | Crash i => r ← cl_replicas c !! i; Some (set_replica i (process_ends r) c)
  | Expire =>
      i ← cl_holder c;
      r ← cl_replicas c !! i;
      match rp_main r with
      | MLead => None
      | _ => Some (MkCluster (cl_replicas c) None (cl_bundles c))
      end
  | Registry i o =>
      r ← cl_replicas c !! i;
      Some (set_replica i (MkReplica (rp_main r) (rp_go r) (rp_labels r) (rp_cert r) (run_op (rp_reg r) o)) c)
  end.

Fixpoint lrun (es : list event) (c : cluster) : option cluster :=
  match es with
  | [] => Some c
  | e :: es => c' ← lnext e c; lrun es c'
  end.

(** [n] pods without a process; webhook configuration with [k] webhooks. *)
Definition cluster0 (n k : nat) : cluster :=
  MkCluster (replicate n (MkReplica MDown GNone ∅ [] ∅)) None (replicate k []).

(** ** Admission *)

Definition labelled_leader (r : replica) : bool := bool_decide (rp_labels r !! leaderLabel = Some "true").
Definition up (r : replica) : bool := match rp_main r with MDown => false | _ => true end.

(** The endpoints of the webhook Service. *)
Definition endpoints (c : cluster) : list nat :=
  (filter (λ ir, labelled_leader ir.2 && up ir.2 = true) (imap pair (cl_replicas c))).*1.

(** The API server trusts a certificate only if it matches the bundle. *)
Definition trusted (c : cluster) (r : replica) : bool := forallb (λ b, bytesEqual b (rp_cert r)) (cl_bundles c).

(** Whether the API server admits a pod when the Service picks the endpoint [choice];
    with failurePolicy Ignore a call that fails admits it. *)
Definition admits `{ErrorText} (c : cluster) (choice : nat) (clock : nat → Z) (b : admit_body) : bool :=
  match endpoints c !! choice ≫= λ i, cl_replicas c !! i with
  | Some r => if trusted c r then ar_Allowed (handleAdmit clock b (rp_reg r)).1 else true
  | None => true
  end.

(** ** Orderly histories

    No process crashes, the API server accepts the patches, and a Lease is not lost
    before OnStartedLeading has got to the reconciler. *)
Definition orderly (c : cluster) (e : event) : Prop :=
  match e with
  | Crash _ => False
  | Go _ a | Stopped _ a => a = api_ok
  | Lose i => ∀ r, cl_replicas c !! i = Some r → rp_go r = GRun
  | _ => True
  end.

Inductive orderly_reachable (n k : nat) : cluster → Prop :=
  | ord_init : orderly_reachable n k (cluster0 n k)
  | ord_step c e c' : orderly_reachable n k c → orderly c e → lnext e c = Some c' → orderly_reachable n k c'.

(** The configurations of a replica, labelled or not, in a cluster with the given
    holder and bundles. *)
Definition view_ok (holder : option nat) (bundles : list (list Z)) (i : nat) (m : mstate) (g : gstate) (labelled : bool)
    (cert : list Z) : Prop :=
  match m, g, labelled with
  | MDown, GNone, false | MFollow, GNone, false => holder ≠ Some i
  | MLead, GLabel, false | MLead, GBundle, true => holder = Some i
  | MLead, GRun, true => holder = Some i ∧ Forall (λ b, b = cert) bundles
  | MStop, GRun, _ | MStop, GUnlabel, _ | MStop, GNone, _ => holder ≠ Some i
  | MExit, GRun, false | MExit, GUnlabel, false | MExit, GNone, false => holder ≠ Some i
  | _, _, _ => False
  end.

Definition replica_ok (holder : option nat) (bundles : list (list Z)) (i : nat) (r : replica) : Prop :=
  view_ok holder bundles i (rp_main r) (rp_go r) (labelled_leader r) (rp_cert r).

Definition cluster_ok (c : cluster) : Prop :=
  ∀ i r, cl_replicas c !! i = Some r → replica_ok (cl_holder c) (cl_bundles c) i r.

Hypothesis Hns : namespace ≠ "".

Lemma label_pod_ok (i : nat) (leader : bool) (r : replica) :
  label_pod i leader api_ok r =
  (if leader then <[leaderLabel := "true"]> (rp_labels r) else base.delete leaderLabel (rp_labels r)).
Proof.
  unfold label_pod, setLeaderLabel, identity. assert (Hn : is_empty namespace = false) by by apply String.eqb_neq.
  rewrite Hn. destruct (is_empty (host i)) eqn:Hh; simpl; [done|]. by rewrite Hh.
Qed.

Lemma patch_stored_ok (cert : list Z) (bundles : list (list Z)) :
  Forall (λ b, b = cert) (patch_stored api_ok cert bundles).
Proof.
  unfold patch_stored, patchWebhookConfigCABundle. simpl. destruct (patch_bundles_spec cert bundles) as [H1 H2].
  destruct (patch_bundles cert bundles) as [ws []]; simpl in *.
  - rewrite H1. by apply Forall_replicate.
  - rewrite (proj1 H2 eq_refl). by apply Forall_replicate.
Qed.

Lemma cluster_ok_replace (c : cluster) (i : nat) (r r' : replica) (h : option nat) (b : list (list Z)) :
  cluster_ok c → cl_replicas c !! i = Some r → replica_ok h b i r' →
  (∀ j q, j ≠ i → replica_ok (cl_holder c) (cl_bundles c) j q → replica_ok h b j q) →
  cluster_ok (MkCluster (<[i := r']> (cl_replicas c)) h b).
Proof.
  intros Hc Hi Hr Ho j q Hj. simpl in *. apply list_lookup_insert_Some in Hj as [(<- & <- & _) | (Hne & Hj)]; [done|].
  apply Ho; [done|]. by apply Hc.
Qed.

(** A replica that does not lead does not depend on the bundles, and on the holder
    only through its own name. *)
Lemma other_ok (h h' : option nat) (b b' : list (list Z)) (j : nat) (q : replica) :
  replica_ok h b j q → h ≠ Some j → h' ≠ Some j → replica_ok h' b' j q.
Proof.
  unfold replica_ok, view_ok. intros Hq Hn Hn'. destruct (rp_main q), (rp_go q), (labelled_leader q); try done; naive_solver.
Qed.

Lemma labelled_insert (r : replica) (m : mstate) (g : gstate) :
  labelled_leader (MkReplica m g (<[leaderLabel := "true"]> (rp_labels r)) (rp_cert r) (rp_reg r)) = true.
Proof. unfold labelled_leader. simpl. rewrite lookup_insert_eq. by apply bool_decide_eq_true. Qed.

Lemma labelled_delete (r : replica) (m : mstate) (g : gstate) :
  labelled_leader (MkReplica m g (base.delete leaderLabel (rp_labels r)) (rp_cert r) (rp_reg r)) = false.
Proof. unfold labelled_leader. simpl. rewrite lookup_delete_eq. by apply bool_decide_eq_false. Qed.

Lemma holder_lead (c : cluster) (i : nat) (r : replica) :
  cluster_ok c → cl_replicas c !! i = Some r → cl_holder c = Some i ↔ rp_main r = MLead.
Proof.
  intros Hc Hi. specialize (Hc i r Hi). unfold replica_ok, view_ok in Hc.
  destruct (rp_main r), (rp_go r), (labelled_leader r); naive_solver.
Qed.

(** Case analysis on the configuration of the replica that moves. *)
Ltac cases_view r Hr :=
  unfold replica_ok, view_ok in Hr |- *;
  destruct (rp_main r), (rp_go r), (labelled_leader r); try done.

Lemma go_step_ok (c : cluster) (i : nat) (r r' : replica) (b : list (list Z)) :
  cluster_ok c → cl_replicas c !! i = Some r → OnStartedLeading i api_ok r (cl_bundles c) = Some (r', b) →
  cluster_ok (MkCluster (<[i := r']> (cl_replicas c)) (cl_holder c) b).
Proof.
  intros Hc Hi Hs. pose proof (Hc i r Hi) as Hr. unfold OnStartedLeading in Hs.
  apply (cluster_ok_replace c i r); [done..| |].
  - destruct (rp_go r) eqn:Hg; rewrite ?label_pod_ok in Hs; simplify_eq; unfold replica_ok, with_go, with_labels; simpl;
      rewrite ?labelled_insert, ?labelled_delete; unfold replica_ok, view_ok in Hr; rewrite Hg in Hr.
    + by destruct (rp_main r), (labelled_leader r).
    + destruct (rp_main r), (labelled_leader r) eqn:Hl; try done. unfold labelled_leader in Hl |- *. simpl. rewrite Hl.
      split; [done|apply patch_stored_ok].
    + destruct (rp_main r) eqn:Hm; simplify_eq; simpl; rewrite ?Hm;
        change (labelled_leader (with_go GUnlabel r)) with (labelled_leader r);
        by destruct (labelled_leader r).
    + by destruct (rp_main r), (labelled_leader r).
  - intros j q Hne Hq. destruct (decide (b = cl_bundles c)) as [->|Hb]; [done|].
    assert (Hh : cl_holder c = Some i).
    { apply (holder_lead c i r); [done..|]. destruct (rp_go r) eqn:Hg; simplify_eq; [|by destruct (rp_main r); simplify_eq].
      unfold replica_ok, view_ok in Hr. rewrite Hg in Hr. by destruct (rp_main r). }
    apply (other_ok (cl_holder c) _ (cl_bundles c)); [done|congruence..].
Qed.

Lemma cluster_ok_step (c c' : cluster) (e : event) : cluster_ok c → orderly c e → lnext e c = Some c' → cluster_ok c'.
Proof.
  intros Hc Ho Hs. destruct e as [i cert|i|i a|i|i|i a|i|i| |i o]; simpl in Ho, Hs; try done.
  8:{ destruct (cl_holder c) as [i|] eqn:Hh; [|done]. simpl in Hs. destruct (cl_replicas c !! i) as [r|] eqn:Hi; [|done].
      simpl in Hs. pose proof (proj1 (holder_lead c i r Hc Hi) Hh) as Hm. by rewrite Hm in Hs. }
  all: destruct (cl_replicas c !! i) as [r|] eqn:Hi; [|done]; simpl in Hs; pose proof (Hc i r Hi) as Hr.
  all: assert (Hlab : ∀ m g cert reg, labelled_leader (MkReplica m g (rp_labels r) cert reg) = labelled_leader r) by done.
  - destruct (rp_main r) eqn:Hm; simplify_eq. apply (cluster_ok_replace c i r); [done..| |done].
    unfold replica_ok. cbn [rp_main rp_go rp_labels rp_cert rp_reg]. rewrite Hlab. unfold replica_ok, view_ok in Hr. rewrite Hm in Hr. cases_view r Hr.
  - destruct (rp_main r) eqn:Hm, (cl_holder c) eqn:Hh; simplify_eq. apply (cluster_ok_replace c i r); [done..| |].
    + unfold replica_ok, with_go, with_main. cbn [rp_main rp_go rp_labels rp_cert rp_reg]. rewrite Hlab. unfold replica_ok, view_ok in Hr. rewrite Hm in Hr. cases_view r Hr.
    + intros j q Hne Hq. rewrite Hh in Hq. by apply (other_ok None _ (cl_bundles c)); [| |congruence].
  - subst a. destruct (OnStartedLeading i api_ok r (cl_bundles c)) as [[r' b]|] eqn:Hg; simplify_eq/=. by apply (go_step_ok c i r).
  - destruct (rp_main r) eqn:Hm; simplify_eq. specialize (Ho r eq_refl). apply (cluster_ok_replace c i r); [done..| |].
    + unfold replica_ok, with_main. cbn [rp_main rp_go rp_labels rp_cert rp_reg]. rewrite Hlab, Ho. done.
    + intros j q Hne Hq. pose proof (proj2 (holder_lead c i r Hc Hi) Hm) as Hh.
      apply (other_ok (cl_holder c) _ (cl_bundles c)); [done|congruence|done].
  - destruct (rp_main r) eqn:Hm; simplify_eq. apply (cluster_ok_replace c i r); [done..| |done].
    unfold replica_ok, with_main. cbn [rp_main rp_go rp_labels rp_cert rp_reg]. rewrite Hlab. unfold replica_ok, view_ok in Hr. rewrite Hm in Hr. cases_view r Hr.
  - subst a. destruct (rp_main r) eqn:Hm; simplify_eq. apply (cluster_ok_replace c i r); [done..| |done].
    unfold replica_ok, OnStoppedLeading, with_main, with_labels. rewrite label_pod_ok. cbn [rp_main rp_go rp_labels rp_cert rp_reg]. rewrite labelled_delete.
    unfold replica_ok, view_ok in Hr. rewrite Hm in Hr. cases_view r Hr.
  - destruct (rp_main r) eqn:Hm; simplify_eq. apply (cluster_ok_replace c i r); [done..| |done].
    unfold replica_ok, process_ends. cbn [rp_main rp_go rp_labels rp_cert rp_reg]. rewrite Hlab. unfold replica_ok, view_ok in Hr. rewrite Hm in Hr. cases_view r Hr.
  - simplify_eq. by apply (cluster_ok_replace c i r).
Qed.

Lemma orderly_ok (n k : nat) (c : cluster) : orderly_reachable n k c → cluster_ok c.
Proof.
  induction 1 as [|c e c' _ IH Ho Hs]; [|by eapply cluster_ok_step].
  intros i r [-> _]%lookup_replicate. unfold replica_ok, labelled_leader. simpl.
  by rewrite bool_decide_false by by rewrite lookup_empty.
Qed.

Lemma endpoint_elem (c : cluster) (j : nat) :
  j ∈ endpoints c ↔ ∃ r, cl_replicas c !! j = Some r ∧ labelled_leader r = true ∧ up r = true.
Proof.
  unfold endpoints. rewrite list_elem_of_fmap. split.
  - intros ([k r] & -> & [Hf Hin]%list_elem_of_filter). apply elem_of_lookup_imap in Hin as (k' & r' & [= <- <-] & Hk).
    apply andb_true_iff in Hf as [? ?]. by exists r.
  - intros (r & Hj & Hl & Hu). exists (j, r). split; [done|]. apply list_elem_of_filter. simpl. rewrite Hl, Hu.
    split; [done|]. apply elem_of_lookup_imap. eauto.
Qed.

Lemma endpoints_nodup (c : cluster) : NoDup (endpoints c).
Proof.
  unfold endpoints. eapply sublist_NoDup; [|apply fmap_sublist, sublist_filter].
  rewrite fmap_imap. unfold compose. simpl.
  induction (cl_replicas c) as [|x l IH] using rev_ind; [apply NoDup_nil_2|].
  rewrite imap_app. simpl. apply NoDup_app. split_and!; [done| |apply NoDup_singleton].
  intros k (k' & y & -> & Hk)%elem_of_lookup_imap ->%list_elem_of_singleton. apply lookup_lt_Some in Hk. lia.
Qed.

(** C36. An orderly hand-over leaves the leader alone at the webhook.  In every state
    of an orderly history in which the holder of the lease has reached its reconciler
    (OnStartedLeading has labelled the pod and published the certificate) and no
    replica is still in OnStoppedLeading, the Service has exactly the leader as
    endpoint, its certificate is the published one, and every admission request is
    answered from the leader's registry: a pod is refused exactly when that registry
    refuses it.  (In between, two pods may be endpoints: [hand_over_overlaps].) *)
Theorem orderly_leader_answers `{ErrorText} (n k : nat) (c : cluster) (i : nat) (r : replica)
    (Hc : orderly_reachable n k c) (Hi : cl_replicas c !! i = Some r) (Hh : cl_holder c = Some i) (Hg : rp_go r = GRun)
    (Hstop : ∀ j q, cl_replicas c !! j = Some q → rp_main q ≠ MStop) :
  endpoints c = [i] ∧ trusted c r = true ∧
  ∀ clock b, admits c 0 clock b = ar_Allowed (handleAdmit clock b (rp_reg r)).1.
Proof.
  apply orderly_ok in Hc as Hok. pose proof (proj1 (holder_lead c i r Hok Hi) Hh) as Hm.
  pose proof (Hok i r Hi) as Hr. unfold replica_ok, view_ok in Hr. rewrite Hm, Hg in Hr.
  destruct (labelled_leader r) eqn:Hl; [|done]. destruct Hr as [_ Hb].
  assert (Hone : ∀ j, j ∈ endpoints c ↔ j = i).
  { intros j. rewrite endpoint_elem. split.
    - intros (q & Hj & Hlq & Hu). pose proof (Hok j q Hj) as Hq. specialize (Hstop j q Hj). unfold replica_ok, view_ok in Hq.
      rewrite Hlq in Hq. destruct (rp_main q), (rp_go q); try done; naive_solver.
    - intros ->. exists r. unfold up. by rewrite Hm. }
  assert (He : endpoints c = [i]).
  { pose proof (endpoints_nodup c) as Hd. destruct (endpoints c) as [|a [|b l]].
    - exfalso. apply (elem_of_nil i), Hone. done.
    - f_equal. apply Hone. by left.
    - exfalso. assert (a = i) by (apply Hone; by left). assert (b = i) by (apply Hone; right; by left). subst.
      apply NoDup_cons in Hd as [Hd _]. apply Hd. by left. }
  assert (Ht : trusted c r = true).
  { unfold trusted. apply forallb_forall. intros b Hin%list_elem_of_In. rewrite Forall_forall in Hb.
    by apply bytesEqual_eq, Hb. }
  split_and!; [done..|]. intros clock b. unfold admits. rewrite He. simpl. rewrite Hi. simpl. by rewrite Ht.
Qed.
End replicas.

(** ** Executions *)

Definition demo_host (i : nat) : string := "mgr-" +:+ Itoa (Z.of_nat i).
Abbreviation demo_run := (lrun "kube-system" demo_host).

Definition demo_owner : OwnerReference := MkOwner "apps/v1" "ReplicaSet" "web" "rs-1" (Some true) None.
Definition demo_review : admit_body := GoodReview (MkReview "u" (inl (MkPodMeta ∅ [demo_owner]))).

(** Two pods; the first leads, labels itself and publishes its bundle. *)
Definition first_leads : list event := [Boot 0 [1]; Boot 1 [2]; Acquire 0; Go 0 api_ok; Go 0 api_ok].
(** It hands over to the second, which marks a workload. *)
Definition hand_over : list event :=
  [Lose 0; Stopped 0 api_ok; Acquire 1; Go 1 api_ok; Go 1 api_ok; Exit 0; Registry 1 (OMark 0 "rs-1" "m1")].

Fixpoint orderly_run (es : list event) (c : cluster) : Prop :=
  match es with
  | [] => True
  | e :: es => orderly c e ∧ ∀ c', lnext "kube-system" demo_host e c = Some c' → orderly_run es c'
  end.

Lemma orderly_run_reachable (n k : nat) (es : list event) (c c' : cluster) :
  orderly_reachable "kube-system" demo_host n k c → orderly_run es c → demo_run es c = Some c' →
  orderly_reachable "kube-system" demo_host n k c'.
Proof.
  revert c. induction es as [|e es IH]; intros c Hc Ho Hr; simpl in *; [by simplify_eq|].
  destruct Ho as [Ho Hos]. destruct (lnext "kube-system" demo_host e c) as [c1|] eqn:Hn; [|done]. simpl in Hr.
  apply (IH c1); [by eapply ord_step|by apply Hos|done].
Qed.

Definition handed_over : cluster := default (cluster0 2 1) (demo_run (first_leads ++ hand_over) (cluster0 2 1)).

Lemma handed_over_orderly : orderly_reachable "kube-system" demo_host 2 1 handed_over.
Proof.
  apply (orderly_run_reachable 2 1 (first_leads ++ hand_over) (cluster0 2 1)); [constructor| |by vm_compute].
  unfold first_leads, hand_over. cbn [app].
  repeat (cbn [orderly_run]; split; [first [exact I | reflexivity | intros r Hr; vm_compute in Hr; injection Hr as <-; reflexivity]|];
    intros c' Hn; vm_compute in Hn; injection Hn as <-).
  done.
Qed.

Lemma orderly_leader_answers_witness :
  endpoints handed_over = [1%nat] ∧
  @admits (λ _, "") handed_over 0 (λ _, 60) demo_review = false.
Proof.
  destruct (@orderly_leader_answers "kube-system" demo_host (ltac:(discriminate)) (λ _, "") 2 1 handed_over 1
    (MkReplica MLead GRun {[ leaderLabel := "true" ]} [2] (Mark 0 "rs-1" "m1" ∅))) as (He & _ & Ha).
  - apply handed_over_orderly.
  - vm_compute. reflexivity.
  - vm_compute. reflexivity.
  - reflexivity.
  - intros [|[|j]] q Hq; vm_compute in Hq; [injection Hq as <-; discriminate|injection Hq as <-; discriminate|discriminate Hq].
  - split; [exact He|]. rewrite Ha. vm_compute. reflexivity.
Defined.

(** A crash breaks the flip of the endpoints: the pod of a leader that crashed keeps
    its label when its container restarts, so once another replica leads, the
    Service also routes to a follower, whose certificate is not the published one,
    and a replacement that the leader refuses is admitted. *)
Theorem crashed_leader_stays_endpoint :
  ∃ c, demo_run (first_leads ++ [Crash 0; Expire; Boot 0 [3]; Acquire 1; Go 1 api_ok; Go 1 api_ok; Registry 1 (OMark 0 "rs-1" "m1")])
         (cluster0 2 1) = Some c ∧
    cl_holder c = Some 1%nat ∧ endpoints c = [0%nat; 1%nat] ∧
    @admits (λ _, "") c 1 (λ _, 60) demo_review = false ∧ @admits (λ _, "") c 0 (λ _, 60) demo_review = true.
Proof. eexists. split; [vm_compute; reflexivity|]. vm_compute. done. Qed.

(** The Lease is released before OnStoppedLeading removes the label: between the two,
    both pods are endpoints. *)
Theorem hand_over_overlaps :
  ∃ c, demo_run (first_leads ++ [Lose 0; Acquire 1; Go 1 api_ok]) (cluster0 2 1) = Some c ∧
    cl_holder c = Some 1%nat ∧ endpoints c = [0%nat; 1%nat].
Proof. eexists. split; [vm_compute; reflexivity|]. vm_compute. done. Qed.
