(* ===== verification/Metrics.v ===== *)
(** * The metrics pages
    (internal/dashboard/metrics.go, cmd/katamaran-mgr/debug.go)

    The text that a scrape gets, from the counters of the dashboard and of the
    controller, and the rebindable variables of /debug/vars.  The pages are proved
    against the reader of file Prom: a scrape tells how often each event has
    happened.  The order of a Go map iteration is a parameter. *)
From stdpp Require Import sorting.
From S2P Require Import Prelude GoErrors GoStrings OrchTypes OrchValidate Prom Dashboard DashMigrate DashHttp Reconciler.

#[local] Open Scope Z_scope.

(** ** The dashboard's page *)

(** The counters of metrics.go. *)
Record DashVars := MkVars {
  dv_http : HttpMetrics;
  dv_readiness : Z;
  dv_csrf : Z;
  dv_active : Z;
  dv_apply_errors : Z;
  dv_mig : MigMetrics;
  dv_watch_errors : Z;
  dv_watch_lost : Z;
  dv_panics : Z }.

Definition vars0 : DashVars := MkVars metrics0 0 0 0 0 (MkMigMetrics 0 ∅ ∅) 0 0 0.

(** expvar.Map.Do and expvar.Do visit the keys in order. *)
Definition key_le {A : Type} (a b : string * A) : Prop := String.le a.1 b.1.
#[global] Instance key_le_dec {A : Type} : RelDecision (@key_le A).
Proof. intros a b. unfold key_le. apply _. Defined.
Definition Do {A : Type} (m : gmap string A) : list (string * A) := merge_sort key_le (map_to_list m).

Section dashboard_page.
Context `{Unicode}.

Definition writePromMetric (name help kind value : string) : string :=
  line ("# HELP " +:+ name +:+ " " +:+ help) +:+
  line ("# TYPE " +:+ name +:+ " " +:+ kind) +:+
  line (name +:+ " " +:+ value).

Definition writePromMapMetric (name help kind labelName : string) (m : gmap string Z) : string :=
  line ("# HELP " +:+ name +:+ " " +:+ help) +:+
  line ("# TYPE " +:+ name +:+ " " +:+ kind) +:+
  foldr (λ kv acc, line (name +:+ "{" +:+ labelName +:+ "=" +:+ Quote kv.1 +:+ "} " +:+ Itoa kv.2) +:+ acc) "" (Do m).

Definition serveDashboardMetrics (v : DashVars) : string :=
  writePromMetric "dashboard_http_requests_total" "Dashboard HTTP requests served, excluding health and metrics endpoints." "counter" (Itoa (hm_requests (dv_http v))) +:+
  writePromMetric "dashboard_http_server_errors_total" "Dashboard HTTP responses with status code >= 500." "counter" (Itoa (hm_server_errors (dv_http v))) +:+
  writePromMetric "dashboard_http_slow_requests_total" "Dashboard HTTP requests slower than the configured slow request threshold." "counter" (Itoa (hm_slow (dv_http v))) +:+
  writePromMetric "dashboard_http_request_duration_ms_total" "Sum of observed dashboard HTTP request durations in milliseconds." "counter" (Itoa (hm_duration_ms (dv_http v))) +:+
  writePromMapMetric "dashboard_http_responses_total" "Dashboard HTTP responses by status class." "counter" "status_class" (hm_by_class (dv_http v)) +:+
  writePromMapMetric "dashboard_http_request_duration_ms_bucket_total" "Dashboard HTTP request duration bucket counts." "counter" "bucket" (hm_buckets (dv_http v)) +:+
  writePromMetric "dashboard_readiness_failures_total" "Dashboard readiness checks that failed because the orchestrator was unavailable." "counter" (Itoa (dv_readiness v)) +:+
  writePromMetric "dashboard_csrf_rejections_total" "Dashboard requests rejected by the CSRF middleware (cross-origin/cross-site state-changing requests)." "counter" (Itoa (dv_csrf v)) +:+
  writePromMetric "dashboard_migrations_active" "Dashboard migrations currently running." "gauge" (Itoa (dv_active v)) +:+
  writePromMetric "dashboard_migration_apply_errors_total" "Dashboard migration submissions rejected by the orchestrator Apply call." "counter" (Itoa (dv_apply_errors v)) +:+
  writePromMetric "dashboard_migration_duration_ms_total" "Sum of completed dashboard migration durations in milliseconds." "counter" (Itoa (mm_duration_ms (dv_mig v))) +:+
  writePromMapMetric "dashboard_migration_duration_ms_bucket_total" "Completed dashboard migration duration bucket counts." "counter" "bucket" (mm_buckets (dv_mig v)) +:+
  writePromMapMetric "dashboard_migration_results_total" "Completed dashboard migrations by outcome." "counter" "outcome" (mm_outcomes (dv_mig v)) +:+
  writePromMetric "dashboard_migration_watch_errors_total" "Dashboard migrations where opening the orchestrator watch stream failed." "counter" (Itoa (dv_watch_errors v)) +:+
  writePromMetric "dashboard_migration_watch_lost_total" "Dashboard migrations whose watch stream closed before a terminal status." "counter" (Itoa (dv_watch_lost v)) +:+
  writePromMetric "dashboard_migration_worker_panics_total" "Recovered panics in the dashboard migration worker goroutine." "counter" (Itoa (dv_panics v)).
End dashboard_page.

(** ** The events that are counted *)

(** What the worker of a migration counts besides its end. *)
Inductive fault := FApply | FWatch | FLost | FPanic.

Definition run_fault (b : orch_run) : option fault :=
  match b with
  | ApplyPanics _ | WatchPanics _ _ | UpdatePanics _ _ _ _ => Some FPanic
  | ApplyFails _ => Some FApply
  | WatchFails _ _ => Some FWatch
  | Updates _ us =>
      if is_nil (last (filter (λ u, IsTerminal (su_Phase u.1) = true) us)) then Some FLost else None
  end.

Inductive dv_event :=
  | DvRequest (status duration : Z)          (* recordHTTPRequest *)
  | DvUnready                                (* handleReadyz without an orchestrator *)
  | DvCSRF                                   (* csrfForbidden *)
  | DvStart                                  (* handleMigrate accepts *)
  | DvFault (f : fault)
  | DvEnd (duration : Z) (b : orch_run).     (* the deferred function of runOrchestrator *)

Section events.
Context `{ErrorText}.

Definition dv_step (v : DashVars) (e : dv_event) : DashVars :=
  let '(MkVars h r c a ap m we wl p) := v in
  match e with
  | DvRequest status d => MkVars (recordHTTPRequest status d h) r c a ap m we wl p
  | DvUnready => MkVars h (r + 1) c a ap m we wl p
  | DvCSRF => MkVars h r (c + 1) a ap m we wl p
  | DvStart => MkVars h r c (a + 1) ap m we wl p
  | DvFault FApply => MkVars h r c a (ap + 1) m we wl p
  | DvFault FWatch => MkVars h r c a ap m (we + 1) wl p
  | DvFault FLost => MkVars h r c a ap m we (wl + 1) p
  | DvFault FPanic => MkVars h r c a ap m we wl (p + 1)
  | DvEnd d b => MkVars h r c (a - 1) ap (recordMigrationDuration d (outcome b).1 m) we wl p
  end.

Definition vars_after (es : list dv_event) : DashVars := foldl dv_step vars0 es.
End events.

(** ** The controller's page *)

(** A published variable: an expvar.Int, or one with another text. *)
Inductive expvar := EInt (z : Z) | EText (s : string).
Definition expvar_String (e : expvar) : string := match e with EInt z => Itoa z | EText s => s end.

(** The specs of servePrometheusMetrics. *)
Definition metric_specs : list (string * (string * string)) :=
  [("katamaran_migrations_dispatched_total", ("Migrations the controller has dispatched (Apply succeeded).", "counter"));
   ("katamaran_migrations_succeeded_total", ("Migrations that reached PhaseSucceeded.", "counter"));
   ("katamaran_migrations_failed_total", ("Migrations that reached PhaseFailed.", "counter"));
   ("katamaran_migrations_recovered_total", ("Migrations the controller resumed observing after a restart.", "counter"));
   ("katamaran_migrations_resumed_total", ("Migrations whose dest Job was (re-)created via Orchestrator.Resume during restart recovery.", "counter"));
   ("katamaran_migrations_deleted_total", ("Migration CRs the controller cleaned up via finalizer.", "counter"));
   ("katamaran_migrations_inflight", ("Migrations currently in a non-terminal phase.", "gauge"));
   ("katamaran_migrations_reconcile_errors_total", ("Reconcile loop errors observed since startup.", "counter"));
   ("katamaran_migrations_status_patch_errors_total", ("Migration status subresource patch failures observed since startup.", "counter"));
   ("katamaran_migrations_watch_lost_total", ("Watch channels that closed before reaching a terminal phase.", "counter"));
   ("katamaran_migrations_worker_panics_total", ("Recovered panics in dispatch/recover goroutines.", "counter"))].
Definition spec_of (name : string) : option (string * string) :=
  snd <$> List.find (λ kv, (kv.1 =? name)%string) metric_specs.

Section mgr_page.
Context `{Unicode}.

Definition emit_expvar (kv : string * expvar) : string :=
  match spec_of kv.1 with
  | None => ""
  | Some (help, kind) =>
      line ("# HELP " +:+ kv.1 +:+ " " +:+ help) +:+
      line ("# TYPE " +:+ kv.1 +:+ " " +:+ kind) +:+
      line (kv.1 +:+ " " +:+ expvar_String kv.2)
  end.

(** [snap] is the snapshot in the order of this iteration. *)
Definition emitIntGauge (snap : list (string * MigrationProgressEntry)) (name help : string)
    (get : MigrationProgressEntry → Z) : string :=
  line ("# HELP " +:+ name +:+ " " +:+ help) +:+
  line ("# TYPE " +:+ name +:+ " gauge") +:+
  foldr (λ ie acc, line (name +:+ "{migration_id=" +:+ Quote ie.1 +:+ "} " +:+ Itoa (get ie.2)) +:+ acc) "" snap.

Definition emit_phases (snap : list (string * MigrationProgressEntry)) : string :=
  line "# HELP katamaran_migration_phase Current migration phase." +:+
  line "# TYPE katamaran_migration_phase gauge" +:+
  foldr (λ ie acc, line ("katamaran_migration_phase{migration_id=" +:+ Quote ie.1 +:+ ",phase=" +:+ Quote (mp_Phase ie.2) +:+ "} 1") +:+ acc)
    "" snap.

(** [order i] is the [i]-th iteration over the snapshot. *)
Definition servePrometheusMetrics (vars : gmap string expvar) (snap : gmap string MigrationProgressEntry)
    (order : nat → list (string * MigrationProgressEntry)) : string :=
  foldr (λ kv acc, emit_expvar kv +:+ acc) "" (Do vars) +:+
  (if bool_decide (snap = ∅) then ""
   else
     emitIntGauge (order 0%nat) "katamaran_migration_ram_transferred_bytes" "RAM bytes transferred so far." mp_RAMTransferred +:+
     emitIntGauge (order 1%nat) "katamaran_migration_ram_total_bytes" "Total RAM bytes to transfer." mp_RAMTotal +:+
     emit_phases (order 2%nat) +:+
     emitIntGauge (order 3%nat) "katamaran_migration_downtime_ms" "Actual VM pause duration in milliseconds." mp_DowntimeMS +:+
     emitIntGauge (order 4%nat) "katamaran_migration_applied_downtime_ms" "Configured downtime limit in milliseconds." mp_AppliedDowntimeMS +:+
     emitIntGauge (order 5%nat) "katamaran_migration_rtt_ms" "Measured round-trip time in milliseconds." mp_RTTMS).
End mgr_page.

(** ** Pages as families *)

(** The value of a sample of a page. *)
Definition lookup_sample (labels : list (string * string)) (ss : list sample) : option Z :=
  sm_value <$> List.find (λ s, bool_decide (sm_labels s = labels)) ss.
Definition value (fs : list family) (name : string) (labels : list (string * string)) : option Z :=
  f ← List.find (λ f, (fm_name f =? name)%string) fs; lookup_sample labels (fm_samples f).

Definition scalar (name help kind : string) (v : Z) : family := MkFamily name help kind [MkSample [] v].
Definition labelled {A : Type} (name help kind label : string) (get : A → Z) (kvs : list (string * A)) : family :=
  MkFamily name help kind ((λ kv, MkSample [(label, kv.1)] (get kv.2)) <$> kvs).

Lemma unlines_app (a b : list string) : unlines (a ++ b) = unlines a +:+ unlines b.
Proof. induction a as [|x a IH]; [done|]. simpl. by rewrite IH, string_app_assoc. Qed.

Lemma foldr_unlines {A : Type} (f : A → string) (l : list A) :
  foldr (λ x acc, line (f x) +:+ acc) "" l = unlines (f <$> l).
Proof. induction l as [|x l IH]; [done|]. simpl. by rewrite IH. Qed.

Section pages.
Context `{Unicode}.

Lemma print_page_cons (f : family) (fs : list family) : print_page (f :: fs) = print_page [f] +:+ print_page fs.
Proof. unfold print_page. rewrite !bind_cons, unlines_app, app_nil_r. done. Qed.

Lemma print_page_singleton (f : family) :
  print_page [f] = line (help_line (fm_name f) (fm_help f)) +:+ line (type_line (fm_name f) (fm_kind f)) +:+
    unlines (print_sample (fm_name f) <$> fm_samples f).
Proof. unfold print_page. rewrite bind_cons, app_nil_r. done. Qed.

Lemma write_metric_page (name help kind : string) (v : Z) :
  writePromMetric name help kind (Itoa v) = print_page [scalar name help kind v].
Proof.
  rewrite print_page_singleton. unfold writePromMetric, help_line, type_line, print_sample. simpl.
  by rewrite string_app_nil_r.
Qed.

Lemma print_one_label (name label k : string) (v : Z) :
  print_sample name (MkSample [(label, k)] v) = name +:+ "{" +:+ label +:+ "=" +:+ Quote k +:+ "} " +:+ Itoa v.
Proof. unfold print_sample, print_labels, print_label. simpl sm_labels. simpl sm_value. simpl Join. by rewrite <- !string_app_assoc. Qed.

Lemma labelled_samples {A : Type} (name help kind label : string) (get : A → Z) (kvs : list (string * A)) :
  unlines (print_sample name <$> fm_samples (labelled name help kind label get kvs)) =
  foldr (λ kv acc, line (name +:+ "{" +:+ label +:+ "=" +:+ Quote kv.1 +:+ "} " +:+ Itoa (get kv.2)) +:+ acc) "" kvs.
Proof.
  rewrite (foldr_unlines (λ kv, name +:+ "{" +:+ label +:+ "=" +:+ Quote kv.1 +:+ "} " +:+ Itoa (get kv.2))).
  f_equal. simpl fm_samples. rewrite <- list_fmap_compose. apply list_fmap_ext. intros i [k v] _. apply print_one_label.
Qed.

Lemma write_map_page (name help kind label : string) (m : gmap string Z) :
  writePromMapMetric name help kind label m = print_page [labelled name help kind label id (Do m)].
Proof. rewrite print_page_singleton, labelled_samples. done. Qed.

Lemma emit_gauge_page (snap : list (string * MigrationProgressEntry)) (name help : string) (get : MigrationProgressEntry → Z) :
  emitIntGauge snap name help get = print_page [labelled name help "gauge" "migration_id" get snap].
Proof. rewrite print_page_singleton, labelled_samples. done. Qed.

(** *** Well-formed families *)

Definition keys_ok {A : Type} (kvs : list (string * A)) : Prop := Forall (λ kv, forallb_str label_char kv.1 = true) kvs.

Definition header_ok (name help kind : string) : bool :=
  is_name name && forallb_str (λ c, negb (char_in c (String newline (String backslash "")))) help && one_of kind ["counter"; "gauge"].

Lemma scalar_ok (name help kind : string) (v : Z) : header_ok name help kind = true → family_ok (scalar name help kind v).
Proof.
  unfold header_ok. rewrite !andb_true_iff. intros [[H1 H2] H3]. split; try done.
  constructor; [|done]. by split.
Qed.

Lemma labelled_ok {A : Type} (name help kind label : string) (get : A → Z) (kvs : list (string * A)) :
  header_ok name help kind = true → is_name label = true → keys_ok kvs → family_ok (labelled name help kind label get kvs).
Proof.
  unfold header_ok. rewrite !andb_true_iff. intros [[H1 H2] H3] Hl Hk. split; try done.
  apply Forall_fmap. eapply Forall_impl; [exact Hk|]. intros [k v] Hkv. split. by repeat constructor.
Qed.
End pages.

(** *** Looking up samples *)

Lemma find_family (fs : list family) (f : family) :
  NoDup (fm_name <$> fs) → f ∈ fs → List.find (λ g, (fm_name g =? fm_name f)%string) fs = Some f.
Proof.
  intros Hd Hf. induction fs as [|x fs IH]; [by apply elem_of_nil in Hf|].
  rewrite fmap_cons in Hd. apply NoDup_cons in Hd as [Hx Hd]. cbn [List.find].
  apply elem_of_cons in Hf as [->|Hf]; [by rewrite String.eqb_refl|].
  destruct (String.eqb_spec (fm_name x) (fm_name f)) as [He|]; [|by apply IH].
  exfalso. apply Hx. rewrite He. by apply list_elem_of_fmap_2.
Qed.

Lemma value_in (fs : list family) (f : family) (name : string) (labels : list (string * string)) :
  NoDup (fm_name <$> fs) → f ∈ fs → fm_name f = name → value fs name labels = lookup_sample labels (fm_samples f).
Proof. intros Hd Hf <-. unfold value. by rewrite find_family. Qed.

Lemma value_notin (fs : list family) (name : string) (labels : list (string * string)) :
  name ∉ fm_name <$> fs → value fs name labels = None.
Proof.
  intros Hn. unfold value. destruct (List.find _ fs) as [f|] eqn:Hf; [|done].
  apply find_some_elem in Hf as [Hf <-%String.eqb_eq]. exfalso. by apply Hn, list_elem_of_fmap_2.
Qed.

Lemma Do_Permutation {A : Type} (m : gmap string A) : Do m ≡ₚ map_to_list m.
Proof. apply merge_sort_Permutation. Qed.

Lemma lookup_labelled_list {A : Type} (label k : string) (get : A → Z) (kvs : list (string * A)) :
  lookup_sample [(label, k)] ((λ kv, MkSample [(label, kv.1)] (get kv.2)) <$> kvs) =
  get <$> (list_to_map kvs : gmap string A) !! k.
Proof.
  unfold lookup_sample. induction kvs as [|[j v] kvs IH]; [done|]. rewrite fmap_cons, list_to_map_cons. cbn [List.find sm_labels fst snd].
  destruct (decide (j = k)) as [->|Hne].
  - rewrite bool_decide_true by done. by rewrite lookup_insert_eq.
  - rewrite bool_decide_false by congruence. by rewrite lookup_insert_ne.
Qed.

Lemma lookup_labelled {A : Type} (label k : string) (get : A → Z) (m : gmap string A) (kvs : list (string * A)) :
  kvs ≡ₚ map_to_list m →
  lookup_sample [(label, k)] ((λ kv, MkSample [(label, kv.1)] (get kv.2)) <$> kvs) = get <$> m !! k.
Proof.
  intros Hp. rewrite lookup_labelled_list. do 2 f_equal.
  rewrite <- (list_to_map_to_list m). apply list_to_map_proper; [|done].
  rewrite Hp. apply NoDup_fst_map_to_list.
Qed.

Lemma keys_ok_perm {A : Type} (m : gmap string A) (kvs : list (string * A)) :
  kvs ≡ₚ map_to_list m → (∀ k v, m !! k = Some v → forallb_str label_char k = true) → keys_ok kvs.
Proof.
  intros Hp Hm. unfold keys_ok. rewrite Hp. apply Forall_forall. intros [k v] Hkv%elem_of_map_to_list. by eapply Hm.
Qed.

(** ** What a scrape of the dashboard tells *)

(** The page as a table: a scalar family sums a weight over the events, a labelled
    one counts the events of each key. *)
Inductive row :=
  | RScalar (name help kind : string) (field : DashVars → Z) (weight : dv_event → Z)
  | RLabelled (name help kind label : string) (field : DashVars → gmap string Z) (key : dv_event → option string).

Definition row_name (r : row) : string := match r with RScalar n _ _ _ _ | RLabelled n _ _ _ _ _ => n end.
Definition row_header (r : row) : bool :=
  match r with RScalar n h k _ _ => header_ok n h k | RLabelled n h k l _ _ => header_ok n h k && is_name l end.
Definition row_family (v : DashVars) (r : row) : family :=
  match r with
  | RScalar n h k field _ => scalar n h k (field v)
  | RLabelled n h k l field _ => labelled n h k l id (Do (field v))
  end.

Definition on_request (f : Z → Z → Z) (e : dv_event) : Z := match e with DvRequest s d => f s d | _ => 0 end.
Definition on_fault (f : fault) (e : dv_event) : Z :=
  match e, f with
  | DvFault FApply, FApply | DvFault FWatch, FWatch | DvFault FLost, FLost | DvFault FPanic, FPanic => 1
  | _, _ => 0
  end.

Section scrape.
Context `{Unicode} `{ErrorText}.

Definition dash_rows : list row :=
  [RScalar "dashboard_http_requests_total" "Dashboard HTTP requests served, excluding health and metrics endpoints." "counter"
     (λ v, hm_requests (dv_http v)) (on_request (λ _ _, 1));
   RScalar "dashboard_http_server_errors_total" "Dashboard HTTP responses with status code >= 500." "counter"
     (λ v, hm_server_errors (dv_http v)) (on_request (λ s _, if 500 <=? s then 1 else 0));
   RScalar "dashboard_http_slow_requests_total" "Dashboard HTTP requests slower than the configured slow request threshold." "counter"
     (λ v, hm_slow (dv_http v)) (on_request (λ _ d, if slowRequestThreshold <=? d then 1 else 0));
   RScalar "dashboard_http_request_duration_ms_total" "Sum of observed dashboard HTTP request durations in milliseconds." "counter"
     (λ v, hm_duration_ms (dv_http v)) (on_request (λ _ d, Milliseconds d));
   RLabelled "dashboard_http_responses_total" "Dashboard HTTP responses by status class." "counter" "status_class"
     (λ v, hm_by_class (dv_http v)) (λ e, match e with DvRequest s _ => Some (statusClass s) | _ => None end);
   RLabelled "dashboard_http_request_duration_ms_bucket_total" "Dashboard HTTP request duration bucket counts." "counter" "bucket"
     (λ v, hm_buckets (dv_http v)) (λ e, match e with DvRequest _ d => Some (durationBucket d) | _ => None end);
   RScalar "dashboard_readiness_failures_total" "Dashboard readiness checks that failed because the orchestrator was unavailable." "counter"
     dv_readiness (λ e, match e with DvUnready => 1 | _ => 0 end);
   RScalar "dashboard_csrf_rejections_total" "Dashboard requests rejected by the CSRF middleware (cross-origin/cross-site state-changing requests)." "counter"
     dv_csrf (λ e, match e with DvCSRF => 1 | _ => 0 end);
   RScalar "dashboard_migrations_active" "Dashboard migrations currently running." "gauge"
     dv_active (λ e, match e with DvStart => 1 | DvEnd _ _ => -1 | _ => 0 end);
   RScalar "dashboard_migration_apply_errors_total" "Dashboard migration submissions rejected by the orchestrator Apply call." "counter"
     dv_apply_errors (on_fault FApply);
   RScalar "dashboard_migration_duration_ms_total" "Sum of completed dashboard migration durations in milliseconds." "counter"
     (λ v, mm_duration_ms (dv_mig v)) (λ e, match e with DvEnd d _ => Milliseconds d | _ => 0 end);
   RLabelled "dashboard_migration_duration_ms_bucket_total" "Completed dashboard migration duration bucket counts." "counter" "bucket"
     (λ v, mm_buckets (dv_mig v)) (λ e, match e with DvEnd d _ => Some (migrationDurationBucket d) | _ => None end);
   RLabelled "dashboard_migration_results_total" "Completed dashboard migrations by outcome." "counter" "outcome"
     (λ v, mm_outcomes (dv_mig v)) (λ e, match e with DvEnd _ b => Some (outcome b).1 | _ => None end);
   RScalar "dashboard_migration_watch_errors_total" "Dashboard migrations where opening the orchestrator watch stream failed." "counter"
     dv_watch_errors (on_fault FWatch);
   RScalar "dashboard_migration_watch_lost_total" "Dashboard migrations whose watch stream closed before a terminal status." "counter"
     dv_watch_lost (on_fault FLost);
   RScalar "dashboard_migration_worker_panics_total" "Recovered panics in the dashboard migration worker goroutine." "counter"
     dv_panics (on_fault FPanic)].

Lemma serve_dashboard_page (v : DashVars) : serveDashboardMetrics v = print_page (row_family v <$> dash_rows).
Proof.
  unfold serveDashboardMetrics. rewrite !write_metric_page, !write_map_page.
  cbn [dash_rows fmap list_fmap row_family].
  by repeat (rewrite (print_page_cons _ (_ :: _)); f_equal).
Qed.

(** *** How an event moves a row *)

Definition row_law (r : row) : Prop :=
  match r with
  | RScalar _ _ _ field weight => field vars0 = 0 ∧ ∀ v e, field (dv_step v e) = field v + weight e
  | RLabelled _ _ _ _ field key =>
      field vars0 = ∅ ∧
      (∀ v e, field (dv_step v e) = match key e with Some k => bump (field v) k | None => field v end) ∧
      (∀ e k, key e = Some k → forallb_str label_char k = true)
  end.

Lemma outcome_nonempty (b : orch_run) : is_empty (outcome b).1 = false.
Proof. by destruct (outcome_result b) as [-> | ->]. Qed.

Lemma dash_rows_lawful : Forall row_law dash_rows.
Proof.
  repeat constructor; try (intros [] [| | | |[]|]; simpl; rewrite ?outcome_nonempty; repeat case_goal; done || lia);
    intros [| | | | |] k; intros; simplify_eq; unfold statusClass, durationBucket, migrationDurationBucket;
    try (repeat case_goal; done).
  by destruct (outcome_result b) as [-> | ->].
Qed.

(** *** Sums and counts *)

Definition total_of (weight : dv_event → Z) (es : list dv_event) : Z := foldr (λ e acc, weight e + acc) 0 es.
Definition count_of (key : dv_event → option string) (k : string) (es : list dv_event) : nat :=
  length (filter (λ e, key e = Some k) es).
Definition nonzero (n : nat) : option Z := if (n =? 0)%nat then None else Some (Z.of_nat n).

Lemma scalar_total (field : DashVars → Z) (weight : dv_event → Z) (es : list dv_event) (v : DashVars) :
  (∀ v e, field (dv_step v e) = field v + weight e) → field (foldl dv_step v es) = field v + total_of weight es.
Proof.
  intros Hf. revert v. induction es as [|e es IH]; intros v; simpl; [lia|]. rewrite IH, Hf. lia.
Qed.

Lemma bump_lookup (m : gmap string Z) (j k : string) :
  bump m j !! k = if decide (j = k) then Some (default 0 (m !! k) + 1) else m !! k.
Proof. unfold bump. case_decide; [subst; by rewrite lookup_insert_eq|by rewrite lookup_insert_ne]. Qed.

Lemma labelled_count (field : DashVars → gmap string Z) (key : dv_event → option string) (k : string)
    (es : list dv_event) (v : DashVars) :
  (∀ v e, field (dv_step v e) = match key e with Some k => bump (field v) k | None => field v end) →
  field (foldl dv_step v es) !! k =
    if (count_of key k es =? 0)%nat then field v !! k else Some (default 0 (field v !! k) + Z.of_nat (count_of key k es)).
Proof.
  intros Hf. revert v. unfold count_of. induction es as [|e es IH]; intros v; [done|].
  simpl foldl. rewrite IH, Hf, filter_cons. destruct (key e) as [j|].
  2:{ by rewrite decide_False. }
  rewrite bump_lookup. destruct (decide (j = k)) as [->|Hne].
  - rewrite (decide_True (P := Some k = Some k)) by done. cbn [length Nat.eqb].
    destruct (Nat.eqb_spec (length (filter (λ e, key e = Some k) es)) 0) as [->|]; simpl; [done|]. f_equal. lia.
  - by rewrite decide_False by congruence.
Qed.

Lemma labelled_keys (field : DashVars → gmap string Z) (key : dv_event → option string) (es : list dv_event)
    (k : string) (z : Z) :
  field vars0 = ∅ →
  (∀ v e, field (dv_step v e) = match key e with Some k => bump (field v) k | None => field v end) →
  (∀ e k, key e = Some k → forallb_str label_char k = true) →
  field (vars_after es) !! k = Some z → forallb_str label_char k = true.
Proof.
  intros Hz Hf Hk. unfold vars_after. rewrite (labelled_count field key) by done. rewrite Hz, lookup_empty.
  destruct (Nat.eqb_spec (count_of key k es) 0) as [|Hne]; [done|]. intros _.
  destruct (filter (λ e, key e = Some k) es) as [|e l] eqn:Hl; [by unfold count_of in Hne; rewrite Hl in Hne|].
  apply (Hk e). assert (Hin : e ∈ filter (λ e, key e = Some k) es) by (rewrite Hl; by left).
  by apply list_elem_of_filter in Hin as [Hin _].
Qed.

Lemma row_names (v : DashVars) (rs : list row) : fm_name <$> (row_family v <$> rs) = row_name <$> rs.
Proof. rewrite <- list_fmap_compose. apply list_fmap_ext. by intros i [] _. Qed.

Lemma dash_rows_headers : forallb row_header dash_rows = true ∧ NoDup (row_name <$> dash_rows).
Proof. split; [reflexivity|]. apply (bool_decide_unpack _). vm_compute. done. Qed.

Lemma row_family_ok (es : list dv_event) (r : row) :
  row_law r → row_header r = true → family_ok (row_family (vars_after es) r).
Proof.
  destruct r as [n h k field w|n h k l field key]; simpl; [intros _; apply scalar_ok|].
  intros (Hz & Hf & Hk) [Hh Hl]%andb_true_iff. apply labelled_ok; [done..|].
  eapply keys_ok_perm; [apply Do_Permutation|]. intros j z. by apply (labelled_keys field key).
Qed.

(** What a row of a page says about the events. *)
Definition row_reports (fs : list family) (es : list dv_event) (r : row) : Prop :=
  match r with
  | RScalar name _ _ _ weight => value fs name [] = Some (total_of weight es)
  | RLabelled name _ _ label _ key => ∀ k, value fs name [(label, k)] = nonzero (count_of key k es)
  end.

Lemma row_family_reports (fs : list family) (es : list dv_event) (r : row) :
  row_law r → List.find (λ f, (fm_name f =? row_name r)%string) fs = Some (row_family (vars_after es) r) →
  row_reports fs es r.
Proof.
  intros Hl Hf. destruct r as [n h k field w|n h k l field key]; simpl in Hl; unfold row_reports, value; simpl row_name in Hf.
  - rewrite Hf. destruct Hl as [Hz Hw]. unfold vars_after. simpl. unfold lookup_sample. simpl.
    by rewrite (scalar_total field w), Hz by done.
  - destruct Hl as (Hz & Hw & _). intros j. rewrite Hf. cbn [mbind option_bind row_family fm_samples labelled].
    rewrite (lookup_labelled l j id (field (vars_after es))) by apply Do_Permutation.
    rewrite option_fmap_id. unfold vars_after. rewrite (labelled_count field key) by done. rewrite Hz, lookup_empty. unfold nonzero.
    by destruct (Nat.eqb_spec (count_of key j es) 0).
Qed.

(** C33. A scrape of the dashboard reports what happened: after any sequence of requests,
    probes and migrations, in any interleaving, the page of /metrics is well-formed,
    its families are the sixteen of the table, each once, and every sample is the sum
    or the count of the events it stands for; an outcome, status class or duration
    bucket has a sample exactly if it has occurred. *)
Theorem scrape_reports_events (es : list dv_event) :
  ∃ fs, read_page (serveDashboardMetrics (vars_after es)) = Some fs ∧
    fm_name <$> fs = row_name <$> dash_rows ∧ NoDup (fm_name <$> fs) ∧ Forall (row_reports fs es) dash_rows.
Proof.
  destruct dash_rows_headers as [Hh Hd]. pose proof dash_rows_lawful as Hl.
  exists (row_family (vars_after es) <$> dash_rows).
  rewrite row_names. split_and!; [|done..|].
  - rewrite serve_dashboard_page. apply page_roundtrip, Forall_fmap. rewrite forallb_forall in Hh. rewrite Forall_forall in Hl |- *.
    intros r Hr. apply row_family_ok; [by apply Hl|]. by apply Hh, list_elem_of_In.
  - rewrite Forall_forall in Hl |- *. intros r Hr. apply row_family_reports; [by apply Hl|].
    replace (row_name r) with (fm_name (row_family (vars_after es) r)) by (by destruct r).
    apply find_family; [by rewrite row_names|]. by apply list_elem_of_fmap_2.
Qed.

(** A migration that has started and ended leaves the gauge as it was and is counted
    under its result. *)
Corollary run_counted_once (es : list dv_event) (d : Z) (b : orch_run) :
  let es' := es ++ [DvStart] ++ (DvFault <$> option_list (run_fault b)) ++ [DvEnd d b] in
  dv_active (vars_after es') = dv_active (vars_after es) ∧
  total (mm_outcomes (dv_mig (vars_after es'))) = total (mm_outcomes (dv_mig (vars_after es))) + 1 ∧
  total (mm_buckets (dv_mig (vars_after es'))) = total (mm_buckets (dv_mig (vars_after es))) + 1.
Proof.
  intros es'. unfold es', vars_after. rewrite !foldl_app. set (v := foldl dv_step vars0 es). clearbody v.
  destruct v as [h r c a ap m we wl p]. destruct (run_fault b) as [[]|]; cbn -[total]; rewrite outcome_nonempty, !total_bump;
    split_and!; lia.
Qed.
End scrape.

(** ** What a scrape of the controller tells *)

(** The family of a published variable. *)
Definition var_family (kv : string * expvar) : option family :=
  match spec_of kv.1, kv.2 with
  | Some (help, kind), EInt z => Some (scalar kv.1 help kind z)
  | _, _ => None
  end.

(** The variables with a spec are Ints, as NewInt publishes them. *)
Definition vars_typed (vars : gmap string expvar) : Prop :=
  ∀ name s, vars !! name = Some (EText s) → spec_of name = None.

Definition phase_family (snap : list (string * MigrationProgressEntry)) : family :=
  MkFamily "katamaran_migration_phase" "Current migration phase." "gauge"
    ((λ ie, MkSample [("migration_id", ie.1); ("phase", mp_Phase ie.2)] 1) <$> snap).

(** The integer gauges, with the iteration that prints them. *)
Definition int_gauges : list (nat * string * string * (MigrationProgressEntry → Z)) :=
  [(0%nat, "katamaran_migration_ram_transferred_bytes", "RAM bytes transferred so far.", mp_RAMTransferred);
   (1%nat, "katamaran_migration_ram_total_bytes", "Total RAM bytes to transfer.", mp_RAMTotal);
   (3%nat, "katamaran_migration_downtime_ms", "Actual VM pause duration in milliseconds.", mp_DowntimeMS);
   (4%nat, "katamaran_migration_applied_downtime_ms", "Configured downtime limit in milliseconds.", mp_AppliedDowntimeMS);
   (5%nat, "katamaran_migration_rtt_ms", "Measured round-trip time in milliseconds.", mp_RTTMS)].

Definition gauge_family (order : nat → list (string * MigrationProgressEntry))
    (g : nat * string * string * (MigrationProgressEntry → Z)) : family :=
  let '(i, name, help, get) := g in labelled name help "gauge" "migration_id" get (order i).

Definition gauge_families (order : nat → list (string * MigrationProgressEntry)) : list family :=
  let gs := gauge_family order <$> int_gauges in take 2 gs ++ [phase_family (order 2%nat)] ++ drop 2 gs.

Section mgr_scrape.
Context `{Unicode}.
Variables (vars : gmap string expvar) (snap : gmap string MigrationProgressEntry)
  (order : nat → list (string * MigrationProgressEntry)).
Hypothesis Htyped : vars_typed vars.
Hypothesis Horder : ∀ i, order i ≡ₚ map_to_list snap.
Hypothesis Hlabels : ∀ id e, snap !! id = Some e → forallb_str label_char id = true ∧ forallb_str label_char (mp_Phase e) = true.

Definition mgr_families : list family :=
  omap var_family (Do vars) ++ if bool_decide (snap = ∅) then [] else gauge_families order.

Lemma print_page_app (fs gs : list family) : print_page (fs ++ gs) = print_page fs +:+ print_page gs.
Proof. unfold print_page. by rewrite bind_app, unlines_app. Qed.

Lemma emit_expvars_page (kvs : list (string * expvar)) :
  Forall (λ kv, ∀ s, kv.2 = EText s → spec_of kv.1 = None) kvs →
  foldr (λ kv acc, emit_expvar kv +:+ acc) "" kvs = print_page (omap var_family kvs).
Proof.
  induction 1 as [|[n e] kvs Hkv _ IH]; [done|]. cbn [foldr omap list_omap]. rewrite IH.
  unfold emit_expvar, var_family. cbn [fst snd] in *.
  destruct (spec_of n) as [[h k]|] eqn:Hs; [|done]. destruct e as [z|s]; [|by specialize (Hkv s eq_refl)].
  rewrite print_page_cons, <- write_metric_page. done.
Qed.

Lemma emit_phases_page (l : list (string * MigrationProgressEntry)) : emit_phases l = print_page [phase_family l].
Proof.
  rewrite print_page_singleton. unfold emit_phases.
  rewrite (foldr_unlines (λ ie, "katamaran_migration_phase{migration_id=" +:+ Quote ie.1 +:+ ",phase=" +:+ Quote (mp_Phase ie.2) +:+ "} 1")).
  do 2 f_equal. f_equal. simpl fm_samples. rewrite <- list_fmap_compose. apply list_fmap_ext. intros i [k e] _.
  unfold compose, print_sample, print_labels, print_label. cbn [sm_labels sm_value fmap list_fmap Join fst snd fm_name phase_family].
  rewrite <- !string_app_assoc. done.
Qed.

Lemma serve_mgr_page : servePrometheusMetrics vars snap order = print_page mgr_families.
Proof.
  unfold servePrometheusMetrics, mgr_families. rewrite print_page_app, emit_expvars_page.
  2:{ apply Forall_forall. intros [n e] Hin s Hs. simpl in *. subst e. rewrite Do_Permutation in Hin.
      apply elem_of_map_to_list in Hin. by eapply Htyped. }
  f_equal. case_bool_decide; [done|]. rewrite !emit_gauge_page, emit_phases_page.
  cbn [gauge_families int_gauges gauge_family fmap list_fmap take drop app].
  by repeat (rewrite (print_page_cons _ (_ :: _)); f_equal).
Qed.

Lemma var_family_Some (kv : string * expvar) (f : family) :
  var_family kv = Some f → ∃ h k z, spec_of kv.1 = Some (h, k) ∧ kv.2 = EInt z ∧ f = scalar kv.1 h k z.
Proof. unfold var_family. destruct (spec_of kv.1) as [[h k]|], kv.2 as [z|s]; naive_solver. Qed.

Lemma spec_header (name h k : string) : spec_of name = Some (h, k) → header_ok name h k = true.
Proof.
  unfold spec_of. destruct (List.find _ metric_specs) as [[n [h' k']]|] eqn:Hf; [|done].
  intros [= <- <-]. apply find_some_elem in Hf as [Hin <-%String.eqb_eq].
  assert (Hall : forallb (λ s, header_ok s.1 s.2.1 s.2.2) metric_specs = true) by reflexivity.
  rewrite forallb_forall in Hall. by apply (Hall (n, (h', k'))), list_elem_of_In.
Qed.

Lemma var_names (kvs : list (string * expvar)) : fm_name <$> omap var_family kvs `sublist_of` kvs.*1.
Proof.
  induction kvs as [|kv kvs IH]; [done|]. cbn [omap list_omap]. rewrite fmap_cons.
  destruct (var_family kv) as [f|] eqn:Hf; [|by apply sublist_cons].
  apply var_family_Some in Hf as (h & k & z & _ & _ & ->). by apply sublist_skip.
Qed.

Lemma order_keys (i : nat) : keys_ok (order i).
Proof. eapply keys_ok_perm; [apply Horder|]. intros k e Hk. by apply (Hlabels k e). Qed.

Lemma gauge_family_ok (g : nat * string * string * (MigrationProgressEntry → Z)) :
  g ∈ int_gauges → family_ok (gauge_family order g).
Proof.
  intros Hg. assert (Hall : forallb (λ g, header_ok g.1.1.2 g.1.2 "gauge") int_gauges = true) by reflexivity.
  rewrite forallb_forall in Hall. specialize (Hall g (proj1 (list_elem_of_In _ _) Hg)).
  destruct g as [[[i name] help] get]. by apply labelled_ok; [|reflexivity|apply order_keys].
Qed.

Lemma phase_family_ok : family_ok (phase_family (order 2%nat)).
Proof.
  split; [reflexivity..|]. apply Forall_fmap, Forall_forall. intros [id e] Hin. rewrite Horder in Hin.
  apply elem_of_map_to_list, Hlabels in Hin as [H1 H2]. split. by repeat constructor.
Qed.

Lemma gauge_families_ok : Forall family_ok (gauge_families order).
Proof.
  assert (Hg : Forall family_ok (gauge_family order <$> int_gauges)).
  { apply Forall_fmap, Forall_forall. intros g. apply gauge_family_ok. }
  unfold gauge_families. apply Forall_app_2; [by apply Forall_take|]. apply Forall_cons_2; [apply phase_family_ok|by apply Forall_drop].
Qed.

Lemma mgr_families_ok : Forall family_ok mgr_families.
Proof.
  apply Forall_app. split; [|case_bool_decide; [done|apply gauge_families_ok]].
  apply Forall_forall. intros f (kv & _ & Hf)%list_elem_of_omap.
  apply var_family_Some in Hf as (h & k & z & Hs & _ & ->). by apply scalar_ok, spec_header.
Qed.

Definition gauge_names : list string :=
  ["katamaran_migration_ram_transferred_bytes"; "katamaran_migration_ram_total_bytes"; "katamaran_migration_phase";
   "katamaran_migration_downtime_ms"; "katamaran_migration_applied_downtime_ms"; "katamaran_migration_rtt_ms"].

Lemma gauge_families_names : fm_name <$> gauge_families order = gauge_names.
Proof. reflexivity. Qed.

Lemma gauge_names_no_spec (n : string) : n ∈ gauge_names → spec_of n = None.
Proof.
  intros Hn. assert (Hall : forallb (λ n, is_nil (spec_of n)) gauge_names = true) by reflexivity.
  rewrite forallb_forall in Hall. apply list_elem_of_In, Hall in Hn. by destruct (spec_of n).
Qed.

(** A family of the page is a variable with a spec or a gauge. *)
Lemma var_families_names (n : string) : n ∈ fm_name <$> omap var_family (Do vars) → is_Some (spec_of n).
Proof.
  intros (f & -> & (kv & _ & Hf)%list_elem_of_omap)%list_elem_of_fmap.
  apply var_family_Some in Hf as (h & k & z & Hs & _ & ->). simpl. by rewrite Hs.
Qed.

Lemma mgr_families_nodup : NoDup (fm_name <$> mgr_families).
Proof.
  unfold mgr_families. rewrite fmap_app. apply NoDup_app. split_and!.
  - eapply sublist_NoDup; [|apply var_names]. rewrite Do_Permutation. apply NoDup_fst_map_to_list.
  - intros n Hn Hg. apply var_families_names in Hn as [x Hx].
    case_bool_decide; [by apply elem_of_nil in Hg|]. rewrite gauge_families_names in Hg.
    by rewrite gauge_names_no_spec in Hx.
  - case_bool_decide; [apply NoDup_nil_2|]. rewrite gauge_families_names. apply (bool_decide_unpack _). vm_compute. done.
Qed.

Lemma mgr_var_value (name h k : string) :
  spec_of name = Some (h, k) →
  value mgr_families name [] = match vars !! name with Some (EInt z) => Some z | _ => None end.
Proof.
  intros Hs. destruct (vars !! name) as [[z|s]|] eqn:Hv.
  - apply (value_in _ (scalar name h k z)); [apply mgr_families_nodup| |done]. apply elem_of_app. left.
    apply list_elem_of_omap. exists (name, EInt z). unfold var_family. simpl. rewrite Hs. split; [|done].
    by rewrite Do_Permutation, elem_of_map_to_list.
  - by rewrite (Htyped _ _ Hv) in Hs.
  - apply value_notin. unfold mgr_families. rewrite fmap_app, elem_of_app. intros [Hn|Hn].
    + apply list_elem_of_fmap in Hn as (f & -> & ([n e] & Hin & Hf)%list_elem_of_omap).
      apply var_family_Some in Hf as (h' & k' & z & _ & _ & ->). simpl in *.
      rewrite Do_Permutation, elem_of_map_to_list in Hin. by rewrite Hin in Hv.
    + case_bool_decide; [by apply elem_of_nil in Hn|]. rewrite gauge_families_names in Hn.
      by rewrite gauge_names_no_spec in Hs.
Qed.

(** A gauge of the page; without migrations there is none. *)
Lemma mgr_gauge_value (f : family) (labels : list (string * string)) (r : option Z) :
  f ∈ gauge_families order → (snap = ∅ → r = None) → (snap ≠ ∅ → lookup_sample labels (fm_samples f) = r) →
  value mgr_families (fm_name f) labels = r.
Proof.
  intros Hf He Hn. destruct (decide (snap = ∅)) as [Hs|Hs].
  - rewrite (He Hs). apply value_notin. unfold mgr_families. rewrite bool_decide_true, app_nil_r by done.
    intros Hin%var_families_names. destruct Hin as [x Hx].
    rewrite gauge_names_no_spec in Hx; [done|]. rewrite <- gauge_families_names. by apply list_elem_of_fmap_2.
  - rewrite (value_in _ f) by (done || apply mgr_families_nodup || (unfold mgr_families; rewrite bool_decide_false by done;
      apply elem_of_app; by right)). by apply Hn.
Qed.

Lemma phase_value (id p : string) :
  value mgr_families "katamaran_migration_phase" [("migration_id", id); ("phase", p)] =
  if decide (mp_Phase <$> snap !! id = Some p) then Some 1 else None.
Proof.
  apply (mgr_gauge_value (phase_family (order 2%nat))).
  - cbn [gauge_families int_gauges gauge_family fmap list_fmap take drop app]. set_solver.
  - intros ->. by rewrite lookup_empty.
  - intros _. cbn [phase_family fm_samples]. unfold lookup_sample.
    case_decide as Hd.
    + destruct (snap !! id) as [e|] eqn:Hi; [|done]. simpl in Hd. simplify_eq.
      assert (Hin : (id, e) ∈ order 2%nat) by (by rewrite Horder, elem_of_map_to_list).
      induction (order 2%nat) as [|[j e'] l IH]; [by apply elem_of_nil in Hin|]. rewrite fmap_cons. cbn [List.find sm_labels fst snd].
      case_bool_decide as Hb; [done|]. apply IH. apply elem_of_cons in Hin as [[= <- <-]|]; [done|done].
    + destruct (List.find _ _) as [s|] eqn:Hf; [|done]. exfalso.
      apply find_some_elem in Hf as [([j e] & -> & Hin)%list_elem_of_fmap Hb%bool_decide_eq_true]. simpl in Hb.
      rewrite Horder, elem_of_map_to_list in Hin. apply Hd. injection Hb as <- <-. by rewrite Hin.
Qed.

(** A scrape of the controller: whatever order Go iterates its maps in, the page of
    /metrics is well-formed, no family occurs twice, every published counter has its
    value, and each gauge has exactly the migrations of the progress snapshot, with
    their numbers and their phase. *)
Theorem mgr_scrape_reports_snapshot :
  ∃ fs, read_page (servePrometheusMetrics vars snap order) = Some fs ∧ NoDup (fm_name <$> fs) ∧
    (∀ name h k, spec_of name = Some (h, k) →
       value fs name [] = match vars !! name with Some (EInt z) => Some z | _ => None end) ∧
    (∀ i name help get id, (i, name, help, get) ∈ int_gauges →
       value fs name [("migration_id", id)] = get <$> snap !! id) ∧
    (∀ id p, value fs "katamaran_migration_phase" [("migration_id", id); ("phase", p)] =
       if decide (mp_Phase <$> snap !! id = Some p) then Some 1 else None).
Proof.
  exists mgr_families. split_and!.
  - rewrite serve_mgr_page. apply page_roundtrip, mgr_families_ok.
  - apply mgr_families_nodup.
  - apply mgr_var_value.
  - intros i name help get id Hg.
    change name with (fm_name (gauge_family order (i, name, help, get))).
    apply mgr_gauge_value.
    + unfold gauge_families. assert (Hin : gauge_family order (i, name, help, get) ∈ gauge_family order <$> int_gauges)
        by (by apply list_elem_of_fmap_2). rewrite <- (take_drop 2 (gauge_family order <$> int_gauges)) in Hin. set_solver.
    + intros ->. by rewrite lookup_empty.
    + intros _. cbn [gauge_family fm_samples labelled]. by apply lookup_labelled.
  - apply phase_value.
Qed.
End mgr_scrape.

(** A controller with one migration; Go also publishes its command line. *)
Definition demo_vars : gmap string expvar :=
  {[ "katamaran_migrations_inflight" := EInt 1; "cmdline" := EText "[]" ]}.
Definition demo_snap : gmap string MigrationProgressEntry := {[ "m-1" := MkProgress "transferring" 10 20 0 25 3 ]}.

Lemma mgr_scrape_reports_snapshot_witness :
  ∃ fs, read_page (@servePrometheusMetrics (λ _, false) demo_vars demo_snap (λ _, map_to_list demo_snap)) = Some fs ∧
    value fs "katamaran_migrations_inflight" [] = Some 1 ∧
    value fs "katamaran_migration_ram_total_bytes" [("migration_id", "m-1")] = Some 20.
Proof.
  destruct (@mgr_scrape_reports_snapshot (λ _, false) demo_vars demo_snap (λ _, map_to_list demo_snap)) as (fs & Hr & _ & Hv & Hg & _).
  - intros name s Hn. unfold demo_vars in Hn. apply lookup_insert_Some in Hn as [[_ Hn]|[_ Hn]]; [discriminate Hn|].
    apply lookup_singleton_Some in Hn as [<- _]. vm_compute. reflexivity.
  - intros i. reflexivity.
  - intros id e Hi. unfold demo_snap in Hi. apply lookup_singleton_Some in Hi as [<- <-].
    vm_compute. split; reflexivity.
  - exists fs. split; [exact Hr|]. split.
    + rewrite (Hv "katamaran_migrations_inflight" "Migrations currently in a non-terminal phase." "gauge"); vm_compute; reflexivity.
    + rewrite (Hg 1%nat _ "Total RAM bytes to transfer." mp_RAMTotal "m-1"); [vm_compute; reflexivity|].
      unfold int_gauges. rewrite !elem_of_cons. right. left. reflexivity.
Defined.

(** ** The variables of /debug/vars *)

(** Which number of an App's [counterSnapshot] a function returns. *)
Inductive counter_fn := Started | Succeeded | Failed.

(** A variable of the process-wide registry: a String, an [expvarFuncWrapper] with
    the function last set (the App it was bound to), or another type. *)
Inductive regvar :=
  | VString (s : string)
  | VWrapper (fn : option (nat * counter_fn))
  | VOther.

Abbreviation registry := (gmap string regvar) (only parsing).

(** expvar.Publish panics when the name is taken. *)
Definition Publish (name : string) (v : regvar) (r : registry) : option registry :=
  match r !! name with Some _ => None | None => Some (<[name := v]> r) end.

Definition publishExpvarFunc (name : string) (fn : nat * counter_fn) (r : registry) : option registry :=
  match r !! name with
  | Some (VWrapper _) => Some (<[name := VWrapper (Some fn)]> r)
  | _ => Publish name (VWrapper (Some fn)) r
  end.

Definition publishExpvars (version : string) (app : nat) (r : registry) : option registry :=
  r ← match r !! "version" with
      | Some (VString _) => Some (<["version" := VString version]> r)
      | _ => Publish "version" (VString version) r
      end;
  r ← publishExpvarFunc "migrations_started" (app, Started) r;
  r ← publishExpvarFunc "migrations_succeeded" (app, Succeeded) r;
  publishExpvarFunc "migrations_failed" (app, Failed) r.

Definition counter_value (fn : counter_fn) (snapshot : Z * Z * Z) : Z :=
  match fn with Started => snapshot.1.1 | Succeeded => snapshot.1.2 | Failed => snapshot.2 end.

(** [expvarFuncWrapper.String]: JSON of the number. *)
Definition wrapper_String (apps : nat → Mig) (fn : option (nat * counter_fn)) : string :=
  match fn with
  | None => "null"
  | Some (app, c) => Itoa (counter_value c (counterSnapshot (apps app)))
  end.

(** The names [publishExpvars] uses are free, or its own. *)
Definition registry_ok (r : registry) : Prop :=
  (r !! "version" = None ∨ ∃ s, r !! "version" = Some (VString s)) ∧
  ∀ n, n ∈ ["migrations_started"; "migrations_succeeded"; "migrations_failed"] →
    r !! n = None ∨ ∃ fn, r !! n = Some (VWrapper fn).

Lemma publishExpvarFunc_ok (name : string) (fn : nat * counter_fn) (r : registry) :
  (r !! name = None ∨ ∃ fn, r !! name = Some (VWrapper fn)) →
  publishExpvarFunc name fn r = Some (<[name := VWrapper (Some fn)]> r).
Proof. unfold publishExpvarFunc, Publish. by intros [-> | [fn' ->]]. Qed.

Lemma publishExpvars_ok (version : string) (app : nat) (r : registry) :
  registry_ok r →
  publishExpvars version app r =
    Some (<["migrations_failed" := VWrapper (Some (app, Failed))]>
      (<["migrations_succeeded" := VWrapper (Some (app, Succeeded))]>
        (<["migrations_started" := VWrapper (Some (app, Started))]> (<["version" := VString version]> r)))).
Proof.
  intros [Hv Hn]. unfold publishExpvars.
  assert (match r !! "version" with
      | Some (VString _) => Some (<["version" := VString version]> r)
      | _ => Publish "version" (VString version) r
      end = Some (<["version" := VString version]> r)) as ->.
  { unfold Publish. by destruct Hv as [-> | [s ->]]. }
  simpl. rewrite publishExpvarFunc_ok; [simpl|rewrite lookup_insert_ne by done; apply Hn; set_solver].
  rewrite publishExpvarFunc_ok; [simpl|rewrite !lookup_insert_ne by done; apply Hn; set_solver].
  apply publishExpvarFunc_ok. rewrite !lookup_insert_ne by done. apply Hn. set_solver.
Qed.

(** Any number of runs of the dashboard in one process, one App each. *)
Fixpoint publish_all (version : string) (apps : list nat) (r : registry) : option registry :=
  match apps with
  | [] => Some r
  | app :: apps => r ← publishExpvars version app r; publish_all version apps r
  end.

(** The variables follow the last App: however often the dashboard is started in one
    process, publishing never panics on a duplicate name, other variables stay as
    they are, and the three migration counters read the current numbers of the App
    started last. *)
Theorem expvars_follow_last_app (version : string) (apps : list nat) (app : nat) (r : registry)
    (Hr : registry_ok r) :
  ∃ r', publish_all version (apps ++ [app]) r = Some r' ∧
    (∀ (state : nat → Mig) n c,
       (n, c) ∈ [("migrations_started", Started); ("migrations_succeeded", Succeeded); ("migrations_failed", Failed)] →
       ∃ fn, r' !! n = Some (VWrapper fn) ∧ wrapper_String state fn = Itoa (counter_value c (counterSnapshot (state app)))) ∧
    (∀ n, n ∉ ["version"; "migrations_started"; "migrations_succeeded"; "migrations_failed"] → r' !! n = r !! n).
Proof.
  revert r Hr. induction apps as [|a apps IH]; intros r Hr; cbn [Datatypes.app publish_all]; rewrite publishExpvars_ok by done; simpl.
  - eexists. split_and!; [reflexivity| |].
    + intros state n c Hin. rewrite !elem_of_cons in Hin.
      destruct Hin as [[= -> ->]|[[= -> ->]|[[= -> ->]|?%elem_of_nil]]]; [..|done]; eexists; (split; [by simplify_map_eq|done]).
    + intros n Hn. rewrite !not_elem_of_cons in Hn. rewrite !lookup_insert_ne by naive_solver. done.
  - set (r1 := <["migrations_failed" := _]> _). destruct (IH r1) as (r' & Hp & Hc & Ho).
    + unfold r1. split; [right; exists version; by simplify_map_eq|].
      intros n Hin. right. rewrite !elem_of_cons in Hin.
      destruct Hin as [-> |[-> |[-> |?%elem_of_nil]]]; [..|done]; eexists; by simplify_map_eq.
    + exists r'. split_and!; [done..|]. intros n Hn. rewrite Ho by done. unfold r1.
      rewrite !not_elem_of_cons in Hn. rewrite !lookup_insert_ne by naive_solver. done.
Qed.

Lemma expvars_follow_last_app_witness :
  ∃ r', publish_all "v0.3.0" [1%nat; 2%nat] ∅ = Some r' ∧
    ∃ fn, r' !! "migrations_failed" = Some (VWrapper fn) ∧ wrapper_String (λ _, mig0) fn = "0".
Proof.
  destruct (expvars_follow_last_app "v0.3.0" [1%nat] 2%nat ∅) as (r' & Hp & Hc & _).
  - split; [left; apply lookup_empty|]. intros n _. left. apply lookup_empty.
  - exists r'. split; [exact Hp|]. destruct (Hc (λ _, mig0) "migrations_failed" Failed) as (fn & Hl & Hw).
    + rewrite !elem_of_cons. right. right. left. reflexivity.
    + exists fn. split; [exact Hl|exact Hw].
Defined.
